(* ===== verification/_CoqProject ===== *)
-Q . S2P
Prelude.v
Duration.v
Pyo3.v
PyData.v
Errors.v
Shaping.v
Gate.v
Bridge.v
PipeOptions.v
Config.v
Handles.v
Streams.v
Guarded.v
StreamSpec.v
Calls.v
Buffers.v
Carrier.v
Admission.v
CarrierView.v
Mode.v
Pool.v
Tls.v
Dial.v
Dials.v
Connect.v
Listener.v
Serve.v
Helpers.v
Layer.v
Events.v
Stats.v
Session.v
Pipes.v
ModuleInit.v
