(* ===== verification/Prelude.v ===== *)
(** * zmux-python: a verification development of the Rust binding

    The program (src/src/*.rs) is the PyO3 extension [_zmux]: it gives Python's
    asyncio the sessions, streams and pipes of the zmux crates.  It holds no
    protocol; what it does itself is convert arguments and errors, keep native
    objects behind Python handles, and move between two worlds that do not
    trust each other's lifetimes: tokio tasks on the runtime's threads, and
    coroutines on event loops under the interpreter lock.  That is what is
    modelled here.

    ** Parts and files

    - Prelude (this file): Python results ([PyResult], exceptions with their
      class, message and attributes), the closure of a step relation, machine
      integers, tactics and hints.
    - Duration: binary64 numbers, [std::time::Duration] and the conversions
      [seconds], [dur], [count] (lib.rs, mode.rs, pool.rs).
    - Pyo3: what the binding calls on a Python object ([Py]), what that
      promises ([PyLaws]) and a universe of values that implements it.
    - PyData: the objects the binding gives to Python, dictionaries, and the
      enumerations and dataclasses of src/python/zmux/_types.py.
    - Errors (lib.rs, "errors"): the exception classes and the exception of
      each native error.
    - Shaping (shaping.rs): bounds, the seeded source and the by-kind factory.
    - Gate (rt.rs): [attach] and the [atexit] hook [_shutdown], as a transition
      system over [EXITING], [INFLIGHT] and the interpreter lock.
    - Bridge (rt.rs): [into_future] (module [IntoFuture]) and [future_into_py]
      (module [FutureIntoPy]).
    - PipeOptions, Config (lib.rs): options of a pipe, read, given back and
      updated; [Config::new] over all its fields.
    - Handles (lib.rs, layer.rs): the single-use objects [PipeIo] and
      [PipeReservation] in a store, every call that uses them up, and the
      inbound transform [layer::call]; [UnsentCount].
    - Streams (lib.rs, helpers.rs): a stream part with its owner and the calls
      that wait for it (module [Part]), the methods of [SendStream] and
      [RecvStream] as calls on it, and [pair], [stream_pipe] and [splice] on two
      parts.
    - Guarded (lib.rs): [held], [held_now] and [take_now] over tokio's mutex as an
      interface (classes [Mutex] and [FairMutex]), with a log of every use of the
      part, and that [Part] is what they amount to.
    - StreamSpec: the atomic object a stream part promises to be (module
      [Atomic]): its steps, labelled with what Python sees of them.
    - Calls (rt.rs, lib.rs): awaited stream calls, the future of Bridge around a
      part of Streams; module [Tally] keeps account of a part's calls, module
      [Awaited] is the two components together.
    - Buffers (lib.rs): memory lent without a copy, [Chunk] to Python (module
      [ChunkView]) and [Lent] to the native side (module [LentBuffer]).
    - Carrier (layer.rs): the halves of a carrier given to a Python layer
      ([CarrierStream], each half a [Part]), their release when the layer fails
      ([wrap]) and the hint of a transform ([PipeHint]).
    - Admission (admission.rs): the exporter protocol of [with_info] (module
      [Exporter]), the Python decider, verdicts, timers and credentials.
      CarrierView (admission.rs, layer.rs): the view of a carrier those calls
      get, admitted values, prefix authentication and Python credentials.
    - Mode (mode.rs), Pool (pool.rs), Helpers (helpers.rs): policies, caches and
      modes; pool policies, decisions and pools; limiters, names, the results
      of [splice] and [resolve_duplicate].
    - Tls (lib.rs, "TLS"): [TlsConfig] and the client and server configurations
      made of it, over an interface to rustls.
    - Dial and Dials (lib.rs, mode.rs): addresses, exchange endpoints and
      options, preambles and priorities; every dial function, [QuicClient], and
      the candidates of a mode.  Connect: the futures of the dials over the
      carrier crates (class [Carriers]), [Http2Connection], and the way from a
      dial to a handle and a session.
    - Listener and Serve (lib.rs): the construction of a listener and its
      serving tasks (module [Tasks]); the [serve_*] methods as checks, bind and
      task, accepting and iterating.
    - Events, Stats (lib.rs, mode.rs): session events and statistics, from the
      native values to instances of the declared classes.
    - Session, Pipes (lib.rs): the methods, iterators and getters of [Session],
      [Pipe] and [PipeEnd] over the native objects.
    - ModuleInit (lib.rs and every [register]): what importing the extension
      defines.
    - Layer (layer.rs): the channel between a carrier and a Python layer,
      against an interface to the bounded channel ([Mpsc], [MpscLaws]) that a
      list implements.

    Requires follow the calls: Config uses PipeOptions and Shaping, Handles uses
    PipeOptions, Streams uses Config and Errors, Pool uses Mode, Dials uses Tls,
    Dial and Mode, Session uses Dial, Shaping, Events and Errors, and so on.

    ** How the code is represented

    A fallible function returns [PyResult]; a call that changes handles is a
    function in the state and error monad of Handles; concurrent code is a
    state record with one definition per action and a step relation (or a list
    of events) that interleaves them freely.  Arguments of Python are abstract
    objects of [Py], so that a theorem holds for every object; examples run in
    [PyVal].  Error messages keep literal and displayed parts apart, so no
    formatting is assumed.  Integers are [Z] with their range written out, f64
    is Stdlib's [spec_float] of precision 53 and exponent 1024.  The struct of
    [Config] is a function from its fields to their values.

    Code of other crates (zmux, its carriers, tokio, PyO3, rustls) is a
    parameter: native streams, carriers, sessions, policies and parsers are
    section variables or classes, with the laws a theorem needs stated as
    [PyLaws], [PipeIoLaws], [PreambleLaws], [MpscLaws], [UriLaws], [FairMutex]
    (tokio's mutex: one holder, released to the task that waited longest) and
    [Handshake] (what it takes for a TLS handshake to complete), each with an
    instance.  [Rustls], [Carriers], [NativeSession] and [NativePipe] are the
    operations of rustls, of the carrier crates and of the native session and
    pipe that the binding calls.

    ** What the theorems show

    - Lifetimes and threads: the exit gate is safe and its wait bounded, and
      without nested attaches the hook can always return (Gate); awaitables
      and futures are used, completed and cancelled once (Bridge); behind any
      fair mutex the uses of a stream part never overlap and waiting calls run in
      order (Guarded), and a part taken is gone for good (Streams); what Python
      sees of a part, through futures, tasks and the loop, is a labelled run of
      the atomic object of StreamSpec, a cancelled call gives the part back, and
      every other is served (Calls); every serving task is asked to end
      (Listener); exporter requests are answered once and [with_info] returns
      (Admission).
    - Ownership: a carrier is in one place at a time, each call puts it where it
      sends it, and a handle works once (Handles), a stream's parts are taken
      both or neither (Streams), an inbound transform leaves its object used up
      and drops what was left in it (Handles), a released carrier has no half left
      and a failed layer's carrier can always be released (Carrier); memory lent
      either way is live while it can be read and free afterwards, which is what
      the [unsafe] blocks rely on (Buffers).
    - Data: a layer's channel loses and reorders nothing (Layer); options round
      trip up to the precision of Python's floats and updates set exactly what
      they name (PipeOptions); a configuration is its keywords over the defaults
      (Config); durations are
      the nearest (Duration); the seeded source has full period (Shaping).
    - Trust: a client verifies servers and presents certificates as its settings
      say (Tls), on every dial (Dials) down to the native call that
      makes the carrier (Connect); every secured listener presents the
      certificate it was given (Serve); a candidate dials as the function of its
      carrier does, and a credential goes first (Dials).
    - Python's view: every event and every snapshot is an instance of its class
      with the declared fields and types and the values of the native one
      (Events, Stats); iterating a session gives everything once, in order, and
      ends with it, and a cancelled await loses at most one item (Session); an
      import that succeeds defines what the package imports, and each name once
      (ModuleInit).
    - Failure: the end of a session is described whatever ended it, refused
      calls and updates change nothing (Session, Pipes); each native error is
      the exception of its class with its attributes (Errors), admission fails
      closed (Admission), a pool that was made can be maintained with what it was
      given (Pool).
    - Behaviour the code should not have: a nested attach can hang the exit
      (Gate), a large time panics (Pool), a panicking call can hang its
      carrier's thread (Admission), a failing [splice] loses a stream
      (Streams), a failed layer's carrier stays open while a read of it is in
      progress (Carrier), an unknown configuration field given as [None] is accepted
      (Config), an IPv6 authority loses its brackets (Dial).

    ** Bounds and fuel

    No theorem bounds the number of threads, calls, members or bytes.
    [Layer.fill] runs with the queue's length as fuel, which each turn shortens;
    [Admission.Exporter.finish] with the length of the queue, which contains
    the [Done] it stops at; [Errors.catches] follows bases at most four deep,
    the depth of the hierarchy; [Session.async_for] runs over the list of its
    awaits and is proved to end with one more than there are items; [Shaping.SplitMix.chunks] runs with the length
    of the seed.

    ** Not modelled

    What the other crates do on the wire: connecting, handshakes, the racing of
    candidates, the drain of a listener.  Of the binding, a few getters and text
    forms, each one call or one field.  Allocation failures of Python objects
    (but for the streams of a session) and poisoned mutexes are left out.  The interpreter's own rules for references
    and exported buffers are taken as documented (Buffers).
*)

From Stdlib Require Export ZArith Lia.
From stdpp Require Export base option list strings gmap.

#[global] Set Default Goal Selector "!".

(** ** Python results

    A fallible operation of the binding returns [PyResult]: a value or the
    Python exception it raises.  An exception carries its class, its message
    (literal text, displayed values and [{:?}]-quoted values, kept apart so
    that no formatting rule is assumed) and the attributes [raise] and
    [session_err] set on it ([None]: the attribute is not set). *)

Inductive exn :=
  | PyException | PyValueError | PyTypeError | PyRuntimeError
  | PyStopAsyncIteration | PyBufferError | PyOverflowError | PyCancelledError
  | PyAttributeError | PyKeyError | PanicException
  | ZmuxError | ConnectError | SessionClosed | EarlyDataRejected
  | StreamError | StreamReset | StreamStopped | IncompleteRead | LimitExceeded
  | ListenerClosed | OpenError | DatagramError | PipeError
  | PreambleTooLargeError | ModeError.

#[global] Instance exn_eq_dec : EqDecision exn.
Proof. solve_decision. Defined.

Inductive piece := Lit (s : string) | Disp (s : string) | Dbg (s : string).
Definition msg := list piece.

#[global] Instance piece_eq_dec : EqDecision piece.
Proof. solve_decision. Defined.

Abbreviation bytes := (list Byte.byte).

Record pyerr := mk_pyerr {
  e_class : exn;
  e_msg : msg;
  e_kind : option string;
  e_retryable : option bool;
  e_code : option (option Z);
  e_reason : option (option bytes);
  e_remote : option (option bool);
}.

(** [PyValueError::new_err("...")] and the like: no attribute is set. *)
Definition new_err (c : exn) (m : msg) : pyerr :=
  mk_pyerr c m None None None None None.

Inductive PyResult (A : Type) : Type :=
  | Ok (a : A)
  | Err (e : pyerr).
Arguments Ok {A} a.
Arguments Err {A} e.

#[global] Instance PyResult_ret : MRet PyResult := fun A a => Ok a.
#[global] Instance PyResult_bind : MBind PyResult := fun A B f m =>
  match m with Ok a => f a | Err e => Err e end.
#[global] Instance PyResult_fmap : FMap PyResult := fun A B f m =>
  match m with Ok a => Ok (f a) | Err e => Err e end.

(** [Result::map_err]. *)
Definition map_err {A} (f : pyerr -> pyerr) (m : PyResult A) : PyResult A :=
  match m with Ok a => Ok a | Err e => Err (f e) end.

(** [Option::ok_or_else]. *)
Definition ok_or {A} (o : option A) (e : pyerr) : PyResult A :=
  match o with Some a => Ok a | None => Err e end.

(** [Option::map(f).transpose()] for a fallible [f]. *)
Definition map_transpose {A B} (f : A -> PyResult B) (o : option A) : PyResult (option B) :=
  match o with
  | Some a => Some <$> f a
  | None => Ok None
  end.

Definition is_ok {A} (m : PyResult A) : bool :=
  match m with Ok _ => true | Err _ => false end.

(** A guard that raises: [if b { return Err(e) }]. *)
Definition raise_if (b : bool) (e : pyerr) : PyResult unit :=
  if b then Err e else Ok tt.

Section result_lemmas.
Context {A B : Type}.

Lemma bind_ok_inv (m : PyResult A) (f : A -> PyResult B) b :
  (m ≫= f) = Ok b -> exists a, m = Ok a /\ f a = Ok b.
Proof. destruct m; simpl; [eauto | discriminate]. Qed.

Lemma fmap_ok_inv (f : A -> B) (m : PyResult A) b :
  (f <$> m) = Ok b -> exists a, m = Ok a /\ b = f a.
Proof. destruct m; simpl; [intros [= <-]; eauto | discriminate]. Qed.
End result_lemmas.

Lemma map_transpose_ok_inv {A B} (f : A -> PyResult B) o r :
  map_transpose f o = Ok r ->
  match o with None => r = None | Some a => exists b, f a = Ok b /\ r = Some b end.
Proof.
  destruct o as [a|]; simpl; [|congruence].
  intros (b & Hb & ->)%fmap_ok_inv. eauto.
Qed.

Lemma raise_if_ok_inv b e u : raise_if b e = Ok u -> b = false.
Proof. destruct b; [discriminate | done]. Qed.

Lemma ok_or_ok_inv {A} (o : option A) e a : ok_or o e = Ok a -> o = Some a.
Proof. destruct o; simpl; congruence. Qed.

Lemma map_err_ok {A} (f : pyerr -> pyerr) (m : PyResult A) a :
  map_err f m = Ok a <-> m = Ok a.
Proof. destruct m; simpl; split; congruence. Qed.

(** [py_inv]: breaks the successful binds of the context into their parts. *)
Ltac py_inv_step :=
  match goal with
  | H : (_ ≫= _) = Ok _ |- _ => apply bind_ok_inv in H as (? & ? & H)
  | H : (_ <$> _) = Ok _ |- _ => apply fmap_ok_inv in H as (? & ? & H)
  | H : raise_if _ _ = Ok _ |- _ => apply raise_if_ok_inv in H
  | H : ok_or _ _ = Ok _ |- _ => apply ok_or_ok_inv in H
  | H : map_err _ _ = Ok _ |- _ => apply map_err_ok in H
  | H : Ok _ = Ok _ |- _ => injection H as H
  | H : Err _ = Ok _ |- _ => discriminate H
  | H : Ok _ = Err _ |- _ => discriminate H
  end.
Ltac py_inv := repeat py_inv_step.

(** [case_bool]: destructs the booleans that an [if] or a [match] of the goal
    or of the context tests. *)
Ltac case_if :=
  match goal with
  | |- context [if ?b then _ else _] => destruct b eqn:?
  | H : context [if ?b then _ else _] |- _ => destruct b eqn:?
  end.

(** [case_eqb k]: whether the string [k] is the next literal tested. *)
Ltac case_eqb k :=
  match goal with
  | |- context [String.eqb k ?s] => destruct (String.eqb_spec k s)
  end.

(** ** Step relations: finite sequences of transitions *)

Section steps.
Context {S : Type} (step : S -> S -> Prop).

Inductive steps : S -> S -> Prop :=
  | steps_refl s : steps s s
  | steps_cons s1 s2 s3 : step s1 s2 -> steps s2 s3 -> steps s1 s3.

Lemma steps_one s1 s2 : step s1 s2 -> steps s1 s2.
Proof. eauto using steps. Qed.

Lemma steps_trans s1 s2 s3 : steps s1 s2 -> steps s2 s3 -> steps s1 s3.
Proof. induction 1; eauto using steps. Qed.

(** An inductive invariant holds in every state reached. *)
Lemma steps_invariant (P : S -> Prop) :
  (forall s1 s2, P s1 -> step s1 s2 -> P s2) ->
  forall s1 s2, steps s1 s2 -> P s1 -> P s2.
Proof. intros HP s1 s2; induction 1; eauto. Qed.
End steps.

Create HintDb zmux.
#[export] Hint Constructors steps : zmux.
#[export] Hint Resolve steps_one steps_trans : zmux.

(** ** Machine integers *)

Definition u64_max : Z := 2 ^ 64 - 1.
Definition in_u64 (n : Z) : Prop := (0 <= n < 2 ^ 64)%Z.
Definition wrap64 (n : Z) : Z := (n mod 2 ^ 64)%Z.

Lemma wrap64_range n : in_u64 (wrap64 n).
Proof. unfold in_u64, wrap64. apply Z.mod_pos_bound. lia. Qed.

Lemma wrap64_small n : in_u64 n -> wrap64 n = n.
Proof. unfold in_u64, wrap64. intros. by apply Z.mod_small. Qed.

(** ** Strings *)

Definition str_chars : string -> list Ascii.ascii := String.list_ascii_of_string.
Definition str_of : list Ascii.ascii -> string := String.string_of_list_ascii.

(** [s.starts_with(p)]. *)
Definition starts_with (p s : string) : bool := String.prefix p s.

#[export] Hint Resolve wrap64_range : zmux.
