(* ===== verification/Duration.v ===== *)
(** Durations and floating-point numbers of the binding's arguments: the f64
    values Python passes (binary64, as the Standard Library's [spec_float]),
    Rust's [Duration] with its conversions, and the functions of the binding
    that check and convert them ([seconds] of lib.rs, [dur] of mode.rs, [count]
    of pool.rs). *)
From Stdlib Require Export SpecFloat.
From S2P Require Import Prelude.
Open Scope Z_scope.

(** ** f64 *)

Abbreviation f64 := spec_float.

Definition prec : Z := 53.
Definition emax : Z := 1024.

Definition f64_of_Z (n : Z) : f64 := binary_normalize prec emax n 0 false.
Definition f64_zero : f64 := S754_zero false.
Definition f64_one : f64 := Eval vm_compute in f64_of_Z 1.
Definition f64_infinity : f64 := S754_infinity false.
Definition f64_lt (x y : f64) : bool := SFltb x y.
Definition f64_le (x y : f64) : bool := SFleb x y.
Definition f64_eq (x y : f64) : bool := SFeqb x y.
Definition is_finite (x : f64) : bool :=
  match x with S754_zero _ | S754_finite _ _ _ => true | _ => false end.

(** The value of a finite non-negative number as the fraction
    [f64_num / f64_den]. *)
Definition f64_num (x : f64) : Z :=
  match x with S754_finite _ m e => Zpos m * 2 ^ Z.max e 0 | _ => 0 end.
Definition f64_den (x : f64) : Z :=
  match x with S754_finite _ _ e => 2 ^ Z.max (- e) 0 | _ => 1 end.

Lemma f64_den_pos x : 0 < f64_den x.
Proof. destruct x; simpl; try lia. Qed.

Lemma f64_num_nonneg x : 0 <= f64_num x.
Proof. destruct x; simpl; lia. Qed.

(** ** Duration *)

Definition NANOS_PER_SEC : Z := 10 ^ 9.

Record Duration := mk_duration { secs : Z; nanos : Z }.

#[global] Instance Duration_eq_dec : EqDecision Duration.
Proof. solve_decision. Defined.

Definition duration_wf (d : Duration) : Prop :=
  in_u64 (secs d) /\ 0 <= nanos d < NANOS_PER_SEC.

Definition total_nanos (d : Duration) : Z := secs d * NANOS_PER_SEC + nanos d.

Definition duration_zero : Duration := mk_duration 0 0.
Definition is_zero (d : Duration) : bool := (secs d =? 0) && (nanos d =? 0).

Definition from_secs (n : Z) : Duration := mk_duration n 0.

(** Division rounded to the nearest integer, ties to even. *)
Definition round_half_even (n d : Z) : Z :=
  let q := n / d in
  let r := n mod d in
  if 2 * r <? d then q
  else if d <? 2 * r then q + 1
  else if Z.even q then q else q + 1.

(** [Duration::try_from_secs_f64]: [None] when the number is negative, not
    finite or beyond [u64::MAX] seconds; else the nearest nanosecond, ties to
    even ([-0.0] is zero). *)
Definition try_from_secs_f64 (v : f64) : option Duration :=
  match v with
  | S754_nan | S754_infinity _ => None
  | S754_zero _ => Some duration_zero
  | S754_finite true _ _ => None
  | S754_finite false _ _ =>
      if 2 ^ 64 * f64_den v <=? f64_num v then None
      else
        let t := round_half_even (f64_num v * NANOS_PER_SEC) (f64_den v) in
        Some (mk_duration (t / NANOS_PER_SEC) (t mod NANOS_PER_SEC))
  end.

(** [Duration::as_secs_f64]. *)
Definition as_secs_f64 (d : Duration) : f64 :=
  SFadd prec emax (f64_of_Z (secs d))
    (SFdiv prec emax (f64_of_Z (nanos d)) (f64_of_Z NANOS_PER_SEC)).

(** A float-to-integer [as u64] cast: truncates, saturates, [NaN] is 0. *)
Definition f64_as_u64 (x : f64) : Z :=
  match x with
  | S754_nan | S754_zero _ => 0
  | S754_infinity s => if s then 0 else u64_max
  | S754_finite true _ _ => 0
  | S754_finite false _ _ => Z.min (f64_num x / f64_den x) u64_max
  end.

(** [f64::clamp]. *)
Definition f64_clamp (x lo hi : f64) : f64 :=
  let x := if f64_lt x lo then lo else x in
  if f64_lt hi x then hi else x.

(** ** The binding's conversions *)

Definition secs_msg (name : string) : msg :=
  [Disp name; Lit " is a non-negative number of seconds"].

(** [seconds] of lib.rs: a duration in seconds from Python. *)
Definition seconds (name : string) (v : f64) : PyResult Duration :=
  ok_or (try_from_secs_f64 v) (new_err PyValueError (secs_msg name)).

(** [dur] of mode.rs. *)
Definition mode_dur (name : string) (v : f64) : PyResult Duration :=
  ok_or (try_from_secs_f64 v) (new_err PyValueError (secs_msg name)).

(** [count] of pool.rs. *)
Definition count (x : f64) : Z :=
  f64_as_u64 (f64_clamp x f64_zero (f64_of_Z u64_max)).

(** [dur] of lib.rs. *)
Definition dur (d : option Duration) : option f64 := as_secs_f64 <$> d.

(** ** Lemmas *)

(** The nearest integer: within half a unit, even at the half. *)
Lemma round_half_even_spec n d :
  0 < d ->
  let q := round_half_even n d in
  2 * Z.abs (q * d - n) <= d /\ (2 * Z.abs (q * d - n) = d -> Z.even q = true).
Proof.
  intros Hd. unfold round_half_even.
  pose proof (Z.div_mod n d ltac:(lia)) as Hn.
  pose proof (Z.mod_pos_bound n d Hd) as Hr.
  set (q := n / d) in *. set (r := n mod d) in *.
  destruct (Z.ltb_spec (2 * r) d); [split; [nia | nia] |].
  destruct (Z.ltb_spec d (2 * r)); [split; nia |].
  destruct (Z.even q) eqn:Eq.
  - split; [nia | done].
  - split; [nia |]. intros _. rewrite Z.even_add, Eq. done.
Qed.

Lemma round_half_even_nonneg n d : 0 <= n -> 0 < d -> 0 <= round_half_even n d.
Proof.
  intros Hn Hd. unfold round_half_even.
  pose proof (Z.div_pos n d Hn Hd). repeat case_if; lia.
Qed.

(** Rounding is exact on integers and monotone below them. *)
Lemma round_half_even_lt n d k :
  0 < d -> n < k * d -> round_half_even n d <= k.
Proof.
  intros Hd Hn. destruct (round_half_even_spec n d Hd) as [H _].
  set (q := round_half_even n d) in *. nia.
Qed.

Lemma f64_den_pow x : exists k, 0 <= k /\ f64_den x = 2 ^ k.
Proof. destruct x; simpl; try (by exists 0). exists (Z.max (- e) 0). lia. Qed.

(** The bit patterns of an f64: canonical mantissas and exponents in range. *)
Definition f64_wf (x : f64) : Prop := valid_binary prec emax x = true.

Lemma digits2_pos_bounds m :
  2 ^ (Zpos (digits2_pos m) - 1) <= Zpos m < 2 ^ Zpos (digits2_pos m).
Proof.
  induction m as [m IH|m IH|]; simpl digits2_pos; [| |lia];
    rewrite Pos2Z.inj_succ, Z.pow_succ_r by lia;
    replace (Z.succ (Zpos (digits2_pos m)) - 1) with (Z.succ (Zpos (digits2_pos m) - 1)) by lia;
    rewrite Z.pow_succ_r by lia; lia.
Qed.

Lemma f64_wf_mantissa s m e : f64_wf (S754_finite s m e) -> Zpos m < 2 ^ 53.
Proof.
  unfold f64_wf. simpl. unfold bounded, canonical_mantissa, fexp, SpecFloat.emin.
  intros [Hc%Z.eqb_eq _]%andb_prop. unfold prec, emax in Hc.
  pose proof (digits2_pos_bounds m) as [_ H].
  apply Z.lt_le_trans with (1 := H). apply Z.pow_le_mono_r; lia.
Qed.

(** Above the smallest exponent the mantissa is normalized. *)
Lemma f64_wf_normal s m e :
  f64_wf (S754_finite s m e) -> -1074 < e -> 2 ^ 52 <= Zpos m.
Proof.
  unfold f64_wf. simpl. unfold bounded, canonical_mantissa, fexp, SpecFloat.emin.
  intros [Hc%Z.eqb_eq _]%andb_prop He. unfold prec, emax in Hc.
  pose proof (digits2_pos_bounds m) as [H _].
  eapply Z.le_trans; [|exact H]. apply Z.pow_le_mono_r; lia.
Qed.

(** A number with a fractional part is below [2 ^ 53], so a number below
    [2 ^ 64] rounds to fewer than [2 ^ 64] seconds. *)

Lemma total_below v :
  f64_wf v -> f64_num v < 2 ^ 64 * f64_den v ->
  round_half_even (f64_num v * NANOS_PER_SEC) (f64_den v) < 2 ^ 64 * NANOS_PER_SEC.
Proof.
  intros Hwf Hlt. pose proof (f64_den_pos v) as Hd.
  destruct (Z.eq_dec (f64_den v) 1) as [E|E].
  - rewrite E in *. unfold round_half_even. rewrite Z.div_1_r, Z.mod_1_r. simpl.
    unfold NANOS_PER_SEC. lia.
  - assert (f64_num v < 2 ^ 53) as Hn.
    { destruct v as [| | |s m e]; simpl in E |- *; try lia.
      apply f64_wf_mantissa in Hwf.
      destruct (Z.le_gt_cases 0 e); [|rewrite Z.max_r in * by lia; lia].
      rewrite (Z.max_r (- e) 0) in E by lia. done. }
    apply Z.le_lt_trans with (2 ^ 53 * NANOS_PER_SEC); [|unfold NANOS_PER_SEC; lia].
    apply round_half_even_lt; [done|]. unfold NANOS_PER_SEC. nia.
Qed.

Lemma total_nanos_split t :
  total_nanos (mk_duration (t / NANOS_PER_SEC) (t mod NANOS_PER_SEC)) = t.
Proof.
  unfold total_nanos. simpl. pose proof (Z.div_mod t NANOS_PER_SEC). unfold NANOS_PER_SEC in *. lia.
Qed.

(** The numbers the conversion accepts. *)
Definition secs_ok (v : f64) : bool :=
  is_finite v && negb (f64_lt v f64_zero) && (f64_num v <? 2 ^ 64 * f64_den v).

Lemma try_from_secs_f64_is_some v : is_Some (try_from_secs_f64 v) <-> secs_ok v = true.
Proof.
  unfold secs_ok. destruct v as [s|s| |[] m e]; simpl.
  - split; [|eauto]. by destruct s.
  - split; [by intros [? [=]]|done].
  - split; [by intros [? [=]]|done].
  - split; [by intros [? [=]]|done].
  - destruct (Z.leb_spec (2 ^ 64 * 2 ^ Z.max (- e) 0) (Z.pos m * 2 ^ Z.max e 0)) as [H|H];
      [apply Z.ltb_ge in H | apply Z.ltb_lt in H]; rewrite H; split; eauto; try done.
Qed.

Lemma try_from_secs_f64_spec v d :
  f64_wf v -> try_from_secs_f64 v = Some d ->
  duration_wf d /\
  2 * Z.abs (total_nanos d * f64_den v - f64_num v * NANOS_PER_SEC) <= f64_den v /\
  (2 * Z.abs (total_nanos d * f64_den v - f64_num v * NANOS_PER_SEC) = f64_den v ->
   Z.even (total_nanos d) = true).
Proof.
  intros Hwf H. destruct v as [s|s| |[] m e]; try discriminate H.
  { injection H as <-. unfold duration_wf, in_u64, total_nanos, NANOS_PER_SEC. simpl. lia. }
  cbn [try_from_secs_f64] in H. set (v := S754_finite false m e) in *.
  destruct (Z.leb_spec (2 ^ 64 * f64_den v) (f64_num v)); [discriminate|].
  apply Some_inj in H. subst d. pose proof (f64_den_pos v) as Hd.
  pose proof (total_below v Hwf ltac:(done)) as Ht.
  pose proof (f64_num_nonneg v) as Hnn.
  assert (0 <= round_half_even (f64_num v * NANOS_PER_SEC) (f64_den v)) as Hr0.
  { apply round_half_even_nonneg; [unfold NANOS_PER_SEC; lia | done]. }
  rewrite total_nanos_split. split; [|by apply round_half_even_spec].
  assert (0 < NANOS_PER_SEC) as Hns by (unfold NANOS_PER_SEC; lia).
  clearbody v. unfold duration_wf, in_u64. cbn [secs nanos].
  split; [|by apply Z.mod_pos_bound].
  split; [apply Z.div_pos; [exact Hr0 | exact Hns] | apply Z.div_lt_upper_bound; lia].
Qed.

Lemma f64_of_u64_max : f64_of_Z u64_max = S754_finite false 4503599627370496 12.
Proof. vm_compute. reflexivity. Qed.

(** Beyond the largest u64 in f64 order is beyond it in value. *)
Lemma f64_above_u64_max m e :
  f64_wf (S754_finite false m e) ->
  f64_lt (f64_of_Z u64_max) (S754_finite false m e) = true ->
  2 ^ 64 * 2 ^ Z.max (- e) 0 <= Zpos m * 2 ^ Z.max e 0.
Proof.
  intros Hwf. rewrite f64_of_u64_max. unfold f64_lt, SFltb. cbn [SFcompare].
  destruct (Z.compare_spec 12 e) as [<-|He|He]; simpl.
  - destruct (Pos.compare_cont Eq 4503599627370496 m) eqn:Hc; try done.
    intros _. assert (4503599627370496 < m)%positive by exact Hc. rewrite (Z.max_r (- 12)), (Z.max_l 12) by lia. lia.
  - intros _. apply f64_wf_normal in Hwf; [|lia].
    rewrite (Z.max_r (- e)), (Z.max_l e) by lia.
    assert (2 ^ 13 <= 2 ^ e) by (apply Z.pow_le_mono_r; lia). nia.
  - done.
Qed.

(** C39: [seconds] accepts exactly the finite numbers in [0, 2^64): it returns
    the duration nearest to the given number of seconds (ties to an even
    number of nanoseconds), well formed, and raises [ValueError] naming the
    argument for every other f64: negative, infinite, NaN or too large. *)
Theorem seconds_nearest name v :
  f64_wf v ->
  if secs_ok v then
    exists d, seconds name v = Ok d /\ duration_wf d /\
      2 * Z.abs (total_nanos d * f64_den v - f64_num v * NANOS_PER_SEC) <= f64_den v /\
      (2 * Z.abs (total_nanos d * f64_den v - f64_num v * NANOS_PER_SEC) = f64_den v ->
       Z.even (total_nanos d) = true)
  else seconds name v = Err (new_err PyValueError (secs_msg name)).
Proof.
  intros Hwf. unfold seconds. destruct (secs_ok v) eqn:E.
  - apply try_from_secs_f64_is_some in E as [d Hd]. exists d. rewrite Hd.
    split; [done|]. by apply try_from_secs_f64_spec.
  - destruct (try_from_secs_f64 v) eqn:Ed; [|done].
    assert (secs_ok v = true) by (apply try_from_secs_f64_is_some; eauto). congruence.
Qed.

(** 0.25 s: accepted, as 250 ms. *)
Lemma seconds_nearest_witness :
  f64_wf (SFdiv prec emax f64_one (f64_of_Z 4)) /\
  exists d, seconds "latency_budget" (SFdiv prec emax f64_one (f64_of_Z 4)) = Ok d /\
    duration_wf d.
Proof.
  assert (f64_wf (SFdiv prec emax f64_one (f64_of_Z 4))) as Hwf by (vm_compute; reflexivity).
  split; [exact Hwf|].
  pose proof (seconds_nearest "latency_budget" _ Hwf) as H.
  change (secs_ok (SFdiv prec emax f64_one (f64_of_Z 4))) with true in H.
  destruct H as (d & Hd & Hw & _). exists d. split; assumption.
Defined.

(** [count] of a member metric is the metric truncated to an integer and
    saturated at [u64::MAX]; a negative number, [-0.0] and NaN count 0; the
    result is always a u64. *)
Theorem count_saturates x :
  f64_wf x ->
  in_u64 (count x) /\
  count x =
    match x with
    | S754_finite false _ _ => Z.min (f64_num x / f64_den x) u64_max
    | S754_infinity false => u64_max
    | _ => 0
    end.
Proof.
  intros Hwf.
  assert (count x =
    match x with
    | S754_finite false _ _ => Z.min (f64_num x / f64_den x) u64_max
    | S754_infinity false => u64_max
    | _ => 0
    end) as ->.
  { unfold count, f64_clamp. destruct x as [[]|[]| |[] m e]; try reflexivity.
    change (f64_lt (S754_finite false m e) f64_zero) with false. cbv iota.
    destruct (f64_lt (f64_of_Z u64_max) _) eqn:E; [|reflexivity].
    apply (f64_above_u64_max m e Hwf) in E.
    change (f64_as_u64 (f64_of_Z u64_max)) with u64_max. simpl.
    rewrite Z.min_r; [reflexivity|]. unfold u64_max.
    apply Z.div_le_lower_bound; lia. }
  split; [|reflexivity].
  destruct x as [s|[]| |[] m e]; unfold in_u64, u64_max; simpl; try lia.
  assert (0 <= Z.pos m * 2 ^ Z.max e 0 / 2 ^ Z.max (- e) 0) by (apply Z.div_pos; lia). lia.
Qed.

(** 2^70 saturates. *)
Lemma count_saturates_witness :
  f64_wf (f64_of_Z (2 ^ 70)) /\ count (f64_of_Z (2 ^ 70)) = u64_max.
Proof.
  assert (f64_wf (f64_of_Z (2 ^ 70))) as Hwf by (vm_compute; reflexivity).
  split; [exact Hwf|]. rewrite (proj2 (count_saturates _ Hwf)). vm_compute. reflexivity.
Defined.
