(* ===== verification/Pyo3.v ===== *)
(** The interface to Python objects the binding relies on: the PyO3 operations
    it calls on objects it is given ([Py]), what their documentation promises
    ([PyLaws]), and a small universe of Python values that implements both
    ([PyVal]), used to evaluate the binding's functions on concrete inputs. *)
From S2P Require Import Prelude Duration.
Open Scope Z_scope.

(** The operations: attribute access, type tests and the conversions
    ([extract]) to the Rust types the binding names.  [extract_opt f] is the
    conversion to [Option<T>] for the conversion [f] to [T];
    [mapping_items] is [cast::<PyMapping>()] followed by [items()];
    [extract_kv] converts an item to [(Bound<PyAny>, String)]. *)
Class Py : Type := {
  obj : Type;
  is_none : obj -> bool;
  is_str : obj -> bool;
  is_float : obj -> bool;
  getattr : obj -> string -> PyResult obj;
  hasattr : obj -> string -> PyResult bool;
  extract_bool : obj -> PyResult bool;
  extract_u32 : obj -> PyResult Z;
  extract_u64 : obj -> PyResult Z;
  extract_usize : obj -> PyResult Z;
  extract_i128 : obj -> PyResult Z;
  extract_f64 : obj -> PyResult f64;
  extract_str : obj -> PyResult string;
  extract_bytes : obj -> PyResult bytes;
  extract_strs : obj -> PyResult (list string);
  extract_opt : forall {A}, (obj -> PyResult A) -> obj -> PyResult (option A);
  mapping_items : obj -> option (PyResult (list obj));
  extract_kv : obj -> PyResult (obj * string);
}.

Class PyLaws (P : Py) : Prop := {
  extract_u32_range o n : extract_u32 o = Ok n -> 0 <= n < 2 ^ 32;
  extract_u64_range o n : extract_u64 o = Ok n -> in_u64 n;
  extract_usize_range o n : extract_usize o = Ok n -> in_u64 n;
  extract_i128_range o n : extract_i128 o = Ok n -> - 2 ^ 127 <= n < 2 ^ 127;
  extract_f64_wf o x : extract_f64 o = Ok x -> f64_wf x;
  extract_opt_none A (f : obj -> PyResult A) o :
    is_none o = true -> extract_opt f o = Ok None;
  extract_opt_some A (f : obj -> PyResult A) o :
    is_none o = false -> extract_opt f o = Some <$> f o;
}.

(** ** A universe of Python values *)
Module PyVal.

Inductive pyval :=
  | VNone
  | VBool (b : bool)
  | VInt (n : Z)
  | VFloat (x : f64)
  | VStr (s : string)
  | VBytes (b : bytes)
  | VList (l : list pyval)
  | VDict (l : list (pyval * pyval))
  | VObj (attrs : list (string * pyval)).

Definition type_error : pyerr := new_err PyTypeError [Lit "wrong type"].
Definition overflow_error : pyerr := new_err PyOverflowError [Lit "out of range"].

Definition v_is_none (v : pyval) : bool := match v with VNone => true | _ => false end.

Definition v_getattr (v : pyval) (n : string) : PyResult pyval :=
  match v with
  | VObj attrs =>
      match list_find (fun p => p.1 = n) attrs with
      | Some (_, (_, x)) => Ok x
      | None => Err (new_err PyAttributeError [Disp n])
      end
  | _ => Err (new_err PyAttributeError [Disp n])
  end.

Definition v_int (lo hi : Z) (v : pyval) : PyResult Z :=
  let range n := if (lo <=? n) && (n <? hi) then Ok n else Err overflow_error in
  match v with
  | VInt n => range n
  | VBool b => range (if b then 1 else 0)
  | _ => Err type_error
  end.

Definition v_f64 (v : pyval) : PyResult f64 :=
  let checked x := if valid_binary prec emax x then Ok x else Err overflow_error in
  match v with
  | VFloat x => checked x
  | VInt n => checked (f64_of_Z n)
  | _ => Err type_error
  end.

Definition v_str (v : pyval) : PyResult string :=
  match v with VStr s => Ok s | _ => Err type_error end.

Definition v_opt {A} (f : pyval -> PyResult A) (v : pyval) : PyResult (option A) :=
  if v_is_none v then Ok None else Some <$> f v.

Definition v_strs (v : pyval) : PyResult (list string) :=
  match v with
  | VList l => foldr (fun x acc => s ← v_str x; r ← acc; Ok (s :: r)) (Ok []) l
  | _ => Err type_error
  end.

#[export] Instance pyval_py : Py := {
  obj := pyval;
  is_none := v_is_none;
  is_str v := match v with VStr _ => true | _ => false end;
  is_float v := match v with VFloat _ => true | _ => false end;
  getattr := v_getattr;
  hasattr v n := Ok (is_ok (v_getattr v n));
  extract_bool v := match v with VBool b => Ok b | _ => Err type_error end;
  extract_u32 := v_int 0 (2 ^ 32);
  extract_u64 := v_int 0 (2 ^ 64);
  extract_usize := v_int 0 (2 ^ 64);
  extract_i128 := v_int (- 2 ^ 127) (2 ^ 127);
  extract_f64 := v_f64;
  extract_str := v_str;
  extract_bytes v := match v with VBytes b => Ok b | _ => Err type_error end;
  extract_strs := v_strs;
  extract_opt := @v_opt;
  mapping_items v :=
    match v with VDict l => Some (Ok (map (fun p => VList [p.1; p.2]) l)) | _ => None end;
  extract_kv v :=
    match v with VList [k; x] => s ← v_str x; Ok (k, s) | _ => Err type_error end;
}.


Lemma v_int_range lo hi v n : v_int lo hi v = Ok n -> lo <= n < hi.
Proof.
  unfold v_int. destruct v; try done; case_if; try done;
    intros [= <-]; rewrite andb_true_iff, Z.leb_le, Z.ltb_lt in *; lia.
Qed.

#[export] Instance pyval_laws : PyLaws pyval_py.
Proof.
  split.
  - apply v_int_range.
  - apply v_int_range.
  - apply v_int_range.
  - apply v_int_range.
  - intros o x. simpl. unfold v_f64, f64_wf.
    destruct o; try done; case_if; try done; by intros [= <-].
  - intros A f o. simpl. unfold v_opt. by intros ->.
  - intros A f o. simpl. unfold v_opt. by intros ->.
Qed.

End PyVal.
