(* ===== verification/PyData.v ===== *)
(** The typed values the binding hands to Python (src/python/zmux/_types.py):
    dictionaries filled from native structs, string enumerations, and the
    dataclasses built from them by keyword. *)
From Stdlib Require Import Ascii.
From S2P Require Import Prelude Duration.
Open Scope Z_scope.

(** ** Objects *)
Inductive pobj :=
  | PNone
  | PBool (b : bool)
  | PInt (n : Z)
  | PFloat (x : f64)
  | PStr (s : string)
  | PBytes (b : bytes)
  | PMember (enum value : string)
  | PList (l : list pobj)
  | PTuple (l : list pobj)
  | PExc (e : pyerr)
  | PInst (cls : string) (fields : list (string * pobj)).

Definition is_pnone (o : pobj) : bool := match o with PNone => true | _ => false end.

(** [into_pyobject] of the Rust types the binding puts into dictionaries. *)
Class ToPy (A : Type) := to_py : A -> pobj.
#[global] Instance to_py_bool : ToPy bool := PBool.
#[global] Instance to_py_int : ToPy Z := PInt.
#[global] Instance to_py_float : ToPy f64 := PFloat.
#[global] Instance to_py_str : ToPy string := PStr.
#[global] Instance to_py_opt {A} `{ToPy A} : ToPy (option A) := fun o =>
  match o with Some a => to_py a | None => PNone end.
#[global] Instance to_py_vec {A} `{ToPy A} : ToPy (list A) := fun l => PList (to_py <$> l).
#[global] Instance to_py_pair {A B} `{ToPy A, ToPy B} : ToPy (A * B) := fun p =>
  PTuple [to_py p.1; to_py p.2].
#[global] Instance to_py_quad {A B C D} `{ToPy A, ToPy B, ToPy C, ToPy D} : ToPy (A * B * C * D) | 0 := fun p =>
  PTuple [to_py p.1.1.1; to_py p.1.1.2; to_py p.1.2; to_py p.2].

(** [str::to_lowercase] on the ASCII names of variants. *)
Definition lower_char (a : ascii) : ascii :=
  let n := nat_of_ascii a in if (65 <=? n)%nat && (n <=? 90)%nat then ascii_of_nat (n + 32) else a.
Fixpoint to_lowercase (s : string) : string :=
  match s with EmptyString => EmptyString | String a s => String (lower_char a) (to_lowercase s) end.

(** ** Dictionaries, in insertion order *)
Definition dict := list (string * pobj).

Fixpoint set_item (d : dict) (k : string) (v : pobj) : dict :=
  match d with
  | [] => [(k, v)]
  | (k', v') :: d => if String.eqb k' k then (k, v) :: d else (k', v') :: set_item d k v
  end.

Fixpoint get_item (d : dict) (k : string) : option pobj :=
  match d with
  | [] => None
  | (k', v) :: d => if String.eqb k' k then Some v else get_item d k
  end.

Definition key_error (k : string) : pyerr := new_err PyKeyError [Dbg k].

(** [d[k] = f(d[k])]; a missing key raises. *)
Fixpoint alter_item (f : pobj -> PyResult pobj) (d : dict) (k : string) : PyResult dict :=
  match d with
  | [] => Err (key_error k)
  | (k', v) :: d =>
      if String.eqb k' k then v ← f v; Ok ((k', v) :: d)
      else d ← alter_item f d k; Ok ((k', v) :: d)
  end.

(** [if d[k] is not None: d[k] = f(d[k])]. *)
Definition alter_some (f : pobj -> PyResult pobj) : dict -> string -> PyResult dict :=
  alter_item (fun v => if is_pnone v then Ok v else f v).
(** [if d.get(k) is not None: d[k] = f(d[k])]. *)
Definition alter_get (f : pobj -> PyResult pobj) (d : dict) (k : string) : PyResult dict :=
  match get_item d k with Some _ => alter_some f d k | None => Ok d end.

(** ** String enumerations ([_Enum]) *)
Record enum := mk_enum { en_name : string; en_values : list string }.

Definition str_of_obj (o : pobj) : PyResult string :=
  match o with
  | PStr s | PMember _ s => Ok s
  | _ => Err (new_err PyTypeError [Lit "not a str"])
  end.

(** [_Enum._of]: the member of this value, else the value itself. *)
Definition enum_of (e : enum) (o : pobj) : PyResult pobj :=
  s ← str_of_obj o;
  Ok (if existsb (String.eqb s) (en_values e) then PMember (en_name e) s else o).

(** ** Dataclasses *)

(** The declared types. *)
Inductive pytype :=
  | TInt | TBool | TFloat | TStr | TBytes | TExc
  | TEnum (e : enum)
  | TOptional (t : pytype)
  | TUnion (t u : pytype)
  | TTupleOf (t : pytype)
  | TRec (cls : string) (fields : list (string * pytype)).

Fixpoint has_type (t : pytype) (o : pobj) : bool :=
  match t, o with
  | TInt, PInt _ | TBool, PBool _ | TFloat, PFloat _ | TStr, PStr _ | TBytes, PBytes _ | TExc, PExc _ => true
  | TEnum e, PMember n v => String.eqb n (en_name e) && existsb (String.eqb v) (en_values e)
  | TOptional t, o => is_pnone o || has_type t o
  | TUnion t u, o => has_type t o || has_type u o
  | TTupleOf t, PTuple l => forallb (has_type t) l
  | TRec c fs, PInst c' vs =>
      String.eqb c c' &&
      (fix go fs vs :=
         match fs, vs with
         | [], [] => true
         | (n, t) :: fs, (k, v) :: vs => String.eqb n k && has_type t v && go fs vs
         | _, _ => false
         end) fs vs
  | _, _ => false
  end.

(** A field: its type, and its default. *)
Record field := mk_field { fd_name : string; fd_type : pytype; fd_default : option pobj }.
Definition req (n : string) (t : pytype) : field := mk_field n t None.
Definition opt_field (n : string) (t : pytype) (d : pobj) : field := mk_field n t (Some d).

Record dataclass := mk_dataclass { dc_name : string; dc_fields : list field }.

Definition unexpected (c k : string) : pyerr :=
  new_err PyTypeError [Disp c; Lit " got an unexpected keyword argument "; Dbg k].
Definition missing (c k : string) : pyerr :=
  new_err PyTypeError [Disp c; Lit " missing a required argument: "; Dbg k].

(** The values of the fields, in the class's order. *)
Fixpoint fill (c : string) (fs : list field) (d : dict) : PyResult (list (string * pobj)) :=
  match fs with
  | [] => Ok []
  | f :: fs =>
      v ← (match get_item d (fd_name f) with
           | Some v => Ok v
           | None => ok_or (fd_default f) (missing c (fd_name f))
           end);
      r ← fill c fs d; Ok ((fd_name f, v) :: r)
  end.

(** A class called with a dictionary of keywords. *)
Definition construct (c : dataclass) (d : dict) : PyResult pobj :=
  match filter (fun k => existsb (String.eqb k) (fd_name <$> dc_fields c) = false) (fst <$> d) with
  | k :: _ => Err (unexpected (dc_name c) k)
  | [] => PInst (dc_name c) <$> fill (dc_name c) (dc_fields c) d
  end.

(** An instance of a class whose fields are the declared ones, each of its
    declared type. *)
Definition conforms (c : dataclass) (o : pobj) : Prop :=
  exists vs, o = PInst (dc_name c) vs /\
    Forall2 (fun f v => fd_name f = v.1 /\ has_type (fd_type f) v.2 = true) (dc_fields c) vs.

(** The class as a type of fields of other classes. *)
Definition class_type (c : dataclass) : pytype :=
  TRec (dc_name c) ((fun f => (fd_name f, fd_type f)) <$> dc_fields c).

Lemma conforms_type c o : conforms c o -> has_type (class_type c) o = true.
Proof.
  intros (vs & -> & HF). unfold class_type. simpl. rewrite String.eqb_refl. simpl.
  induction HF as [|f [k v] fs vs [Hn Ht] HF IH]; [done|]. simpl in *.
  rewrite Hn, String.eqb_refl, Ht. exact IH.
Qed.

(** Altering an item sets it. *)
Lemma alter_item_ok f d k v v' :
  get_item d k = Some v -> f v = Ok v' -> alter_item f d k = Ok (set_item d k v').
Proof.
  induction d as [|[k' x] d IH]; [done|]. simpl. destruct (String.eqb_spec k' k) as [->|].
  - intros [= ->] ->. done.
  - intros Hg Hf. by rewrite IH.
Qed.

Lemma get_item_set d k v k' :
  get_item (set_item d k v) k' = if String.eqb k k' then Some v else get_item d k'.
Proof.
  induction d as [|[j x] d IH]; simpl; [done|].
  destruct (String.eqb_spec j k) as [->|Hj]; simpl.
  - destruct (String.eqb_spec k k'); [done|done].
  - destruct (String.eqb_spec j k') as [->|]; [|done].
    destruct (String.eqb_spec k k'); congruence.
Qed.

(** A dictionary with a value of the right type for every field, and no other
    key, makes an instance of the class whose fields are the items. *)
Definition fits (d : dict) (f : field) : Prop :=
  exists v, get_item d (fd_name f) = Some v /\ has_type (fd_type f) v = true.

Lemma fill_fits c fs d :
  Forall (fits d) fs ->
  exists vs, fill c fs d = Ok vs /\
    Forall2 (fun f v => fd_name f = v.1 /\ has_type (fd_type f) v.2 = true) fs vs /\
    Forall (fun v => get_item d v.1 = Some v.2) vs.
Proof.
  induction 1 as [|f fs (v & Hv & Ht) _ (vs & Hfs & HF & HG)]; [by exists []|].
  exists ((fd_name f, v) :: vs). simpl. rewrite Hv. simpl. rewrite Hfs. by repeat constructor.
Qed.

Definition attr (o : pobj) (k : string) : option pobj :=
  match o with PInst _ vs => get_item vs k | _ => None end.

Lemma construct_fits c d :
  forallb (fun k => existsb (String.eqb k) (fd_name <$> dc_fields c)) (fst <$> d) = true ->
  Forall (fits d) (dc_fields c) ->
  exists o, construct c d = Ok o /\ conforms c o /\
    forall k v, get_item d k = Some v -> attr o k = Some v.
Proof.
  intros Hk Hf. destruct (fill_fits (dc_name c) _ _ Hf) as (vs & Hfill & HF & HG).
  exists (PInst (dc_name c) vs). unfold construct, conforms. rewrite Hfill. split_and!.
  - assert (filter (fun k => existsb (String.eqb k) (fd_name <$> dc_fields c) = false) (fst <$> d) = []) as ->; [|done].
    clear -Hk. induction (fst <$> d) as [|k l IH]; [done|]. simpl in Hk.
    apply andb_true_iff in Hk as [Hk Hl]. rewrite filter_cons_False; [by apply IH|]. by rewrite Hk.
  - by exists vs.
  - intros k v Hg. simpl.
    assert (existsb (String.eqb k) (fd_name <$> dc_fields c) = true) as Hin.
    { clear -Hk Hg. induction d as [|[k' x] d IH]; [done|]. simpl in *.
      apply andb_true_iff in Hk as [Hk Hd]. destruct (String.eqb_spec k' k) as [->|]; [done|by apply IH]. }
    clear Hk Hf Hfill. induction HF as [|f [j x] fs vs [Hn _] HF IH]; [done|]. simpl in *. subst j.
    apply Forall_cons in HG as [Hx HG]. simpl in Hx.
    destruct (String.eqb_spec (fd_name f) k) as [Hk|Hk]; [congruence|].
    apply IH; [done|]. rewrite (proj2 (String.eqb_neq k (fd_name f))) in Hin by congruence. done.
Qed.

(** The same without the types: the fields are the items. *)
Lemma fill_items c fs d :
  Forall (fun f => is_Some (get_item d (fd_name f))) fs ->
  exists vs, fill c fs d = Ok vs /\ fst <$> vs = fd_name <$> fs /\
    Forall (fun v => get_item d v.1 = Some v.2) vs.
Proof.
  induction 1 as [|f fs (v & Hv) _ (vs & Hfs & HF & HG)]; [by exists []|].
  exists ((fd_name f, v) :: vs). simpl. rewrite Hv. simpl. rewrite Hfs. split_and!; [done| |by constructor].
  by f_equal.
Qed.

Lemma get_item_agree vs d k :
  Forall (fun v => get_item d v.1 = Some v.2) vs -> k ∈ fst <$> vs -> get_item vs k = get_item d k.
Proof.
  induction 1 as [|[j v] vs Hv HF IH]; [by intros ?%elem_of_nil|]. simpl in *. intros Hk.
  destruct (String.eqb_spec j k) as [->|Hj]; [done|]. apply IH.
  by apply elem_of_cons in Hk as [->|].
Qed.

Lemma set_item_keys d k v : k ∈ fst <$> d -> fst <$> set_item d k v = fst <$> d.
Proof.
  induction d as [|[j x] d IH]; [by intros ?%elem_of_nil|]. simpl. intros Hk.
  destruct (String.eqb_spec j k) as [->|Hj]; [done|]. simpl. f_equal. apply IH.
  by apply elem_of_cons in Hk as [->|].
Qed.

Lemma conforms_items c vs :
  fst <$> vs = fd_name <$> dc_fields c -> NoDup (fd_name <$> dc_fields c) -> Forall (fits vs) (dc_fields c) ->
  conforms c (PInst (dc_name c) vs).
Proof.
  intros Hk Hn Hf. exists vs. split; [done|].
  assert (forall f, f ∈ dc_fields c -> fits vs f) as Hfit by (by apply Forall_forall).
  clear Hf. revert vs Hk Hfit. induction (dc_fields c) as [|f fs IH]; intros vs Hk Hfit.
  - by destruct vs.
  - destruct vs as [|[k v] vs]; [done|]. injection Hk as -> Hk. apply NoDup_cons in Hn as [Hf Hn].
    constructor.
    + split; [done|]. destruct (Hfit f) as (v' & Hv & Ht); [by left|]. simpl in Hv.
      rewrite String.eqb_refl in Hv. by injection Hv as ->.
    + apply IH; [done..|]. intros g Hg. destruct (Hfit g) as (v' & Hv & Ht); [by right|].
      exists v'. split; [|done]. simpl in Hv.
      destruct (String.eqb_spec (fd_name f) (fd_name g)) as [E|]; [|done].
      exfalso. apply Hf. rewrite E. apply list_elem_of_fmap. eauto.
Qed.

(** [cls( *args)]: the fields by position. *)
Definition construct_pos (c : dataclass) (l : list pobj) : PyResult pobj :=
  if (length l =? length (dc_fields c))%nat then Ok (PInst (dc_name c) (zip (fd_name <$> dc_fields c) l))
  else Err (new_err PyTypeError [Disp (dc_name c); Lit " takes another number of arguments"]).

(** ** Types of what is put into dictionaries *)
Class Typed (A : Type) `{ToPy A} (t : pytype) : Prop := typed_ok : forall a : A, has_type t (to_py a) = true.

#[global] Instance typed_int : Typed Z TInt.
Proof. done. Qed.
#[global] Instance typed_bool : Typed bool TBool.
Proof. done. Qed.
#[global] Instance typed_float : Typed f64 TFloat.
Proof. done. Qed.
#[global] Instance typed_str : Typed string TStr.
Proof. done. Qed.
#[global] Instance typed_opt {A t} `{ToPy A} (H0 : Typed A t) : Typed (option A) (TOptional t).
Proof.
  intros [a|]; [|done]. change (is_pnone (to_py a) || has_type t (to_py a) = true).
  rewrite (H0 a). by destruct (is_pnone _).
Qed.

(** The items of an instance are determined by its attributes. *)
Lemma items_determined (vs l : dict) :
  fst <$> vs = fst <$> l -> NoDup (fst <$> l) -> Forall (fun kv => get_item vs kv.1 = Some kv.2) l -> vs = l.
Proof.
  revert vs. induction l as [|[k v] l IH]; intros [|[k' v'] vs] Hk Hn HF; try done.
  injection Hk as -> Hk. apply NoDup_cons in Hn as [Hni Hn]. apply Forall_cons in HF as [Hv HF].
  simpl in Hv. rewrite String.eqb_refl in Hv. injection Hv as ->. f_equal. apply IH; [done..|].
  apply Forall_forall. intros [k1 v1] Hin. eapply Forall_forall in HF; [|exact Hin]. simpl in *.
  rewrite (proj2 (String.eqb_neq k k1)) in HF; [done|]. intros ->. apply Hni.
  apply list_elem_of_fmap. by exists (k1, v1).
Qed.

(** The object a class makes of its attributes. *)
Definition object_of (c : dataclass) (l : dict) (o : pobj) : Prop := o = PInst (dc_name c) l /\ conforms c o.

Lemma conforms_object c o l :
  bool_decide (fst <$> l = fd_name <$> dc_fields c) = true -> bool_decide (NoDup (fd_name <$> dc_fields c)) = true ->
  conforms c o -> Forall (fun kv => attr o kv.1 = Some kv.2) l -> object_of c l o.
Proof.
  intros Hl%bool_decide_eq_true Hn%bool_decide_eq_true Hc Ha. split; [|done]. destruct Hc as (vs & -> & HF). f_equal. simpl in Ha.
  apply items_determined; [|by rewrite Hl|done]. rewrite Hl. symmetry. clear -HF. induction HF as [|f v fs vs' [Hf _] _ IH]; [done|].
  cbn. rewrite Hf. by f_equal.
Qed.

(** An instance with the items of a dictionary that fits the class. *)
Lemma object_items c vs d l :
  fst <$> vs = fd_name <$> dc_fields c ->
  bool_decide (fst <$> l = fd_name <$> dc_fields c) = true -> bool_decide (NoDup (fd_name <$> dc_fields c)) = true ->
  (forall k v, k ∈ fd_name <$> dc_fields c -> get_item d k = Some v -> get_item vs k = Some v) ->
  Forall (fits d) (dc_fields c) -> Forall (fun kv => get_item d kv.1 = Some kv.2) l ->
  object_of c l (PInst (dc_name c) vs).
Proof.
  intros Hk Hl Hn Hd Hf Ha. apply conforms_object; [done|done| |].
  - apply conforms_items; [done|by apply bool_decide_eq_true in Hn|]. apply Forall_forall. intros f Hin.
    eapply Forall_forall in Hf as (v & Hv & Ht); [|exact Hin]. exists v. split; [|done].
    apply Hd; [|done]. apply list_elem_of_fmap. eauto.
  - apply Forall_forall. intros kv Hin. simpl. eapply Forall_forall in Ha; [|exact Hin]. apply Hd; [|done].
    apply bool_decide_eq_true in Hl. rewrite <- Hl. apply list_elem_of_fmap. eauto.
Qed.

(** A text, taken for a member of [e] or left as it is. *)
Definition enum_text (e : enum) (s : string) : pobj :=
  if existsb (String.eqb s) (en_values e) then PMember (en_name e) s else PStr s.

Lemma enum_of_str e s : enum_of e (PStr s) = Ok (enum_text e s).
Proof. done. Qed.

Lemma enum_text_typed e s : has_type (TUnion (TEnum e) TStr) (enum_text e s) = true.
Proof. unfold enum_text. destruct (existsb _ _) eqn:E; simpl; [|done]. by rewrite String.eqb_refl, E. Qed.

Lemma enum_text_inj e a b : enum_text e a = enum_text e b -> a = b.
Proof. unfold enum_text. repeat case_match; congruence. Qed.

(** The same for an optional text. *)
Definition enum_opt (e : enum) (s : option string) : pobj :=
  match s with Some s => enum_text e s | None => PNone end.

Lemma enum_of_opt e (s : option string) :
  (if is_pnone (to_py s) then Ok (to_py s) else enum_of e (to_py s)) = Ok (enum_opt e s).
Proof. by destruct s. Qed.

Lemma enum_opt_inj e a b : enum_opt e a = enum_opt e b -> a = b.
Proof.
  destruct a as [a|], b as [b|]; simpl; [by intros ->%enum_text_inj|..|done];
    unfold enum_text; case_match; done.
Qed.

Lemma enum_opt_typed e s : has_type (TOptional (TUnion (TEnum e) TStr)) (enum_opt e s) = true.
Proof.
  destruct s as [s|]; [|done].
  change (is_pnone (enum_text e s) || has_type (TUnion (TEnum e) TStr) (enum_text e s) = true).
  rewrite enum_text_typed. by destruct (is_pnone _).
Qed.

#[global] Instance PInt_inj : Inj eq eq PInt.
Proof. by intros a b [= ->]. Qed.

(** What Python gets of a scalar tells the scalar. *)
Lemma to_py_opt_str_inj (a b : option string) : to_py a = to_py b -> a = b.
Proof. destruct a, b; try done. by intros [= ->]. Qed.
Lemma to_py_opt_int_inj (a b : option Z) : to_py a = to_py b -> a = b.
Proof. destruct a, b; try done. by intros [= ->]. Qed.
Lemma to_py_opt_float_inj (a b : option f64) : to_py a = to_py b -> a = b.
Proof. destruct a, b; try done. by intros [= ->]. Qed.

#[export] Hint Resolve typed_ok enum_text_typed enum_opt_typed : zmux.
