(* ===== verification/Errors.v ===== *)
(** Errors (src/src/lib.rs, section "errors"): the exception classes of the
    binding and the Python exception of each native error. *)
From Stdlib Require Import Ascii.
From S2P Require Import Prelude.
Open Scope Z_scope.

(** ** Exception classes *)

(** [create_exception!]: the base of each class. *)
Definition exn_base (c : exn) : option exn :=
  match c with
  | ZmuxError => Some PyException
  | ConnectError | SessionClosed | EarlyDataRejected | StreamError | ListenerClosed
  | OpenError | DatagramError | PipeError | ModeError => Some ZmuxError
  | StreamReset | StreamStopped | IncompleteRead | LimitExceeded => Some StreamError
  | PreambleTooLargeError => Some PyValueError
  | PyValueError | PyTypeError | PyRuntimeError | PyStopAsyncIteration | PyBufferError
  | PyOverflowError | PyAttributeError | PyKeyError => Some PyException
  | PyException | PyCancelledError | PanicException => None
  end.

(** [except b:] catches [c]: the classes are at most four deep. *)
Fixpoint catches_go (fuel : nat) (b c : exn) : bool :=
  if decide (b = c) then true
  else match fuel, exn_base c with
       | S fuel, Some c' => catches_go fuel b c'
       | _, _ => false
       end.
Definition catches (b c : exn) : bool := catches_go 4 b c.

(** ** Native errors

    The variants the binding names; every other variant of the native
    (non-exhaustive) types is [Other...]. *)

Inductive SessionErr :=
  | ApplicationClosed (code : Z) (reason : bytes) (remote : bool)
  | TransportClosed (code : Z) (reason : bytes) (remote : bool)
  | IdleTimeout (remote : bool)
  | OtherSession (id : nat).

Inductive StreamErr :=
  | SReset (code : Z)
  | SStopped (code : Z)
  | SSessionLost (s : SessionErr)
  | SPreambleTooLarge
  | SClosedLocally
  | OtherStream (id : nat).

Inductive OpenErr :=
  | OSessionLost (s : SessionErr)
  | OPreambleTooLarge
  | OtherOpen (id : nat).

Inductive DatagramErr :=
  | DSessionLost (s : SessionErr)
  | OtherDatagram (id : nat).

Inductive PipeErr :=
  | PSessionLost (s : SessionErr)
  | PInvalidOptions
  | OtherPipe (id : nat).

Inductive ConnectErr :=
  | CClosed (s : SessionErr)
  | OtherConnect (id : nat).

(** What every native error type provides: its [Display] and [Debug] texts and
    [is_retryable]. *)
Class NativeErr (E : Type) := {
  display : E -> string;
  debug : E -> string;
  is_retryable : E -> bool;
}.

(** ** [kind_of] *)

Definition kind_delim (a : Ascii.ascii) : bool :=
  (Ascii.eqb a "(" || Ascii.eqb a " " || Ascii.eqb a "{")%char.

(** The text before the first delimiter: the variant's name in a [Debug]
    text. *)
Fixpoint kind_prefix (s : string) : string :=
  match s with
  | EmptyString => EmptyString
  | String a s => if kind_delim a then EmptyString else String a (kind_prefix s)
  end.

Definition kind_of {E} `{NativeErr E} (e : E) : string := kind_prefix (debug e).

Fixpoint no_delim (s : string) : bool :=
  match s with EmptyString => true | String a s => negb (kind_delim a) && no_delim s end.

(** The kind of a variant: [Debug] prints its name, alone, before [(] or before
    a blank and [{]. *)
Lemma kind_prefix_variant name rest :
  no_delim name = true ->
  match rest with EmptyString => True | String a _ => kind_delim a = true end ->
  kind_prefix (name ++ rest) = name.
Proof.
  intros Hn Hr. induction name as [|a name IH].
  - destruct rest as [|a rest]; [done|]. simpl. change (kind_prefix (String a rest) = EmptyString).
    simpl. by rewrite Hr.
  - simpl in Hn. apply andb_true_iff in Hn as [Ha Hn]. apply negb_true_iff in Ha.
    change (kind_prefix (String a (name ++ rest)) = String a name). simpl. by rewrite Ha, IH.
Qed.

(** [raise::<T>(e, retryable, code)]. *)
Definition raise {E} `{NativeErr E} (T : exn) (e : E) (retryable : bool) (code : option Z) : pyerr :=
  mk_pyerr T [Disp (display e)] (Some (kind_of e)) (Some retryable) (Some code) None None.

Section mapping.
Context `{NativeErr SessionErr, NativeErr StreamErr, NativeErr OpenErr,
  NativeErr DatagramErr, NativeErr PipeErr, NativeErr ConnectErr}.
(** [SessionError::is_early_data_rejected] and the text of an I/O error. *)
Context (is_early_data_rejected : SessionErr -> bool).

Definition session_err (e : SessionErr) : pyerr :=
  let '(code, reason, remote) :=
    match e with
    | ApplicationClosed code reason remote => (Some code, Some reason, Some remote)
    | TransportClosed code reason remote => (Some code, Some reason, Some remote)
    | IdleTimeout remote => (None, None, Some remote)
    | OtherSession _ => (None, None, None)
    end in
  let err :=
    if is_early_data_rejected e then raise EarlyDataRejected e (is_retryable e) code
    else raise SessionClosed e (is_retryable e) code in
  mk_pyerr (e_class err) (e_msg err) (e_kind err) (e_retryable err) (e_code err)
    (Some reason) (Some remote).

Definition stream_err (e : StreamErr) : pyerr :=
  match e with
  | SReset code => raise StreamReset e (is_retryable e) (Some code)
  | SStopped code => raise StreamStopped e (is_retryable e) (Some code)
  | SSessionLost s => session_err s
  | SPreambleTooLarge => new_err PreambleTooLargeError [Disp (display e)]
  | _ => raise StreamError e (is_retryable e) None
  end.

Definition open_err (e : OpenErr) : pyerr :=
  match e with
  | OSessionLost s => session_err s
  | OPreambleTooLarge => new_err PreambleTooLargeError [Disp (display e)]
  | _ => raise OpenError e (is_retryable e) None
  end.

Definition datagram_err (e : DatagramErr) : pyerr :=
  match e with
  | DSessionLost s => session_err s
  | _ => raise DatagramError e (is_retryable e) None
  end.

Definition pipe_err (e : PipeErr) : pyerr :=
  match e with
  | PSessionLost s => session_err s
  | PInvalidOptions => new_err PyValueError [Disp (display e)]
  | _ => raise PipeError e (is_retryable e) None
  end.

Definition connect_err (e : ConnectErr) : pyerr :=
  match e with
  | CClosed s => session_err s
  | _ => raise ConnectError e (is_retryable e) None
  end.

(** [io_err]: a [ConnectError] whose kind is then set to [Io]. *)
Definition io_err {E} `{NativeErr E} (e : E) : pyerr :=
  let err := raise ConnectError e false None in
  mk_pyerr (e_class err) (e_msg err) (Some "Io") (e_retryable err) (e_code err) (e_reason err) (e_remote err).

(** The errors of one call on a session, of any of its parts. *)
Inductive native :=
  | NSession (e : SessionErr) | NStream (e : StreamErr) | NOpen (e : OpenErr)
  | NDatagram (e : DatagramErr) | NPipe (e : PipeErr) | NConnect (e : ConnectErr).

Definition native_err (n : native) : pyerr :=
  match n with
  | NSession e => session_err e | NStream e => stream_err e | NOpen e => open_err e
  | NDatagram e => datagram_err e | NPipe e => pipe_err e | NConnect e => connect_err e
  end.

(** The session's end behind an error. *)
Definition lost_session (n : native) : option SessionErr :=
  match n with
  | NSession s | NStream (SSessionLost s) | NOpen (OSessionLost s) | NDatagram (DSessionLost s)
  | NPipe (PSessionLost s) | NConnect (CClosed s) => Some s
  | _ => None
  end.

(** An exception with the attributes of the native error [x]: its text, its
    kind, whether it is worth a retry, and the code of a reset, a stop or a
    close; [reason] and [remote] only where a session ended. *)
Definition carries {E} `{NativeErr E} (e : pyerr) (c : exn) (x : E) (code : option Z)
    (reason : option (option bytes)) (remote : option (option bool)) : Prop :=
  e_class e = c /\ e_msg e = [Disp (display x)] /\ e_kind e = Some (kind_of x) /\
  e_retryable e = Some (is_retryable x) /\ e_code e = Some code /\ e_reason e = reason /\ e_remote e = remote.
(** A refused argument: no attributes but the text. *)
Definition refuses {E} `{NativeErr E} (e : pyerr) (c : exn) (x : E) : Prop :=
  e_class e = c /\ e_msg e = [Disp (display x)] /\ e_kind e = None /\ e_retryable e = None /\ e_code e = None.

(** The end of a session: who ended it, and with which code and reason, where
    the native error says so. *)
Definition tells_end (e : pyerr) (s : SessionErr) : Prop :=
  let c := if is_early_data_rejected s then EarlyDataRejected else SessionClosed in
  match s with
  | ApplicationClosed code reason remote | TransportClosed code reason remote =>
      carries e c s (Some code) (Some (Some reason)) (Some (Some remote))
  | IdleTimeout remote => carries e c s None (Some None) (Some (Some remote))
  | OtherSession _ => carries e c s None (Some None) (Some None)
  end.

Lemma session_err_tells s : tells_end (session_err s) s.
Proof. unfold tells_end, session_err. destruct s, (is_early_data_rejected _); done. Qed.

(** C32: every native error becomes the exception of its own class, with its
    text and its attributes: a reset is [StreamReset] and a stop
    [StreamStopped], each with the peer's code; the end of a session
    [SessionClosed], or [EarlyDataRejected], with the code, the reason and the
    side that closed it where it was closed with them, and it is one and the
    same exception whichever call reports it; every other error has the class of
    its call and no code.  All of these are caught by [except ZmuxError], those
    of a stream by [except StreamError], and none by [except ValueError]; the
    refused arguments, a preamble too large and bad pipe options, are
    [ValueError]s instead, without those attributes. *)
Theorem native_errors_catchable n :
  let e := native_err n in
  match n with
  | NSession s => tells_end e s
  | NStream x =>
      match x with
      | SReset code => carries e StreamReset x (Some code) None None
      | SStopped code => carries e StreamStopped x (Some code) None None
      | SSessionLost s => tells_end e s
      | SPreambleTooLarge => refuses e PreambleTooLargeError x
      | SClosedLocally | OtherStream _ => carries e StreamError x None None None
      end
  | NOpen x =>
      match x with
      | OSessionLost s => tells_end e s
      | OPreambleTooLarge => refuses e PreambleTooLargeError x
      | OtherOpen _ => carries e OpenError x None None None
      end
  | NDatagram x =>
      match x with
      | DSessionLost s => tells_end e s
      | OtherDatagram _ => carries e DatagramError x None None None
      end
  | NPipe x =>
      match x with
      | PSessionLost s => tells_end e s
      | PInvalidOptions => refuses e PyValueError x
      | OtherPipe _ => carries e PipeError x None None None
      end
  | NConnect x =>
      match x with
      | CClosed s => tells_end e s
      | OtherConnect _ => carries e ConnectError x None None None
      end
  end /\
  (forall s, lost_session n = Some s -> e = session_err s) /\
  catches ZmuxError (e_class e) = negb (catches PyValueError (e_class e)) /\
  (catches PyValueError (e_class e) = true <-> e_retryable e = None) /\
  (catches StreamError (e_class e) = true <->
     match n with NStream SPreambleTooLarge => False | NStream _ => lost_session n = None | _ => False end).
Proof.
  pose proof session_err_tells as Hs.
  assert (forall s, e_class (session_err s) = SessionClosed \/ e_class (session_err s) = EarlyDataRejected) as Hc.
  { intros s. unfold session_err. destruct s, (is_early_data_rejected _); auto. }
  assert (forall s, is_Some (e_retryable (session_err s))) as Hr.
  { intros s. unfold session_err. destruct s, (is_early_data_rejected _); eauto. }
  assert (forall s, catches ZmuxError (e_class (session_err s)) = negb (catches PyValueError (e_class (session_err s))) /\
    (catches PyValueError (e_class (session_err s)) = true <-> e_retryable (session_err s) = None) /\
    catches StreamError (e_class (session_err s)) = false) as Hk.
  { intros s. destruct (Hr s) as [r ->]. by destruct (Hc s) as [-> | ->]. }
  destruct n as [s|[]|[]|[]|[]|[]]; cbn [native_err stream_err open_err datagram_err pipe_err connect_err lost_session];
    try (split; [done|]; split; [intros ? [=]|]; by split_and!);
    (split; [apply Hs|]; split; [by intros ? [= ->]|]);
    match goal with |- context [session_err ?s] => destruct (Hk s) as (? & ? & ->) end; by split_and!.
Qed.

End mapping.
