(* ===== verification/Shaping.v ===== *)
(** Shaping (src/src/shaping.rs): the seeded random source of [set_shaper]
    ([SplitMix], [fold]), the bounds read from Python ([session_limits],
    [size_limits]) and the factory that picks a definition by carrier kind
    ([ByKind]). *)
From S2P Require Import Prelude Duration Pyo3.
Open Scope Z_scope.

(** ** SplitMix64 *)
Module SplitMix.

(** The state is the u64 the struct holds. *)
Definition GAMMA : Z := 0x9e3779b97f4a7c15.
Definition MUL1 : Z := 0xbf58476d1ce4e5b9.
Definition MUL2 : Z := 0x94d049bb133111eb.

(** The output of a state: two xor-shift-multiply rounds and a xor-shift. *)
Definition mix (z : Z) : Z :=
  let z := wrap64 (Z.lxor z (Z.shiftr z 30) * MUL1) in
  let z := wrap64 (Z.lxor z (Z.shiftr z 27) * MUL2) in
  Z.lxor z (Z.shiftr z 31).

(** [Source::next_u64]: the value drawn and the new state. *)
Definition next_u64 (s : Z) : Z * Z :=
  let s := wrap64 (s + GAMMA) in (mix s, s).

(** [n] draws: the state after them. *)
Fixpoint draws (n : nat) (s : Z) : Z :=
  match n with O => s | S n => draws n (next_u64 s).2 end.

(** [u64::from_le_bytes]. *)
Fixpoint le_bytes (b : bytes) : Z :=
  match b with
  | [] => 0
  | h :: t => Z.of_N (Byte.to_N h) + 2 ^ 8 * le_bytes t
  end.

(** [seed.chunks(8)]; one unit of fuel per byte is enough. *)
Fixpoint chunks_go (fuel : nat) (b : bytes) : list bytes :=
  match fuel, b with
  | S fuel, _ :: _ => take 8 b :: chunks_go fuel (drop 8 b)
  | _, _ => []
  end.
Definition chunks (b : bytes) : list bytes := chunks_go (length b) b.

(** [b[..c.len()].copy_from_slice(c)] on eight zero bytes. *)
Definition pad8 (c : bytes) : bytes := c ++ replicate (8 - length c) Byte.x00.

(** One iteration of the loop of [fold] on (source, s). *)
Definition fold_chunk (ms : Z * Z) (c : bytes) : Z * Z :=
  let '(m, s) := ms in
  let m := Z.lxor m (le_bytes (pad8 c)) in
  let '(z, m) := next_u64 m in
  (m, Z.lxor s z).

Definition fold (seed : bytes) : Z :=
  let m := wrap64 (Z.of_nat (length seed)) in
  let '(s, m) := next_u64 m in
  (foldl fold_chunk (m, s) (chunks seed)).2.

(** *** u64 bit operations *)

Lemma in_u64_bits n : in_u64 n <-> 0 <= n /\ forall i, 64 <= i -> Z.testbit n i = false.
Proof.
  unfold in_u64. split.
  - intros [H0 H]. split; [done|]. intros i Hi.
    destruct (Z.eq_dec n 0) as [->|Hn]; [apply Z.bits_0|].
    apply Z.bits_above_log2; [done|].
    apply Z.lt_le_trans with 64; [|done]. apply Z.log2_lt_pow2; lia.
  - intros [H0 H]. split; [done|].
    destruct (Z.eq_dec n 0) as [->|Hn]; [lia|].
    apply Z.log2_lt_pow2; [lia|]. apply Z.nle_gt. intros Hl.
    pose proof (Z.bit_log2 n ltac:(lia)). rewrite H in *; done.
Qed.

Lemma lxor_u64 a b : in_u64 a -> in_u64 b -> in_u64 (Z.lxor a b).
Proof.
  rewrite !in_u64_bits. intros [? Ha] [? Hb]. split; [by apply Z.lxor_nonneg|].
  intros i Hi. rewrite Z.lxor_spec, Ha, Hb; done.
Qed.

Lemma shiftr_u64 a k : 0 <= k -> in_u64 a -> in_u64 (Z.shiftr a k).
Proof.
  rewrite !in_u64_bits. intros Hk [? Ha]. split; [by apply Z.shiftr_nonneg|].
  intros i Hi. rewrite Z.shiftr_spec by lia. apply Ha. lia.
Qed.

Lemma shiftr_out a k : 64 <= k -> in_u64 a -> Z.shiftr a k = 0.
Proof.
  rewrite in_u64_bits. intros Hk [? Ha]. apply Z.bits_inj'. intros i Hi.
  rewrite Z.shiftr_spec, Z.bits_0 by lia. apply Ha. lia.
Qed.

#[local] Hint Resolve lxor_u64 shiftr_u64 wrap64_range : zmux.

(** A xor-shift by at least 22 bits is undone by two more shifts. *)
Definition xorshift (k x : Z) : Z := Z.lxor x (Z.shiftr x k).
Definition unxorshift (k y : Z) : Z :=
  Z.lxor (Z.lxor y (Z.shiftr y k)) (Z.shiftr y (k + k)).

Lemma unxorshift_xorshift k x :
  64 <= k + k + k -> 0 <= k -> in_u64 x -> unxorshift k (xorshift k x) = x.
Proof.
  intros Hk H0 Hx. unfold unxorshift, xorshift.
  rewrite !Z.shiftr_lxor, !Z.shiftr_shiftr by lia.
  rewrite (shiftr_out x (k + (k + k))) by (done || lia).
  apply Z.bits_inj'. intros i Hi. rewrite !Z.lxor_spec, Z.bits_0.
  destruct (Z.testbit x i), (Z.testbit (Z.shiftr x k) i), (Z.testbit (Z.shiftr x (k + k)) i);
    reflexivity.
Qed.

(** A multiplication by an odd constant is undone by its inverse. *)
Lemma unmul a b x : wrap64 (a * b) = 1 -> in_u64 x -> wrap64 (wrap64 (x * a) * b) = x.
Proof.
  unfold wrap64. intros Hab Hx. rewrite Z.mul_mod_idemp_l by lia.
  rewrite <- Z.mul_assoc, <- Z.mul_mod_idemp_r, Hab by lia.
  rewrite Z.mul_1_r. by apply Z.mod_small.
Qed.

Definition unmix (y : Z) : Z :=
  let y := unxorshift 31 y in
  let y := wrap64 (y * 0x319642b2d24d8ec3) in
  let y := unxorshift 27 y in
  let y := wrap64 (y * 0x96de1b173f119089) in
  unxorshift 30 y.

Lemma unmix_mix z : in_u64 z -> unmix (mix z) = z.
Proof.
  intros Hz. unfold unmix, mix. fold (xorshift 30 z).
  assert (in_u64 (xorshift 30 z)) as H1 by (unfold xorshift; auto with zmux lia).
  set (a := wrap64 (xorshift 30 z * MUL1)).
  fold (xorshift 27 a).
  assert (in_u64 (xorshift 27 a)) as H2.
  { unfold xorshift. apply lxor_u64; [|apply shiftr_u64; [lia|]]; apply wrap64_range. }
  set (b := wrap64 (xorshift 27 a * MUL2)).
  fold (xorshift 31 b).
  rewrite unxorshift_xorshift by (lia || apply wrap64_range).
  unfold b. rewrite unmul by done.
  rewrite unxorshift_xorshift by (lia || apply wrap64_range).
  unfold a. rewrite unmul by done.
  by rewrite unxorshift_xorshift by (lia || done).
Qed.

Lemma mix_range z : in_u64 (mix z).
Proof. unfold mix. apply lxor_u64; [|apply shiftr_u64; [lia|]]; apply wrap64_range. Qed.

Lemma mix_inj x y : in_u64 x -> in_u64 y -> mix x = mix y -> x = y.
Proof. intros Hx Hy H. by rewrite <- (unmix_mix x), <- (unmix_mix y), H. Qed.

Lemma draws_state n s : in_u64 s -> draws n s = wrap64 (s + Z.of_nat n * GAMMA).
Proof.
  revert s. induction n as [|n IH]; intros s Hs.
  - simpl. by rewrite Z.add_0_r, wrap64_small.
  - cbn [draws next_u64 snd]. rewrite IH by apply wrap64_range. unfold wrap64.
    rewrite Z.add_mod_idemp_l by lia. f_equal. lia.
Qed.

Lemma wrap64_eq_div a b : wrap64 a = wrap64 b -> (2 ^ 64 | a - b).
Proof. unfold wrap64. intros H. apply Z.mod_divide; [lia|]. by rewrite Zminus_mod, H, Z.sub_diag. Qed.

Lemma GAMMA_coprime : Z.gcd (2 ^ 64) GAMMA = 1.
Proof. reflexivity. Qed.

Lemma draws_distinct i j s :
  in_u64 s -> Z.of_nat i < 2 ^ 64 -> Z.of_nat j < 2 ^ 64 -> draws i s = draws j s -> i = j.
Proof.
  intros Hs Hi Hj. rewrite !draws_state by done. intros H%wrap64_eq_div.
  assert ((2 ^ 64 | GAMMA * (Z.of_nat i - Z.of_nat j))) as Hd.
  { replace (GAMMA * _) with (s + Z.of_nat i * GAMMA - (s + Z.of_nat j * GAMMA)) by lia. done. }
  apply Z.gauss in Hd; [|apply GAMMA_coprime].
  destruct Hd as [q Hq]. assert (q = 0) by nia. lia.
Qed.

(** C38: the seeded source has full period: from any state, the 2^64 draws
    after it are pairwise different values, so no value of a session's shaping
    stream repeats before every u64 was drawn. *)
Theorem splitmix_full_period s i j :
  in_u64 s -> Z.of_nat i < 2 ^ 64 -> Z.of_nat j < 2 ^ 64 -> i <> j ->
  (next_u64 (draws i s)).1 <> (next_u64 (draws j s)).1.
Proof.
  intros Hs Hi Hj Hne H. apply Hne. apply mix_inj in H; [|apply wrap64_range..].
  apply (draws_distinct i j s); [done..|].
  assert (forall n, in_u64 (draws n s)) as Hd
    by (intros n; rewrite draws_state by done; apply wrap64_range).
  apply wrap64_eq_div in H. destruct H as [q Hq].
  pose proof (Hd i). pose proof (Hd j). unfold in_u64 in *. nia.
Qed.

Lemma splitmix_full_period_witness :
  (next_u64 (draws 0 7)).1 <> (next_u64 (draws 5 7)).1.
Proof. apply (splitmix_full_period 7 0 5); unfold in_u64; lia. Defined.

(** *** Seeds *)

Lemma to_N_byte b : 0 <= Z.of_N (Byte.to_N b) < 2 ^ 8.
Proof. pose proof (Byte.to_N_bounded b). lia. Qed.

Lemma le_bytes_range b : 0 <= le_bytes b < 2 ^ (8 * Z.of_nat (length b)).
Proof.
  induction b as [|h t IH]; simpl length; [simpl; lia|].
  rewrite Nat2Z.inj_succ, Z.mul_succ_r, Z.add_comm, Z.pow_add_r by lia.
  cbn [le_bytes]. pose proof (to_N_byte h). lia.
Qed.

Lemma le_bytes_inj a b : length a = length b -> le_bytes a = le_bytes b -> a = b.
Proof.
  revert b. induction a as [|x a IH]; intros [|y b]; try done.
  intros [= Hl] H. cbn [le_bytes] in H.
  pose proof (to_N_byte x). pose proof (to_N_byte y).
  assert (Byte.to_N x = Byte.to_N y) as Hxy by lia.
  f_equal; [|apply IH; [done | lia]].
  apply (f_equal Byte.of_N) in Hxy. rewrite !Byte.of_to_N in Hxy. congruence.
Qed.

Lemma pad8_length c : (length c <= 8)%nat -> length (pad8 c) = 8%nat.
Proof. intros. unfold pad8. rewrite length_app, length_replicate. lia. Qed.

Lemma pad8_inj a b : length a = length b -> pad8 a = pad8 b -> a = b.
Proof. unfold pad8. intros Hl H. rewrite Hl in H. by apply app_inj_1 in H as [-> _]. Qed.

(** The chunks are the seed, eight bytes at a time: the fuel is enough. *)
Lemma chunks_concat b : concat (chunks b) = b.
Proof.
  unfold chunks. enough (forall n b, (length b <= n)%nat -> concat (chunks_go n b) = b) by eauto.
  induction n as [|n IH]; intros [|x l] Hl; simpl in *; try done; [lia|].
  rewrite IH; [|rewrite length_drop; lia].
  change (take 8 (x :: l) ++ drop 8 (x :: l) = x :: l). apply take_drop.
Qed.

Lemma chunks_short b : b <> [] -> (length b <= 8)%nat -> chunks b = [b].
Proof.
  destruct b as [|x l]; [done|]. intros _ Hl. unfold chunks. cbn [length chunks_go].
  rewrite take_ge, drop_ge by (simpl in *; lia). by destruct (length l).
Qed.

Lemma lxor_inj_r c a b : Z.lxor c a = Z.lxor c b -> a = b.
Proof.
  intros H. apply (f_equal (Z.lxor c)) in H.
  by rewrite <- !Z.lxor_assoc, !Z.lxor_nilpotent, !Z.lxor_0_l in H.
Qed.

Lemma wrap64_add_inj a b c : in_u64 a -> in_u64 b -> wrap64 (a + c) = wrap64 (b + c) -> a = b.
Proof. unfold in_u64. intros Ha Hb [q Hq]%wrap64_eq_div. nia. Qed.

Lemma fold_chunk_range m s c :
  in_u64 m -> in_u64 s -> in_u64 (fold_chunk (m, s) c).1 /\ in_u64 (fold_chunk (m, s) c).2.
Proof. intros. split; [apply wrap64_range|]. apply lxor_u64; [done | apply mix_range]. Qed.

Lemma fold_range seed : in_u64 (fold seed).
Proof.
  unfold fold. cbn [next_u64].
  enough (forall l ms, in_u64 ms.1 -> in_u64 ms.2 -> in_u64 (foldl fold_chunk ms l).2) as H
    by (apply H; [apply wrap64_range | apply mix_range]).
  induction l as [|c l IH]; intros [m s] Hm Hs; [done|].
  destruct (fold_chunk_range m s c Hm Hs). apply IH; assumption.
Qed.

Lemma fold_short seed :
  seed <> [] -> (length seed <= 8)%nat ->
  fold seed =
    let m := wrap64 (wrap64 (Z.of_nat (length seed)) + GAMMA) in
    Z.lxor (mix m) (mix (wrap64 (Z.lxor m (le_bytes (pad8 seed)) + GAMMA))).
Proof. intros. unfold fold. by rewrite chunks_short. Qed.

(** Seeding does not collapse: two different seeds of the same length of
    at most eight bytes start the source in different states (and every seed
    gives a u64 state). *)
Theorem fold_short_seeds_distinct a b :
  length a = length b -> (length a <= 8)%nat -> a <> b ->
  in_u64 (fold a) /\ in_u64 (fold b) /\ fold a <> fold b.
Proof.
  intros Hl H8 Hne. split; [apply fold_range|]. split; [apply fold_range|].
  assert (a <> [] /\ b <> []) as [Ha Hb] by (destruct a, b; naive_solver).
  intros H. apply Hne.
  rewrite !fold_short, <- Hl in H by (done || lia). cbv zeta in H.
  apply lxor_inj_r, mix_inj in H; [|apply wrap64_range..].
  apply wrap64_add_inj in H.
  - apply lxor_inj_r, le_bytes_inj, pad8_inj in H; [done..|]. by rewrite !pad8_length by lia.
  - apply lxor_u64; [apply wrap64_range|].
    pose proof (le_bytes_range (pad8 a)) as Hr. by rewrite pad8_length in Hr by lia.
  - apply lxor_u64; [apply wrap64_range|].
    pose proof (le_bytes_range (pad8 b)) as Hr. by rewrite pad8_length in Hr by lia.
Qed.

Lemma fold_short_seeds_distinct_witness :
  fold [Byte.x61; Byte.x62] <> fold [Byte.x61; Byte.x63].
Proof.
  apply (fold_short_seeds_distinct [Byte.x61; Byte.x62] [Byte.x61; Byte.x63]);
    [reflexivity | simpl; lia | discriminate].
Defined.
End SplitMix.

(** ** Bounds and definitions read from Python *)
Section bounds.
Context {P : Py}.

(** [attr]: [o.name] converted. *)
Definition attr {T} (extract : obj -> PyResult T) (o : obj) (name : string) : PyResult T :=
  v ← getattr o name; extract v.

(** [secs] of shaping.rs. *)
Definition attr_secs (o : obj) (name : string) : PyResult (option Duration) :=
  v ← attr (extract_opt extract_f64) o name;
  map_transpose (fun v => ok_or (try_from_secs_f64 v) (new_err PyValueError (secs_msg name))) v.

Record Limits := mk_limits {
  max_padding_bytes : option Z;
  max_padding_ratio : option f64;
  max_injected : option Z;
  max_pause_total : option Duration;
  max_delay : option Duration;
}.

(** [session_limits]; [validate] is the zmux crate's check of the limits
    ([Some m]: rejected with the message [m]). *)
Definition session_limits (validate : Limits -> option string) (o : obj) : PyResult Limits :=
  a ← attr (extract_opt extract_u64) o "max_padding_bytes";
  b ← attr (extract_opt extract_f64) o "max_padding_ratio";
  c ← attr (extract_opt extract_u64) o "max_injected";
  d ← attr_secs o "max_pause_total";
  e ← attr_secs o "max_delay";
  let l := mk_limits a b c d e in
  match validate l with
  | Some m => Err (new_err PyValueError [Disp m])
  | None => Ok l
  end.

Record SizeLimits := mk_size_limits {
  sl_max_bytes : option Z;
  sl_max_machines : option Z;
  sl_max_states : option Z;
  sl_max_actions : option Z;
  sl_max_transitions : option Z;
  sl_max_points : option Z;
}.

Definition size_limits (o : obj) : PyResult SizeLimits :=
  a ← attr (extract_opt extract_usize) o "max_bytes";
  b ← attr (extract_opt extract_usize) o "max_machines";
  c ← attr (extract_opt extract_usize) o "max_states";
  d ← attr (extract_opt extract_usize) o "max_actions";
  e ← attr (extract_opt extract_usize) o "max_transitions";
  f ← attr (extract_opt extract_usize) o "max_points";
  Ok (mk_size_limits a b c d e f).

(** The executor options: the definition bounds and the source ([None]: the
    operating system's generator; [Some s]: SplitMix64 from state [s], a new
    one for each pipe). *)
Record Options := mk_options { opt_limits : option SizeLimits; opt_source : option Z }.

Definition options (limits : option obj) (seed : option bytes) : PyResult Options :=
  let o := mk_options None None in
  o ← match limits with
      | Some l => sl ← size_limits l; Ok (mk_options (Some sl) (opt_source o))
      | None => Ok o
      end;
  match seed with
  | Some seed => Ok (mk_options (opt_limits o) (Some (SplitMix.fold seed)))
  | None => Ok o
  end.
End bounds.

(** ** Shaping by carrier kind *)
Module ByKind.
Section by_kind.
Context {P : Py}.
(** The zmux crate's carrier kinds with their names, and the shaping crate's
    factories with the parser of their JSON form. *)
Context {CarrierKind : Type} `{Countable CarrierKind}.
Context (from_name : string -> option CarrierKind).
Context {MachineFactory Shaper : Type}.
Context (from_json : string -> Options -> MachineFactory + string).
Context (factory_shaper : MachineFactory -> Shaper).

Record ByKind := mk_by_kind {
  kinds : gmap CarrierKind MachineFactory;
  default : option MachineFactory;
}.

(** [Factory::shaper] of a pipe of carrier kind [carrier]. *)
Definition shaper (f : ByKind) (carrier : option CarrierKind) : option Shaper :=
  factory_shaper <$>
    match carrier ≫= (fun k => kinds f !! k) with
    | Some m => Some m
    | None => default f
    end.

(** [carrier_kind]: a [CarrierKind] member or its name. *)
Definition carrier_kind (k : obj) : PyResult CarrierKind :=
  name ← match getattr k "value" with
         | Ok v => if is_str k then extract_str k else extract_str v
         | Err _ => extract_str k
         end;
  ok_or (from_name name) (new_err PyValueError [Lit "unknown carrier kind "; Dbg name]).

(** One iteration of the loop of [by_kind]. *)
Definition by_kind_item (o : Options) (f : ByKind) (item : obj) : PyResult ByKind :=
  '(k, v) ← extract_kv item;
  m ← match from_json v o with
      | inl m => Ok m
      | inr e => Err (new_err PyValueError [Disp e])
      end;
  if is_none k then Ok (mk_by_kind (kinds f) (Some m))
  else (c ← carrier_kind k; Ok (mk_by_kind (<[c := m]> (kinds f)) (default f))).

Fixpoint by_kind_loop (o : Options) (f : ByKind) (items : list obj) : PyResult ByKind :=
  match items with
  | [] => Ok f
  | i :: items => f ← by_kind_item o f i; by_kind_loop o f items
  end.

Definition by_kind (map : obj) (o : Options) : PyResult ByKind :=
  match mapping_items map with
  | None => Err (new_err PyValueError [Lit "by_kind is a mapping"])
  | Some items => items ← items; by_kind_loop o (mk_by_kind ∅ None) items
  end.

(** What an item says: the key ([None]: the default) and its definition. *)
Definition item_entry (o : Options) (item : obj) : PyResult (option CarrierKind * MachineFactory) :=
  '(k, v) ← extract_kv item;
  m ← match from_json v o with
      | inl m => Ok m
      | inr e => Err (new_err PyValueError [Disp e])
      end;
  if is_none k then Ok (None, m) else (c ← carrier_kind k; Ok (Some c, m)).

(** The definition a mapping gives for a key: its last entry. *)
Fixpoint last_entry (k : option CarrierKind)
    (es : list (option CarrierKind * MachineFactory)) : option MachineFactory :=
  match es with
  | [] => None
  | (k', m) :: es =>
      match last_entry k es with
      | Some m' => Some m'
      | None => if decide (k = k') then Some m else None
      end
  end.

(** The specification: the kind's own entry, else the default's. *)
Definition select (es : list (option CarrierKind * MachineFactory)) (c : option CarrierKind) :
    option MachineFactory :=
  match c ≫= (fun k => last_entry (Some k) es) with
  | Some m => Some m
  | None => last_entry None es
  end.

Fixpoint entries (o : Options) (items : list obj) :
    PyResult (list (option CarrierKind * MachineFactory)) :=
  match items with
  | [] => Ok []
  | i :: items => e ← item_entry o i; es ← entries o items; Ok (e :: es)
  end.

Lemma by_kind_item_entry o f i :
  by_kind_item o f i =
    (e ← item_entry o i;
     Ok match e.1 with
        | None => mk_by_kind (kinds f) (Some e.2)
        | Some c => mk_by_kind (<[c := e.2]> (kinds f)) (default f)
        end).
Proof.
  unfold by_kind_item, item_entry. destruct (extract_kv i) as [[k v]|]; [simpl|done].
  destruct (from_json v o); simpl; [|done]. destruct (is_none k); [done|].
  by destruct (carrier_kind k).
Qed.

(** The loop's lookups: the last entry, else what the factory held. *)
Lemma by_kind_loop_spec o items f es f' :
  entries o items = Ok es -> by_kind_loop o f items = Ok f' ->
  (forall k, kinds f' !! k = match last_entry (Some k) es with Some m => Some m | None => kinds f !! k end) /\
  default f' = match last_entry None es with Some m => Some m | None => default f end.
Proof.
  revert f es. induction items as [|i items IH]; intros f es Hes Hf; simpl in *; [by simplify_eq|].
  rewrite by_kind_item_entry in Hf. destruct (item_entry o i) as [[c m]|] eqn:Ei; [simpl in *|done].
  destruct (entries o items) as [es'|] eqn:Ees; [simpl in *|done]. simplify_eq.
  destruct (IH _ es' eq_refl Hf) as [Hk Hd]. cbn [last_entry]. split.
  - intros k. rewrite Hk. destruct (last_entry (Some k) es'); [done|].
    destruct c as [c|]; [|by repeat case_decide].
    cbn [fst snd kinds]. rewrite lookup_insert. repeat case_decide; congruence.
  - rewrite Hd. destruct (last_entry None es'); [done|].
    by destruct c as [c|]; repeat case_decide.
Qed.

Lemma by_kind_loop_ok o items f :
  is_ok (by_kind_loop o f items) = is_ok (entries o items).
Proof.
  revert f. induction items as [|i items IH]; intros f; [done|]. simpl.
  rewrite by_kind_item_entry. destruct (item_entry o i) as [e|]; [simpl|done].
  rewrite IH. by destruct (entries o items).
Qed.

(** The factory of a mapping shapes a pipe by the definition of its carrier
    kind, else by the default ([None] key), else not at all; of two entries
    for one key the later wins.  It is made exactly when every entry converts
    and parses: one bad entry raises and nothing is made. *)
Theorem by_kind_selects map o items :
  mapping_items map = Some (Ok items) ->
  match entries o items with
  | Ok es => exists f, by_kind map o = Ok f /\
      forall carrier, shaper f carrier = factory_shaper <$> select es carrier
  | Err _ => exists e, by_kind map o = Err e
  end.
Proof.
  intros Hm. unfold by_kind. rewrite Hm. simpl.
  pose proof (by_kind_loop_ok o items (mk_by_kind ∅ None)) as Hok.
  destruct (entries o items) as [es|] eqn:Ees;
    destruct (by_kind_loop o _ items) as [f|] eqn:Ef; try done; [|eauto].
  exists f. split; [done|]. intros carrier.
  destruct (by_kind_loop_spec _ _ _ _ _ Ees Ef) as [Hk Hd].
  unfold shaper, select. f_equal. destruct carrier as [c|]; simpl.
  - rewrite Hk, Hd. cbn [kinds default]. rewrite lookup_empty. by destruct (last_entry (Some c) es), (last_entry None es).
  - rewrite Hd. by destruct (last_entry None es).
Qed.
End by_kind.

(** A mapping with a kind given twice, under its name and its member. *)
Module Example.
Import PyVal.
Definition names (s : string) : option nat :=
  if String.eqb s "quic" then Some 1%nat else if String.eqb s "websocket" then Some 2%nat else None.
Definition parse (s : string) (_ : Options) : string + string :=
  if String.eqb s "" then inr "empty" else inl s.
Definition mapping : pyval :=
  VDict [(VStr "quic", VStr "a"); (VNone, VStr "b"); (VObj [("value", VStr "quic")], VStr "c")].
Definition opts : Options := mk_options None None.
End Example.

Lemma by_kind_selects_witness :
  exists f, by_kind (P:=PyVal.pyval_py) Example.names Example.parse Example.mapping Example.opts = Ok f /\
    shaper id f (Some 1%nat) = Some "c" /\ shaper id f (Some 2%nat) = Some "b".
Proof.
  pose proof (by_kind_selects (P:=PyVal.pyval_py) Example.names Example.parse id
    Example.mapping Example.opts _ eq_refl) as Hs.
  destruct Hs as (f & Hf & Hs). exists f. split; [exact Hf|].
  split; rewrite Hs; reflexivity.
Defined.
End ByKind.
