(* ===== verification/Gate.v ===== *)
(** The exit gate of the runtime threads (src/src/rt.rs, [attach] and
    [_shutdown]): a transition system over the atomics [EXITING] and
    [INFLIGHT], the interpreter lock, the runtime threads inside [attach] and
    the Python thread that runs the [atexit] hook.  Every atomic access is one
    step (both atomics are sequentially consistent); the steps interleave
    freely. *)
From S2P Require Import Prelude.
Open Scope Z_scope.

(** Who holds the interpreter lock: the thread of the hook, another thread of
    Python, or a runtime thread. *)
Inductive actor := Main | Env | Rt (t : nat).

#[global] Instance actor_eq_dec : EqDecision actor.
Proof. solve_decision. Defined.

Record shared := mk_shared {
  exiting : bool;            (* EXITING *)
  inflight : Z;              (* INFLIGHT *)
  gil : option actor;
}.

(** Where a runtime thread is in [attach]; [d] counts the enclosing calls of
    [attach] whose closures are running on the thread.

    - [Out]: in no call;
    - [Counted]: after [INFLIGHT.fetch_add];
    - [Checked]: after [EXITING.load] gave false, before [Python::attach];
    - [Inside]: in the closure of the [d]-th call ([1] is the outermost);
    - [Yielded]: in the closure, the lock given up for another thread;
    - [Leaving]: the closure and [Python::attach] returned, before the drop
      of [Leave];
    - [Bailing]: [EXITING.load] gave true, before the drop of [Leave];
    - [Parked]: in the [park] loop. *)
Inductive pc :=
  | Out
  | Counted (d : nat)
  | Checked (d : nat)
  | Inside (d : nat)
  | Yielded (d : nat)
  | Leaving (d : nat)
  | Bailing (d : nat)
  | Parked (d : nat).

(** Entering [attach] on a runtime thread: [INFLIGHT.fetch_add(1)]. *)
Definition attach_enter (sh : shared) (p : pc) : option (shared * pc) :=
  let sh' := mk_shared (exiting sh) (inflight sh + 1) (gil sh) in
  match p with
  | Out => Some (sh', Counted 0)
  | Inside d => Some (sh', Counted d)
  | _ => None
  end.

(** The next action of [attach] itself on runtime thread [t]; [None]: it waits
    (for the lock) or runs the closure or is parked. *)
Definition attach_step (t : nat) (sh : shared) (p : pc) : option (shared * pc) :=
  match p with
  | Counted d => Some (sh, if exiting sh then Bailing d else Checked d)
  | Bailing d => Some (mk_shared (exiting sh) (inflight sh - 1) (gil sh), Parked d)
  | Checked 0 =>
      match gil sh with
      | None => Some (mk_shared (exiting sh) (inflight sh) (Some (Rt t)), Inside 1)
      | Some _ => None
      end
  | Checked (S d) => Some (sh, Inside (S (S d)))
  | Leaving (S d) =>
      Some (mk_shared (exiting sh) (inflight sh - 1) (gil sh),
            match d with O => Out | S _ => Inside d end)
  | _ => None
  end.

(** The closure of the innermost call returns (or panics: the guard drops
    either way), and the outermost [Python::attach] gives the lock up. *)
Definition attach_return (sh : shared) (p : pc) : option (shared * pc) :=
  match p with
  | Inside 1 => Some (mk_shared (exiting sh) (inflight sh) None, Leaving 1)
  | Inside (S (S d)) => Some (sh, Leaving (S (S d)))
  | _ => None
  end.

(** The hook's thread: [MRun] before the hook; [MStored] after
    [EXITING.store]; [MPoll end n] detached, about to load [INFLIGHT] after [n]
    sleeps; [MTime] after it loaded a positive count, about to read the clock;
    [MSleep end n w] asleep until [w] at the earliest; [MReattach ok] after the
    loop ([ok]: it saw zero), about to take the lock back; [MReturned ok]. *)
Inductive mpc :=
  | MRun
  | MStored
  | MPoll (stop : Z) (n : nat)
  | MTime (stop : Z) (n : nat)
  | MSleep (stop : Z) (n : nat) (wake : Z)
  | MReattach (ok : bool)
  | MReturned (ok : bool).

(** In nanoseconds. *)
Definition EXIT_WAIT : Z := 10 ^ 9.
Definition POLL : Z := 10 ^ 6.

(** The next action of [_shutdown] at time [now]; [None]: it waits. *)
Definition shutdown_step (now : Z) (sh : shared) (m : mpc) : option (shared * mpc) :=
  match m with
  | MRun =>
      match gil sh with
      | Some Main => Some (mk_shared true (inflight sh) (gil sh), MStored)
      | _ => None
      end
  | MStored => Some (mk_shared (exiting sh) (inflight sh) None, MPoll (now + EXIT_WAIT) 0)
  | MPoll stop n => Some (sh, if 0 <? inflight sh then MTime stop n else MReattach true)
  | MTime stop n => Some (sh, if now <? stop then MSleep stop (S n) (now + POLL) else MReattach false)
  | MSleep stop n wake => if wake <=? now then Some (sh, MPoll stop n) else None
  | MReattach ok =>
      match gil sh with
      | None => Some (mk_shared (exiting sh) (inflight sh) (Some Main), MReturned ok)
      | Some _ => None
      end
  | MReturned _ => None
  end.

Record state := mk_state {
  sh : shared;
  threads : list pc;
  main : mpc;
  clock : Z;
}.

Definition init : state := mk_state (mk_shared false 0 None) [] MRun 0.

(** [nest] allows a closure to call [attach] again. *)
Inductive step (nest : bool) : state -> state -> Prop :=
  | step_spawn s ths m c :
      step nest (mk_state s ths m c) (mk_state s (ths ++ [Out]) m c)
  | step_enter s s' ths m c t p p' :
      ths !! t = Some p -> attach_enter s p = Some (s', p') ->
      (nest = true \/ p = Out) ->
      step nest (mk_state s ths m c) (mk_state s' (<[t := p']> ths) m c)
  | step_attach s s' ths m c t p p' :
      ths !! t = Some p -> attach_step t s p = Some (s', p') ->
      step nest (mk_state s ths m c) (mk_state s' (<[t := p']> ths) m c)
  | step_return s s' ths m c t p p' :
      ths !! t = Some p -> attach_return s p = Some (s', p') ->
      step nest (mk_state s ths m c) (mk_state s' (<[t := p']> ths) m c)
  | step_yield e i ths m c t d :
      ths !! t = Some (Inside d) ->
      step nest (mk_state (mk_shared e i (Some (Rt t))) ths m c)
        (mk_state (mk_shared e i None) (<[t := Yielded d]> ths) m c)
  | step_resume e i ths m c t d :
      ths !! t = Some (Yielded d) ->
      step nest (mk_state (mk_shared e i None) ths m c)
        (mk_state (mk_shared e i (Some (Rt t))) (<[t := Inside d]> ths) m c)
  | step_env_take e i ths m c a :
      a = Env \/ (a = Main /\ m = MRun) ->
      step nest (mk_state (mk_shared e i None) ths m c)
        (mk_state (mk_shared e i (Some a)) ths m c)
  | step_env_give e i ths m c a :
      a = Env \/ (a = Main /\ m = MRun) ->
      step nest (mk_state (mk_shared e i (Some a)) ths m c)
        (mk_state (mk_shared e i None) ths m c)
  | step_shutdown s s' ths m m' c :
      shutdown_step c s m = Some (s', m') ->
      step nest (mk_state s ths m c) (mk_state s' ths m' c)
  | step_tick s ths m c k :
      0 < k -> step nest (mk_state s ths m c) (mk_state s ths m (c + k)).

Definition reachable (nest : bool) (s : state) : Prop := steps (step nest) init s.

(** ** The count of the gate *)

(** The guards ([Leave]) a thread holds. *)
Definition weight (p : pc) : nat :=
  match p with
  | Out => 0
  | Counted d | Checked d | Bailing d => S d
  | Inside d | Yielded d | Leaving d | Parked d => d
  end.

Definition total (ths : list pc) : Z := Z.of_nat (sum_list_with weight ths).

Lemma total_insert ths t p q :
  ths !! t = Some p -> total (<[t := q]> ths) = total ths - Z.of_nat (weight p) + Z.of_nat (weight q).
Proof.
  unfold total. revert t. induction ths as [|x ths IH]; intros [|t] Ht; simplify_eq/=; [lia|].
  specialize (IH t Ht). lia.
Qed.

Lemma total_app ths ths' : total (ths ++ ths') = total ths + total ths'.
Proof. unfold total. rewrite sum_list_with_app. lia. Qed.

Lemma total_zero ths t p : total ths = 0 -> ths !! t = Some p -> weight p = 0%nat.
Proof.
  unfold total. revert t. induction ths as [|x ths IH]; intros [|t] H0 Ht; simplify_eq/=; [lia|].
  apply (IH t); [lia|done].
Qed.

(** Closures nest from depth 1. *)
Definition depth_ok (p : pc) : Prop :=
  match p with Inside d | Yielded d | Leaving d => (0 < d)%nat | _ => True end.

Definition counted (s : state) : Prop :=
  inflight (sh s) = total (threads s) /\ Forall depth_ok (threads s).

(** What each action of a thread does to the count and to the flag. *)
Definition counts (s s' : shared) (p p' : pc) : Prop :=
  exiting s' = exiting s /\ depth_ok p' /\
  inflight s' = inflight s - Z.of_nat (weight p) + Z.of_nat (weight p').

#[local] Ltac count_tac := unfold counts; repeat split; simpl in *; (done || lia).

Lemma attach_enter_counts s p s' p' :
  attach_enter s p = Some (s', p') -> depth_ok p -> counts s s' p p'.
Proof. destruct p; intros; simplify_eq/=; count_tac. Qed.

Lemma attach_step_counts t s p s' p' :
  attach_step t s p = Some (s', p') -> depth_ok p -> counts s s' p p'.
Proof.
  destruct p as [|d|[|d]|d|d|[|[|d]]|d|d]; simpl; repeat case_match; intros;
    simplify_eq/=; count_tac.
Qed.

Lemma attach_return_counts s p s' p' :
  attach_return s p = Some (s', p') -> depth_ok p -> counts s s' p p'.
Proof. destruct p as [| | |[|[|d]]| | | |]; simpl; intros; simplify_eq/=; count_tac. Qed.

(** No action of a thread changes the flag. *)
Lemma attach_exiting t s p s' p' :
  attach_enter s p = Some (s', p') \/ attach_step t s p = Some (s', p') \/
    attach_return s p = Some (s', p') ->
  exiting s' = exiting s.
Proof.
  destruct p as [|d|[|d]|[|[|d]]|d|[|d]|d|d]; simpl; intros [H|[H|H]]; repeat case_match;
    by simplify_eq/=.
Qed.

Lemma shutdown_step_count c s m s' m' :
  shutdown_step c s m = Some (s', m') -> inflight s' = inflight s.
Proof. destruct m; simpl; repeat case_match; intros; by simplify_eq/=. Qed.

Lemma counted_update s s' ths m c t p q :
  counted (mk_state s ths m c) -> ths !! t = Some p ->
  (depth_ok p -> counts s s' p q) ->
  counted (mk_state s' (<[t := q]> ths) m c).
Proof.
  intros [Hi Hd] Ht Hc. simpl in *.
  destruct Hc as (_ & Hq & Hs); [by eapply Forall_lookup in Hd|].
  split; simpl; [erewrite total_insert by done; lia | by apply Forall_insert].
Qed.

Lemma counted_step nest s1 s2 : counted s1 -> step nest s1 s2 -> counted s2.
Proof.
  intros Hc Hs. destruct Hs.
  - destruct Hc as [Hi Hd]. split; simpl in *.
    + rewrite total_app. unfold total at 2. simpl. lia.
    + rewrite Forall_app. split; [done|]. by repeat constructor.
  - eapply counted_update; eauto using attach_enter_counts.
  - eapply counted_update; eauto using attach_step_counts.
  - eapply counted_update; eauto using attach_return_counts.
  - eapply counted_update; eauto. simpl. intros. count_tac.
  - eapply counted_update; eauto. simpl. intros. count_tac.
  - done.
  - done.
  - destruct Hc. split; [|done]. simpl in *. by erewrite shutdown_step_count.
  - done.
Qed.

(** ** The interpreter lock *)

(** Whether a thread at [p] holds the lock. *)
Definition holds (p : pc) : bool :=
  match p with
  | Inside _ => true
  | Counted (S _) | Checked (S _) | Bailing (S _) | Parked (S _) => true
  | Leaving (S (S _)) => true
  | _ => false
  end.

Definition holder (s : shared) (ths : list pc) : Prop :=
  forall t p, ths !! t = Some p -> (holds p = true <-> gil s = Some (Rt t)).

(** Out of range, no thread holds it. *)
Definition locked (s : state) : Prop :=
  holder (sh s) (threads s) /\
  (forall t, gil (sh s) = Some (Rt t) -> (t < length (threads s))%nat).

Lemma attach_enter_lock s p s' p' :
  attach_enter s p = Some (s', p') -> depth_ok p -> gil s' = gil s /\ holds p' = holds p.
Proof. destruct p as [| | |[|d]| | | |]; simpl; intros; simplify_eq/=; (done || lia). Qed.

Lemma attach_step_lock t s p s' p' :
  attach_step t s p = Some (s', p') ->
  (gil s' = gil s /\ holds p' = holds p) \/
  (gil s = None /\ gil s' = Some (Rt t) /\ holds p' = true).
Proof.
  destruct p as [|[|d]|[|d]|d|d|[|[|d]]|[|d]|d]; simpl; repeat case_match; intros;
    simplify_eq/=; auto.
Qed.

Lemma attach_return_lock s p s' p' :
  attach_return s p = Some (s', p') ->
  holds p = true /\
  ((gil s' = gil s /\ holds p' = true) \/ (gil s' = None /\ holds p' = false)).
Proof. destruct p as [| | |[|[|d]]| | | |]; simpl; intros; simplify_eq/=; auto. Qed.

Lemma locked_update s s' ths m c t p q :
  locked (mk_state s ths m c) -> ths !! t = Some p ->
  ((gil s' = gil s /\ holds q = holds p) \/
   (gil s = None /\ gil s' = Some (Rt t) /\ holds q = true) \/
   (holds p = true /\ gil s' = None /\ holds q = false)) ->
  locked (mk_state s' (<[t := q]> ths) m c).
Proof.
  intros [Hh Hb] Ht Hc. unfold locked, holder in *. cbn [sh threads] in *. rewrite length_insert.
  pose proof (lookup_lt_Some _ _ _ Ht) as Hlt. pose proof (Hh t p Ht) as Hp.
  split.
  - intros t' p' Ht'. destruct (decide (t = t')) as [<-|Hne].
    + rewrite list_lookup_insert_eq in Ht' by done. apply Some_inj in Ht' as <-.
      destruct Hc as [[E1 E2]|[(_ & E1 & E2)|(_ & E1 & E2)]]; rewrite E1, E2; [done|by split..].
    + rewrite list_lookup_insert_ne in Ht' by done. rewrite (Hh t' p' Ht').
      destruct Hc as [[E1 E2]|[(E1 & E2 & _)|(E1 & E2 & _)]].
      * by rewrite E1.
      * rewrite E1, E2. split; congruence.
      * apply Hp in E1. rewrite E1, E2. split; congruence.
  - intros t' Hg. destruct Hc as [[E _]|[(_ & E & _)|(_ & E & _)]].
    + apply Hb. congruence.
    + congruence.
    + congruence.
Qed.

(** Giving the lock from or to a thread of Python. *)
Lemma locked_other s s' ths m m' c :
  locked (mk_state s ths m c) ->
  (forall t, gil s = Some (Rt t) <-> gil s' = Some (Rt t)) ->
  locked (mk_state s' ths m' c).
Proof.
  intros [Hh Hb] Hg. unfold locked, holder in *. cbn [sh threads] in *. split.
  - intros t p Ht. rewrite <- Hg. by apply Hh.
  - intros t. rewrite <- Hg. apply Hb.
Qed.

Lemma shutdown_step_lock c s m s' m' :
  shutdown_step c s m = Some (s', m') ->
  gil s' = gil s \/ (gil s = None /\ gil s' = Some Main) \/ (m = MStored /\ gil s' = None).
Proof. destruct m; simpl; repeat case_match; intros; simplify_eq/=; auto. Qed.

(** The hook's thread holds the lock only outside its detached part. *)
Definition main_lock (s : state) : Prop :=
  match main s with
  | MRun | MReturned _ => True
  | MStored => gil (sh s) = Some Main
  | _ => gil (sh s) <> Some Main
  end.

(** ** The invariant *)

Definition wait_ok (m : mpc) (c : Z) : Prop :=
  match m with
  | MPoll stop n | MTime stop n =>
      Z.of_nat n * POLL <= EXIT_WAIT /\ stop - EXIT_WAIT + Z.of_nat n * POLL <= c
  | MSleep stop n wake =>
      Z.of_nat n * POLL <= EXIT_WAIT /\ stop - EXIT_WAIT + Z.of_nat n * POLL <= wake
  | _ => True
  end.

(** A thread that is not in Python and cannot enter it once the gate is
    closed. *)
Definition quiet (p : pc) : bool :=
  match p with Out | Counted 0 | Bailing 0 | Parked 0 => true | _ => false end.

Definition saw_zero (m : mpc) : bool :=
  match m with MReattach ok | MReturned ok => ok | _ => false end.

Record inv (s : state) : Prop := {
  inv_counted : counted s;
  inv_locked : locked s;
  inv_main : main_lock s;
  inv_exiting : main s <> MRun -> exiting (sh s) = true;
  inv_wait : wait_ok (main s) (clock s);
  inv_quiet : saw_zero (main s) = true -> Forall (fun p => quiet p = true) (threads s);
}.

Lemma quiet_enter s p s' p' :
  attach_enter s p = Some (s', p') -> quiet p = true -> quiet p' = true.
Proof. destruct p; intros; by simplify_eq/=. Qed.

Lemma quiet_step t s p s' p' :
  attach_step t s p = Some (s', p') -> exiting s = true -> quiet p = true -> quiet p' = true.
Proof.
  destruct p as [|[|d]|[|d]|d|d|d|[|d]|d]; simpl; try done; intros H E _;
    rewrite ?E in H; by simplify_eq/=.
Qed.

Lemma quiet_return s p s' p' :
  attach_return s p = Some (s', p') -> quiet p = true -> quiet p' = true.
Proof. by destruct p. Qed.

(** Once the gate is closed a quiet thread stays quiet. *)
Lemma quiet_preserved nest s1 s2 t :
  step nest s1 s2 -> exiting (sh s1) = true ->
  (forall p, threads s1 !! t = Some p -> quiet p = true) ->
  exiting (sh s2) = true /\ (forall p, threads s2 !! t = Some p -> quiet p = true).
Proof.
  intros Hs He Hq.
  assert (forall (ths : list pc) t0 p0 q, ths !! t0 = Some p0 ->
    (forall p, ths !! t = Some p -> quiet p = true) ->
    (quiet p0 = true -> quiet q = true) ->
    forall p, <[t0 := q]> ths !! t = Some p -> quiet p = true) as Hins.
  { intros ths t0 p0 q Ht0 Hall Hpq p Hp. destruct (decide (t0 = t)) as [->|Hne].
    - rewrite list_lookup_insert_eq in Hp by (by eapply lookup_lt_Some). naive_solver.
    - rewrite list_lookup_insert_ne in Hp by done. eauto. }
  destruct Hs; simpl in *.
  - split; [done|]. intros p [Hp|[_ Hp]]%lookup_app_Some; [eauto|].
    apply list_lookup_singleton_Some in Hp as [_ <-]. done.
  - split; [|by eauto using quiet_enter]. erewrite (attach_exiting t0); eauto.
  - split; [|by eauto using quiet_step]. erewrite (attach_exiting t0); eauto.
  - split; [|by eauto using quiet_return]. erewrite (attach_exiting t0); eauto.
  - split; [done|]. eapply Hins; eauto.
  - split; [done|]. eapply Hins; eauto.
  - done.
  - done.
  - split; [|done]. destruct m; simpl in *; repeat case_match; by simplify_eq/=.
  - done.
Qed.

Lemma locked_step nest s1 s2 : counted s1 -> locked s1 -> main_lock s1 -> step nest s1 s2 -> locked s2.
Proof.
  intros [_ Hd] Hl Hm Hs. destruct Hs; simpl in *.
  - destruct Hl as [Hh Hb]. unfold locked, holder in *. simpl in *. split.
    + intros t p [Hp|[Hlt Hp]]%lookup_app_Some; [eauto|].
      apply list_lookup_singleton_Some in Hp as [Ht <-]. split; [done|].
      intros Hg%Hb. lia.
    + intros t Hg%Hb. rewrite length_app. simpl. lia.
  - eapply locked_update; eauto. left. eapply attach_enter_lock; eauto.
    by eapply Forall_lookup in Hd.
  - eapply locked_update; eauto. destruct (attach_step_lock _ _ _ _ _ H0); tauto.
  - eapply locked_update; eauto. destruct (attach_return_lock _ _ _ _ H0) as [? [[]|[]]];
      [left; split; congruence | tauto].
  - eapply locked_update; eauto.
  - eapply locked_update; eauto.
  - eapply locked_other; eauto. simpl. intros t. by destruct H as [->|[-> _]].
  - eapply locked_other; eauto. simpl. intros t. by destruct H as [->|[-> _]].
  - eapply locked_other; eauto. intros t.
    destruct (shutdown_step_lock _ _ _ _ _ H) as [E|[[E1 E2]|[-> E]]].
    + by rewrite E.
    + rewrite E1, E2. done.
    + unfold main_lock in Hm. simpl in Hm. rewrite E, Hm. done.
  - done.
Qed.

Lemma main_lock_step nest s1 s2 : locked s1 -> main_lock s1 -> step nest s1 s2 -> main_lock s2.
Proof.
  intros [Hh _] Hm Hs. destruct Hs; unfold main_lock, holder in *; simpl in *.
  - done.
  - assert (gil s' = gil s) as -> by (destruct p; by simplify_eq/=). done.
  - destruct (attach_step_lock _ _ _ _ _ H0) as [[-> _]|(E1 & -> & _)]; [done|].
    rewrite E1 in Hm. by destruct m.
  - destruct (attach_return_lock _ _ _ _ H0) as [Hp [[-> _]|[-> _]]]; [done|].
    apply (Hh _ _ H) in Hp. rewrite Hp in Hm. by destruct m.
  - by destruct m.
  - by destruct m.
  - destruct m, H as [->|[-> ?]]; done.
  - destruct m, H as [->|[-> ?]]; done.
  - destruct m; simpl in *; repeat case_match; by simplify_eq/=.
  - done.
Qed.

Lemma exiting_step nest s1 s2 :
  (main s1 <> MRun -> exiting (sh s1) = true) -> step nest s1 s2 ->
  main s2 <> MRun -> exiting (sh s2) = true.
Proof.
  intros He Hs. destruct Hs; simpl in *; try done.
  - erewrite (attach_exiting t); eauto.
  - erewrite (attach_exiting t); eauto.
  - erewrite (attach_exiting t); eauto.
  - destruct m; simpl in *; repeat case_match; simplify_eq/=; auto.
Qed.

Lemma wait_step nest s1 s2 :
  wait_ok (main s1) (clock s1) -> step nest s1 s2 -> wait_ok (main s2) (clock s2).
Proof.
  assert (POLL = 1000000 /\ EXIT_WAIT = 1000000000) as [HP HE] by done.
  intros Hw Hs. destruct Hs; cbn [main clock] in *; try done.
  - destruct m; cbn [shutdown_step wait_ok] in *; repeat case_match; simplify_eq; try done;
      cbn [wait_ok];
      repeat match goal with
             | H : (_ <? _) = true |- _ => apply Z.ltb_lt in H
             | H : (_ <=? _) = true |- _ => apply Z.leb_le in H
             end; lia.
  - destruct m; cbn [wait_ok] in *; lia.
Qed.

(** A zero count means that no thread holds a guard. *)
Lemma zero_quiet s : counted s -> inflight (sh s) <= 0 -> Forall (fun p => quiet p = true) (threads s).
Proof.
  intros [Hi Hd] H0. apply Forall_lookup. intros t p Ht.
  assert (weight p = 0%nat) as Hw.
  { apply (total_zero (threads s) t p); [|done]. unfold total in *. lia. }
  eapply Forall_lookup in Hd; [|done]. destruct p as [| | | | | | |[|d]]; simpl in *; try done; lia.
Qed.

Lemma gate_inv_init : inv init.
Proof.
  split; try done.
Qed.

Lemma gate_inv_step nest s1 s2 : inv s1 -> step nest s1 s2 -> inv s2.
Proof.
  intros [Hc Hl Hm He Hw Hq] Hs. split.
  - by eapply counted_step.
  - by eapply locked_step.
  - by eapply main_lock_step.
  - by eapply exiting_step.
  - by eapply wait_step.
  - intros Hz. destruct (saw_zero (main s1)) eqn:E.
    + apply Forall_lookup. intros t p Hp.
      assert (main s1 <> MRun) by (by destruct (main s1)).
      eapply (quiet_preserved nest s1 s2 t); eauto.
      intros q Hq'. exact (Forall_lookup_1 _ _ _ _ (Hq eq_refl) Hq').
    + destruct Hs; simpl in *; try congruence.
      destruct m; simpl in *; repeat case_match; simplify_eq/=; try congruence.
      apply (zero_quiet (mk_state s' ths MRun c)); [done|]. simpl.
      match goal with H : (_ <? _) = false |- _ => apply Z.ltb_ge in H end. lia.
Qed.

Lemma gate_reachable_inv nest s : reachable nest s -> inv s.
Proof. intros H. eapply (steps_invariant _ inv); eauto using gate_inv_step, gate_inv_init. Qed.

(** ** What the gate guarantees *)

Lemma quiet_forever nest s1 s2 t :
  steps (step nest) s1 s2 -> exiting (sh s1) = true ->
  (forall p, threads s1 !! t = Some p -> quiet p = true) ->
  forall p, threads s2 !! t = Some p -> quiet p = true.
Proof.
  induction 1 as [|s1 s2 s3 H _ IH]; [done|]. intros He Hq.
  destruct (quiet_preserved _ _ _ t H He Hq). eauto.
Qed.

(** Closing the gate is final.  From the moment [EXITING] is set, a runtime
    thread that is outside [attach] (or not started yet) never enters Python
    again, whatever the interleaving: it parks. *)
Theorem gate_never_reopens nest s1 s2 t :
  exiting (sh s1) = true -> default Out (threads s1 !! t) = Out ->
  steps (step nest) s1 s2 ->
  forall p, threads s2 !! t = Some p -> p = Out \/ p = Counted 0 \/ p = Bailing 0 \/ p = Parked 0.
Proof.
  intros He Ht Hs p Hp.
  assert (quiet p = true) as Hq.
  { eapply quiet_forever; eauto. intros q Hq. rewrite Hq in Ht. simpl in Ht. by subst. }
  destruct p as [|[|d]| | | | |[|d]|[|d]]; simpl in Hq; auto; done.
Qed.

(** C1: a clean shutdown is safe.  Once [_shutdown] returns having read a zero
    [INFLIGHT], no runtime thread is in Python, holds the interpreter lock or
    is about to attach, then or in any later state. *)
Theorem gate_clean_exit nest s1 s2 :
  reachable nest s1 -> main s1 = MReturned true -> steps (step nest) s1 s2 ->
  forall t p, threads s2 !! t = Some p ->
    (p = Out \/ p = Counted 0 \/ p = Bailing 0 \/ p = Parked 0) /\
    gil (sh s2) <> Some (Rt t).
Proof.
  intros Hr Hm Hs t p Hp.
  pose proof (gate_reachable_inv _ _ Hr) as Hi.
  pose proof (gate_reachable_inv _ _ (steps_trans _ _ _ _ Hr Hs)) as Hi2.
  assert (quiet p = true) as Hq.
  { eapply quiet_forever; [exact Hs | | |exact Hp].
    - apply (inv_exiting _ Hi). by rewrite Hm.
    - intros q Hq. eapply (Forall_lookup_1 _ _ _ _ (inv_quiet _ Hi ltac:(by rewrite Hm)) Hq). }
  split.
  - destruct p as [|[|d]| | | | |[|d]|[|d]]; simpl in Hq; auto; done.
  - intros Hg. destruct (inv_locked _ Hi2) as [Hh _]. apply (Hh t p Hp) in Hg.
    by destruct p as [|[|d]| | | | |[|d]|[|d]].
Qed.

(** C35: the hook's wait is bounded: it sleeps at most 1000 times (1 ms each)
    and reads [INFLIGHT] at most 1001 times, whatever the runtime threads do. *)
Theorem gate_wait_bounded nest s :
  reachable nest s ->
  match main s with
  | MPoll _ n | MTime _ n | MSleep _ n _ => (n <= 1000)%nat
  | _ => True
  end.
Proof.
  intros Hr. pose proof (inv_wait _ (gate_reachable_inv _ _ Hr)) as Hw.
  assert (POLL = 1000000 /\ EXIT_WAIT = 1000000000) as [HP HE] by done.
  destruct (main s); cbn [wait_ok] in Hw; try done; lia.
Qed.

(** The runs in which no closure calls [attach] again. *)
Definition flat (p : pc) : bool :=
  match p with
  | Out | Counted 0 | Checked 0 | Inside 1 | Yielded 1 | Leaving 1 | Bailing 0 | Parked 0 => true
  | _ => false
  end.

Lemma flat_step s1 s2 :
  Forall (fun p => flat p = true) (threads s1) -> step false s1 s2 ->
  Forall (fun p => flat p = true) (threads s2).
Proof.
  intros Hf Hs.
  assert (forall (ths : list pc) t p q, Forall (fun p => flat p = true) ths -> ths !! t = Some p ->
    (flat p = true -> flat q = true) -> Forall (fun p => flat p = true) (<[t := q]> ths)) as Hins.
  { intros ths t p q H Ht Hpq. apply Forall_insert; [done|]. apply Hpq. by eapply Forall_lookup in H. }
  destruct Hs; cbn [threads] in *; try done.
  - rewrite Forall_app. split; [done|]. by repeat constructor.
  - eapply Hins; eauto. destruct H1 as [?| ->]; [done|]. by simplify_eq/=.
  - eapply Hins; eauto. destruct p as [|[|d]|[|d]|d|d|[|[|d]]|[|d]|d]; simpl in *; try done;
      repeat case_match; by simplify_eq/=.
  - eapply Hins; eauto. destruct p as [| | |[|[|d]]| | | |]; simpl in *; by simplify_eq/=.
  - eapply Hins; eauto.
  - eapply Hins; eauto.
Qed.

Lemma reachable_flat s : reachable false s -> Forall (fun p => flat p = true) (threads s).
Proof. intros H. eapply (steps_invariant _ (fun s => Forall _ (threads s))); eauto using flat_step. Qed.

(** Without nested calls whoever holds the lock gives it up. *)
Lemma flat_free_lock s :
  reachable false s -> gil (sh s) <> Some Main ->
  exists s', steps (step false) s s' /\ gil (sh s') = None /\ main s' = main s.
Proof.
  intros Hr Hg. destruct (gate_reachable_inv _ _ Hr) as [_ [Hh Hb] _ _ _ _].
  pose proof (reachable_flat s Hr) as Hf.
  destruct s as [[e i [[| |t]|]] ths m c]; simpl in *.
  - done.
  - eexists. split; [apply steps_one; by apply step_env_give; left|]. done.
  - destruct (lookup_lt_is_Some_2 ths t (Hb t eq_refl)) as [p Hp].
    pose proof (proj2 (Hh t p Hp) eq_refl) as Hhp.
    eapply Forall_lookup in Hf; [|exact Hp].
    assert (p = Inside 1) as -> by (destruct p as [|[|d]|[|d]|[|[|d]]|d|[|[|d]]|[|d]|[|d]]; done).
    eexists. split; [apply steps_one; eapply step_return; [exact Hp | reflexivity]|]. done.
  - eexists. split; [apply steps_refl|]. done.
Qed.

Lemma flat_tick s k :
  0 < k -> step false s (mk_state (sh s) (threads s) (main s) (clock s + k)).
Proof. destruct s. apply step_tick. Qed.

Lemma flat_hook s s' m' :
  shutdown_step (clock s) (sh s) (main s) = Some (s', m') ->
  step false s (mk_state s' (threads s) m' (clock s)).
Proof. destruct s. apply step_shutdown. Qed.

Lemma flat_reattach s ok :
  reachable false s -> main s = MReattach ok ->
  exists s', steps (step false) s s' /\ main s' = MReturned ok.
Proof.
  intros Hr Hm. pose proof (inv_main _ (gate_reachable_inv _ _ Hr)) as Hl.
  unfold main_lock in Hl. rewrite Hm in Hl.
  destruct (flat_free_lock s Hr Hl) as (s1 & Hs & Hg & Hm1).
  eexists. split; [eapply steps_trans; [exact Hs|]; apply steps_one, flat_hook|].
  - rewrite Hm1, Hm. cbn [shutdown_step]. by rewrite Hg.
  - done.
Qed.

Lemma flat_time s stop n :
  reachable false s -> main s = MTime stop n ->
  exists s' ok, steps (step false) s s' /\ main s' = MReturned ok.
Proof.
  intros Hr Hm.
  set (s1 := mk_state (sh s) (threads s) (main s) (clock s + Z.max 1 (stop - clock s))).
  set (s2 := mk_state (sh s) (threads s) (MReattach false) (clock s1)).
  assert (steps (step false) s s2) as Hs.
  { eapply steps_cons; [apply (flat_tick s (Z.max 1 (stop - clock s))); lia|].
    apply steps_one. apply (flat_hook s1). unfold s1. cbn [clock sh main]. rewrite Hm.
    cbn [shutdown_step]. by rewrite (proj2 (Z.ltb_ge _ _)) by lia. }
  destruct (flat_reattach s2 false) as (s' & Hs' & Hm'); [by eapply steps_trans | done |].
  exists s', false. split; [by eapply steps_trans | done].
Qed.

Lemma flat_poll s stop n :
  reachable false s -> main s = MPoll stop n ->
  exists s' ok, steps (step false) s s' /\ main s' = MReturned ok.
Proof.
  intros Hr Hm.
  set (m1 := if 0 <? inflight (sh s) then MTime stop n else MReattach true).
  assert (step false s (mk_state (sh s) (threads s) m1 (clock s))) as Hs.
  { apply flat_hook. by rewrite Hm. }
  assert (reachable false (mk_state (sh s) (threads s) m1 (clock s))) as Hr1
    by (eapply steps_trans; [exact Hr | by apply steps_one]).
  unfold m1 in *. destruct (0 <? inflight (sh s)).
  - destruct (flat_time _ stop n Hr1 eq_refl) as (s' & ok & Hs' & Hm').
    exists s', ok. split; [by eapply steps_cons | done].
  - destruct (flat_reattach _ true Hr1 eq_refl) as (s' & Hs' & Hm').
    exists s', true. split; [by eapply steps_cons | done].
Qed.

(** Without nested calls the hook never gets stuck: from every reachable
    state after it started, some continuation makes [_shutdown] return (no
    parked thread keeps the interpreter lock from it). *)
Theorem gate_flat_can_return s :
  reachable false s -> main s <> MRun ->
  exists s' ok, steps (step false) s s' /\ main s' = MReturned ok.
Proof.
  intros Hr Hm. destruct (main s) as [| |stop n|stop n|stop n w|ok|ok] eqn:E.
  - done.
  - set (s1 := mk_state (mk_shared (exiting (sh s)) (inflight (sh s)) None) (threads s)
      (MPoll (clock s + EXIT_WAIT) 0) (clock s)).
    assert (step false s s1) as Hs by (apply flat_hook; by rewrite E).
    destruct (flat_poll s1 (clock s + EXIT_WAIT) 0) as (s' & ok & Hs' & Hm');
      [eapply steps_trans; [exact Hr | by apply steps_one] | done |].
    exists s', ok. split; [by eapply steps_cons | done].
  - by eapply flat_poll.
  - by eapply flat_time.
  - set (s1 := mk_state (sh s) (threads s) (main s) (clock s + Z.max 1 (w - clock s))).
    set (s2 := mk_state (sh s) (threads s) (MPoll stop n) (clock s1)).
    assert (steps (step false) s s2) as Hs.
    { eapply steps_cons; [apply (flat_tick s (Z.max 1 (w - clock s))); lia|].
      apply steps_one. apply (flat_hook s1). unfold s1. cbn [clock sh main]. rewrite E.
      cbn [shutdown_step]. by rewrite (proj2 (Z.leb_le _ _)) by lia. }
    destruct (flat_poll s2 stop n) as (s' & ok & Hs' & Hm'); [by eapply steps_trans | done |].
    exists s', ok. split; [by eapply steps_trans | done].
  - destruct (flat_reattach s ok Hr E) as (s' & Hs' & Hm'). eauto.
  - exists s, ok. split; [apply steps_refl | done].
Qed.

(** ** A nested call holds the hook up *)

Definition stuck (s : state) : Prop :=
  inv s /\ gil (sh s) = Some (Rt 0) /\ threads s !! 0%nat = Some (Parked 1) /\
  match main s with MRun | MStored | MReturned _ => False | _ => True end.

Lemma stuck_update s s' ths m c t p q :
  stuck (mk_state s ths m c) -> inv (mk_state s' (<[t := q]> ths) m c) ->
  ths !! t = Some p -> t <> 0%nat -> gil s' = gil s -> stuck (mk_state s' (<[t := q]> ths) m c).
Proof.
  intros (_ & Hg & Hp & Hm) Hi Ht Hne E. unfold stuck. cbn [sh threads main] in *.
  split; [done|]. rewrite E. split; [done|]. split; [|done].
  by rewrite list_lookup_insert_ne by done.
Qed.

Lemma gate_stuck_step nest s1 s2 : stuck s1 -> step nest s1 s2 -> stuck s2.
Proof.
  intros Hst Hs. pose proof (gate_inv_step _ _ _ (proj1 Hst) Hs) as Hi2.
  pose proof Hst as (Hi & Hg & Hp & Hm). destruct (inv_locked _ Hi) as [Hh _].
  destruct Hs; cbn [sh threads main] in *.
  - unfold stuck. cbn [sh threads main]. split; [done|]. split; [done|]. split; [|done].
    by rewrite lookup_app_l by (by eapply lookup_lt_Some).
  - eapply stuck_update; eauto; [|destruct p; by simplify_eq/=].
    intros ->. by simplify_eq/=.
  - eapply stuck_update; eauto; [intros ->; by simplify_eq/=|].
    destruct (attach_step_lock _ _ _ _ _ H0) as [[? _]|(E & _)]; congruence.
  - assert (t <> 0%nat) as Hne by (intros ->; by simplify_eq/=).
    destruct (attach_return_lock _ _ _ _ H0) as [Hq _]. apply (Hh t p H) in Hq. congruence.
  - simpl in Hg. simplify_eq.
  - done.
  - done.
  - simpl in Hg. destruct H as [->|[-> _]]; done.
  - unfold stuck. cbn [sh threads main]. split; [done|].
    destruct m; simpl in *; repeat case_match; simplify_eq/=; repeat split;
      (done || congruence).
  - unfold stuck. cbn [sh threads main]. done.
Qed.

(** The state of the run below: thread 0 passed the gate before it closed, and
    its closure called [attach] again after. *)
Definition nested_state : state :=
  mk_state (mk_shared true 1 (Some (Rt 0))) [Parked 1] (MPoll EXIT_WAIT 0) 0.

Lemma nested_reachable : reachable true nested_state.
Proof.
  unfold reachable, init, nested_state.
  eapply steps_cons; [apply step_spawn|].
  eapply steps_cons; [eapply (step_enter _ _ _ _ _ _ 0); [done | done | by left]|].
  eapply steps_cons; [eapply (step_attach _ _ _ _ _ _ 0); done|].
  eapply steps_cons; [apply step_env_take; by right|].
  eapply steps_cons; [eapply step_shutdown; done|].
  eapply steps_cons; [eapply step_shutdown; done|].
  eapply steps_cons; [eapply (step_attach _ _ _ _ _ _ 0); done|].
  eapply steps_cons; [eapply (step_enter _ _ _ _ _ _ 0); [done | done | by left]|].
  eapply steps_cons; [eapply (step_attach _ _ _ _ _ _ 0); done|].
  eapply steps_cons; [eapply (step_attach _ _ _ _ _ _ 0); done|].
  apply steps_refl.
Qed.

(** C36: a closure that calls [attach] again (as [wait_closed] does through
    [session_err]) can hang the interpreter's exit: there is a run in which a
    runtime thread, let in before the gate closed, parks in the inner call
    while it holds the interpreter lock, and from then on [_shutdown] never
    returns, not even after its one-second limit. *)
Theorem gate_nested_attach_hangs :
  exists s, reachable true s /\ main s <> MRun /\
    threads s !! 0%nat = Some (Parked 1) /\ gil (sh s) = Some (Rt 0) /\
    forall s' ok, steps (step true) s s' -> main s' <> MReturned ok.
Proof.
  exists nested_state. split; [apply nested_reachable|]. split; [done|]. split; [done|].
  split; [done|]. intros s' ok Hs Hm.
  assert (stuck s') as (_ & _ & _ & Hn).
  { eapply (steps_invariant _ stuck (gate_stuck_step true)); [exact Hs|].
    split; [eapply gate_reachable_inv, nested_reachable | done]. }
  by rewrite Hm in Hn.
Qed.

(** ** Concrete runs *)

(** The hook runs while a thread is inside, waits for it to leave, and returns
    having read zero. *)
Definition clean_state : state :=
  mk_state (mk_shared true 0 (Some Main)) [Out] (MReturned true) POLL.

Lemma clean_reachable : reachable false clean_state.
Proof.
  unfold reachable, init, clean_state.
  eapply steps_cons; [apply step_spawn|].
  eapply steps_cons; [eapply (step_enter _ _ _ _ _ _ 0); [done | done | by right]|].
  eapply steps_cons; [eapply (step_attach _ _ _ _ _ _ 0); done|].
  eapply steps_cons; [apply step_env_take; by right|].
  eapply steps_cons; [eapply step_shutdown; done|].
  eapply steps_cons; [eapply step_shutdown; done|].
  eapply steps_cons; [eapply (step_attach _ _ _ _ _ _ 0); done|].
  eapply steps_cons; [eapply step_shutdown; done|].
  eapply steps_cons; [eapply step_shutdown; done|].
  eapply steps_cons; [eapply (step_return _ _ _ _ _ _ 0); done|].
  eapply steps_cons; [eapply (step_attach _ _ _ _ _ _ 0); done|].
  eapply steps_cons; [apply (step_tick _ _ _ _ _ POLL); done|].
  eapply steps_cons; [eapply step_shutdown; done|].
  eapply steps_cons; [eapply step_shutdown; done|].
  eapply steps_cons; [eapply step_shutdown; done|].
  apply steps_refl.
Qed.

Lemma gate_clean_exit_witness :
  reachable false clean_state /\ gil (sh clean_state) <> Some (Rt 0).
Proof.
  split; [exact clean_reachable|].
  exact (proj2 (gate_clean_exit false clean_state clean_state clean_reachable eq_refl
    (steps_refl _ _) 0%nat Out eq_refl)).
Defined.

Lemma gate_never_reopens_witness :
  exiting (sh clean_state) = true /\
  (Out = Out \/ Out = Counted 0 \/ Out = Bailing 0 \/ Out = Parked 0).
Proof.
  split; [reflexivity|].
  exact (gate_never_reopens false clean_state clean_state 0 eq_refl eq_refl (steps_refl _ _)
    Out eq_refl).
Defined.

Lemma gate_wait_bounded_witness :
  reachable true nested_state /\ (0 <= 1000)%nat.
Proof.
  split; [exact nested_reachable|].
  exact (gate_wait_bounded true nested_state nested_reachable).
Defined.

Lemma gate_flat_can_return_witness :
  reachable false clean_state /\
  exists s' ok, steps (step false) clean_state s' /\ main s' = MReturned ok.
Proof.
  split; [exact clean_reachable|].
  apply (gate_flat_can_return clean_state clean_reachable). discriminate.
Defined.
