(* ===== verification/Bridge.v ===== *)
(** The asyncio bridges of the runtime (src/src/rt.rs): [into_future] (a Python
    awaitable as a Rust future: [Start], [Done], [Slot], [CancelOnDrop]) and
    [future_into_py] (a Rust future as an asyncio future: [OnCancel],
    [Complete]).  Each call of a callback, each poll and each drop is one step;
    the callbacks run on the event loop's thread and the Rust side on a runtime
    thread, so the steps interleave freely (each callback holds the lock of the
    slot for its whole run). *)
From S2P Require Import Prelude.

(** ** [into_future]: an awaitable run as a task *)
Module IntoFuture.
Section into_future.
Context {V : Type}.

(** The oneshot channel as its receiver sees it. *)
Inductive chan := Open | Sent (r : PyResult V) | Closed.

(** Who owns the sender. *)
Inductive owner := InStart | InDone | Gone.

(** The Rust future: awaited, resolved, or dropped. *)
Inductive rust := Waiting | Resolved (r : PyResult V) | Dropped.

Record state := mk_state {
  awaitable : bool;          (* Start.awaitable is Some *)
  tx : owner;                (* Start.tx / Done.0 *)
  task : bool;               (* Slot.task is Some *)
  dropped : bool;            (* Slot.dropped *)
  armed : bool;              (* CancelOnDrop.armed *)
  rx : chan;
  fut : rust;
  (* what Python was asked to do *)
  started : nat;             (* ensure_future made a task *)
  closed : nat;              (* the coroutine's close() was called *)
  cancels : nat;             (* the task's cancel() was scheduled *)
  sends : nat;               (* results sent through the channel *)
  result : option (PyResult V); (* the task's result, once it finished *)
}.

(** After [into_future] scheduled [Start] on the loop and returned. *)
Definition init : state :=
  mk_state true InStart false false true Open Waiting 0 0 0 0 None.

(** The sender leaves its owner: the receiver sees the channel closed unless a
    value was sent. *)
Definition drop_tx (s : state) : state :=
  mk_state (awaitable s) Gone (task s) (dropped s) (armed s)
    (match rx s with Open => Closed | c => c end)
    (fut s) (started s) (closed s) (cancels s) (sends s) (result s).

(** What the Python calls of [Start.__call__] do: whether the awaitable has a
    [close] method (the test may raise; what [close()] itself gives is
    ignored), and the outcome of [ensure_future] (with its import) and of
    [add_done_callback]. *)
Record env := mk_env {
  has_close : PyResult bool;
  ensure : PyResult unit;
  callback : PyResult unit;
}.

(** [Start.__call__]. *)
Definition start_call (e : env) (s : state) : state * PyResult unit :=
  if negb (awaitable s) then (s, Ok tt)
  else
    let s := mk_state false (tx s) (task s) (dropped s) (armed s) (rx s) (fut s)
               (started s) (closed s) (cancels s) (sends s) (result s) in
    if dropped s then
      match has_close e with
      | Ok true =>
          (mk_state false (tx s) (task s) (dropped s) (armed s) (rx s) (fut s)
             (started s) (S (closed s)) (cancels s) (sends s) (result s), Ok tt)
      | Ok false => (s, Ok tt)
      | Err x => (s, Err x)
      end
    else
      match ensure e with
      | Err x => (s, Err x)
      | Ok _ =>
          (* Done takes the sender out of Start; it is dropped with it when
             the callback is refused. *)
          let s := mk_state false (match tx s with InStart => InDone | o => o end) (task s)
                     (dropped s) (armed s) (rx s) (fut s) (S (started s)) (closed s) (cancels s) (sends s) (result s) in
          match callback e with
          | Err x => (drop_tx s, Err x)
          | Ok _ =>
              (mk_state false (tx s) true (dropped s) (armed s) (rx s) (fut s)
                 (started s) (closed s) (cancels s) (sends s) (result s), Ok tt)
          end
      end.

(** [Done.__call__] of a finished task with result [r]. *)
Definition done_call (r : PyResult V) (s : state) : state :=
  match tx s with
  | InDone =>
      mk_state (awaitable s) Gone (task s) (dropped s) (armed s)
        (match rx s with Open => Sent r | c => c end)
        (fut s) (started s) (closed s) (cancels s) (S (sends s)) (result s)
  | _ => s
  end.

Definition dropped_err : pyerr := new_err PyCancelledError [Lit "the task was dropped"].

(** A poll of the Rust future: [None] while the channel is empty. *)
Definition poll (s : state) : option state :=
  match fut s, rx s with
  | Waiting, Sent r =>
      Some (mk_state (awaitable s) (tx s) (task s) (dropped s) false (rx s) (Resolved r)
              (started s) (closed s) (cancels s) (sends s) (result s))
  | Waiting, Closed =>
      Some (mk_state (awaitable s) (tx s) (task s) (dropped s) false (rx s)
              (Resolved (Err dropped_err)) (started s) (closed s) (cancels s) (sends s) (result s))
  | _, _ => None
  end.

(** What the cancel request of a drop meets: whether [attach] returns (it parks
    once the interpreter exits), whether the task has a [cancel], and whether
    the loop takes it; a failure of the last two is ignored. *)
Record drop_env := mk_drop_env { attaches : bool; has_cancel : bool; loop_takes : bool }.

(** [CancelOnDrop::drop] when the Rust future is dropped before its result. *)
Definition drop_future (d : drop_env) (s : state) : state :=
  let s := mk_state (awaitable s) (tx s) (task s) (dropped s) (armed s) (rx s) Dropped
             (started s) (closed s) (cancels s) (sends s) (result s) in
  if negb (armed s) then s
  else
    let had_task := task s in
    let s := mk_state (awaitable s) (tx s) false true (armed s) (rx s) (fut s)
               (started s) (closed s) (cancels s) (sends s) (result s) in
    if had_task then
      if attaches d then
        if has_cancel d then
          if loop_takes d then
            mk_state (awaitable s) (tx s) (task s) (dropped s) (armed s) (rx s) (fut s)
              (started s) (closed s) (S (cancels s)) (sends s) (result s)
          else s
        else s
      else s
    else s.

(** The event loop, the task and the Rust side. *)
Inductive step : state -> state -> Prop :=
  | step_start e s : step s (start_call e s).1
  | step_finish s r :
      (* The task ends; its done callback runs. *)
      started s = 1%nat -> result s = None ->
      step s (done_call r (mk_state (awaitable s) (tx s) (task s) (dropped s) (armed s) (rx s)
                (fut s) (started s) (closed s) (cancels s) (sends s) (Some r)))
  | step_done s r :
      (* The callback object may be called again. *)
      result s = Some r -> step s (done_call r s)
  | step_lost s :
      (* The loop closed: Start, or the task with Done, is collected. *)
      step s (drop_tx s)
  | step_poll s s' : poll s = Some s' -> step s s'
  | step_drop d s : fut s = Waiting -> step s (drop_future d s).

Definition reachable (s : state) : Prop := steps step init s.

(** The invariant: of the calls to Python, and of the result. *)
Record inv (s : state) : Prop := {
  inv_once : (started s + closed s <= 1)%nat;
  inv_fresh : awaitable s = true -> (started s + closed s = 0)%nat;
  inv_task : task s = true -> started s = 1%nat /\ dropped s = false;
  inv_fut :
    match fut s with
    | Waiting => armed s = true /\ dropped s = false /\ cancels s = 0%nat
    | Resolved r => armed s = false /\ dropped s = false /\ cancels s = 0%nat /\
        (rx s = Sent r \/ (rx s = Closed /\ r = Err dropped_err))
    | Dropped => dropped s = true /\ (cancels s <= 1)%nat
    end;
  inv_sent : forall r, rx s = Sent r -> result s = Some r /\ sends s = 1%nat;
  inv_sends : (sends s <= match tx s with Gone => 1 | _ => 0 end)%nat;
}.

Lemma into_future_inv_init : inv init.
Proof. split; simpl; (done || lia). Qed.

Lemma inv_drop_tx s : inv s -> inv (drop_tx s).
Proof.
  intros [H1 H2 H3 H4 H5 H6]. split; simpl; auto.
  - destruct (fut s) as [|r|]; auto. destruct H4 as (? & ? & ? & [->|[-> ?]]); auto 10.
  - intros r. destruct (rx s); intros; simplify_eq; auto.
  - destruct (tx s); lia.
Qed.

Lemma inv_start e s : inv s -> inv (start_call e s).1.
Proof.
  intros Hs. unfold start_call. destruct (awaitable s) eqn:Ea; [simpl|done].
  destruct Hs as [H1 H2 H3 H4 H5 H6]. specialize (H2 Ea).
  destruct (dropped s) eqn:Ed; [destruct (has_close e) as [[]|]; split; simpl; auto; lia|].
  destruct (ensure e); simpl; [|split; simpl; auto; lia].
  destruct (callback e); simpl; [|apply inv_drop_tx]; split; simpl; auto; try lia; by destruct (tx s).
Qed.

Lemma inv_done r s : inv s -> result s = Some r -> inv (done_call r s).
Proof.
  intros [H1 H2 H3 H4 H5 H6] Hr. unfold done_call. destruct (tx s) eqn:Et; [by split; rewrite ?Et| |by split; rewrite ?Et].
  assert (forall r', rx s <> Sent r') as Hn by (intros r' [_ ?]%H5; lia).
  split; simpl; auto; [..|lia].
  - destruct (fut s) as [|r'|]; auto. destruct H4 as (? & ? & ? & [E|[E ?]]); [by destruct (Hn r')|rewrite E; auto 10].
  - intros r'. destruct (rx s) as [|r0|]; intros [= <-]; [split; [done|lia]|by destruct (Hn r0)].
Qed.

Lemma inv_poll s s' : inv s -> poll s = Some s' -> inv s'.
Proof.
  intros [H1 H2 H3 H4 H5 H6]. unfold poll.
  destruct (fut s) eqn:Ef, (rx s) eqn:Er; try done; intros [= <-]; split; simpl; auto;
    destruct H4 as (? & ? & ?); try (rewrite Er); auto 10.
Qed.

Lemma inv_drop_future d s : inv s -> fut s = Waiting -> inv (drop_future d s).
Proof.
  intros [H1 H2 H3 H4 H5 H6] Hf. rewrite Hf in H4. destruct H4 as (Ha & Hd & Hc).
  unfold drop_future. simpl. rewrite Ha. simpl.
  repeat case_match; split; simpl; auto; (done || (split; [done|lia])).
Qed.

Lemma into_future_inv_step s1 s2 : inv s1 -> step s1 s2 -> inv s2.
Proof.
  intros Hi Hs. destruct Hs.
  - by apply inv_start.
  - apply inv_done; [|done]. destruct Hi. split; simpl; auto. intros r' [Hr' _]%inv_sent0. congruence.
  - by apply inv_done.
  - by apply inv_drop_tx.
  - by eapply inv_poll.
  - by apply inv_drop_future.
Qed.

Lemma into_future_reachable_inv s : reachable s -> inv s.
Proof. intros H. eapply (steps_invariant _ inv); eauto using into_future_inv_step, into_future_inv_init. Qed.

(** C8: the awaitable of [into_future] is used at most once: either one task is
    made of it or its coroutine is closed unawaited, never both nor twice, and
    its task is asked to cancel at most once, only when the Rust future was
    dropped.  Its result is sent at most once, however often the done callback
    is called: a resolved future carries the task's own result, sent once, or
    [CancelledError] when the sender was lost without one. *)
Theorem into_future_used_once s :
  reachable s ->
  (started s + closed s <= 1)%nat /\ (cancels s <= 1)%nat /\ (sends s <= 1)%nat /\
  ((0 < cancels s)%nat -> fut s = Dropped) /\
  forall r, fut s = Resolved r -> result s = Some r /\ sends s = 1%nat \/ rx s = Closed /\ r = Err dropped_err.
Proof.
  intros [H1 H2 H3 H4 H5 H6]%into_future_reachable_inv. split; [done|].
  assert (sends s <= 1)%nat as Hs by (destruct (tx s); lia).
  destruct (fut s) as [|r|]; [destruct H4 as (?&?&->)|destruct H4 as (?&?&->&H)|destruct H4].
  - split_and!; (lia || done).
  - split_and!; try lia. intros ? [= <-]. destruct H as [?%H5|[? ?]]; auto.
  - split_and!; (lia || done).
Qed.

(** Once dropped, nothing is started and the cancel requests stay. *)
Lemma dropped_stays s1 s2 :
  step s1 s2 -> inv s1 -> fut s1 = Dropped ->
  fut s2 = Dropped /\ started s2 = started s1 /\ cancels s2 = cancels s1.
Proof.
  intros Hs [_ _ _ Hf _ _] Hd. rewrite Hd in Hf. destruct Hf as [Hdr _]. destruct Hs.
  - unfold start_call. destruct (awaitable s); simpl; [|done]. rewrite Hdr.
    by destruct (has_close e) as [[]|].
  - unfold done_call. simpl. by destruct (tx s).
  - unfold done_call. by destruct (tx s).
  - done.
  - unfold poll in *. rewrite Hd in *. done.
  - congruence.
Qed.

Lemma dropped_forever s1 s2 :
  steps step s1 s2 -> inv s1 -> fut s1 = Dropped ->
  fut s2 = Dropped /\ started s2 = started s1 /\ cancels s2 = cancels s1.
Proof.
  induction 1 as [|s1 s2 s3 Hs _ IH]; [done|]. intros Hi Hd.
  destruct (dropped_stays _ _ Hs Hi Hd) as (Hd2 & <- & <-). eauto using into_future_inv_step.
Qed.

(** The cancel request of a drop reaches the loop. *)
Definition reaches (d : drop_env) : bool := attaches d && has_cancel d && loop_takes d.

(** C9: what dropping the Rust future of an awaitable before its result does,
    whatever happens later.  If the loop has not started the awaitable, no task
    of it is ever made.  If its task is in the slot, the task's [cancel] is
    scheduled, exactly once, when the request reaches the loop (the thread
    attaches, the task has a [cancel] and the loop takes it), and never
    otherwise.  A task that was started and is not in the slot (its done
    callback was refused) is not cancelled. *)
Theorem into_future_drop_cancels d s1 s2 :
  reachable s1 -> fut s1 = Waiting -> steps step (drop_future d s1) s2 ->
  (started s1 = 0%nat -> started s2 = 0%nat) /\
  cancels s2 = (if task s1 && reaches d then 1 else 0)%nat /\ fut s2 = Dropped.
Proof.
  intros Hr Hw Hs. pose proof (into_future_reachable_inv _ Hr) as Hi.
  pose proof (inv_drop_future d _ Hi Hw) as Hi2.
  destruct Hi as [_ _ H3 H4 _ _]. rewrite Hw in H4. destruct H4 as (Ha & Hd & Hc).
  assert (fut (drop_future d s1) = Dropped /\ started (drop_future d s1) = started s1 /\
    cancels (drop_future d s1) = (if task s1 && reaches d then 1 else 0)%nat) as (Hdr & Est & Ec).
  { unfold drop_future, reaches. simpl. rewrite Ha. simpl.
    destruct (task s1), (attaches d), (has_cancel d), (loop_takes d); simpl; by rewrite ?Hc. }
  destruct (dropped_forever _ _ Hs Hi2 Hdr) as (Hd2 & -> & ->). by rewrite Est, Ec.
Qed.
End into_future.

(** A task started, then the future dropped. *)
Definition running : state (V:=nat) := (start_call (mk_env (Ok true) (Ok tt) (Ok tt)) init).1.

Lemma running_reachable : reachable running.
Proof. apply steps_one. apply (step_start (mk_env (Ok true) (Ok tt) (Ok tt))). Qed.

Lemma into_future_used_once_witness : reachable running /\ (started running + closed running <= 1)%nat.
Proof.
  split; [exact running_reachable|]. exact (proj1 (into_future_used_once running running_reachable)).
Defined.

Lemma into_future_drop_cancels_witness :
  reachable running /\ cancels (drop_future (mk_drop_env true true true) running) = 1%nat.
Proof.
  split; [exact running_reachable|].
  exact (proj1 (proj2 (into_future_drop_cancels (mk_drop_env true true true) running _ running_reachable eq_refl
    (steps_refl _ _)))).
Defined.
End IntoFuture.

(** ** [future_into_py]: a Rust future as an asyncio future *)
Module FutureIntoPy.
Section future_into_py.
(** [into_py]: the conversion of the result ([into_py_any]). *)
Context {V O : Type} (into_py : V -> PyResult O).

(** The asyncio future; [Set_ r]: [set_result] or [set_exception] was called. *)
Inductive target := Pending | Cancelled | Set_ (r : PyResult O).

Definition done (t : target) : bool := match t with Pending => false | _ => true end.
Definition cancelled (t : target) : bool := match t with Cancelled => true | _ => false end.

(** The spawned task: in its [select], returned by the cancel branch (the
    inner future is dropped), or past it with the inner future's result. *)
Inductive task := Selecting | ReturnedEarly | Selected (r : PyResult V).

(** The cancel channel: the sender is in [OnCancel], has sent, or is gone. *)
Inductive cancel_tx := Held | Signalled | Lost.

Record state := mk_state {
  fut : target;
  tx : cancel_tx;
  tk : task;
  posted : list (PyResult O);    (* Complete calls scheduled, not yet run *)
  sets : nat;                    (* set_result / set_exception calls made *)
}.

Definition init : state := mk_state Pending Held Selecting [] 0.

(** [OnCancel.__call__], run on the loop when the future is done. *)
Definition on_cancel (s : state) : state :=
  if cancelled (fut s) then
    match tx s with
    | Held => mk_state (fut s) Signalled (tk s) (posted s) (sets s)
    | _ => s
    end
  else s.

(** A poll of the spawned task; [ready]: what a poll of the inner future gives
    now.  The select is biased: the cancel branch is polled first, and is
    ready once the sender has sent or is gone. *)
Definition select_poll (ready : option (PyResult V)) (loop_open : bool) (s : state) : state :=
  match tk s with
  | Selecting =>
      match tx s with
      | Held =>
          match ready with
          | None => s
          | Some r =>
              (* spawn_blocking: the completion is scheduled on the loop; a
                 closed loop raises, which is ignored. *)
              mk_state (fut s) (tx s) (Selected r)
                (if loop_open then posted s ++ [r ≫= into_py] else posted s)
                (sets s)
          end
      | _ => mk_state (fut s) (tx s) ReturnedEarly (posted s) (sets s)
      end
  | _ => s
  end.

(** [Complete.__call__] of the next scheduled completion. *)
Definition complete (s : state) : state :=
  match posted s with
  | [] => s
  | r :: rest =>
      if done (fut s) then mk_state (fut s) (tx s) (tk s) rest (sets s)
      else mk_state (Set_ r) (tx s) (tk s) rest (S (sets s))
  end.

Inductive step : state -> state -> Prop :=
  | step_cancel s :
      (* Python cancels the awaited future. *)
      fut s = Pending ->
      step s (mk_state Cancelled (tx s) (tk s) (posted s) (sets s))
  | step_on_cancel s : step s (on_cancel s)
  | step_collect s :
      (* The future and its callback are collected. *)
      tx s = Held -> step s (mk_state (fut s) Lost (tk s) (posted s) (sets s))
  | step_select ready lo s : step s (select_poll ready lo s)
  | step_complete s : step s (complete s).

Definition reachable (s : state) : Prop := steps step init s.

Record inv (s : state) : Prop := {
  inv_posted : (length (posted s) + sets s <= match tk s with Selected _ => 1 | _ => 0 end)%nat;
  inv_values : forall r, tk s = Selected r ->
    Forall (fun o => o = (r ≫= into_py)) (posted s);
  inv_set : forall o, fut s = Set_ o -> exists r, tk s = Selected r /\ o = (r ≫= into_py);
}.

Lemma py_future_inv_init : inv init.
Proof. split; simpl; (done || lia). Qed.

Lemma inv_select ready lo s : inv s -> inv (select_poll ready lo s).
Proof.
  intros Hi. unfold select_poll. destruct (tk s) eqn:Et; [|done..].
  destruct Hi as [H1 H2 H3]. rewrite Et in *.
  assert (posted s = [] /\ sets s = 0%nat) as [Hp Hs].
  { destruct (posted s); simpl in *; split; (done || lia). }
  assert (forall o, fut s <> Set_ o) as Hn by (intros o (r & ? & _)%H3; done).
  destruct (tx s).
  - destruct ready as [r|].
    + split; simpl; auto.
      * rewrite Hp, Hs. destruct lo; simpl; lia.
      * intros r' [= <-]. rewrite Hp. destruct lo; simpl; [by constructor | constructor].
      * intros o Ho. exfalso. by apply (Hn o).
    + split; rewrite ?Et; auto.
  - split; simpl; [rewrite Hp, Hs; simpl; lia | intros ? [=] | intros o Ho; exfalso; by apply (Hn o)].
  - split; simpl; [rewrite Hp, Hs; simpl; lia | intros ? [=] | intros o Ho; exfalso; by apply (Hn o)].
Qed.

Lemma inv_complete s : inv s -> inv (complete s).
Proof.
  intros [H1 H2 H3]. unfold complete. destruct (posted s) as [|r rest] eqn:Ep; [split; rewrite ?Ep; auto|].
  simpl in H1.
  assert (exists v, tk s = Selected v) as [v Hv] by (destruct (tk s); eauto; lia).
  specialize (H2 v Hv). inversion H2 as [|? ? Hr Hrest]; subst.
  destruct (done (fut s)); split; simpl; rewrite ?Hv in *; auto; try lia.
  - by intros ? [= <-].
  - by intros ? [= <-].
  - intros o [= <-]. eauto.
Qed.

Lemma py_future_inv_step s1 s2 : inv s1 -> step s1 s2 -> inv s2.
Proof.
  intros Hi Hs. destruct Hs.
  - destruct Hi. split; simpl; auto. done.
  - unfold on_cancel. destruct (cancelled (fut s)) eqn:E; [|done].
    destruct (tx s); [|done..]. destruct Hi. by split.
  - destruct Hi. by split.
  - by apply inv_select.
  - by apply inv_complete.
Qed.

Lemma py_future_reachable_inv s : reachable s -> inv s.
Proof. intros H. eapply (steps_invariant _ inv); eauto using py_future_inv_step, py_future_inv_init. Qed.

Lemma set_counted s1 s2 :
  (forall o, fut s1 = Set_ o -> (1 <= sets s1)%nat) -> step s1 s2 -> forall o, fut s2 = Set_ o -> (1 <= sets s2)%nat.
Proof.
  intros H Hs o. destruct Hs; cbn; try done; try apply H.
  - unfold on_cancel. repeat case_match; cbn; apply H.
  - unfold select_poll. repeat case_match; cbn; apply H.
  - unfold complete. repeat case_match; cbn; try apply H. lia.
Qed.

Lemma posted_selected s o rest :
  reachable s -> posted s = o :: rest -> exists r, tk s = Selected r /\ o = (r ≫= into_py).
Proof.
  intros [H1 H2 _]%py_future_reachable_inv Hp. rewrite Hp in *. cbn in H1.
  destruct (tk s) as [| |r]; [lia..|]. exists r. split; [done|]. specialize (H2 r eq_refl). by apply Forall_cons in H2 as [-> _].
Qed.

Lemma delivered_once s o :
  reachable s -> fut s = Set_ o -> sets s = 1%nat /\ exists r, tk s = Selected r /\ o = (r ≫= into_py).
Proof.
  intros Hr Ho. pose proof (py_future_reachable_inv s Hr) as [H1 _ H3].
  destruct (H3 o Ho) as (r & Hr' & He). split; [|by exists r]. rewrite Hr' in H1.
  pose proof (steps_invariant _ (fun s => forall o, fut s = Set_ o -> (1 <= sets s)%nat) set_counted _ _ Hr) as Hc.
  specialize (Hc (fun o H => ltac:(done)) o Ho). lia.
Qed.

Lemma selecting_fresh s : reachable s -> tk s = Selecting -> posted s = [].
Proof.
  intros Hr Hk. pose proof (inv_posted _ (py_future_reachable_inv _ Hr)) as H. rewrite Hk in H.
  destruct (posted s); cbn in *; [done|lia].
Qed.

(** An awaited future is completed at most once, and what it is given is
    the converted result the Rust future resolved to: nothing is delivered
    for an operation that did not end. *)
Theorem future_completed_once s :
  reachable s ->
  (sets s <= 1)%nat /\
  forall o, fut s = Set_ o -> exists r, tk s = Selected r /\ o = (r ≫= into_py).
Proof.
  intros [H1 H2 H3]%py_future_reachable_inv. split; [|done]. destruct (tk s); lia.
Qed.

Lemma cancelled_stays s1 s2 : step s1 s2 -> fut s1 = Cancelled -> fut s2 = Cancelled.
Proof.
  destruct 1; simpl; try congruence.
  - unfold on_cancel. repeat case_match; done.
  - unfold select_poll. repeat case_match; done.
  - unfold complete. intros Hc. rewrite Hc. simpl. by destruct (posted s).
Qed.

(** The Rust task once the cancellation is signalled and it is still in its
    select. *)
Lemma signalled_stays s1 s2 :
  step s1 s2 -> tx s1 = Signalled -> (tk s1 = Selecting \/ tk s1 = ReturnedEarly) ->
  posted s1 = [] ->
  tx s2 = Signalled /\ (tk s2 = Selecting \/ tk s2 = ReturnedEarly) /\ posted s2 = [].
Proof.
  destruct 1; simpl; intros Ht Hk Hp; try done.
  - unfold on_cancel. rewrite Ht. by destruct (cancelled (fut s)).
  - congruence.
  - unfold select_poll. rewrite Ht. destruct Hk as [Hk|Hk]; rewrite Hk; simpl; auto.
  - unfold complete. by rewrite Hp.
Qed.

(** Cancelling the awaited future reaches the Rust side: once Python has
    cancelled it and the loop ran the callback before the inner future was
    ready, the next poll drops the inner future, no completion is ever
    scheduled and the asyncio future stays cancelled. *)
Theorem future_cancel_drops s1 s2 ready lo :
  reachable s1 -> fut s1 = Cancelled -> tx s1 = Held -> tk s1 = Selecting ->
  steps step (on_cancel s1) s2 ->
  tk (select_poll ready lo s2) = ReturnedEarly /\
  posted s2 = [] /\ sets s2 = 0%nat /\ fut s2 = Cancelled.
Proof.
  intros Hr Hf Ht Hk Hs. pose proof (py_future_reachable_inv _ Hr) as Hi.
  assert (posted s1 = []) as Hp.
  { pose proof (inv_posted _ Hi) as H. rewrite Hk in H. destruct (posted s1); simpl in *; (done || lia). }
  assert (inv (on_cancel s1)) as Hi1 by (eapply py_future_inv_step; [exact Hi | constructor]).
  assert (fut s2 = Cancelled /\ tx s2 = Signalled /\
    (tk s2 = Selecting \/ tk s2 = ReturnedEarly) /\ posted s2 = []) as (Hf2 & Ht2 & Hk2 & Hp2).
  { eapply (steps_invariant _ (fun s => fut s = Cancelled /\ tx s = Signalled /\
      (tk s = Selecting \/ tk s = ReturnedEarly) /\ posted s = [])); [|exact Hs|].
    - intros a b (? & ? & ? & ?) Hab. split; [by eapply cancelled_stays | by eapply signalled_stays].
    - unfold on_cancel. rewrite Hf, Ht. simpl. auto. }
  pose proof (inv_posted _ (steps_invariant _ inv py_future_inv_step _ _ Hs Hi1)) as Hl.
  split; [|split; [done|split; [|done]]].
  - unfold select_poll. rewrite Ht2. by destruct Hk2 as [-> | Hk2]; [|rewrite Hk2].
  - destruct Hk2 as [Hk2|Hk2]; rewrite Hk2 in Hl; lia.
Qed.
End future_into_py.

(** A future cancelled while its operation waits. *)
Definition waiting_cancelled : @state nat nat := mk_state Cancelled Held Selecting [] 0.

Lemma waiting_cancelled_reachable : reachable (fun n => Ok n) waiting_cancelled.
Proof. apply steps_one. by apply (step_cancel _ init). Qed.

Lemma future_completed_once_witness :
  reachable (fun n => Ok n) waiting_cancelled /\ (sets waiting_cancelled <= 1)%nat.
Proof.
  split; [exact waiting_cancelled_reachable|].
  exact (proj1 (future_completed_once _ _ waiting_cancelled_reachable)).
Defined.

Lemma future_cancel_drops_witness :
  tk (select_poll (fun n => Ok n) (Some (Ok 3%nat)) true (on_cancel waiting_cancelled)) = ReturnedEarly.
Proof.
  exact (proj1 (future_cancel_drops _ waiting_cancelled _ (Some (Ok 3%nat)) true
    waiting_cancelled_reachable eq_refl eq_refl eq_refl (steps_refl _ _))).
Defined.
End FutureIntoPy.
