(* ===== verification/PipeOptions.v ===== *)
(** The options of a pipe (src/src/lib.rs): reading a [PipeOptions] object
    ([pipe_options]), giving one back ([options_obj]), and the keyword
    arguments of [Pipe.update] ([pipe_update]). *)
From S2P Require Import Prelude Duration Pyo3.
Open Scope Z_scope.

Inductive Period := Every (d : Duration) | Off.

Record PipeOptions := mk_pipe_options {
  send_priority : option Z;
  receive_priority : Z;
  send_standby : option bool;
  receive_standby : bool;
  weight : Z;
  probation : option Duration;
  label : option string;
  fate_group : Z;
  suspect_floor : option Duration;
  dead_timeout : option Duration;
  probe_interval : option Period;
  probe_jitter : option f64;
}.

Record PipeUpdate := mk_pipe_update {
  u_send_priority : option (option Z);
  u_receive_priority : option Z;
  u_send_standby : option (option bool);
  u_receive_standby : option bool;
  u_weight : option Z;
  u_probation : option (option Duration);
}.
Definition update_default : PipeUpdate := mk_pipe_update None None None None None None.

Definition UPDATABLE : list string :=
  ["send_priority"; "receive_priority"; "send_standby"; "receive_standby"; "weight"; "probation"].
Definition FIXED : list string :=
  ["label"; "fate_group"; "suspect_floor"; "dead_timeout"; "probe_interval"; "idle_probes";
   "probe_jitter"].

Definition interval_msg : msg := [Lit "probe_interval is set only with idle probes on"].
Definition validate_msg : msg :=
  [Lit "suspect_floor is at least 0.05 s, dead_timeout at least 1 s, probe_interval at least 1 s, probe_jitter in [0, 1)"].

Section read.
Context {P : Py}.
(** [zmux::PipeOptions::new] and [zmux::PipeOptions::validate]. *)
Context (new : PipeOptions) (validate : PipeOptions -> bool).

(** [natural]: [u64::try_from] of an [i128]. *)
Definition natural (name : string) (v : obj) : PyResult Z :=
  n ← extract_i128 v;
  if (0 <=? n) && (n <? 2 ^ 64) then Ok n
  else Err (new_err PyValueError [Disp name; Lit " is a non-negative integer"]).

Definition opt_attr (o : obj) (name : string) : PyResult (option obj) :=
  v ← getattr o name; Ok (if is_none v then None else Some v).

(** The closures [int] and [dur] of [pipe_options]. *)
Definition int_attr (o : obj) (n : string) : PyResult (option Z) :=
  v ← opt_attr o n; map_transpose (natural n) v.
Definition dur_attr (o : obj) (n : string) : PyResult (option Duration) :=
  v ← opt_attr o n; map_transpose (fun v => x ← extract_f64 v; seconds n x) v.

(** The pair the probe settings give: [idle_probes] and [probe_interval]. *)
Definition period_of (idle_probes : option bool) (d : option Duration) : PyResult (option Period) :=
  match idle_probes, d with
  | Some false, Some _ => Err (new_err PyValueError interval_msg)
  | Some false, None => Ok (Some Off)
  | _, d => Ok (Every <$> d)
  end.

Definition unwrap_or {A} (d : A) (o : option A) : A := match o with Some a => a | None => d end.

Definition pipe_options (options : option obj) : PyResult PipeOptions :=
  match options with
  | None => Ok new
  | Some opts =>
      sp ← int_attr opts "send_priority";
      rp ← int_attr opts "receive_priority";
      ss ← (v ← getattr opts "send_standby"; extract_opt extract_bool v);
      rs ← (v ← getattr opts "receive_standby"; extract_opt extract_bool v);
      w ← int_attr opts "weight";
      pr ← dur_attr opts "probation";
      lb ← (v ← getattr opts "label"; extract_opt extract_str v);
      fg ← int_attr opts "fate_group";
      sf ← dur_attr opts "suspect_floor";
      dt ← dur_attr opts "dead_timeout";
      ip ← (v ← getattr opts "idle_probes"; extract_opt extract_bool v);
      d ← dur_attr opts "probe_interval";
      pi ← period_of ip d;
      pj ← (v ← getattr opts "probe_jitter"; extract_opt extract_f64 v);
      let o := mk_pipe_options sp (unwrap_or (receive_priority new) rp) ss
        (unwrap_or (receive_standby new) rs) (unwrap_or (weight new) w) pr lb
        (unwrap_or (fate_group new) fg) sf dt pi pj in
      if validate o then Ok o else Err (new_err PyValueError validate_msg)
  end.

End read.

Section update.
Context {P : Py}.

Definition fixed_err (k : string) : pyerr :=
  new_err PyTypeError [Disp k; Lit " is fixed when the pipe is added"].
Definition no_option_err (k : string) : pyerr := new_err PyTypeError [Lit "no pipe option "; Disp k].
Definition not_none_err (k : string) : pyerr :=
  new_err PyTypeError [Disp k; Lit " takes a value, not None"].

(** One keyword of [Pipe.update]. *)
Definition update_field (u : PipeUpdate) (k : string) (v : obj) : PyResult PipeUpdate :=
  if decide (k ∈ FIXED) then Err (fixed_err k)
  else if decide (k ∉ UPDATABLE) then Err (no_option_err k)
  else
    let none := is_none v in
    if none && negb (String.eqb k "send_priority" || String.eqb k "send_standby") then Err (not_none_err k)
    else
      let '(mk_pipe_update sp rp ss rs w pr) := u in
      if String.eqb k "send_priority" then
        n ← (if none then Ok None else Some <$> natural k v);
        Ok (mk_pipe_update (Some n) rp ss rs w pr)
      else if String.eqb k "send_standby" then
        b ← extract_opt extract_bool v; Ok (mk_pipe_update sp rp (Some b) rs w pr)
      else if String.eqb k "receive_priority" then
        n ← natural k v; Ok (mk_pipe_update sp (Some n) ss rs w pr)
      else if String.eqb k "receive_standby" then
        b ← extract_bool v; Ok (mk_pipe_update sp rp ss (Some b) w pr)
      else if String.eqb k "weight" then
        n ← natural k v; Ok (mk_pipe_update sp rp ss rs (Some n) pr)
      else
        x ← extract_f64 v; d ← seconds k x;
        Ok (mk_pipe_update sp rp ss rs w (Some (Some d))).

(** The loop over the keywords; Python passes their names as strings. *)
Fixpoint update_loop (u : PipeUpdate) (kw : list (string * obj)) : PyResult PipeUpdate :=
  match kw with
  | [] => Ok u
  | (k, v) :: kw => u ← update_field u k v; update_loop u kw
  end.

Definition pipe_update (kw : option (list (string * obj))) : PyResult PipeUpdate :=
  match kw with
  | None => Ok update_default
  | Some kw => update_loop update_default kw
  end.

(** *** The reference: one keyword read on its own

    The value a keyword gives, by its name; [update_get] reads it back from an
    update. *)
Inductive uval := UInt (n : option Z) | UBool (b : option bool) | UDur (d : option Duration).

Definition parse_update (k : string) (v : obj) : PyResult uval :=
  if decide (k ∈ FIXED) then Err (fixed_err k)
  else if decide (k ∉ UPDATABLE) then Err (no_option_err k)
  else if is_none v then
    if String.eqb k "send_priority" then Ok (UInt None)
    else if String.eqb k "send_standby" then UBool <$> extract_opt extract_bool v
    else Err (not_none_err k)
  else if decide (k ∈ ["send_priority"; "receive_priority"; "weight"]) then
    (fun n => UInt (Some n)) <$> natural k v
  else if String.eqb k "send_standby" then UBool <$> extract_opt extract_bool v
  else if String.eqb k "receive_standby" then (fun b => UBool (Some b)) <$> extract_bool v
  else x ← extract_f64 v; (fun d => UDur (Some d)) <$> seconds k x.

Definition update_get (u : PipeUpdate) (k : string) : option uval :=
  if String.eqb k "send_priority" then UInt <$> u_send_priority u
  else if String.eqb k "receive_priority" then (fun n => UInt (Some n)) <$> u_receive_priority u
  else if String.eqb k "send_standby" then UBool <$> u_send_standby u
  else if String.eqb k "receive_standby" then (fun b => UBool (Some b)) <$> u_receive_standby u
  else if String.eqb k "weight" then (fun n => UInt (Some n)) <$> u_weight u
  else if String.eqb k "probation" then UDur <$> u_probation u
  else None.

Lemma natural_ok name v n :
  natural name v = Ok n <-> extract_i128 v = Ok n /\ in_u64 n.
Proof.
  unfold natural, in_u64. destruct (extract_i128 v) as [m|]; simpl; [|naive_solver].
  case_if; rewrite ?andb_true_iff, ?andb_false_iff in *; naive_solver lia.
Qed.

Lemma updatable_cases k :
  k ∉ FIXED -> ~ (k ∉ UPDATABLE) ->
  k = "send_priority" \/ k = "receive_priority" \/ k = "send_standby" \/
  k = "receive_standby" \/ k = "weight" \/ k = "probation".
Proof. intros _ H%dec_stable. unfold UPDATABLE in H. set_solver. Qed.

(** A keyword sets its own field, to the value read, and no other. *)
Lemma update_field_spec u k v :
  match update_field u k v, parse_update k v with
  | Ok u', Ok x => update_get u' k = Some x /\ forall k', k' <> k -> update_get u' k' = update_get u k'
  | Err e, Err e' => e = e'
  | _, _ => False
  end.
Proof.
  unfold update_field, parse_update. destruct (decide (k ∈ FIXED)); [done|].
  destruct (decide (k ∉ UPDATABLE)); [done|].
  destruct u as [sp rp ss rs w pr].
  destruct (updatable_cases k) as [->|[->|[->|[->|[->| ->]]]]]; [done..| | | | | |];
    simpl; destruct (is_none v); simpl; try done;
    repeat match goal with
    | |- context [natural ?k ?v] => destruct (natural k v); simpl
    | |- context [extract_opt ?f ?v] => destruct (extract_opt f v); simpl
    | |- context [extract_bool ?v] => destruct (extract_bool v); simpl
    | |- context [extract_f64 ?v] => destruct (extract_f64 v); simpl
    | |- context [seconds ?k ?v] => destruct (seconds k v); simpl
    end; try done;
    (split; [done|]); intros k' Hk'; unfold update_get;
    repeat (case_eqb k'; [by subst|]); done.
Qed.
End update.

(** ** The Python object of native options *)
Section write.
Import PyVal.
Definition v_opt_of {A} (f : A -> pyval) (o : option A) : pyval :=
  match o with Some a => f a | None => VNone end.

Definition period_duration (p : Period) : option Duration :=
  match p with Every d => Some d | Off => None end.
Definition not_off (p : Period) : bool := match p with Off => false | Every _ => true end.

(** [options_obj]: the keyword arguments given to the [PipeOptions] dataclass,
    each an attribute of the object it makes. *)
Definition options_obj (o : PipeOptions) : list (string * pyval) :=
  [("send_priority", v_opt_of VInt (send_priority o));
   ("receive_priority", VInt (receive_priority o));
   ("send_standby", v_opt_of VBool (send_standby o));
   ("receive_standby", VBool (receive_standby o));
   ("weight", VInt (weight o));
   ("probation", v_opt_of VFloat (dur (probation o)));
   ("label", v_opt_of VStr (label o));
   ("fate_group", VInt (fate_group o));
   ("suspect_floor", v_opt_of VFloat (dur (suspect_floor o)));
   ("dead_timeout", v_opt_of VFloat (dur (dead_timeout o)));
   ("probe_interval", v_opt_of VFloat (dur (probe_interval o ≫= period_duration)));
   ("idle_probes", v_opt_of VBool (not_off <$> probe_interval o));
   ("probe_jitter", v_opt_of VFloat (probe_jitter o))].

(** A duration that Python's float holds to the nanosecond. *)
Definition dur_exact (d : Duration) : Prop :=
  f64_wf (as_secs_f64 d) /\ try_from_secs_f64 (as_secs_f64 d) = Some d.
Definition from_opt {A} (P : A -> Prop) (o : option A) : Prop :=
  match o with Some a => P a | None => True end.


(** The numbers of native options are those of their Rust types. *)
Definition options_wf (o : PipeOptions) : Prop :=
  from_opt in_u64 (send_priority o) /\ in_u64 (receive_priority o) /\ in_u64 (weight o) /\
  in_u64 (fate_group o) /\ from_opt f64_wf (dur (probation o)) /\
  from_opt f64_wf (dur (suspect_floor o)) /\ from_opt f64_wf (dur (dead_timeout o)) /\
  from_opt f64_wf (dur (probe_interval o ≫= period_duration)) /\ from_opt f64_wf (probe_jitter o).

(** Every duration survives Python's float. *)
Definition durations_exact (o : PipeOptions) : Prop :=
  from_opt dur_exact (probation o) /\ from_opt dur_exact (suspect_floor o) /\
  from_opt dur_exact (dead_timeout o) /\ from_opt dur_exact (probe_interval o ≫= period_duration).

(** A duration that went through Python's float. *)
Definition through_float (name : string) (d : option Duration) : PyResult (option Duration) :=
  map_transpose (seconds name) (dur d).
End write.

(** ** Theorems *)

(** [pipe_update] on distinct keywords, against the keywords read one by one. *)
Lemma update_loop_spec {P : Py} kw u :
  NoDup kw.*1 ->
  match update_loop u kw with
  | Ok u' =>
      (forall k v, (k, v) ∈ kw -> exists x, parse_update k v = Ok x /\ update_get u' k = Some x) /\
      (forall k, k ∉ kw.*1 -> update_get u' k = update_get u k)
  | Err e => exists k v, (k, v) ∈ kw /\ parse_update k v = Err e
  end.
Proof.
  revert u. induction kw as [|[k v] kw IH]; intros u; cbn [update_loop fmap list_fmap fst].
  { intros _. split; [intros ?? []%elem_of_nil | done]. }
  intros [Hk Hnd]%NoDup_cons. pose proof (update_field_spec u k v) as Hf.
  destruct (update_field u k v) as [u1|e], (parse_update k v) as [x|e'] eqn:Ep; try done; simpl.
  - destruct Hf as [Hx Hother]. specialize (IH u1 Hnd).
    destruct (update_loop u1 kw) as [u2|e].
    + destruct IH as [Hin Hout]. split.
      * intros k2 v2 [[= -> ->]|]%elem_of_cons; [|by apply Hin].
        exists x. split; [done|]. by rewrite Hout.
      * intros k2 [Hne Hnin]%not_elem_of_cons. rewrite Hout by done. by apply Hother.
    + destruct IH as (k2 & v2 & Hin & He). exists k2, v2. split; [|done]. by right.
  - subst. exists k, v. split; [left | done].
Qed.

(** C14: [Pipe.update] changes exactly the options named: an update is made only
    when every keyword is one of the six a live pipe changes and its value
    converts, and then it sets each named option to its value and leaves every
    other one unset; otherwise it raises the error of one of the keywords (a
    [TypeError] for an option fixed when the pipe is added, for an unknown
    name and for [None] where it does not clear) and nothing is changed.  The
    two lists together are the options of a pipe. *)
Theorem pipe_update_exact {P : Py} kw :
  NoDup kw.*1 ->
  match pipe_update (Some kw) with
  | Ok u =>
      (forall k v, (k, v) ∈ kw ->
        k ∈ UPDATABLE /\ exists x, parse_update k v = Ok x /\ update_get u k = Some x) /\
      (forall k, k ∉ kw.*1 -> update_get u k = None)
  | Err e => exists k v, (k, v) ∈ kw /\ parse_update k v = Err e /\
      (k ∉ UPDATABLE -> e_class e = PyTypeError)
  end /\
  forall o, (options_obj o).*1 = UPDATABLE ++ FIXED.
Proof.
  intros Hnd. split; [|done]. unfold pipe_update.
  pose proof (update_loop_spec kw update_default Hnd) as H.
  destruct (update_loop update_default kw) as [u|e].
  - destruct H as [Hin Hout]. split.
    + intros k v Hkv. split; [|by apply Hin]. apply Hin in Hkv as (x & Hp & _).
      unfold parse_update in Hp. repeat case_decide; try done.
    + intros k Hk. rewrite Hout by done. unfold update_get. by repeat case_if.
  - destruct H as (k & v & Hin & He). exists k, v. split; [done|]. split; [done|].
    intros Hk. unfold parse_update in He. repeat case_decide; try done; by simplify_eq.
Qed.

Lemma pipe_update_exact_witness :
  exists u, pipe_update (P:=PyVal.pyval_py)
    (Some [("weight", PyVal.VInt 3); ("send_priority", PyVal.VNone)]) = Ok u /\
    update_get u "weight" = Some (UInt (Some 3)) /\ update_get u "probation" = None.
Proof.
  pose proof (proj1 (pipe_update_exact (P:=PyVal.pyval_py)
    [("weight", PyVal.VInt 3); ("send_priority", PyVal.VNone)] ltac:(repeat constructor; set_solver))) as H.
  eexists. split; [reflexivity|]. destruct H as [H1 H2]. split; [reflexivity|].
  apply H2. set_solver.
Defined.

Section roundtrip.
Import PyVal.
Context (attrs : list (string * pyval)).

Lemma int_attr_exact n o :
  v_getattr (VObj attrs) n = Ok (v_opt_of VInt o) -> from_opt in_u64 o ->
  int_attr (VObj attrs) n = Ok o.
Proof.
  intros Ha Ho. unfold int_attr, opt_attr. cbn [getattr pyval_py]. rewrite Ha. destruct o as [z|]; [|done]. simpl.
  rewrite (proj2 (natural_ok (P:=pyval_py) n (VInt z) z)); [done|]. split; [|done].
  unfold from_opt, in_u64 in Ho. simpl. unfold v_int.
  rewrite (proj2 (andb_true_iff _ _)); [done|]. rewrite Z.leb_le, Z.ltb_lt. lia.
Qed.

Lemma dur_attr_float n o :
  v_getattr (VObj attrs) n = Ok (v_opt_of VFloat (dur o)) -> from_opt f64_wf (dur o) ->
  dur_attr (VObj attrs) n = through_float n o.
Proof.
  intros Ha Ho. unfold dur_attr, opt_attr, through_float. cbn [getattr pyval_py]. rewrite Ha. destruct o as [d|]; [|done].
  simpl in *. unfold f64_wf in Ho. rewrite Ho. done.
Qed.
End roundtrip.

Lemma through_exact n d : from_opt dur_exact d -> through_float n d = Ok d.
Proof.
  destruct d as [d|]; [|done]. intros [_ Hd]. unfold through_float. simpl. unfold seconds. by rewrite Hd.
Qed.

(** The options with other durations. *)
Definition with_durations (o : PipeOptions) (pr sf dt pi : option Duration) : PipeOptions :=
  mk_pipe_options (send_priority o) (receive_priority o) (send_standby o) (receive_standby o) (weight o) pr
    (label o) (fate_group o) sf dt
    (match probe_interval o with Some Off => Some Off | _ => Every <$> pi end) (probe_jitter o).

Lemma options_read new validate o :
  options_wf o ->
  pipe_options (P:=PyVal.pyval_py) new validate (Some (PyVal.VObj (options_obj o))) =
    (pr ← through_float "probation" (probation o);
     sf ← through_float "suspect_floor" (suspect_floor o);
     dt ← through_float "dead_timeout" (dead_timeout o);
     pi ← through_float "probe_interval" (probe_interval o ≫= period_duration);
     let o' := with_durations o pr sf dt pi in
     if validate o' then Ok o' else Err (new_err PyValueError validate_msg)).
Proof.
  intros (Hsp & Hrp & Hw & Hfg & Hpr & Hsf & Hdt & Hpi & Hpj).
  unfold pipe_options.
  rewrite (int_attr_exact (options_obj o) "send_priority" (send_priority o) eq_refl Hsp).
  rewrite (int_attr_exact (options_obj o) "receive_priority" (Some (receive_priority o)) eq_refl Hrp).
  rewrite (int_attr_exact (options_obj o) "weight" (Some (weight o)) eq_refl Hw).
  rewrite (int_attr_exact (options_obj o) "fate_group" (Some (fate_group o)) eq_refl Hfg).
  rewrite (dur_attr_float (options_obj o) "probation" (probation o) eq_refl Hpr).
  rewrite (dur_attr_float (options_obj o) "suspect_floor" (suspect_floor o) eq_refl Hsf).
  rewrite (dur_attr_float (options_obj o) "dead_timeout" (dead_timeout o) eq_refl Hdt).
  rewrite (dur_attr_float (options_obj o) "probe_interval" (probe_interval o ≫= period_duration) eq_refl Hpi).
  assert (PyVal.v_opt PyVal.v_f64 (v_opt_of PyVal.VFloat (probe_jitter o)) = Ok (probe_jitter o)) as Hj.
  { destruct (probe_jitter o) as [x|]; [|done]. unfold PyVal.v_opt. simpl. by rewrite Hpj. }
  destruct o as [sp rp ss rs w pr lb fg sf dt pi pj]. simpl in *. unfold with_durations. simpl.
  destruct ss, lb; simpl; (destruct (through_float "probation" pr) as [pr'|]; [simpl|done]);
    (destruct (through_float "suspect_floor" sf) as [sf'|]; [simpl|done]);
    (destruct (through_float "dead_timeout" dt) as [dt'|]; [simpl|done]);
    destruct pi as [[d|]|]; simpl; try (destruct (through_float "probe_interval" (Some d)) as [[d'|]|]; simpl);
    rewrite ?Hj; done.
Qed.

(** C13: what the options of a pipe read back as.  The object that
    [Pipe.options] gives, handed to a call that takes options, gives the same
    options, unset ones unset, idle probes that are off still off, except that
    each duration is the one nearest to the Python float of its seconds (an
    error when that float is out of range): exactly the same options when every
    duration survives the float. *)
Theorem pipe_options_roundtrip new validate o :
  options_wf o ->
  let read := pipe_options (P:=PyVal.pyval_py) new validate (Some (PyVal.VObj (options_obj o))) in
  read = (pr ← through_float "probation" (probation o);
          sf ← through_float "suspect_floor" (suspect_floor o);
          dt ← through_float "dead_timeout" (dead_timeout o);
          pi ← through_float "probe_interval" (probe_interval o ≫= period_duration);
          let o' := with_durations o pr sf dt pi in
          if validate o' then Ok o' else Err (new_err PyValueError validate_msg)) /\
  (durations_exact o -> validate o = true -> read = Ok o).
Proof.
  intros Hwf read. split; [by apply options_read|]. intros (E1 & E2 & E3 & E4) Hv. unfold read. rewrite options_read by done.
  rewrite !through_exact by done. simpl.
  assert (with_durations o (probation o) (suspect_floor o) (dead_timeout o) (probe_interval o ≫= period_duration) = o) as ->.
  { destruct o as [sp rp ss rs w pr lb fg sf dt pi pj]. unfold with_durations. simpl. by destruct pi as [[]|]. }
  by rewrite Hv.
Qed.

(** 1.5 s, 30 s and idle probes off. *)
Definition sample_options : PipeOptions :=
  mk_pipe_options (Some 2) 0 None true 5 (Some (mk_duration 1 500000000)) (Some "wifi") 1
    None (Some (mk_duration 30 0)) (Some Off) (Some f64_zero).

Lemma pipe_options_roundtrip_witness :
  pipe_options (P:=PyVal.pyval_py) sample_options (fun _ => true)
    (Some (PyVal.VObj (options_obj sample_options))) = Ok sample_options.
Proof.
  apply pipe_options_roundtrip; [| |reflexivity].
  - repeat split; vm_compute; congruence.
  - repeat split; vm_compute; congruence.
Defined.
