(* ===== verification/Config.v ===== *)
(** Session configuration (src/src/lib.rs, section "configuration"):
    [Config::new] from keyword fields, with the conversions of its fields. *)
From S2P Require Import Prelude Duration Pyo3 PipeOptions Shaping.
Open Scope Z_scope.

Inductive Budget := Unlimited | BudgetBytes (n : Z).
Inductive Cap := Fixed (n : Z) | Auto.
Inductive Policy := Affinity | SessionAffinity | SpreadEta | SpreadRoundRobin | SpreadRateWeighted.
Inductive Redundancy := Urgent | RedundancyOff.

(** The join credentials as the binding builds them: a base and at most one
    key added with [with_psk]. *)
Inductive AuthBase := AuthExporter | AuthInsecure | AuthNone.
Record PipeAuth := mk_pipe_auth { auth_base : AuthBase; auth_psk : option bytes }.

Record EarlyData := mk_early { zmux_peer : bool; carrier_early_data : bool }.

(** ** Fields

    A configuration is a function from its fields to their values, so that an
    assignment to one field is an update of the function at that field. *)

(** The timers and periods, for which [None] is off. *)
Inductive timer :=
  | handshake_timeout | max_idle_timeout | keep_alive_period | standby_probe | probe_interval.

Inductive knob :=
  | initial_stream_receive_window | max_stream_receive_window | latency_budget
  | initial_connection_receive_window | max_connection_receive_window | memory_budget
  | max_incoming_streams | max_incoming_uni_streams | enable_datagrams | datagram_send_queue
  | datagram_receive_queue | datagram_stream_queue | datagram_receive_bytes | send_buffer
  | send_buffer_max | max_pipes | pipe_headroom | replay_window | max_lanes | resume_timeout
  | scheduler | spread_chunk | suspect_floor | dead_timeout | probation | overflow_delay
  | probe_jitter | redundancy | pipe_auth | early_zmux_peer | early_carrier | protocols
  | shaping_limits | shaper.

#[global] Instance timer_eq_dec : EqDecision timer.
Proof. solve_decision. Defined.
#[global] Instance knob_eq_dec : EqDecision knob.
Proof. solve_decision. Defined.

Definition timers_named : list (string * timer) :=
  [("handshake_timeout", handshake_timeout); ("max_idle_timeout", max_idle_timeout);
   ("keep_alive_period", keep_alive_period); ("standby_probe", standby_probe);
   ("probe_interval", probe_interval)].

(** The keywords of the other fields. *)
Definition knobs_named : list (string * knob) :=
  [("initial_stream_receive_window", initial_stream_receive_window);
   ("max_stream_receive_window", max_stream_receive_window);
   ("latency_budget", latency_budget);
   ("initial_connection_receive_window", initial_connection_receive_window);
   ("max_connection_receive_window", max_connection_receive_window);
   ("memory_budget", memory_budget);
   ("max_incoming_streams", max_incoming_streams);
   ("max_incoming_uni_streams", max_incoming_uni_streams);
   ("enable_datagrams", enable_datagrams);
   ("datagram_send_queue", datagram_send_queue);
   ("datagram_receive_queue", datagram_receive_queue);
   ("datagram_stream_queue", datagram_stream_queue);
   ("datagram_receive_bytes", datagram_receive_bytes);
   ("send_buffer", send_buffer);
   ("send_buffer_max", send_buffer_max);
   ("max_pipes", max_pipes);
   ("pipe_headroom", pipe_headroom);
   ("replay_window", replay_window);
   ("max_lanes", max_lanes);
   ("resume_timeout", resume_timeout);
   ("scheduler", scheduler);
   ("spread_chunk", spread_chunk);
   ("suspect_floor", suspect_floor);
   ("dead_timeout", dead_timeout);
   ("probation", probation);
   ("overflow_delay", overflow_delay);
   ("probe_jitter", probe_jitter);
   ("redundancy", redundancy);
   ("pipe_auth", pipe_auth);
   ("early_data", early_zmux_peer);
   ("carrier_early_data", early_carrier);
   ("protocols", protocols);
   ("shaping_limits", shaping_limits);
   ("shaping", shaper)].

(** [match k.as_str()] over a table of keywords. *)
Fixpoint keyword {A} (table : list (string * A)) (k : string) : option A :=
  match table with
  | [] => None
  | (k', a) :: table => if String.eqb k k' then Some a else keyword table k
  end.

Lemma keyword_in {A} (table : list (string * A)) k a : keyword table k = Some a -> (k, a) ∈ table.
Proof.
  induction table as [|[k' a'] table IH]; simpl; [done|]. case_eqb k; intros.
  - simplify_eq. left.
  - right. by apply IH.
Qed.

(** No two keywords are for one field. *)
Lemma keyword_inj {A} (table : list (string * A)) k1 k2 a :
  NoDup table.*2 -> keyword table k1 = Some a -> keyword table k2 = Some a -> k1 = k2.
Proof.
  intros Hnd H1%keyword_in H2%keyword_in. induction table as [|[k' a'] table IH]; [by apply elem_of_nil in H1|].
  apply NoDup_cons in Hnd as [Hn Hnd].
  assert (forall k, (k, a') ∈ table -> False) as Hno.
  { intros k Hk. apply Hn. apply list_elem_of_fmap. by exists (k, a'). }
  apply elem_of_cons in H1 as [[= -> ->]|H1], H2 as [[= ->]|H2]; naive_solver.
Qed.

Section config.
Context {P : Py}.
(** The zmux and shaping crates' parts: carrier kinds, shaper factories, the
    check of the shaping limits, and the conversion to the integer type of
    each integer field. *)
Context {CarrierKind : Type} `{Countable CarrierKind}.
Context (from_name : string -> option CarrierKind).
Context {MachineFactory : Type} (from_json : string -> Options -> MachineFactory + string).
Context (validate_limits : Limits -> option string).
Context (extract_int : knob -> obj -> PyResult Z).

Abbreviation Factory := (ByKind.ByKind (CarrierKind:=CarrierKind) (MachineFactory:=MachineFactory)).

Definition ty (k : knob) : Type :=
  match k with
  | initial_stream_receive_window | initial_connection_receive_window | max_incoming_streams
  | datagram_send_queue | datagram_receive_queue | datagram_stream_queue
  | datagram_receive_bytes | send_buffer | max_pipes | pipe_headroom | max_lanes
  | spread_chunk => Z
  | max_incoming_uni_streams | replay_window => option Z
  | max_stream_receive_window | max_connection_receive_window | send_buffer_max => Cap
  | latency_budget | suspect_floor | overflow_delay => Duration
  | resume_timeout | dead_timeout | probation => option Duration
  | memory_budget => option Budget
  | enable_datagrams | early_zmux_peer | early_carrier => bool
  | scheduler => Policy
  | probe_jitter => f64
  | redundancy => Redundancy
  | pipe_auth => PipeAuth
  | protocols => option (list string)
  | shaping_limits => Limits
  | shaper => option Factory
  end.

(** The local variables of [Config::new]: the fields of [c], and of [early]. *)
Record draft := mk_draft { timers : timer -> option Duration; knobs : forall k, ty k }.

Definition set_timer (t : timer) (v : option Duration) (c : draft) : draft :=
  mk_draft (fun t' => if decide (t = t') then v else timers c t') (knobs c).
Definition set_knob (k : knob) (v : ty k) (c : draft) : draft :=
  mk_draft (timers c) (fun k' =>
    match decide (k = k') with
    | left e => eq_rect k ty v k' e
    | right _ => knobs c k'
    end).

(** ** Conversions *)

Definition field_secs (name : string) (v : obj) : PyResult Duration :=
  x ← extract_f64 v; seconds name x.

Definition field_opt_secs (name : string) (v : obj) : PyResult (option Duration) :=
  if is_none v then Ok None else Some <$> field_secs name v.

Definition field_budget (name : string) (v : obj) : PyResult Budget :=
  if is_float v then
    x ← extract_f64 v;
    if f64_eq x f64_infinity then Ok Unlimited
    else Err (new_err PyValueError [Disp name; Lit " is a non-negative integer or math.inf"])
  else BudgetBytes <$> natural name v.

Definition field_cap (k : knob) (v : obj) : PyResult Cap := Fixed <$> extract_int k v.

Definition policy (name : string) : PyResult Policy :=
  if String.eqb name "affinity" then Ok Affinity
  else if String.eqb name "session-affinity" then Ok SessionAffinity
  else if String.eqb name "spread-eta" then Ok SpreadEta
  else if String.eqb name "spread-round-robin" then Ok SpreadRoundRobin
  else if String.eqb name "spread-rate-weighted" then Ok SpreadRateWeighted
  else Err (new_err PyValueError [Lit "unknown scheduler "; Dbg name]).

Definition read_pipe_auth (v : obj) : PyResult PipeAuth :=
  exporter ← (x ← getattr v "_exporter"; extract_bool x);
  insecure ← (x ← getattr v "_insecure"; extract_bool x);
  psk ← (x ← getattr v "_psk"; extract_opt extract_bytes x);
  let base :=
    match exporter, insecure with
    | true, _ => AuthExporter
    | false, true => AuthInsecure
    | false, false => AuthNone
    end in
  Ok (mk_pipe_auth base psk).

Definition read_redundancy (v : obj) : PyResult Redundancy :=
  r ← extract_str v;
  if String.eqb r "urgent" then Ok Urgent
  else if String.eqb r "off" then Ok RedundancyOff
  else Err (new_err PyValueError [Lit "redundancy is "; Dbg "urgent"; Lit " or "; Dbg "off"; Lit ", not "; Dbg r]).

(** The arms of the second [match] of [Config::new]: the value assigned to the
    field of a keyword. *)
Definition arm (name : string) (k : knob) (v : obj) : PyResult (ty k) :=
  match k with
  | initial_stream_receive_window => extract_int initial_stream_receive_window v
  | max_stream_receive_window => field_cap max_stream_receive_window v
  | latency_budget => field_secs name v
  | initial_connection_receive_window => extract_int initial_connection_receive_window v
  | max_connection_receive_window => field_cap max_connection_receive_window v
  | memory_budget => Some <$> field_budget name v
  | max_incoming_streams => extract_int max_incoming_streams v
  | max_incoming_uni_streams => Some <$> extract_int max_incoming_uni_streams v
  | enable_datagrams => extract_bool v
  | datagram_send_queue => extract_int datagram_send_queue v
  | datagram_receive_queue => extract_int datagram_receive_queue v
  | datagram_stream_queue => extract_int datagram_stream_queue v
  | datagram_receive_bytes => extract_int datagram_receive_bytes v
  | send_buffer => extract_int send_buffer v
  | send_buffer_max => field_cap send_buffer_max v
  | max_pipes => extract_int max_pipes v
  | pipe_headroom => extract_int pipe_headroom v
  | replay_window => Some <$> extract_int replay_window v
  | max_lanes =>
      n ← extract_int max_lanes v;
      if n =? 0 then Err (new_err PyValueError [Lit "max_lanes is at least 1"]) else Ok n
  | resume_timeout => d ← field_secs name v; Ok (if is_zero d then None else Some d)
  | scheduler => s ← extract_str v; policy s
  | spread_chunk => extract_int spread_chunk v
  | suspect_floor => field_secs name v
  | dead_timeout => Some <$> field_secs name v
  | probation => Some <$> field_secs name v
  | overflow_delay => field_secs name v
  | probe_jitter => extract_f64 v
  | redundancy => read_redundancy v
  | pipe_auth => read_pipe_auth v
  | early_zmux_peer => extract_bool v
  | early_carrier => extract_bool v
  | protocols => Some <$> extract_strs v
  | shaping_limits => session_limits validate_limits v
  | shaper => Some <$> ByKind.by_kind from_name from_json v (mk_options None None)
  end.

Definition unknown_field (k : string) : pyerr :=
  new_err PyTypeError [Lit "unknown Config field "; Dbg k].

(** The body of the loop. *)
Definition config_field (c : draft) (name : string) (v : obj) : PyResult draft :=
  c ← match keyword timers_named name with
      | Some t => d ← field_opt_secs name v; Ok (set_timer t d c)
      | None => Ok c
      end;
  if is_none v then Ok c
  else
    match keyword timers_named name with
    | Some _ => Ok c
    | None =>
        match keyword knobs_named name with
        | Some k => x ← arm name k v; Ok (set_knob k x c)
        | None => Err (unknown_field name)
        end
    end.

Fixpoint config_loop (c : draft) (fields : list (string * obj)) : PyResult draft :=
  match fields with
  | [] => Ok c
  | (k, v) :: fields => c ← config_field c k v; config_loop c fields
  end.

(** The native configuration: the fields, and [early_data] assigned last. *)
Record Config := mk_config { fields_of : draft; early_data : EarlyData }.

(** [Config::default()] with [EarlyData::default()], and [Config::new]. *)
Context (default : draft).

Definition config_new (fields : option (list (string * obj))) : PyResult Config :=
  c ← config_loop default (match fields with Some f => f | None => [] end);
  Ok (mk_config c (mk_early (knobs c early_zmux_peer) (knobs c early_carrier))).

(** [cfg]: a [zmux.Config] or the native class itself; [as_config] is the
    downcast to the native class, with the error it raises. *)
Definition cfg (as_config : obj -> PyResult Config) (c : option obj) : PyResult Config :=
  match c with
  | None => Ok (mk_config default (mk_early (knobs default early_zmux_peer) (knobs default early_carrier)))
  | Some c =>
      n ← (if is_ok (as_config c) then Ok c else getattr c "_native");
      as_config n
  end.

(** *** The reference: what one keyword means *)

Definition names_timer (n : string) (t : timer) : Prop := keyword timers_named n = Some t.
Definition names_knob (n : string) (k : knob) : Prop :=
  keyword timers_named n = None /\ keyword knobs_named n = Some k.
Definition names_nothing (n : string) : Prop :=
  keyword timers_named n = None /\ keyword knobs_named n = None.

(** The value a keyword gives a knob; [None]: it keeps its value. *)
Definition knob_setting (name : string) (k : knob) (v : obj) : PyResult (option (ty k)) :=
  if is_none v then Ok None else Some <$> arm name k v.

(** The error of a keyword. *)
Definition entry_err (name : string) (v : obj) (e : pyerr) : Prop :=
  match keyword timers_named name, keyword knobs_named name with
  | Some _, _ => field_opt_secs name v = Err e
  | None, Some k => knob_setting name k v = Err e
  | None, None => is_none v = false /\ e = unknown_field name
  end.

(** The value of a knob after a keyword, from the value before. *)
Definition after (c : draft) (k : knob) (o : option (ty k)) : ty k :=
  match o with Some x => x | None => knobs c k end.

Lemma set_knob_same k v c : knobs (set_knob k v c) k = v.
Proof. simpl. by rewrite (decide_True_pi eq_refl). Qed.

Lemma set_knob_other k k' v c : k <> k' -> knobs (set_knob k v c) k' = knobs c k'.
Proof. intros Hne. simpl. by destruct (decide (k = k')). Qed.

(** A keyword changes the one field of its name. *)
Lemma config_field_spec c name v :
  match config_field c name v with
  | Ok c' =>
      (forall t, (names_timer name t -> field_opt_secs name v = Ok (timers c' t)) /\
        (~ names_timer name t -> timers c' t = timers c t)) /\
      (forall k, (names_knob name k ->
          exists o, knob_setting name k v = Ok o /\ knobs c' k = after c k o) /\
        (~ names_knob name k -> knobs c' k = knobs c k)) /\
      (names_nothing name -> is_none v = true)
  | Err e => entry_err name v e
  end.
Proof.
  unfold config_field, entry_err, names_timer, names_knob, names_nothing.
  destruct (keyword timers_named name) as [t|] eqn:Et.
  - destruct (field_opt_secs name v) as [d|e] eqn:Ed; [|done]. cbn [mbind PyResult_bind].
    destruct (is_none v); (split; [|split; [|by intros [??]]]); intros k'; cbn [timers knobs set_timer];
      repeat case_decide; naive_solver.
  - destruct (keyword knobs_named name) as [k|] eqn:Ek; cbn [mbind PyResult_bind].
    + unfold knob_setting. destruct (is_none v) eqn:En.
      { split; [done|]. split; [|by intros [??]]. intros k'. split; [|done].
        intros _. by exists None. }
      destruct (arm name k v) as [x|e] eqn:Ea; [|done]. cbn [mbind PyResult_bind fmap PyResult_fmap].
      split; [done|]. split; [|by intros [??]]. intros k'. split.
      * intros [_ [= ->]]. rewrite Ea. exists (Some x). split; [done|]. apply set_knob_same.
      * intros Hne. apply set_knob_other. naive_solver.
    + destruct (is_none v); [|done]. split; [done|]. split; [|done]. naive_solver.
Qed.

Lemma names_timer_inj n1 n2 t : names_timer n1 t -> names_timer n2 t -> n1 = n2.
Proof. apply keyword_inj. apply (bool_decide_unpack _). vm_compute. exact I. Qed.
Lemma names_knob_inj n1 n2 k : names_knob n1 k -> names_knob n2 k -> n1 = n2.
Proof. intros [_ H1] [_ H2]. revert H1 H2. apply keyword_inj. apply (bool_decide_unpack _). vm_compute. exact I. Qed.

(** What a successful [Config::new] gives each field, from the keywords. *)
Definition timer_from (c c' : draft) (kw : list (string * obj)) (t : timer) : Prop :=
  (forall n v, (n, v) ∈ kw -> names_timer n t -> field_opt_secs n v = Ok (timers c' t)) /\
  ((forall n, n ∈ kw.*1 -> ~ names_timer n t) -> timers c' t = timers c t).
Definition knob_from (c c' : draft) (kw : list (string * obj)) (k : knob) : Prop :=
  (forall n v, (n, v) ∈ kw -> names_knob n k ->
    exists o, knob_setting n k v = Ok o /\ knobs c' k = after c k o) /\
  ((forall n, n ∈ kw.*1 -> ~ names_knob n k) -> knobs c' k = knobs c k).

Lemma config_loop_spec c kw :
  NoDup kw.*1 ->
  match config_loop c kw with
  | Ok c' => (forall t, timer_from c c' kw t) /\ (forall k, knob_from c c' kw k) /\
      (forall n v, (n, v) ∈ kw -> names_nothing n -> is_none v = true)
  | Err e => exists n v, (n, v) ∈ kw /\ entry_err n v e
  end.
Proof.
  revert c. induction kw as [|[n v] kw IH]; intros c; cbn [config_loop fmap list_fmap fst].
  { intros _. repeat split; try done; intros ?? []%elem_of_nil. }
  intros [Hn Hnd]%NoDup_cons. pose proof (config_field_spec c n v) as Hf.
  destruct (config_field c n v) as [c1|e]; cbn [mbind PyResult_bind].
  2: { exists n, v. split; [left|done]. }
  destruct Hf as (Ht & Hk & Hu). specialize (IH c1 Hnd).
  destruct (config_loop c1 kw) as [c2|e].
  2: { destruct IH as (n2 & v2 & ? & ?). exists n2, v2. split; [by right|done]. }
  destruct IH as (IHt & IHk & IHu).
  assert (forall n' v', (n', v') ∈ kw -> n' ∈ kw.*1) as Hin.
  { intros n' v' ?. apply list_elem_of_fmap. by exists (n', v'). }
  split; [|split].
  - intros t. destruct (IHt t) as [IH1 IH2]. specialize (Ht t). split.
    + intros n' v' [[= -> ->]|?]%elem_of_cons Hnt; [|by eapply IH1].
      rewrite IH2; [by apply Ht|].
      intros n' ? Hn'. apply Hn. by rewrite (names_timer_inj n n' t).
    + intros Hno. rewrite IH2; [|intros; apply Hno; by right].
      apply Ht, Hno. left.
  - intros k. destruct (IHk k) as [IH1 IH2]. specialize (Hk k). split.
    + intros n' v' [[= -> ->]|Hn']%elem_of_cons Hnk.
      * rewrite IH2; [by apply Hk|].
        intros n' ? Hn'. apply Hn. by rewrite (names_knob_inj n n' k).
      * destruct (IH1 _ _ Hn' Hnk) as (o & Ho & ->). exists o. split; [done|].
        destruct o; [done|]. apply Hk. intros Hc. rewrite (names_knob_inj n n' k) in Hn by done. eauto.
    + intros Hno. rewrite IH2; [|intros; apply Hno; by right].
      apply Hk, Hno. left.
  - intros n' v' [[= -> ->]|?]%elem_of_cons; eauto.
Qed.

(** *** The fields, as their documentation lists them *)

(** The keyword of each field. *)
Definition timer_name (t : timer) : string :=
  match t with
  | handshake_timeout => "handshake_timeout"
  | max_idle_timeout => "max_idle_timeout"
  | keep_alive_period => "keep_alive_period"
  | standby_probe => "standby_probe"
  | probe_interval => "probe_interval"
  end.
Definition knob_name (k : knob) : string :=
  match k with
  | initial_stream_receive_window => "initial_stream_receive_window"
  | max_stream_receive_window => "max_stream_receive_window"
  | latency_budget => "latency_budget"
  | initial_connection_receive_window => "initial_connection_receive_window"
  | max_connection_receive_window => "max_connection_receive_window"
  | memory_budget => "memory_budget"
  | max_incoming_streams => "max_incoming_streams"
  | max_incoming_uni_streams => "max_incoming_uni_streams"
  | enable_datagrams => "enable_datagrams"
  | datagram_send_queue => "datagram_send_queue"
  | datagram_receive_queue => "datagram_receive_queue"
  | datagram_stream_queue => "datagram_stream_queue"
  | datagram_receive_bytes => "datagram_receive_bytes"
  | send_buffer => "send_buffer"
  | send_buffer_max => "send_buffer_max"
  | max_pipes => "max_pipes"
  | pipe_headroom => "pipe_headroom"
  | replay_window => "replay_window"
  | max_lanes => "max_lanes"
  | resume_timeout => "resume_timeout"
  | scheduler => "scheduler"
  | spread_chunk => "spread_chunk"
  | suspect_floor => "suspect_floor"
  | dead_timeout => "dead_timeout"
  | probation => "probation"
  | overflow_delay => "overflow_delay"
  | probe_jitter => "probe_jitter"
  | redundancy => "redundancy"
  | pipe_auth => "pipe_auth"
  | early_zmux_peer => "early_data"
  | early_carrier => "carrier_early_data"
  | protocols => "protocols"
  | shaping_limits => "shaping_limits"
  | shaper => "shaping"
  end.

(** [v], as seconds of the field [name], is the duration [d]. *)
Definition in_seconds (name : string) (v : obj) (d : Duration) : Prop :=
  exists x, extract_f64 v = Ok x /\ seconds name x = Ok d.

(** What a value other than [None] makes of each field. *)
Definition means (k : knob) (v : obj) : ty k -> Prop :=
  match k with
  | initial_stream_receive_window => fun n => extract_int initial_stream_receive_window v = Ok n
  | initial_connection_receive_window => fun n => extract_int initial_connection_receive_window v = Ok n
  | max_incoming_streams => fun n => extract_int max_incoming_streams v = Ok n
  | datagram_send_queue => fun n => extract_int datagram_send_queue v = Ok n
  | datagram_receive_queue => fun n => extract_int datagram_receive_queue v = Ok n
  | datagram_stream_queue => fun n => extract_int datagram_stream_queue v = Ok n
  | datagram_receive_bytes => fun n => extract_int datagram_receive_bytes v = Ok n
  | send_buffer => fun n => extract_int send_buffer v = Ok n
  | max_pipes => fun n => extract_int max_pipes v = Ok n
  | pipe_headroom => fun n => extract_int pipe_headroom v = Ok n
  | spread_chunk => fun n => extract_int spread_chunk v = Ok n
  | max_incoming_uni_streams => fun o => exists n, extract_int max_incoming_uni_streams v = Ok n /\ o = Some n
  | replay_window => fun o => exists n, extract_int replay_window v = Ok n /\ o = Some n
  | max_stream_receive_window => fun c => exists n, extract_int max_stream_receive_window v = Ok n /\ c = Fixed n
  | max_connection_receive_window => fun c => exists n, extract_int max_connection_receive_window v = Ok n /\ c = Fixed n
  | send_buffer_max => fun c => exists n, extract_int send_buffer_max v = Ok n /\ c = Fixed n
  | latency_budget => in_seconds "latency_budget" v
  | suspect_floor => in_seconds "suspect_floor" v
  | overflow_delay => in_seconds "overflow_delay" v
  | dead_timeout => fun o => exists d, in_seconds "dead_timeout" v d /\ o = Some d
  | probation => fun o => exists d, in_seconds "probation" v d /\ o = Some d
  | resume_timeout => fun o => exists d, in_seconds "resume_timeout" v d /\ o = if is_zero d then None else Some d
  | memory_budget => fun o =>
      if is_float v then (exists x, extract_f64 v = Ok x /\ f64_eq x f64_infinity = true) /\ o = Some Unlimited
      else exists n, natural "memory_budget" v = Ok n /\ o = Some (BudgetBytes n)
  | max_lanes => fun n => extract_int max_lanes v = Ok n /\ n <> 0
  | enable_datagrams | early_zmux_peer | early_carrier => fun b => extract_bool v = Ok b
  | scheduler => fun p => exists s, extract_str v = Ok s /\
      (s, p) ∈ [("affinity", Affinity); ("session-affinity", SessionAffinity); ("spread-eta", SpreadEta);
                ("spread-round-robin", SpreadRoundRobin); ("spread-rate-weighted", SpreadRateWeighted)]
  | probe_jitter => fun x => extract_f64 v = Ok x
  | redundancy => fun r => exists s, extract_str v = Ok s /\ (s, r) ∈ [("urgent", Urgent); ("off", RedundancyOff)]
  | pipe_auth => fun a => exists x y z exporter insecure,
      getattr v "_exporter" = Ok x /\ extract_bool x = Ok exporter /\
      getattr v "_insecure" = Ok y /\ extract_bool y = Ok insecure /\
      getattr v "_psk" = Ok z /\ extract_opt extract_bytes z = Ok (auth_psk a) /\
      auth_base a = if exporter then AuthExporter else if insecure then AuthInsecure else AuthNone
  | protocols => fun o => exists l, extract_strs v = Ok l /\ o = Some l
  | shaping_limits => fun l => session_limits validate_limits v = Ok l
  | shaper => fun o => exists f, ByKind.by_kind from_name from_json v (mk_options None None) = Ok f /\ o = Some f
  end.

Lemma timer_keyword n t : names_timer n t <-> n = timer_name t.
Proof.
  unfold names_timer. split; [|intros ->; by destruct t]. intros Hk%keyword_in.
  repeat (apply elem_of_cons in Hk as [[= -> ->]|Hk]; [done|]). by apply elem_of_nil in Hk.
Qed.

Lemma knob_keyword n k : names_knob n k <-> n = knob_name k.
Proof.
  unfold names_knob. split; [|intros ->; by destruct k]. intros [_ Hk%keyword_in].
  repeat (apply elem_of_cons in Hk as [[= -> ->]|Hk]; [done|]). by apply elem_of_nil in Hk.
Qed.

Lemma policy_means s p :
  policy s = Ok p <-> (s, p) ∈ [("affinity", Affinity); ("session-affinity", SessionAffinity); ("spread-eta", SpreadEta);
    ("spread-round-robin", SpreadRoundRobin); ("spread-rate-weighted", SpreadRateWeighted)].
Proof.
  unfold policy. rewrite !elem_of_cons, elem_of_nil. split.
  - repeat case_eqb s; intros; naive_solver.
  - intros H'. destruct_or? H'; simplify_eq; done.
Qed.

Lemma field_secs_means name v d : field_secs name v = Ok d <-> in_seconds name v d.
Proof.
  unfold field_secs, in_seconds. split; [intros ?; py_inv; eauto|]. intros (x & -> & Hs). exact Hs.
Qed.

Lemma fmap_means {A B} (f : A -> B) (r : PyResult A) b : f <$> r = Ok b <-> exists a, r = Ok a /\ b = f a.
Proof. destruct r; simpl; naive_solver. Qed.

Lemma pipe_auth_means v a : read_pipe_auth v = Ok a <-> means pipe_auth v a.
Proof.
  unfold read_pipe_auth. cbn [means]. split.
  - intros Ha. py_inv. subst a. do 5 eexists. split_and!; done.
  - intros (y & y2 & y3 & ex & ins & -> & Hx & -> & Hy & -> & Hz & Hb). simpl. rewrite Hx. simpl. rewrite Hy. simpl.
    rewrite Hz. simpl. f_equal. destruct a as [base k]. simpl in *. subst base. by destruct ex, ins.
Qed.

(** The arm of a field converts its values so. *)
Lemma arm_means k v x : arm (knob_name k) k v = Ok x <-> means k v x.
Proof.
  destruct k; cbn [arm means knob_name]; try done; try apply field_secs_means;
    unfold field_cap; try (rewrite fmap_means); try done;
    try (setoid_rewrite <- field_secs_means; done).
  - unfold field_budget. destruct (is_float v).
    + split; [intros (a & Ha & ->); py_inv; case_if; py_inv; naive_solver|].
      intros [(y & -> & Hy) ->]. simpl. rewrite Hy. by eexists.
    + setoid_rewrite fmap_means. naive_solver.
  - split; [intros Hn; py_inv; destruct (Z.eqb_spec x0 0); by simplify_eq|].
    intros [-> Hn]. simpl. by rewrite (proj2 (Z.eqb_neq _ _) Hn).
  - setoid_rewrite <- field_secs_means. destruct (field_secs "resume_timeout" v); simpl; naive_solver.
  - setoid_rewrite <- policy_means. destruct (extract_str v); simpl; naive_solver.
  - unfold read_redundancy. setoid_rewrite elem_of_cons. setoid_rewrite elem_of_cons. setoid_rewrite elem_of_nil.
    destruct (extract_str v) as [s|e]; simpl; [|naive_solver]. repeat case_eqb s; naive_solver.
  - apply pipe_auth_means.
Qed.

(** An entry that cannot be taken: a name that is no field, or a value that
    does not convert. *)
Definition bad_entry (n : string) (v : obj) (e : pyerr) : Prop :=
  is_none v = false /\
  ((forall t, n <> timer_name t) /\ (forall k, n <> knob_name k) /\ e = unknown_field n \/
   (exists t, n = timer_name t /\ forall d, ~ in_seconds n v d) \/
   (exists k, n = knob_name k /\ forall x, ~ means k v x)).

Lemma entry_bad n v e : entry_err n v e -> bad_entry n v e.
Proof.
  unfold entry_err, bad_entry. destruct (keyword timers_named n) as [t|] eqn:Et.
  - unfold field_opt_secs. destruct (is_none v); [done|]. intros Hs. split; [done|]. right. left.
    exists t. split; [by apply timer_keyword|]. intros d Hd%field_secs_means. by rewrite Hd in Hs.
  - destruct (keyword knobs_named n) as [k|] eqn:Ek.
    + assert (n = knob_name k) as -> by (by apply knob_keyword). unfold knob_setting.
      destruct (is_none v); [done|]. intros Ha. split; [done|]. right. right. exists k. split; [done|].
      intros x Hx%arm_means. by rewrite Hx in Ha.
    + intros [Hv ->]. split; [done|]. left. split_and!; [| |done].
      * intros t ->. assert (names_timer (timer_name t) t) as Ht by (by apply timer_keyword).
        unfold names_timer in Ht. congruence.
      * intros k ->. assert (names_knob (knob_name k) k) as [_ Hk] by (by apply knob_keyword). congruence.
Qed.

(** C12: [Config] gives every field the value of its keyword and keeps the
    default of every other one, whatever the order of the keywords.  A timer
    takes the seconds of the keyword of its name, and [None] turns it off.  Any
    other field takes the value its keyword's means, converted as the field
    documents it ([max_lanes] at least 1, a zero [resume_timeout] none, an
    infinite [memory_budget] unlimited, a scheduler and a redundancy by name),
    and [None] keeps the default.  It raises only because of one of the
    keywords: a value that does not convert, or, with [TypeError], a name that
    is no field. *)
Theorem config_new_fields kw :
  NoDup kw.*1 ->
  match config_new (Some kw) with
  | Ok c =>
      (forall t,
        (forall v, (timer_name t, v) ∈ kw ->
           if is_none v then timers (fields_of c) t = None
           else exists d, in_seconds (timer_name t) v d /\ timers (fields_of c) t = Some d) /\
        (timer_name t ∉ kw.*1 -> timers (fields_of c) t = timers default t)) /\
      (forall k,
        (forall v, (knob_name k, v) ∈ kw ->
           if is_none v then knobs (fields_of c) k = knobs default k else means k v (knobs (fields_of c) k)) /\
        (knob_name k ∉ kw.*1 -> knobs (fields_of c) k = knobs default k)) /\
      early_data c = mk_early (knobs (fields_of c) early_zmux_peer) (knobs (fields_of c) early_carrier)
  | Err e => exists n v, (n, v) ∈ kw /\ bad_entry n v e
  end.
Proof.
  intros Hnd. unfold config_new. pose proof (config_loop_spec default kw Hnd) as H1.
  destruct (config_loop default kw) as [c|e]; simpl; cycle 1.
  { destruct H1 as (n & v & Hin & He). exists n, v. split; [done|]. by apply entry_bad. }
  destruct H1 as (Ht & Hk & _). split; [|split; [|done]].
  - intros t. destruct (Ht t) as [H1 H2]. split.
    + intros v Hin. specialize (H1 _ v Hin (proj2 (timer_keyword _ t) eq_refl)). unfold field_opt_secs in H1.
      destruct (is_none v); [by injection H1|]. apply fmap_means in H1 as (d & Hd%field_secs_means & Hc). eauto.
    + intros Hn. apply H2. intros n Hin ->%timer_keyword. done.
  - intros k. destruct (Hk k) as [H1 H2]. split.
    + intros v Hin. destruct (H1 _ v Hin (proj2 (knob_keyword _ k) eq_refl)) as (o & Ho & Hc).
      unfold knob_setting in Ho. destruct (is_none v); [by injection Ho as <-|].
      apply fmap_means in Ho as (x & Hx%arm_means & ->). by rewrite Hc.
    + intros Hn. apply H2. intros n Hin ->%knob_keyword. done.
Qed.

(** The class comment says that an unknown field raises [TypeError]; with
    the value [None] it does not: the keyword is accepted and ignored, since
    the test for [None] precedes the test of the name. *)
Theorem config_unknown_none_accepted n v :
  names_nothing n -> is_none v = true ->
  config_new (Some [(n, v)]) = config_new None /\ is_ok (config_new (Some [(n, v)])) = true.
Proof.
  intros [Ht Hk] Hv. unfold config_new. cbn [config_loop]. unfold config_field. by rewrite Ht, Hv.
Qed.

End config.

(** ** Examples *)
Module Example.
Import PyVal.
Definition kinds (s : string) : option nat := if String.eqb s "quic" then Some 1%nat else None.
Definition parse (s : string) (_ : Options) : string + string := inl s.
Definition int (k : knob) (v : pyval) : PyResult Z := extract_u64 v.
Definition limits : Limits := mk_limits None None None None None.
Definition default : draft (CarrierKind:=nat) (MachineFactory:=string) :=
  mk_draft (fun _ => Some (mk_duration 10 0)) (fun k =>
    match k with
    | initial_stream_receive_window | initial_connection_receive_window | max_incoming_streams
    | datagram_send_queue | datagram_receive_queue | datagram_stream_queue
    | datagram_receive_bytes | send_buffer | max_pipes | pipe_headroom | max_lanes
    | spread_chunk => 1
    | max_incoming_uni_streams | replay_window => None
    | max_stream_receive_window | max_connection_receive_window | send_buffer_max => Auto
    | latency_budget | suspect_floor | overflow_delay => duration_zero
    | resume_timeout | dead_timeout | probation => None
    | memory_budget => None
    | enable_datagrams | early_zmux_peer | early_carrier => false
    | scheduler => Affinity
    | probe_jitter => f64_zero
    | redundancy => RedundancyOff
    | pipe_auth => mk_pipe_auth AuthNone None
    | protocols => None
    | shaping_limits => limits
    | shaper => None
    end).
Definition new (kw : list (string * pyval)) :=
  config_new (P:=pyval_py) kinds parse (fun _ => None) int default (Some kw).
Definition kw : list (string * pyval) :=
  [("max_pipes", VInt 4); ("keep_alive_period", VNone); ("scheduler", VStr "spread-eta");
   ("early_data", VBool true)].
End Example.

Lemma config_new_fields_witness :
  exists c, Example.new Example.kw = Ok c /\
    Example.int max_pipes (PyVal.VInt 4) = Ok (knobs (fields_of c) max_pipes) /\
    timers (fields_of c) keep_alive_period = None /\
    timers (fields_of c) probe_interval = Some (mk_duration 10 0).
Proof.
  pose proof (config_new_fields (P:=PyVal.pyval_py) Example.kinds Example.parse (fun _ => None)
    Example.int Example.default Example.kw) as Hs.
  eexists. split; [reflexivity|]. cbv beta iota delta [Example.new] in *.
  destruct Hs as (Ht & Hk & He).
  { apply (bool_decide_unpack _). vm_compute. exact I. }
  split; [|split].
  - exact (proj1 (Hk max_pipes) (PyVal.VInt 4) ltac:(left)).
  - exact (proj1 (Ht keep_alive_period) PyVal.VNone ltac:(right; left)).
  - apply (Ht probe_interval). apply (bool_decide_unpack _). vm_compute. exact I.
Defined.

Lemma config_unknown_none_accepted_witness :
  is_ok (Example.new [("max_pipe", PyVal.VNone)]) = true /\
  is_ok (Example.new [("max_pipe", PyVal.VInt 1)]) = false.
Proof.
  split; [|reflexivity].
  apply (config_unknown_none_accepted (P:=PyVal.pyval_py) Example.kinds Example.parse (fun _ => None)
    Example.int Example.default "max_pipe" PyVal.VNone); [split|]; reflexivity.
Defined.
