(* ===== verification/Handles.v ===== *)
(** Single-use handles (src/src/lib.rs, src/src/layer.rs): the carrier objects
    [PipeIo], the reservations [PipeReservation], and the calls that use them
    up: [Session.connect]/[accept]/[peer], [Session.add_pipe],
    [Session.reserve_pipe], [Listener.handle_pipe], [PipeIo.wrap] and a
    listener's inbound transform.  The Python objects live in a store; a native
    carrier is a value that is in one place at a time, and every place it can
    end in is recorded. *)
From S2P Require Import Prelude Duration Pyo3 Errors PipeOptions Shaping.
Open Scope Z_scope.

(** ** [UnsentCount] *)
Module UnsentCount.
(** The atomic holds [u64::MAX] for [None]. *)
Definition encode (n : option Z) : Z :=
  match n with Some n => Z.min n (u64_max - 1) | None => u64_max end.
Definition new (n : option Z) : Z := encode n.
Definition set (c : Z) (n : option Z) : Z := encode n.
Definition decode (c : Z) : option Z := if c =? u64_max then None else Some c.
Definition value (c : Z) : option Z := decode c.

(** A count reads back as it was last set, and "cannot tell" as [None];
    only the largest u64, which stands for [None] in the atomic, reads one
    less, so that no count is ever taken for "cannot tell". *)
Theorem unsent_roundtrip c n :
  (forall m, n = Some m -> in_u64 m) ->
  in_u64 (set c n) /\ value (set c n) = (fun m => Z.min m (u64_max - 1)) <$> n /\
  (value (set c n) = None <-> n = None) /\ new n = set 0 n.
Proof.
  unfold value, set, new, decode, encode, in_u64, u64_max. intros Hn.
  destruct n as [m|]; [specialize (Hn m eq_refl)|].
  - rewrite (proj2 (Z.eqb_neq _ _)) by lia. simpl. naive_solver lia.
  - rewrite Z.eqb_refl. naive_solver lia.
Qed.

Lemma unsent_roundtrip_witness :
  value (set 0 (Some 1500)) = Some 1500 /\ value (set 7 (Some u64_max)) = Some (u64_max - 1).
Proof.
  split.
  - rewrite (proj1 (proj2 (unsent_roundtrip 0 (Some 1500)
      ltac:(intros m [= <-]; unfold in_u64; lia)))). reflexivity.
  - rewrite (proj1 (proj2 (unsent_roundtrip 7 (Some u64_max)
      ltac:(intros m [= <-]; unfold in_u64, u64_max; lia)))). reflexivity.
Defined.
End UnsentCount.

(** ** The native carrier

    What the binding calls on a [zmux::PipeIo]; [conn] is the connection it is
    made of, which every change of its properties keeps. *)
Class PipeIoOps (io Kind : Type) := {
  conn : io -> nat;
  io_carrier : io -> option Kind;
  io_with_carrier : Kind -> io -> io;
  io_with_unsent : nat -> io -> io;
  io_with_overhead : Z -> io -> io;
  io_wrapped : io -> io;
}.
Class PipeIoLaws (io Kind : Type) `{PipeIoOps io Kind} : Prop := {
  conn_with_carrier k i : conn (io_with_carrier k i) = conn i;
  conn_with_unsent c i : conn (io_with_unsent c i) = conn i;
  conn_with_overhead n i : conn (io_with_overhead n i) = conn i;
  conn_wrapped i : conn (io_wrapped i) = conn i;
  carrier_with_carrier k i : io_carrier (io_with_carrier k i) = Some k;
  carrier_with_unsent c i : io_carrier (io_with_unsent c i) = io_carrier i;
  carrier_with_overhead n i : io_carrier (io_with_overhead n i) = io_carrier i;
}.
Create Rewrite HintDb conn.
#[export] Hint Rewrite @conn_with_carrier @conn_with_unsent @conn_with_overhead @conn_wrapped
  using typeclasses eauto : conn.

(** The session a carrier starts ([how] of [start]). *)
Inductive role := Connect | Accept | Peer.

(** Where a native carrier goes once it left its object. *)
Inductive fate :=
  | ToSession (r : role) | ToPipe | ToReservation | ToListener | ToStream
  | WithLayer   (* its halves stay in the [CarrierStream] a cancelled layer may hold *)
  | Dropped.

(** How the future of a [PipeIo.wrap] ends: with the layer's stream, with an
    I/O error after which both halves were released, or cancelled, which
    releases nothing. *)
Inductive wrap_end := WrapOk | WrapErr (e : pyerr) | WrapCancelled.
Definition cancelled : pyerr := new_err PyCancelledError [].

Definition used_pipe : pyerr := new_err PyRuntimeError [Lit "pipe already used"].
Definition used_reservation : pyerr := new_err PyRuntimeError [Lit "reservation already used"].
Definition overhead_err : pyerr := new_err PyValueError [Lit "write_overhead is between 0 and 65535"].
Definition direction_err : pyerr := new_err PyValueError [Lit "direction is in, out or bidi"].

Inductive PipeDirection := DirIn | DirOut | DirBidi.

Section handles.
Context {io Kind : Type} `{Countable Kind} `{!PipeIoOps io Kind}.
Context {P : Py} (from_name : string -> option Kind).
(** Native reservations and the configuration of a session. *)
Context {Reservation Config : Type}.
(** [str::parse::<IpAddr>] with its error as a [ValueError], and
    [Ipv4Addr::LOCALHOST]. *)
Context {IpAddr : Type} (parse_ip : string -> PyResult IpAddr) (localhost : IpAddr).

(** The store: the [StdMutex<Option<_>>] cell of each [PipeIo] and
    [PipeReservation] object, the carriers that [PipeIo.wrap] futures hold,
    the carriers that left, and the connections made so far. *)
Record world := mk_world {
  pipes : list (option io);
  reservations : list (option Reservation);
  wrapping : list (option io);
  gone : list (io * fate);
  dialed : list nat;
}.

(** *** State and errors *)
Definition M (A : Type) : Type := world -> PyResult A * world.
Definition ret {A} (a : A) : M A := fun w => (Ok a, w).
Definition fail {A} (e : pyerr) : M A := fun w => (Err e, w).
Definition bind {A B} (m : M A) (f : A -> M B) : M B := fun w =>
  match m w with
  | (Ok a, w) => f a w
  | (Err e, w) => (Err e, w)
  end.
Definition lift {A} (r : PyResult A) : M A := fun w => (r, w).

Declare Scope m_scope.
Notation "x <- m ;; k" := (bind m (fun x => k)) (at level 100, m at next level, right associativity) : m_scope.
Notation "m ;;; k" := (bind m (fun _ => k)) (at level 100, right associativity) : m_scope.
Open Scope m_scope.

(** A native carrier leaves: it is moved into a native call, or dropped. *)
Definition moved (f : fate) (i : io) : M unit := fun w =>
  (Ok tt, mk_world (pipes w) (reservations w) (wrapping w) ((i, f) :: gone w) (dialed w)).

(** The rest of a function that owns [i]: on an error return [i] is dropped. *)
Definition owning {A} (i : io) (m : M A) : M A := fun w =>
  match m w with
  | (Ok a, w) => (Ok a, w)
  | (Err e, w) => let '(_, w) := moved Dropped i w in (Err e, w)
  end.

(** *** [PipeIo] *)

(** [PipeIo::wrap]: a new object. *)
Definition wrap (i : io) : M nat := fun w =>
  (Ok (length (pipes w)),
   mk_world (pipes w ++ [Some i]) (reservations w) (wrapping w) (gone w) (dialed w)).

Definition take (p : nat) : M io := fun w =>
  match pipes w !! p with
  | Some (Some i) =>
      (Ok i, mk_world (<[p := None]> (pipes w)) (reservations w) (wrapping w) (gone w) (dialed w))
  | _ => (Err used_pipe, w)
  end.

(** A carrier the binding dialled, given to Python ([Http2Connection.open_pipe];
    the other dials end the same way); [opened]: what the native call gives. *)
Definition dial (opened : PyResult io) : M nat :=
  i <- lift opened ;;
  fun w => wrap i (mk_world (pipes w) (reservations w) (wrapping w) (gone w) (conn i :: dialed w)).

(** [pipe_pair]: a new in-memory carrier [i], labelled when a kind is given. *)
Definition pipe_pair (i : io) (kind : option obj) : M nat := fun w =>
  owning i
    match kind with
    | Some k => k <- lift (ByKind.carrier_kind from_name k) ;; wrap (io_with_carrier k i)
    | None => wrap i
    end
    (mk_world (pipes w) (reservations w) (wrapping w) (gone w) (conn i :: dialed w)).

Definition with_carrier (p : nat) (kind : obj) : M nat :=
  k <- lift (ByKind.carrier_kind from_name kind) ;;
  i <- take p ;;
  wrap (io_with_carrier k i).

Definition with_unsent (p : nat) (count : nat) : M nat :=
  i <- take p ;;
  wrap (io_with_unsent count i).

Definition with_write_overhead (p : nat) (overhead : Z) : M nat :=
  n <- lift (if (0 <=? overhead) && (overhead <? 2 ^ 16) then Ok overhead else Err overhead_err) ;;
  i <- take p ;;
  wrap (io_with_overhead n i).

Definition into_stream (p : nat) : M unit :=
  i <- take p ;;
  moved ToStream i.

(** [PipeIo.wrap]: the call, which needs a running loop ([locals], and
    [future]: what [future_into_py] gives), and the end of its future: the
    layer's carrier, an I/O error that drops it, or a cancellation, which leaves
    its halves with the layer. *)
Definition wrap_layer (p : nat) (locals future : PyResult unit) : M nat :=
  _ <- lift locals ;;
  i <- take p ;;
  owning i (lift future) ;;;
  fun w => (Ok (length (wrapping w)),
    mk_world (pipes w) (reservations w) (wrapping w ++ [Some i]) (gone w) (dialed w)).

Definition wrap_done (f : nat) (r : wrap_end) : M nat := fun w =>
  match wrapping w !! f with
  | Some (Some i) =>
      let w := mk_world (pipes w) (reservations w) (<[f := None]> (wrapping w)) (gone w) (dialed w) in
      match r with
      | WrapOk => wrap (io_wrapped i) w
      | WrapErr e => (moved Dropped i ;;; fail e) w
      | WrapCancelled => (moved WithLayer i ;;; fail cancelled) w
      end
  | _ => (Err used_pipe, w)
  end.

Definition carrier (p : nat) : M (option Kind) := fun w =>
  match pipes w !! p with
  | Some (Some i) => (Ok (io_carrier i), w)
  | _ => (Err used_pipe, w)
  end.

(** *** Sessions and listeners *)

Definition role_of (how : Z) : role :=
  match how with 0 => Connect | 1 => Accept | _ => Peer end.

(** [start]: the carrier is taken before the configuration is read ([config]:
    what [cfg] gives) and before the event loop is asked for a future. *)
Definition start (p : nat) (config : PyResult Config) (future : PyResult unit) (how : Z) : M Config :=
  i <- take p ;;
  owning i (c <- lift config ;; _ <- lift future ;; moved (ToSession (role_of how)) i ;;; ret c).

(** [Session.add_pipe]: the options are read first; [answer] is the native
    call's result, which owns the carrier either way. *)
Definition add_pipe (new : PipeOptions) (validate : PipeOptions -> bool)
    (p : nat) (options : option obj) (answer : PyResult nat) : M nat :=
  o <- lift (pipe_options new validate options) ;;
  i <- take p ;;
  moved ToPipe i ;;;
  lift answer.

Definition direction_of (s : string) : PyResult PipeDirection :=
  if String.eqb s "in" then Ok DirIn
  else if String.eqb s "out" then Ok DirOut
  else if String.eqb s "bidi" then Ok DirBidi
  else Err direction_err.

Definition reserve_pipe (new : PipeOptions) (validate : PipeOptions -> bool)
    (direction : string) (options : option obj)
    (native : PipeDirection -> PipeOptions -> PyResult Reservation) : M nat :=
  dir <- lift (direction_of direction) ;;
  o <- lift (pipe_options new validate options) ;;
  r <- lift (native dir o) ;;
  fun w => (Ok (length (reservations w)),
    mk_world (pipes w) (reservations w ++ [Some r]) (wrapping w) (gone w) (dialed w)).

(** [Listener.handle_pipe]: the addresses are read before the carrier is
    taken; its result is the hint the listener gets with the carrier. *)
Record PipeHint := mk_hint { hint_peer : IpAddr * Z; hint_source : option (IpAddr * Z) }.

Definition addr (a : option (string * Z)) : PyResult (option (IpAddr * Z)) :=
  map_transpose (fun '(h, port) => (fun ip => (ip, port)) <$> parse_ip h) a.

Definition handle_pipe (p : nat) (peer source : option (string * Z)) (future : PyResult unit) :
    M PipeHint :=
  a <- lift (addr peer) ;;
  s <- lift (addr source) ;;
  i <- take p ;;
  owning i (_ <- lift future ;; moved ToListener i ;;;
            ret (mk_hint (default (localhost, 0) a) s)).

(** *** [PipeReservation] *)

Definition take_reservation (r : nat) : M Reservation := fun w =>
  match reservations w !! r with
  | Some (Some n) =>
      (Ok n, mk_world (pipes w) (<[r := None]> (reservations w)) (wrapping w) (gone w) (dialed w))
  | _ => (Err used_reservation, w)
  end.

(** [PipeReservation::with]: the getters. *)
Definition with_reservation {T} (r : nat) (f : Reservation -> T) : M T := fun w =>
  match reservations w !! r with
  | Some (Some n) => (Ok (f n), w)
  | _ => (Err used_reservation, w)
  end.

(** [attach]: the carrier is taken first, then the reservation. *)
Definition attach (r p : nat) (answer : PyResult nat) : M nat :=
  i <- take p ;;
  owning i (take_reservation r ;;; moved ToReservation i ;;; ret tt) ;;;
  lift answer.

Definition cancel (r : nat) : M unit :=
  take_reservation r ;;; ret tt.

(** *** The inbound transform ([layer::call])

    [f] is the Python callable and everything that runs until its result is
    there (it may use any handle); the result is an object, and [pipe_of] its
    downcast to [PipeIo]. *)
Definition release (p : nat) : M unit := fun w =>
  match pipes w !! p with
  | Some (Some i) =>
      moved Dropped i
        (mk_world (<[p := None]> (pipes w)) (reservations w) (wrapping w) (gone w) (dialed w))
  | _ => (Ok tt, w)
  end.

Definition transform_call (f : nat -> M obj) (pipe_of : obj -> PyResult nat) (i : io) : M io := fun w =>
  match wrap i w with
  | (Ok p, w) =>
      let '(r, w) := (o <- f p ;; q <- lift (pipe_of o) ;; take q) w in
      let '(_, w) := release p w in
      (r, w)
  | (Err e, w) => (Err e, w)
  end.

(** The dial of a rejoin ([resolve_duplicate]) or of a pool: the callable's
    result is a [PipeIo], whose carrier is taken; any error is an I/O error of
    its text ([dial_err]). *)
Definition dial_call {E} (dial_err : pyerr -> E) (f : M obj) (pipe_of : obj -> PyResult nat) : world -> (io + E) * world :=
  fun w =>
    match (o <- f ;; q <- lift (pipe_of o) ;; take q) w with
    | (Ok i, w) => (inl i, w)
    | (Err e, w) => (inr (dial_err e), w)
    end.

(** The carrier a dial gives has left the object it came from. *)
Lemma dial_call_takes {E} (dial_err : pyerr -> E) f pipe_of w i w' :
  dial_call dial_err f pipe_of w = (inl i, w') ->
  exists q w1, pipes w1 !! q = Some (Some i) /\ pipes w' = <[q := None]> (pipes w1).
Proof.
  unfold dial_call, bind, lift. destruct (f w) as [[o|e] w1]; [|done].
  destruct (pipe_of o) as [q|e]; [|done]. unfold take.
  destruct (pipes w1 !! q) as [[j|]|] eqn:Eq; try done. intros [= <- <-]. by exists q, w1.
Qed.

(** *** Sequences of calls *)

(** A call of Python code on the handles, with what the rest of the program
    answers. *)
Inductive op :=
  | ODial (opened : PyResult io)
  | OPipePair (i : io) (kind : option obj)
  | OWithCarrier (p : nat) (k : obj)
  | OWithUnsent (p c : nat)
  | OWithOverhead (p : nat) (n : Z)
  | OIntoStream (p : nat)
  | OWrap (p : nat) (locals future : PyResult unit)
  | OWrapDone (f : nat) (r : wrap_end)
  | OCarrier (p : nat)
  | OStart (p : nat) (config : PyResult Config) (future : PyResult unit) (how : Z)
  | OAddPipe (new : PipeOptions) (validate : PipeOptions -> bool) (p : nat)
      (options : option obj) (answer : PyResult nat)
  | OReserve (new : PipeOptions) (validate : PipeOptions -> bool) (direction : string)
      (options : option obj) (native : PipeDirection -> PipeOptions -> PyResult Reservation)
  | OAttach (r p : nat) (answer : PyResult nat)
  | OCancel (r : nat)
  | OHandle (p : nat) (peer source : option (string * Z)) (future : PyResult unit).

Definition void {A} (m : M A) : M unit := _ <- m ;; ret tt.

Definition exec (o : op) : M unit :=
  match o with
  | ODial i => void (dial i)
  | OPipePair i k => void (pipe_pair i k)
  | OWithCarrier p k => void (with_carrier p k)
  | OWithUnsent p c => void (with_unsent p c)
  | OWithOverhead p n => void (with_write_overhead p n)
  | OIntoStream p => void (into_stream p)
  | OWrap p l f => void (wrap_layer p l f)
  | OWrapDone f r => void (wrap_done f r)
  | OCarrier p => void (carrier p)
  | OStart p c f h => void (start p c f h)
  | OAddPipe n v p o a => void (add_pipe n v p o a)
  | OReserve n v d o nat => void (reserve_pipe n v d o nat)
  | OAttach r p a => void (attach r p a)
  | OCancel r => void (cancel r)
  | OHandle p a s f => void (handle_pipe p a s f)
  end.

(** Python catches what it likes and goes on. *)
Definition run (ops : list op) (w : world) : world := foldl (fun w o => (exec o w).2) w ops.

Definition empty_world : world := mk_world [] [] [] [] [].

(** The object a call uses up. *)
Definition uses (o : op) : option nat :=
  match o with
  | OWithCarrier p _ | OWithUnsent p _ | OWithOverhead p _ | OIntoStream p | OWrap p _ _
  | OStart p _ _ _ | OAddPipe _ _ p _ _ | OAttach _ p _ | OHandle p _ _ _ => Some p
  | _ => None
  end.

(** *** Conservation: a logic of the carrier in hand *)

Definition owned (w : world) : list nat :=
  map conn (omap id (pipes w)) ++ map conn (omap id (wrapping w)) ++ map (fun g => conn g.1) (gone w).

(** [triple h m Q E]: run with the connections [h] in hand, [m] ends with [Q]
    in hand when it succeeds and [E] when it raises, and loses none. *)
Definition triple {A} (h : list nat) (m : M A) (Q : A -> list nat) (E : list nat) : Prop :=
  forall w, h ++ owned w ≡ₚ dialed w ->
    match m w with
    | (Ok a, w') => Q a ++ owned w' ≡ₚ dialed w'
    | (Err _, w') => E ++ owned w' ≡ₚ dialed w'
    end.

Lemma triple_bind {A B} h (m : M A) (f : A -> M B) Q R E :
  triple h m Q E -> (forall a, triple (Q a) (f a) R E) -> triple h (bind m f) R E.
Proof.
  intros Hm Hf w Hw. specialize (Hm w Hw). unfold bind. destruct (m w) as [[a|e] w']; [|done].
  by apply Hf.
Qed.
Lemma triple_lift {A} h (r : PyResult A) : triple h (lift r) (fun _ => h) h.
Proof. intros w Hw. unfold lift. by destruct r. Qed.
Lemma triple_ret {A} h (a : A) E : triple h (ret a) (fun _ => h) E.
Proof. by intros w Hw. Qed.

Lemma omap_insert_none {A} (l : list (option A)) p a :
  l !! p = Some (Some a) -> omap id l ≡ₚ a :: omap id (<[p := None]> l).
Proof.
  intros Hp. rewrite <- (take_drop_middle l p _ Hp) at 1.
  rewrite insert_take_drop by (by eapply lookup_lt_Some).
  rewrite !omap_app. simpl. by rewrite Permutation_middle.
Qed.

Lemma triple_take h p : triple h (take p) (fun i => conn i :: h) h.
Proof.
  intros w Hw. unfold take. destruct (pipes w !! p) as [[i|]|] eqn:Ep; [|done..].
  unfold owned in *. cbn [pipes wrapping gone dialed]. rewrite <- Hw, (omap_insert_none _ _ _ Ep). simpl. solve_Permutation.
Qed.
Lemma triple_wrap h i E : triple (conn i :: h) (wrap i) (fun _ => h) E.
Proof.
  intros w Hw. unfold wrap, owned in *. cbn [pipes wrapping gone dialed]. rewrite <- Hw.
  rewrite omap_app, map_app. simpl. solve_Permutation.
Qed.
Lemma triple_moved h f i E : triple (conn i :: h) (moved f i) (fun _ => h) E.
Proof.
  intros w Hw. unfold moved, owned in *. cbn [pipes wrapping gone dialed]. rewrite <- Hw. simpl.
  solve_Permutation.
Qed.
Lemma triple_owning {A} h i (m : M A) Q :
  triple (conn i :: h) m Q (conn i :: h) -> triple (conn i :: h) (owning i m) Q h.
Proof.
  intros Hm w Hw. specialize (Hm w Hw). unfold owning. destruct (m w) as [[a|e] w']; [done|].
  exact (triple_moved h Dropped i [] w' Hm).
Qed.

Lemma triple_take_reservation h r : triple h (take_reservation r) (fun _ => h) h.
Proof. intros w Hw. unfold take_reservation. by destruct (reservations w !! r) as [[?|]|]. Qed.

Context `{!PipeIoLaws io Kind}.

Lemma triple_wrap_as h c i E : conn i = c -> triple (c :: h) (wrap i) (fun _ => h) E.
Proof. intros <-. apply triple_wrap. Qed.

Ltac hoare_step :=
  first
    [ apply triple_lift | apply triple_take | apply triple_moved | apply triple_ret
    | apply triple_take_reservation | apply triple_owning
    | (apply triple_wrap_as; by autorewrite with conn)
    | (eapply triple_bind; [|intros]) ].
Ltac hoare := repeat hoare_step.

Lemma exec_conserves o : triple [] (exec o) (fun _ => []) [].
Proof.
  destruct o; unfold exec, void, with_carrier, with_unsent, with_write_overhead, into_stream,
    start, add_pipe, attach, cancel, handle_pipe; try (by hoare).
  - unfold dial. hoare. intros w Hw.
    match goal with |- match wrap ?i ?w1 with _ => _ end => apply (triple_wrap [] i [] w1) end. unfold owned in *. simpl in *. by rewrite Hw.
  - eapply triple_bind; [|intros; apply triple_ret]. intros w Hw. unfold pipe_pair.
    match goal with |- context [owning i ?m ?w1] =>
      enough (triple [conn i] (owning i m) (fun _ => []) []) as Ht
        by (apply (Ht w1); unfold owned in *; simpl in *; by rewrite Hw) end.
    destruct kind; hoare.
  - unfold wrap_layer. hoare. intros w Hw. unfold owned in *. cbn [pipes wrapping gone dialed].
    rewrite <- Hw, omap_app, map_app. simpl. solve_Permutation.
  - eapply triple_bind; [|intros; apply triple_ret]. intros w Hw. unfold wrap_done.
    destruct (wrapping w !! f) as [[i|]|] eqn:Ef; [|done..].
    set (w1 := mk_world _ _ _ _ _). assert ([conn i] ++ owned w1 ≡ₚ dialed w1) as H1.
    { unfold owned, w1 in *. cbn [pipes wrapping gone dialed].
      rewrite <- Hw, (omap_insert_none _ _ _ Ef). simpl. solve_Permutation. }
    destruct r.
    + apply (triple_wrap_as [] (conn i) (io_wrapped i) []); [by autorewrite with conn|exact H1].
    + exact (triple_moved [] Dropped i [] w1 H1).
    + exact (triple_moved [] WithLayer i [] w1 H1).
  - intros w Hw. unfold carrier, bind. by destruct (pipes w !! p) as [[?|]|].
  - unfold reserve_pipe. hoare. by intros w Hw.
Qed.

Lemma run_conserves ops w : owned w ≡ₚ dialed w -> owned (run ops w) ≡ₚ dialed (run ops w).
Proof.
  revert w. induction ops as [|o ops IH]; intros w Hw; [done|]. apply IH.
  pose proof (exec_conserves o w Hw) as Ho. by destruct (exec o w) as [[|] ?].
Qed.

(** *** Used up for good *)

Definition used (p : nat) (w : world) : Prop := pipes w !! p = Some None.

(** [later w w']: objects are only added, and a used one stays used. *)
Definition later (w w' : world) : Prop :=
  (length (pipes w) <= length (pipes w'))%nat /\ forall p, used p w -> used p w'.
#[local] Instance later_pre : PreOrder later.
Proof.
  split; [by intros w|]. intros w1 w2 w3 [Hl1 Hu1] [Hl2 Hu2]. split; [lia|auto].
Qed.

Definition keeps {A} (m : M A) : Prop := forall w, later w (m w).2.

Lemma keeps_bind {A B} (m : M A) (f : A -> M B) : keeps m -> (forall a, keeps (f a)) -> keeps (bind m f).
Proof.
  intros Hm Hf w. unfold bind. specialize (Hm w). destruct (m w) as [[a|e] w']; [|done].
  etrans; [exact Hm|]. apply Hf.
Qed.
Lemma keeps_pipes {A} (m : M A) : (forall w, pipes (m w).2 = pipes w) -> keeps m.
Proof. intros Hm w. unfold later, used. by rewrite Hm. Qed.
Lemma later_insert q w w' : pipes w' = <[q := None]> (pipes w) -> later w w'.
Proof.
  unfold later, used. intros ->. rewrite length_insert. split; [done|]. intros p Hp.
  rewrite list_lookup_insert. by case_decide.
Qed.
Lemma keeps_take q : keeps (take q).
Proof.
  intros w. unfold take. destruct (pipes w !! q) as [[i|]|]; [|done..]. by apply (later_insert q).
Qed.
Lemma keeps_wrap i : keeps (wrap i).
Proof.
  intros w. split; simpl; [rewrite length_app; lia|]. intros p Hp. by apply lookup_app_l_Some.
Qed.
Lemma keeps_lift {A} (r : PyResult A) : keeps (lift r).
Proof. by apply keeps_pipes. Qed.
Lemma keeps_moved f i : keeps (moved f i).
Proof. by apply keeps_pipes. Qed.
Lemma keeps_take_reservation r : keeps (take_reservation r).
Proof. apply keeps_pipes. intros w. unfold take_reservation. by destruct (reservations w !! r) as [[|]|]. Qed.
Lemma keeps_owning {A} i (m : M A) : keeps m -> keeps (owning i m).
Proof. intros Hm w. specialize (Hm w). unfold owning. by destruct (m w) as [[|] ?]. Qed.

Lemma keeps_ok {A} (m : M A) w r w' p : m w = (r, w') -> keeps m -> used p w -> used p w'.
Proof. intros Hm Hk Hu. destruct (Hk w) as [_ Hk']. rewrite Hm in Hk'. by apply Hk'. Qed.

Ltac keeps_step :=
  first
    [ apply keeps_lift | apply keeps_take | apply keeps_wrap | apply keeps_moved
    | apply keeps_take_reservation | apply keeps_owning | (apply keeps_bind; [|intros])
    | (by apply keeps_pipes) ].

Lemma exec_keeps o : keeps (exec o).
Proof.
  destruct o; unfold exec, void, with_carrier, with_unsent, with_write_overhead, into_stream,
    wrap_layer, start, add_pipe, reserve_pipe, attach, cancel, handle_pipe; repeat keeps_step.
  - intros w. match goal with |- later _ (?m ?w1).2 =>
      enough (keeps m) as Hk by exact (Hk w1) end.
    destruct kind; repeat keeps_step.
  - intros w. unfold wrap_done. destruct (wrapping w !! f) as [[i|]|]; [|done..].
    destruct r; [apply (keeps_wrap (io_wrapped i)
      (mk_world (pipes w) (reservations w) (<[f := None]> (wrapping w)) (gone w) (dialed w)))|done..].
  - apply keeps_pipes. intros w. unfold carrier. by destruct (pipes w !! p) as [[|]|].
Qed.

Lemma run_keeps ops w : later w (run ops w).
Proof.
  revert w. induction ops as [|o ops IH]; intros w; [done|]. etrans; [|apply IH]. apply exec_keeps.
Qed.

(** A call on a used object raises, and changes nothing. *)
Lemma take_used p w : used p w -> take p w = (Err used_pipe, w).
Proof. intros Hp. unfold take. by rewrite Hp. Qed.

(** A call that succeeds has used its object up. *)
Lemma take_uses p w i w' : take p w = (Ok i, w') -> used p w' /\ pipes w !! p = Some (Some i).
Proof.
  unfold take, used. destruct (pipes w !! p) as [[j|]|] eqn:Ep; [|done..]. intros [= <- <-].
  split; [|done]. simpl. by apply list_lookup_insert_eq, (lookup_lt_Some _ _ _ Ep).
Qed.

Lemma bind_ok {A B} (m : M A) (f : A -> M B) w b w' :
  bind m f w = (Ok b, w') -> exists a w1, m w = (Ok a, w1) /\ f a w1 = (Ok b, w').
Proof. unfold bind. destruct (m w) as [[a|e] w1] eqn:E; [|done]. eauto. Qed.

Lemma exec_used o p w : uses o = Some p -> used p w -> exists e, exec o w = (Err e, w).
Proof.
  intros Ho Hu. apply take_used in Hu.
  destruct o; simpl in Ho; simplify_eq;
    unfold exec, void, with_carrier, with_unsent, with_write_overhead, into_stream, wrap_layer,
      start, add_pipe, attach, handle_pipe, bind, lift; rewrite Hu;
    repeat case_match; simplify_eq; eauto.
Qed.

Lemma exec_uses o p w w' : uses o = Some p -> exec o w = (Ok tt, w') -> used p w'.
Proof.
  intros Ho Hok.
  destruct o; simpl in Ho; simplify_eq;
    unfold exec, void, with_carrier, with_unsent, with_write_overhead, into_stream, wrap_layer,
      start, add_pipe, attach, handle_pipe in Hok;
    repeat match goal with
    | H : bind _ _ _ = (Ok _, _) |- _ => apply bind_ok in H as (? & ? & ? & H)
    | H : take p _ = (Ok _, _) |- _ => apply take_uses in H as [? _]
    | H : ret _ _ = (_, _) |- _ => unfold ret in H
    | H : (_, _) = (_, _) |- _ => injection H as; subst
    | H : ?m ?w = (_, ?w2), Hu : used p ?w |- _ =>
        apply (keeps_ok m _ _ _ p) in H; [|by repeat keeps_step|exact Hu]
    end; done.
Qed.

(** *** Where each call sends its carrier *)

(** The native call a successful use gives the carrier to; the others keep it
    on the Python side. *)
Definition sent_to (o : op) : option fate :=
  match o with
  | OIntoStream _ => Some ToStream
  | OStart _ _ _ 0 => Some (ToSession Connect)
  | OStart _ _ _ 1 => Some (ToSession Accept)
  | OStart _ _ _ _ => Some (ToSession Peer)
  | OAddPipe _ _ _ _ _ => Some ToPipe
  | OAttach _ _ _ => Some ToReservation
  | OHandle _ _ _ _ => Some ToListener
  | _ => None
  end.

(** The three places of carriers after a step. *)
Definition now_at (w' : world) (ps ws : list (option io)) (g : list (io * fate)) : Prop :=
  pipes w' = ps /\ wrapping w' = ws /\ gone w' = g.

(** What a call that returns did: the carrier of the object it used is where
    the call sends it, in a [wrap] in progress or in one new object, and no
    other carrier moved. *)
Definition returned (o : op) (w w' : world) : Prop :=
  match uses o, sent_to o with
  | Some p, Some f =>
      exists i, pipes w !! p = Some (Some i) /\
        now_at w' (<[p := None]> (pipes w)) (wrapping w) ((i, f) :: gone w)
  | Some p, None =>
      exists i, pipes w !! p = Some (Some i) /\
        match o with
        | OWrap _ _ _ => now_at w' (<[p := None]> (pipes w)) (wrapping w ++ [Some i]) (gone w)
        | _ => exists j, conn j = conn i /\ now_at w' (<[p := None]> (pipes w) ++ [Some j]) (wrapping w) (gone w)
        end
  | None, _ =>
      match o with
      | ODial (Ok i) | OPipePair i _ =>
          exists j, conn j = conn i /\ now_at w' (pipes w ++ [Some j]) (wrapping w) (gone w)
      | OWrapDone f _ =>
          exists i j, wrapping w !! f = Some (Some i) /\ conn j = conn i /\
            now_at w' (pipes w ++ [Some j]) (<[f := None]> (wrapping w)) (gone w)
      | _ => now_at w' (pipes w) (wrapping w) (gone w)
      end
  end.

(** What a call that raised did: no carrier moved, or one left, dropped, or
    given to a native call that refused it, or left with a cancelled layer. *)
Definition raised (o : op) (e : pyerr) (w w' : world) : Prop :=
  gone w' = gone w /\ pipes w' = pipes w /\ wrapping w' = wrapping w \/
  exists i f, gone w' = (i, f) :: gone w /\
    match o, f with
    | OAddPipe _ _ _ _ a, ToPipe => a = Err e
    | OAttach _ _ a, ToReservation => a = Err e
    | OWrapDone _ r, WithLayer => r = WrapCancelled
    | _, Dropped => True
    | _, _ => False
    end.

Definition fate_ok (o : op) (w : world) : Prop :=
  match exec o w with
  | (Ok _, w') => returned o w w'
  | (Err e, w') => raised o e w w'
  end.

Ltac fate_end :=
  first
    [ done
    | left; done
    | right; do 2 eexists; split; [reflexivity|done]
    | eexists; split; [done|]; fate_end
    | eexists; split; [|done]; by autorewrite with conn
    | do 2 eexists; split; [done|]; split; [|done]; by autorewrite with conn ].
Ltac fates :=
  unfold exec, void, with_carrier, with_unsent, with_write_overhead, into_stream, wrap_layer, start, add_pipe,
    attach, cancel, handle_pipe, dial, pipe_pair, carrier, reserve_pipe, wrap_done, owning, moved, take,
    take_reservation, wrap, ret, fail, lift, bind;
  repeat (case_match; simplify_eq/=); unfold returned, raised, now_at; simpl.

Lemma exec_fate o w : fate_ok o w.
Proof.
  unfold fate_ok. destruct o; fates; try fate_end.
  unfold role_of. repeat case_match; simplify_eq; by eexists.
Qed.

(** C2: no carrier is duplicated or lost, and each goes where its call sends it.
    Whatever sequence of calls Python makes, and whatever they answer, every
    connection dialled is in exactly one place, a live [PipeIo] object, a [wrap]
    in progress, or among those that left; distinct connections stay distinct
    there.  The next call, if it returns, has put the carrier of its object
    where that call sends it (the session of its role, a pipe, the reservation,
    the listener, a stream, a [wrap] or one new object) and moved no other; if
    it raises, at most one carrier left: it was dropped, or refused by the
    native call that had it, or is with the layer of a cancelled [wrap]. *)
Theorem carrier_in_one_place ops o :
  let w := run ops empty_world in
  owned w ≡ₚ dialed w /\ (NoDup (dialed w) -> NoDup (owned w)) /\
  match exec o w with
  | (Ok _, w') => returned o w w'
  | (Err e, w') => raised o e w w'
  end.
Proof.
  assert (owned (run ops empty_world) ≡ₚ dialed (run ops empty_world)) as Hw by (by apply run_conserves).
  split; [done|]. split; [by rewrite Hw|]. apply exec_fate.
Qed.

(** C3: a [PipeIo] is usable once: a call that succeeds with it uses it up, it
    stays used up whatever is called afterwards, and every further call with it
    raises and changes nothing at all. *)
Theorem pipe_used_once o p w w' ops :
  uses o = Some p -> exec o w = (Ok tt, w') ->
  used p (run ops w') /\
  forall o', uses o' = Some p -> exists e, exec o' (run ops w') = (Err e, run ops w').
Proof.
  intros Ho Hok. assert (used p (run ops w')) as Hu by (apply run_keeps; by eapply exec_uses).
  split; [done|]. intros o' Ho'. by eapply exec_used.
Qed.

(** The carrier of [p] is dropped, and the call raises [e]. *)
Definition drops {A} (p : nat) (i : io) (w : world) (m : M A) (e : pyerr) : Prop :=
  exists w', m w = (Err e, w') /\ used p w' /\ gone w' = (i, Dropped) :: gone w.

Lemma owning_drops {A} p i w (m : io -> M A) e :
  pipes w !! p = Some (Some i) ->
  (forall w', reservations w' = reservations w -> m i w' = (Err e, w')) ->
  drops p i w (i <- take p ;; owning i (m i)) e.
Proof.
  intros Hp Hm. unfold drops, bind, take, owning. rewrite Hp, Hm by done. eexists. split; [done|].
  split; [|done]. apply list_lookup_insert_eq. by eapply lookup_lt_Some.
Qed.

(** Whether an argument error costs the carrier is the order of the code: a
    rejected kind, write overhead, option or address, and a [wrap] without a
    running loop, leave the object as it was; but [connect]/[accept]/[peer]
    with a bad configuration or without a running loop, [handle_pipe] without
    a running loop, and [attach] on a used reservation, take the carrier first
    and drop it. *)
Theorem argument_errors p i w e :
  pipes w !! p = Some (Some i) ->
  (forall k, ByKind.carrier_kind from_name k = Err e -> with_carrier p k w = (Err e, w)) /\
  (forall n, ~ 0 <= n < 2 ^ 16 -> with_write_overhead p n w = (Err overhead_err, w)) /\
  (forall new v o a, pipe_options new v o = Err e -> add_pipe new v p o a w = (Err e, w)) /\
  (forall h port src f, parse_ip h = Err e ->
    handle_pipe p (Some (h, port)) src f w = (Err e, w) /\
    handle_pipe p None (Some (h, port)) f w = (Err e, w)) /\
  (forall f, wrap_layer p (Err e) f w = (Err e, w)) /\
  (forall f how, drops p i w (start p (Err e) f how) e) /\
  (forall c how, drops p i w (start p (Ok c) (Err e) how) e) /\
  drops p i w (handle_pipe p None None (Err e)) e /\
  (forall r a, reservations w !! r = Some None -> drops p i w (attach r p a) used_reservation).
Proof.
  intros Hp. unfold with_carrier, with_write_overhead, add_pipe, start, handle_pipe, attach.
  split; [intros k Hk; unfold bind, lift; by rewrite Hk|].
  split; [intros n Hn; unfold bind, lift; rewrite (proj2 (andb_false_iff _ _)); [done|];
          rewrite Z.leb_gt, Z.ltb_ge; lia|].
  split; [intros new v o a Ho; unfold bind, lift; by rewrite Ho|].
  split; [intros h port src f Hh; unfold addr, bind, lift; simpl; by rewrite Hh|].
  split; [done|].
  split; [intros f how; by apply owning_drops|]. split; [intros c how; by apply owning_drops|].
  split; [by apply owning_drops|].
  intros r a Hr. unfold drops, bind, take, owning, take_reservation. rewrite Hp. simpl. rewrite Hr.
  eexists. split; [done|]. split; [|done]. apply list_lookup_insert_eq. by eapply lookup_lt_Some.
Qed.

(** A Python callable: the calls it makes, then its result. *)
Definition callable (script : nat -> list op) (r : PyResult obj) (p : nat) : M obj :=
  fun w => (r, run (script p) w).

(** What is left in an object is dropped when it is released. *)
Definition left_in (p : nat) (w : world) : list (io * fate) :=
  match pipes w !! p with Some (Some j) => [(j, Dropped)] | _ => [] end.

Lemma release_shape p w :
  (p < length (pipes w))%nat ->
  let w' := (release p w).2 in
  used p w' /\ gone w' = left_in p w ++ gone w /\ owned w' ≡ₚ owned w /\ dialed w' = dialed w.
Proof.
  intros Hlt. unfold release, left_in. destruct (lookup_lt_is_Some_2 _ _ Hlt) as [[j|] Hj]; rewrite Hj; [|done].
  split; [by apply list_lookup_insert_eq|]. split; [done|]. split; [|done]. unfold owned. cbn -[omap].
  rewrite (omap_insert_none _ _ _ Hj). simpl. solve_Permutation.
Qed.

(** C18: what a listener's inbound transform leaves behind.  Whatever calls the
    Python callable makes with the object it is given, and whatever it returns
    or raises: when the call ends the object is used up, though Python may keep
    it; a carrier still in it, because the callable raised, returned no
    [PipeIo], or another one, is dropped; the listener goes on with the carrier
    of the object returned, and raises when there is none in it; and every
    connection is still in exactly one place (one the callable moved on, with
    [with_carrier] or [into_stream] say, stays where it was moved). *)
Theorem transform_releases script r pipe_of i w :
  conn i :: owned w ≡ₚ dialed w ->
  let p := length (pipes w) in
  let w1 := run (script p) (wrap i w).2 in   (* when the callable is done *)
  let '(res, w') := transform_call (callable script r) pipe_of i w in
  used p w' /\
  match res with Ok j => conn j :: owned w' | Err _ => owned w' end ≡ₚ dialed w' /\
  match (o ← r; pipe_of o) with
  | Err e => res = Err e /\ gone w' = left_in p w1 ++ gone w1
  | Ok q =>
      res = (match pipes w1 !! q with Some (Some j) => Ok j | _ => Err used_pipe end) /\
      gone w' = (if decide (q = p) then [] else left_in p w1) ++ gone w1
  end.
Proof.
  intros Hw p w1. unfold transform_call. cbn [wrap]. fold p.
  set (w0 := mk_world (pipes w ++ [Some i]) _ _ _ _) in *.
  assert (owned w0 ≡ₚ dialed w0) as Hw0 by exact (triple_wrap [] i [] w Hw).
  assert (owned w1 ≡ₚ dialed w1) as Hw1 by (by apply run_conserves).
  assert (p < length (pipes w1))%nat as Hp.
  { destruct (run_keeps (script p) w0) as [Hl _]. eapply Nat.lt_le_trans; [|exact Hl].
    simpl. rewrite length_app. simpl. unfold p. lia. }
  unfold callable, bind, lift. fold w1. change (run (script p) w0) with w1.
  destruct r as [o|e]; simpl; [destruct (pipe_of o) as [q|e]; simpl|].
  - pose proof (triple_take [] q w1 Hw1) as Ht. unfold take in *.
    assert (forall e, (forall j, pipes w1 !! q <> Some (Some j)) -> e = used_pipe ->
      let '(_, w') := release p w1 in used p w' /\ owned w' ≡ₚ dialed w' /\
        (Err e : PyResult io) = Err used_pipe /\ gone w' = (if decide (q = p) then [] else left_in p w1) ++ gone w1) as Hnone.
    { intros e Hn ->. destruct (release_shape p w1 Hp) as (Hu & Hg & Ho & Hd). destruct (release p w1) as [u w3].
      simpl in *. split; [done|]. split; [by rewrite Ho, Hd|]. split; [done|]. rewrite Hg. case_decide; [|done].
      subst q. unfold left_in. destruct (pipes w1 !! p) as [[j|]|]; [by destruct (Hn j)|done..]. }
    destruct (pipes w1 !! q) as [[j|]|] eqn:Eq; 
      [|specialize (Hnone used_pipe ltac:(done) eq_refl); destruct (release p w1); exact Hnone..].
    set (w2 := mk_world (<[q := None]> (pipes w1)) _ _ _ _) in *.
    assert (p < length (pipes w2))%nat as Hp2 by (simpl; by rewrite length_insert).
    destruct (release_shape p w2 Hp2) as (Hu & Hg & Ho & Hd). destruct (release p w2) as [u w3]. simpl in *.
    split; [done|]. split; [by rewrite Ho, Hd|]. split; [done|]. rewrite Hg. f_equal. unfold left_in. simpl.
    case_decide as Hqp; [subst q; by rewrite list_lookup_insert_eq by done|by rewrite list_lookup_insert_ne].
  - destruct (release_shape p w1 Hp) as (Hu & Hg & Ho & Hd). destruct (release p w1) as [u w3]. simpl in *.
    by rewrite Ho, Hd.
  - destruct (release_shape p w1 Hp) as (Hu & Hg & Ho & Hd). destruct (release p w1) as [u w3]. simpl in *.
    by rewrite Ho, Hd.
Qed.

End handles.

(** ** A carrier of a connection number and a kind *)
Module HandlesExample.
Import PyVal.
#[global] Instance ops : PipeIoOps (nat * option nat) nat := {
  conn i := i.1;
  io_carrier i := i.2;
  io_with_carrier k i := (i.1, Some k);
  io_with_unsent _ i := i;
  io_with_overhead _ i := i;
  io_wrapped i := i;
}.
#[global] Instance laws : PipeIoLaws (nat * option nat) nat.
Proof. by split. Qed.
Definition names (s : string) : option nat := if String.eqb s "quic" then Some 1%nat else None.
Abbreviation op := (op (io:=nat * option nat) (P:=pyval_py) (Reservation:=unit) (Config:=unit)).
Abbreviation world := (world (io:=nat * option nat) (Reservation:=unit)).
Definition parse_ip (s : string) : PyResult nat :=
  if String.eqb s "::1" then Ok 1%nat else Err (new_err PyValueError [Lit "invalid IP address syntax"]).
Definition run_ex (l : list op) : world -> world := run names parse_ip 1%nat l.
Definition start_world : world := empty_world.
(** Two carriers dialled, one labelled and given to a session, the other used
    for a second pipe. *)
Definition script : list op :=
  [ODial (Ok (7, None)); ODial (Ok (8, None)); OWithCarrier 0 (VStr "quic"); OStart 2 (Ok tt) (Ok tt) 0;
   OAddPipe sample_options (fun _ => true) 1 None (Ok 0); OStart 0 (Ok tt) (Ok tt) 1]%nat.
Definition one : world := mk_world [Some (7%nat, None)] [None] [] [] [7%nat].
End HandlesExample.

Lemma carrier_in_one_place_witness :
  let w := HandlesExample.run_ex [ODial (Ok (7%nat, None))] empty_world in
  NoDup (owned (Kind:=nat) w) /\
  gone (HandlesExample.run_ex [OStart 0 (Ok tt) (Ok tt) 1] w) = [((7%nat, None), ToSession Accept)].
Proof.
  pose proof (carrier_in_one_place (P:=PyVal.pyval_py) (Reservation:=unit) (Config:=unit) HandlesExample.names HandlesExample.parse_ip 1%nat
    [ODial (Ok (7%nat, None))] (OStart 0 (Ok tt) (Ok tt) 1)) as (_ & Hn & i & Hi & _ & _ & Hg).
  split; [apply Hn, NoDup_singleton|]. injection Hi as <-. exact Hg.
Defined.

Lemma pipe_used_once_witness :
  used 0 (HandlesExample.run_ex HandlesExample.script empty_world) /\
  exists e, exec (P:=PyVal.pyval_py) (Config:=unit) HandlesExample.names HandlesExample.parse_ip 1%nat (OIntoStream 0)
    (HandlesExample.run_ex HandlesExample.script empty_world) =
    (Err e, HandlesExample.run_ex HandlesExample.script empty_world).
Proof.
  pose proof (pipe_used_once (P:=PyVal.pyval_py) HandlesExample.names HandlesExample.parse_ip 1%nat (Config:=unit) (OWithCarrier (P:=PyVal.pyval_py) 0 (PyVal.VStr "quic")) 0
    (HandlesExample.run_ex [ODial (Ok (7, None)); ODial (Ok (8, None))]%nat empty_world) _
    [OStart 2 (Ok tt) (Ok tt) 0; OAddPipe sample_options (fun _ => true) 1 None (Ok 0%nat); OStart 0 (Ok tt) (Ok tt) 1]
    eq_refl eq_refl) as [Hu He].
  split; [exact Hu|]. exact (He (OIntoStream 0) eq_refl).
Defined.

Lemma argument_errors_witness :
  drops 0 (7%nat, None) HandlesExample.one (start 0 (Ok tt) (Err used_pipe) 2) used_pipe.
Proof.
  apply (argument_errors (P:=PyVal.pyval_py) (Config:=unit) HandlesExample.names HandlesExample.parse_ip 1%nat 0 (7%nat, None)
    HandlesExample.one used_pipe eq_refl).
Defined.

Lemma transform_releases_witness :
  let '(res, w') := transform_call (callable (P:=PyVal.pyval_py) (Config:=unit) HandlesExample.names
    HandlesExample.parse_ip 1%nat (fun _ => []) (Err used_pipe)) (fun _ => Ok 0%nat) (7%nat, None)
    (mk_world [] [] [] [] [7%nat] : HandlesExample.world) in
  used 0 w' /\ gone w' = [((7%nat, None), Dropped)].
Proof.
  pose proof (transform_releases (P:=PyVal.pyval_py) (Config:=unit) HandlesExample.names HandlesExample.parse_ip 1%nat (fun _ => [])
    (Err used_pipe) (fun _ => Ok 0%nat) (7%nat, None) (mk_world [] [] [] [] [7%nat] : HandlesExample.world)
    (Permutation_refl [7%nat])) as H.
  destruct H as (Hu & _ & _ & H). split; [exact Hu|exact H].
Defined.
