(* ===== verification/Streams.v ===== *)
(** Streams (src/src/lib.rs, section "streams"): a stream part behind its
    asynchronous mutex ([Part]), and the methods of [SendStream] and
    [RecvStream] as calls on it. *)
From S2P Require Import Prelude Duration Errors Config.
Open Scope Z_scope.

Definition busy : pyerr :=
  new_err PyRuntimeError [Lit "another operation on this stream is in progress"].

(** ** A part and the calls on it

    [Arc<Mutex<Option<T>>>]: an asynchronous call waits its turn and holds the
    lock until it ends or is cancelled; a call that never waits uses [try_lock].
    The mutex is tokio's and not part of the source; the owner and the queue
    below stand for it.  Guarded writes the same calls over any fair mutex and
    shows that they amount to this. *)
Module Part.
Section part.
Context {T A : Type}.

(** A call: what it does with the part ([None]: it takes it out) with its
    answer, and its answer when the part was taken out before ([held(..)?]
    raises it; [__aexit__] returns). *)
Record call := mk_call { c_run : T -> option T * PyResult A; c_gone : PyResult A }.

Record state := mk_state {
  value : option T;
  owner : option (nat * call);
  waiting : list (nat * call);
  (** History: the calls made, those that ran to their end, the answers. *)
  started : list nat;
  applied : list nat;
  answers : list (nat * PyResult A);
}.

Definition init (t : T) : state := mk_state (Some t) None [] [] [] [].

Definition answer (id : nat) (r : PyResult A) (s : state) : state :=
  mk_state (value s) (owner s) (waiting s) (started s) (applied s) (answers s ++ [(id, r)]).

(** The lock passes to the next waiting call; when the part is gone each of
    them is answered in turn. *)
Definition release (t : option T) (s : state) : state :=
  match t, waiting s with
  | Some _, c :: w => mk_state t (Some c) w (started s) (applied s) (answers s)
  | Some _, [] => mk_state t None [] (started s) (applied s) (answers s)
  | None, w =>
      mk_state None None [] (started s) (applied s)
        (answers s ++ map (fun c => (c.1, c_gone c.2)) w)
  end.

(** An asynchronous call, from the first poll of its task: [lock().await],
    then the part or [c_gone]. *)
Definition begin (id : nat) (c : call) (s : state) : state :=
  let s := mk_state (value s) (owner s) (waiting s) (started s ++ [id]) (applied s) (answers s) in
  match owner s with
  | Some _ => mk_state (value s) (owner s) (waiting s ++ [(id, c)]) (started s) (applied s) (answers s)
  | None =>
      match value s with
      | None => answer id (c_gone c) s
      | Some _ => mk_state (value s) (Some (id, c)) (waiting s) (started s) (applied s) (answers s)
      end
  end.

(** The call that holds the lock ends. *)
Definition complete (s : state) : state :=
  match owner s, value s with
  | Some (id, c), Some t =>
      let '(t, r) := c_run c t in
      let s := mk_state t (owner s) (waiting s) (started s) (applied s ++ [id]) (answers s) in
      release t (answer id r s)
  | _, _ => s
  end.

(** A call is cancelled: a waiting one leaves the queue, the one that holds the
    lock releases it, the native operation dropped where it was ([t]). *)
Definition cancel (id : nat) (t : T) (s : state) : state :=
  match owner s with
  | Some (o, _) =>
      if decide (o = id) then release (Some t) s
      else mk_state (value s) (owner s) (filter (fun c => c.1 <> id) (waiting s))
             (started s) (applied s) (answers s)
  | None => s
  end.

(** [held_now]: a call that never waits. *)
Definition now (c : call) (gone : PyResult A) (s : state) : state * PyResult A :=
  match owner s with
  | Some _ => (s, Err busy)
  | None =>
      match value s with
      | None => (s, gone)
      | Some t =>
          let '(t, r) := c_run c t in
          (mk_state t None (waiting s) (started s) (applied s) (answers s), r)
      end
  end.

(** [take_now]. *)
Definition take (taken : pyerr) (s : state) : state * PyResult T :=
  match owner s with
  | Some _ => (s, Err busy)
  | None =>
      match value s with
      | None => (s, Err taken)
      | Some t => (mk_state None None (waiting s) (started s) (applied s) (answers s), Ok t)
      end
  end.

(** *** Interleavings *)
Inductive event :=
  | Begin (id : nat) (c : call)
  | Complete
  | Cancel (id : nat) (t : T)
  | Now (c : call) (gone : PyResult A)
  | Take (taken : pyerr).

Definition step (e : event) (s : state) : state :=
  match e with
  | Begin id c => begin id c s
  | Complete => complete s
  | Cancel id t => cancel id t s
  | Now c g => (now c g s).1
  | Take e => (take e s).1
  end.
Definition run (es : list event) (s : state) : state := foldl (fun s e => step e s) s es.

Definition pending (s : state) : list nat :=
  match owner s with Some o => o.1 :: map fst (waiting s) | None => map fst (waiting s) end.

(** *** Invariant *)
Record inv (s : state) : Prop := {
  (** nobody waits for a free lock *)
  inv_free : owner s = None -> waiting s = [];
  (** a taken part is locked by nobody *)
  inv_taken : value s = None -> owner s = None;
  (** the calls that ran, then the one running, then those waiting, in the
      order they were made *)
  inv_fifo : applied s ++ pending s `sublist_of` started s;
}.

Lemma pending_release t s :
  pending (release t s) = match t with Some _ => map fst (waiting s) | None => [] end.
Proof. unfold pending, release. destruct t; [|done]. by destruct (waiting s). Qed.

Lemma release_inv t s :
  applied s ++ map fst (waiting s) `sublist_of` started s -> inv (release t s).
Proof.
  intros Hs. split.
  - unfold release. destruct t; [by destruct (waiting s)|done].
  - unfold release. destruct t; [by destruct (waiting s)|done].
  - rewrite pending_release. etrans; [|etrans; [exact Hs|]].
    + unfold release. destruct t; [by destruct (waiting s)|]. simpl.
      rewrite app_nil_r. by apply sublist_inserts_r.
    + unfold release. destruct t; [by destruct (waiting s)|done].
Qed.

Lemma part_step_inv e s : inv s -> inv (step e s).
Proof.
  intros Hi. pose proof Hi as [Hf Ht Hs]. destruct e as [id c| |id t|c g|er]; simpl.
  - unfold begin. cbn [owner value]. destruct (owner s) as [o|] eqn:Eo.
    + split; simpl; [congruence|intros Hv; apply Ht in Hv; congruence|]. unfold pending in *. simpl in *. rewrite Eo in Hs.
      rewrite map_app. simpl. rewrite app_comm_cons, app_assoc. by apply sublist_app.
    + specialize (Hf eq_refl). destruct (value s) eqn:Ev; (split; simpl; [done || congruence..|]);
        unfold pending in *; simpl; rewrite Eo, Hf in *; simpl in *.
      * rewrite app_nil_r in Hs. by apply sublist_app.
      * by apply sublist_inserts_r.
  - unfold complete. destruct (owner s) as [[id c]|] eqn:Eo; [|done].
    destruct (value s) as [t|] eqn:Ev; [|done]. destruct (c_run c t) as [t' r].
    apply release_inv. simpl. unfold pending in Hs. rewrite Eo in Hs. by rewrite <- app_assoc.
  - unfold cancel. destruct (owner s) as [[o c]|] eqn:Eo; [|done]. destruct (decide (o = id)).
    + apply release_inv. unfold pending in Hs. rewrite Eo in Hs. etrans; [|exact Hs].
      apply sublist_app; [done|]. by apply sublist_cons.
    + split; simpl; [congruence|intros Hv; apply Ht in Hv; congruence|]. unfold pending in *. simpl. rewrite Eo in *. simpl in *.
      etrans; [|exact Hs]. apply sublist_app; [done|]. apply sublist_skip.
      apply (fmap_sublist fst). apply sublist_filter.
  - unfold now. destruct (owner s) eqn:Eo; [done|]. destruct (value s) as [t|]; [|done].
    destruct (c_run c t) as [t' r]. specialize (Hf eq_refl). split; simpl; [done..|].
    unfold pending in *. simpl. by rewrite Eo in Hs.
  - unfold take. destruct (owner s) eqn:Eo; [done|]. destruct (value s); [|done].
    specialize (Hf eq_refl). split; simpl; [done..|]. unfold pending in *. simpl. by rewrite Eo in Hs.
Qed.

Lemma run_inv es s : inv s -> inv (run es s).
Proof. revert s. induction es; intros s Hs; [done|]. simpl. by apply IHes, part_step_inv. Qed.

Lemma init_inv t : inv (init t).
Proof. by split. Qed.

Lemma complete_owner s o :
  inv s -> owner s = Some o ->
  (answers (complete s)).*1 ++ pending (complete s) = (answers s).*1 ++ pending s /\
  (length (pending (complete s)) < length (pending s))%nat.
Proof.
  intros [_ Ht _] Eo. unfold complete. rewrite Eo. destruct o as [id c].
  destruct (value s) as [t|] eqn:Ev; [|by rewrite (Ht eq_refl) in Eo].
  destruct (c_run c t) as [t' r]. rewrite pending_release. unfold pending. rewrite Eo. simpl.
  split; [|destruct t'; simpl; rewrite ?length_map; lia].
  unfold release. destruct t'; simpl; [destruct (waiting s); simpl|];
    rewrite ?fmap_app, <- ?app_assoc, ?app_nil_r; simpl; f_equal; f_equal.
  by rewrite <- list_fmap_compose.
Qed.

Lemma drain_pending n s :
  inv s -> (length (pending s) <= n)%nat ->
  let s' := run (replicate n Complete) s in
  pending s' = [] /\ (answers s').*1 = (answers s).*1 ++ pending s.
Proof.
  revert s. induction n as [|n IH]; intros s Hi Hn.
  { assert (pending s = []) as Hp by (apply nil_length_inv; lia). simpl. by rewrite Hp, app_nil_r. }
  destruct (owner s) as [o|] eqn:Eo.
  - destruct (complete_owner s o Hi Eo) as [Hp Hl].
    destruct (IH (complete s)) as [H1 H2]; [by apply (part_step_inv Complete)|lia|].
    simpl. split; [done|]. by rewrite H2, Hp.
  - destruct (IH s Hi) as [H1 H2]; [unfold pending; rewrite Eo, (inv_free s Hi Eo); simpl; lia|].
    assert (complete s = s) as Hc by (unfold complete; by rewrite Eo). simpl. by rewrite Hc.
Qed.

(** No call is forgotten: in every state reached, once each running
    operation ends in turn, every pending call is answered, in order, and none
    is left waiting. *)
Theorem stream_waiters_served es t :
  let s := run es (init t) in
  let s' := run (replicate (length (pending s)) Complete) s in
  pending s' = [] /\ (answers s').*1 = (answers s).*1 ++ pending s.
Proof. apply drain_pending; [|lia]. apply run_inv, init_inv. Qed.

Lemma taken_step e s : inv s -> value s = None -> value (step e s) = None /\ applied (step e s) = applied s.
Proof.
  intros [_ Ht _] Hv. specialize (Ht Hv).
  destruct e; simpl; unfold begin, complete, cancel, now, take; simpl; rewrite ?Ht, ?Hv; by simpl.
Qed.

(** A part that a consuming call took out ([reject], [stream_pipe],
    [splice]) is gone for good: whatever happens afterwards no native operation
    runs on it, an asynchronous call is answered at once as gone, a call that
    never waits too, and a second take raises. *)
Theorem stream_taken_for_good es t er t0 s0 es' :
  take er (run es (init t)) = (s0, Ok t0) ->
  let s := run es' s0 in
  value s = None /\ applied s = applied s0 /\
  (forall id c, answers (begin id c s) = answers s ++ [(id, c_gone c)]) /\
  (forall c g, now c g s = (s, g)) /\ forall e, take e s = (s, Err e).
Proof.
  intros Htake. assert (inv s0 /\ value s0 = None) as [Hi Hv].
  { split.
    - change s0 with (s0, Ok t0 : PyResult T).1. rewrite <- Htake. apply (part_step_inv (Take er)), run_inv, init_inv.
    - unfold take in Htake. repeat case_match; by simplify_eq. }
  assert (forall l s, inv s -> value s = None -> value (run l s) = None /\ applied (run l s) = applied s) as Hr.
  { induction l as [|e l IH]; intros s Hs Hvs; [done|]. simpl.
    destruct (taken_step e s Hs Hvs) as [H1 H2]. destruct (IH (step e s)) as [H3 H4]; [by apply part_step_inv|done|].
    by rewrite H4. }
  destruct (Hr es' s0 Hi Hv) as [H1 H2]. pose proof (run_inv es' s0 Hi) as [Hf Ht _].
  specialize (Ht H1). split; [done|]. split; [done|].
  unfold begin, now, take. simpl. by rewrite Ht, H1.
Qed.
End part.
End Part.

(** ** The native parts *)

(** What the native calls return, and what Python gets. *)
Inductive val :=
  | NUnit | NBool (b : bool) | NInt (n : Z) | NOptInt (n : option Z)
  | NPrio (urgency : Z) (incremental : bool)
  | NBytes (b : bytes) | NChunk (b : option bytes) | NDatagram (context : Z) (b : bytes)
  | NStats (fields : list (string * option Z))
  | NPreamble (info : option bytes) (tlvs : list (Z * bytes)) (carrier : bool).

(** The errors of the native calls, by their type ([ReadExactError] and
    [ReadToEndError] wrap a stream error or are their own). *)
Inductive nerr :=
  | FStream (e : StreamErr)
  | FDatagram (e : DatagramErr)
  | FShort (text kind : string)
  | FLong (text kind : string).

Inductive SendReq :=
  | WriteChunk (b : bytes) | Finish | Reset (code : Z) | SetReliableBoundary
  | SetPriority (urgency : Z) (incremental : bool) | GetPriority | SendCapacity
  | WaitSendCapacity (min : Z) | SetSendBuffer (n : Z) | SetScheduler (p : option Policy)
  | SetRedundant (on : option bool) | SendDatagram (context : Z) (b : bytes) | SendStats
  | Stopped | SendId.

Inductive RecvReq :=
  | ReadChunk (n : Z) | ReadExact (n : Z) | ReadToEnd (limit : Z) | Stop (code : Z) | Reject
  | SetReceiveWindow (initial max : Z) | SetPeerPriority (urgency : Z) (incremental : bool)
  | ReadDatagram | RecvStats | GetPreamble | IsReplayable | RecvId.

(** How a method gets at the part: waiting for it, at once, taking it out, or
    not at all. *)
Inductive how := Awaits | Immediate | Consumes | Unneeded.

Section methods.
Context `{NativeErr SessionErr, NativeErr StreamErr, NativeErr DatagramErr}.
Context (is_early_data_rejected : SessionErr -> bool).
(** [VarInt::from_u64] and [Priority::new]: the values they accept. *)
Context (varint_ok : Z -> bool) (priority_ok : Z -> bool -> bool).
Context {S R : Type} (send : S -> SendReq -> S * (val + nerr)) (recv : R -> RecvReq -> R * (val + nerr)).

Definition taken : pyerr := stream_err is_early_data_rejected SClosedLocally.

Definition varint (v : Z) : PyResult Z :=
  if varint_ok v then Ok v else Err (new_err PyValueError [Lit "code exceeds 2**62-1"]).
Definition priority (urgency : Z) (incremental : bool) : PyResult (Z * bool) :=
  if priority_ok urgency incremental then Ok (urgency, incremental)
  else Err (new_err PyValueError [Lit "urgency out of range"]).

(** [map_err(stream_err)], [map_err(datagram_err)] and the errors of
    [read_exact] and [read_to_end]. *)
Definition native_result (r : val + nerr) : PyResult val :=
  match r with
  | inl v => Ok v
  | inr (FStream e) => Err (stream_err is_early_data_rejected e)
  | inr (FDatagram e) => Err (datagram_err is_early_data_rejected e)
  | inr (FShort text kind) =>
      Err (mk_pyerr IncompleteRead [Disp text] (Some kind) (Some false) (Some None) None None)
  | inr (FLong text kind) =>
      Err (mk_pyerr LimitExceeded [Disp text] (Some kind) (Some false) (Some None) None None)
  end.

(** A native call on the part held, its answer converted by [post]. *)
Definition native_call {T Req} (native : T -> Req -> T * (val + nerr)) (q : Req)
    (post : val -> PyResult val) (t : T) : option T * PyResult val :=
  let '(t, r) := native t q in (Some t, native_result r ≫= post).

Definition held_call {T Req} (native : T -> Req -> T * (val + nerr)) (q : Req)
    (post : val -> PyResult val) : Part.call (T:=T) (A:=val) :=
  Part.mk_call (native_call native q post) (Err taken).

(** [lend]: what [PyBuffer::get] gives (whether the buffer is contiguous, and
    its bytes), as bytes to send. *)
Definition lend (buffer : PyResult (bool * bytes)) : PyResult bytes :=
  buf ← buffer;
  raise_if (negb buf.1) (new_err PyValueError [Lit "the buffer is not contiguous"]);;
  Ok buf.2.

(** *** [SendStream] *)
Inductive send_method :=
  | m_write (b : bytes) | m_write_chunk (buffer : PyResult (bool * bytes)) | m_finish
  | m_reset (code : Z) | m_set_reliable_boundary | m_set_priority (urgency : Z) (incremental : bool)
  | m_priority | m_send_capacity | m_wait_send_capacity (min : Z) | m_set_send_buffer (n : Z)
  | m_set_scheduler (name : option string) | m_set_redundant (on : option bool)
  | m_send_datagram (payload : bytes) (context : Z) | m_send_stats | m_send_exit (ok : bool)
  | m_stopped | m_send_id.

(** [__aexit__]: [ok] is a normal exit. *)
Definition send_exit (ok : bool) : Part.call (T:=S) (A:=val) :=
  Part.mk_call (fun t =>
    if negb ok then
      let '(t, _) := send t (Reset 0) in (Some t, Ok (NBool false))
    else
      let '(t, r) := send t Finish in
      (Some t, match r with
          | inr (FStream e) =>
              if String.eqb (kind_of e) "ClosedLocally" then Ok (NBool false)
              else Err (stream_err is_early_data_rejected e)
          | r => v ← native_result r; Ok (NBool false)
          end))
    (Ok (NBool false)).

(** [set_priority]: the part first, then the priority's check. *)
Definition checked_priority {T Req} (native : T -> Req -> T * (val + nerr))
    (q : Z -> bool -> Req) (u : Z) (i : bool) : Part.call (T:=T) (A:=val) :=
  Part.mk_call (fun t =>
    match priority u i with
    | Ok (u, i) => native_call native (q u i) Ok t
    | Err e => (Some t, Err e)
    end) (Err taken).

(** Each method: the check of its arguments before anything else, how it gets
    at the part, and what it does with it. *)
Definition send_call (m : send_method) : PyResult (how * Part.call (T:=S) (A:=val)) :=
  match m with
  | m_write b => Ok (Awaits, held_call send (WriteChunk b) Ok)
  | m_write_chunk buffer => b ← lend buffer; Ok (Awaits, held_call send (WriteChunk b) Ok)
  | m_finish => Ok (Awaits, held_call send Finish Ok)
  | m_reset code => code ← varint code; Ok (Awaits, held_call send (Reset code) Ok)
  | m_set_reliable_boundary => Ok (Immediate, held_call send SetReliableBoundary Ok)
  | m_set_priority u i => Ok (Immediate, checked_priority send SetPriority u i)
  | m_priority => Ok (Immediate, held_call send GetPriority Ok)
  | m_send_capacity => Ok (Immediate, held_call send SendCapacity Ok)
  | m_wait_send_capacity min =>
      if min =? 0 then Err (new_err PyValueError [Lit "min is at least 1"])
      else Ok (Awaits, held_call send (WaitSendCapacity min) Ok)
  | m_set_send_buffer n => Ok (Immediate, held_call send (SetSendBuffer n) Ok)
  | m_set_scheduler name =>
      p ← map_transpose policy name; Ok (Immediate, held_call send (SetScheduler p) Ok)
  | m_set_redundant on => Ok (Immediate, held_call send (SetRedundant on) Ok)
  | m_send_datagram payload context =>
      Ok (Immediate, held_call send (SendDatagram context payload) Ok)
  | m_send_stats => Ok (Immediate, held_call send SendStats Ok)
  | m_send_exit ok => Ok (Awaits, send_exit ok)
  | m_stopped => Ok (Awaits, held_call send Stopped Ok)
  | m_send_id => Ok (Immediate, held_call send SendId Ok)
  end.

(** *** [RecvStream] *)
Inductive recv_method :=
  | m_read (n : Z) | m_read_chunk (max : Z) | m_read_exact (n : Z) | m_read_to_end (limit : Z)
  | m_stop (code : Z) | m_reject | m_set_receive_window (initial max : Z)
  | m_set_peer_priority (urgency : Z) (incremental : bool) | m_read_datagram | m_recv_stats
  | m_preamble | m_anext | m_recv_exit (ok : bool) | m_is_replayable | m_recv_id.

(** The bytes of a chunk; none at the end of the stream. *)
Definition chunk_bytes (v : val) : PyResult val :=
  match v with NChunk (Some b) => Ok (NBytes b) | _ => Ok (NBytes []) end.
Definition next_chunk (v : val) : PyResult val :=
  match v with
  | NChunk (Some (x :: b)) => Ok (NBytes (x :: b))
  | _ => Err (new_err PyStopAsyncIteration [])
  end.

(** [__aexit__] on an exception; a normal exit does not touch the part. *)
Definition recv_exit : Part.call (T:=R) (A:=val) :=
  Part.mk_call (fun t => let '(t, _) := recv t (Stop 0) in (Some t, Ok (NBool false)))
    (Ok (NBool false)).

Definition recv_call (m : recv_method) : PyResult (how * Part.call (T:=R) (A:=val)) :=
  match m with
  | m_read n => Ok (Awaits, held_call recv (ReadChunk n) chunk_bytes)
  | m_read_chunk max => Ok (Awaits, held_call recv (ReadChunk max) chunk_bytes)
  | m_read_exact n => Ok (Awaits, held_call recv (ReadExact n) Ok)
  | m_read_to_end limit => Ok (Awaits, held_call recv (ReadToEnd limit) Ok)
  | m_stop code => code ← varint code; Ok (Awaits, held_call recv (Stop code) Ok)
  | m_reject => Ok (Consumes, held_call recv Reject Ok)
  | m_set_receive_window initial max => Ok (Immediate, held_call recv (SetReceiveWindow initial max) Ok)
  | m_set_peer_priority u i => Ok (Immediate, checked_priority recv SetPeerPriority u i)
  | m_read_datagram => Ok (Awaits, held_call recv ReadDatagram Ok)
  | m_recv_stats => Ok (Immediate, held_call recv RecvStats Ok)
  | m_preamble => Ok (Immediate, held_call recv GetPreamble Ok)
  | m_anext => Ok (Awaits, held_call recv (ReadChunk 65536) next_chunk)
  | m_recv_exit ok => Ok (if negb ok then Awaits else Unneeded, recv_exit)
  | m_is_replayable => Ok (Immediate, held_call recv IsReplayable Ok)
  | m_recv_id => Ok (Immediate, held_call recv RecvId Ok)
  end.

(** A method called on a part: an error of the arguments, an immediate answer,
    or a future ([None]) whose task is polled. *)
Definition invoke {T} (id : nat) (c : PyResult (how * Part.call (T:=T) (A:=val)))
    (s : Part.state (T:=T) (A:=val)) : Part.state (T:=T) (A:=val) * option (PyResult val) :=
  match c with
  | Err e => (s, Some (Err e))
  | Ok (Awaits, c) => (Part.begin id c s, None)
  | Ok (Immediate, c) => let '(s, r) := Part.now c (Err taken) s in (s, Some r)
  | Ok (Unneeded, c) => (Part.answer id (Part.c_gone c) s, None)
  | Ok (Consumes, c) =>
      let '(s, r) := Part.take taken s in
      (s, Some (t ← r; (Part.c_run c t).2))
  end.

Definition is_send_exit (m : send_method) : bool := match m with m_send_exit _ => true | _ => false end.
Definition is_recv_exit (m : recv_method) : bool := match m with m_recv_exit _ => true | _ => false end.

(** The answer of a call on an empty handle: now, or of its future at once. *)
Definition answered_gone {T} (id : nat) (exit : bool) (s : Part.state (T:=T) (A:=val))
    (r : Part.state (T:=T) (A:=val) * option (PyResult val)) : Prop :=
  let '(s', o) := r in
  Part.value s' = None /\ Part.owner s' = None /\ Part.applied s' = Part.applied s /\
  match o with
  | Some r => is_ok r = false /\ s' = s
  | None => Part.answers s' = Part.answers s ++ [(id, if exit then Ok (NBool false) else Err taken)]
  end.

Lemma invoke_gone {T} id (exit : bool) (call : PyResult (how * Part.call (T:=T) (A:=val))) (s : Part.state (T:=T) (A:=val)) :
  Part.value s = None -> Part.owner s = None ->
  (forall h c, call = Ok (h, c) -> Part.c_gone c = (if exit then Ok (NBool false) else Err taken)) ->
  answered_gone id exit s (invoke id call s).
Proof.
  intros Hv Ho Hc. unfold invoke, answered_gone. destruct call as [[h c]|e]; [|done].
  specialize (Hc h c eq_refl).
  destruct h; unfold Part.begin, Part.now, Part.take, Part.answer; simpl; rewrite ?Ho, ?Hv; simpl;
    by rewrite ?Hc, ?Ho, ?Hv.
Qed.

(** After a consuming call a handle answers every method, none hangs and
    none reaches the stream: a method raises (its argument error, else the
    error of a locally closed stream), at once or from a future that is already
    done, except that leaving the handle's [async with] block returns normally. *)
Theorem methods_after_take id s r :
  Part.value s = None -> Part.owner s = None -> Part.value r = None -> Part.owner r = None ->
  (forall m, answered_gone id (is_send_exit m) s (invoke id (send_call m) s)) /\
  (forall m, answered_gone id (is_recv_exit m) r (invoke id (recv_call m) r)).
Proof.
  intros Hv Ho Hv' Ho'. split; intros m.
  - apply invoke_gone; [done..|]. intros h c. unfold send_call, varint, lend.
    destruct m; intros; py_inv; repeat case_match; by simplify_eq/=.
  - apply invoke_gone; [done..|]. intros h c. unfold recv_call, varint.
    destruct m; intros; py_inv; repeat case_match; by simplify_eq/=.
Qed.

End methods.

(** ** Two parts taken together (src/src/helpers.rs) *)
Section pairs.
Context `{NativeErr SessionErr, NativeErr StreamErr, NativeErr DatagramErr}.
Context (is_early_data_rejected : SessionErr -> bool).
Context {S R : Type} (send : S -> SendReq -> S * (val + nerr)) (recv : R -> RecvReq -> R * (val + nerr)).
Abbreviation taken := (taken is_early_data_rejected).

(** [a.id()], as the native part reports it. *)
Definition id_of (r : val + nerr) : option Z := match r with inl (NOptInt n) => n | _ => None end.

Abbreviation sstate := (Part.state (T:=S) (A:=val)).
Abbreviation rstate := (Part.state (T:=R) (A:=val)).

Definition two_streams : pyerr := new_err PyValueError [Lit "the parts of two different streams"].

Definition emptied {T} (s : Part.state (T:=T) (A:=val)) : Part.state (T:=T) (A:=val) :=
  Part.mk_state None (Part.owner s) (Part.waiting s) (Part.started s) (Part.applied s) (Part.answers s).

Definition pair (s : sstate) (r : rstate) : (sstate * rstate) * PyResult (S * R) :=
  match Part.owner s, Part.owner r with
  | Some _, _ => ((s, r), Err busy)
  | None, Some _ => ((s, r), Err busy)
  | None, None =>
      match Part.value s, Part.value r with
      | Some a, Some b =>
          if match id_of (send a SendId).2, id_of (recv b RecvId).2 with
             | Some x, Some y => negb (x =? y)
             | _, _ => false
             end
          then ((s, r), Err two_streams)
          else ((emptied s, emptied r), Ok (a, b))
      | _, _ => ((s, r), Err taken)
      end
  end.

(** The handles of a program: its [SendStream] and [RecvStream] objects. *)
Record handles := mk_handles { sends : list sstate; recvs : list rstate }.

Definition pair_at (h : handles) (a : nat * nat) : handles * PyResult (S * R) :=
  match sends h !! a.1, recvs h !! a.2 with
  | Some s, Some r =>
      let '((s, r), x) := pair s r in
      (mk_handles (<[a.1 := s]> (sends h)) (<[a.2 := r]> (recvs h)), x)
  | _, _ => (h, Err taken)
  end.

(** [stream_pipe]: the two parts become a carrier. *)
Definition stream_pipe {io} (from_stream : S -> R -> io) (h : handles) (a : nat * nat) :
    handles * PyResult io :=
  let '(h, x) := pair_at h a in (h, (fun sr => from_stream sr.1 sr.2) <$> x).

(** [splice], until its future starts: [limited] when a direction has a Python
    limiter, which needs a running loop ([locals]). *)
Definition splice (h : handles) (a b : nat * nat) (chunk : Z) (limited : bool)
    (locals : PyResult unit) : handles * PyResult ((S * R) * (S * R)) :=
  if chunk =? 0 then (h, Err (new_err PyValueError [Lit "chunk is at least 1"]))
  else if (a.1 =? b.1)%nat || (a.2 =? b.2)%nat then
    (h, Err (new_err PyValueError [Lit "a stream cannot be spliced into itself"]))
  else
    match (if limited then locals else Ok tt) with
    | Err e => (h, Err e)
    | Ok _ =>
        match pair_at h a with
        | (h, Err e) => (h, Err e)
        | (h, Ok sa) =>
            match pair_at h b with
            | (h, Err e) => (h, Err e)
            | (h, Ok sb) => (h, Ok (sa, sb))
            end
        end
    end.

(** A failing [pair] changes nothing; a successful one empties both. *)
Lemma pair_shape s r :
  match pair s r with
  | ((s', r'), Err e) => s' = s /\ r' = r
  | ((s', r'), Ok (a, b)) =>
      Part.value s = Some a /\ Part.value r = Some b /\ s' = emptied s /\ r' = emptied r
  end.
Proof. unfold pair. repeat case_match; naive_solver. Qed.

(** [stream_pipe] and [splice] take both parts of a stream or neither: on
    any error (an operation in progress on either part, a part already taken,
    parts of two different streams) both handles are as they were; on success
    both are empty, both were idle, and their streams' identifiers, where both
    are known, agree. *)
Theorem pair_all_or_nothing s r :
  match pair s r with
  | ((s', r'), Err e) => s' = s /\ r' = r
  | ((s', r'), Ok (a, b)) =>
      Part.value s = Some a /\ Part.value r = Some b /\
      Part.owner s = None /\ Part.owner r = None /\
      Part.value s' = None /\ Part.value r' = None /\
      forall x y, id_of (send a SendId).2 = Some x -> id_of (recv b RecvId).2 = Some y -> x = y
  end.
Proof.
  unfold pair. destruct (Part.owner s) eqn:?, (Part.owner r) eqn:?; try done.
  destruct (Part.value s) as [a|] eqn:?, (Part.value r) as [b|] eqn:?; try done.
  destruct (id_of (send a SendId).2) as [x|] eqn:?, (id_of (recv b RecvId).2) as [y|] eqn:?; simpl;
    [|split_and!; try done; intros; congruence..].
  destruct (Z.eqb_spec x y); simpl; [|done]. split_and!; try done; intros; congruence.
Qed.

Lemma pair_at_err h a h' e : pair_at h a = (h', Err e) -> h' = h.
Proof.
  unfold pair_at. destruct (sends h !! a.1) as [s|] eqn:Es; [|by intros [= <- _]].
  destruct (recvs h !! a.2) as [r|] eqn:Er; [|by intros [= <- _]].
  pose proof (pair_shape s r) as Hp. destruct (pair s r) as [[s' r'] [x|e']]; [done|].
  destruct Hp as [-> ->]. intros [= <- <-]. destruct h; simpl in *.
  by rewrite !list_insert_id.
Qed.

(** The parts of stream [a] are gone in [h'], the others as in [h]. *)
Definition took (h h' : handles) (a : nat * nat) : Prop :=
  (exists s r, sends h !! a.1 = Some s /\ recvs h !! a.2 = Some r /\
    is_Some (Part.value s) /\ is_Some (Part.value r) /\
    sends h' = <[a.1 := emptied s]> (sends h) /\ recvs h' = <[a.2 := emptied r]> (recvs h)).

Lemma pair_at_ok h a h' x : pair_at h a = (h', Ok x) -> took h h' a.
Proof.
  unfold pair_at, took. destruct (sends h !! a.1) as [s|] eqn:Es; [|done].
  destruct (recvs h !! a.2) as [r|] eqn:Er; [|done].
  pose proof (pair_shape s r) as Hp. destruct (pair s r) as [[s' r'] [[y z]|e']]; [|done].
  destruct Hp as (? & ? & -> & ->). intros [= <- _]. exists s, r. simpl. by eauto 10.
Qed.

(** What [splice] does to its four handles: on success both streams are
    taken; on an error either nothing changed, or the first stream was taken,
    and is dropped with the error, because the second could not be taken. *)
Theorem splice_outcome h a b chunk limited locals :
  match splice h a b chunk limited locals with
  | (h', Ok (sa, sb)) => exists h1, took h h1 a /\ took h1 h' b
  | (h', Err e) => h' = h \/ took h h' a /\ pair_at h' b = (h', Err e)
  end.
Proof.
  unfold splice. case_if; [by left|]. case_if; [by left|].
  destruct (if limited then locals else Ok tt); [|by left].
  destruct (pair_at h a) as [h1 [sa|e]] eqn:Ea; [|left; by eapply pair_at_err].
  apply pair_at_ok in Ea.
  destruct (pair_at h1 b) as [h2 [sb|e]] eqn:Eb.
  - exists h1. split; [done|]. by eapply pair_at_ok.
  - right. pose proof (pair_at_err _ _ _ _ Eb) as ->. by split.
Qed.

(** An operation in progress on the second stream makes [splice] raise, and
    the first stream, idle and untouched until then, is lost with it: its parts
    were taken out and are dropped. *)
Theorem splice_busy_loses_first h a b s r s2 r2 o chunk locals :
  chunk <> 0 -> a.1 <> b.1 -> a.2 <> b.2 ->
  sends h !! a.1 = Some s -> recvs h !! a.2 = Some r ->
  sends h !! b.1 = Some s2 -> recvs h !! b.2 = Some r2 ->
  is_ok (pair s r).2 = true -> Part.owner s2 = Some o ->
  exists h', splice h a b chunk false locals = (h', Err busy) /\ took h h' a.
Proof.
  intros Hc H1' H2' Hs Hr Hs2 Hr2 Hp Ho. unfold splice.
  rewrite (proj2 (Z.eqb_neq _ _) Hc), (proj2 (Nat.eqb_neq _ _) H1'), (proj2 (Nat.eqb_neq _ _) H2'). simpl.
  assert (exists h1 x, pair_at h a = (h1, Ok x)) as (h1 & x & Hx).
  { unfold pair_at. rewrite Hs, Hr. destruct (pair s r) as [[s' r'] [x|e]]; [eauto|done]. }
  rewrite Hx. apply pair_at_ok in Hx. exists h1. split; [|done].
  destruct Hx as (s' & r' & Hs' & Hr' & _ & _ & Es & Er). unfold pair_at.
  rewrite Es, Er, !list_lookup_insert_ne, Hs2, Hr2 by done. unfold pair. rewrite Ho.
  destruct h1 as [ss rr]. simpl in *. subst ss rr. f_equal. f_equal.
  - by rewrite list_insert_id by (by rewrite list_lookup_insert_ne).
  - by rewrite list_insert_id by (by rewrite list_lookup_insert_ne).
Qed.
End pairs.

(** ** Examples: parts that count the native calls made on them *)
Module StreamsExample.
#[global] Instance txt_session : NativeErr SessionErr :=
  { display _ := "session"; debug _ := "Session"; is_retryable _ := false }.
#[global] Instance txt_stream : NativeErr StreamErr :=
  { display _ := "stream"; debug e := match e with SClosedLocally => "ClosedLocally" | _ => "Other" end;
    is_retryable _ := false }.
#[global] Instance txt_datagram : NativeErr DatagramErr :=
  { display _ := "datagram"; debug _ := "Datagram"; is_retryable _ := false }.
Definition no_early (e : SessionErr) : bool := false.
Definition count_send (n : nat) (q : SendReq) : nat * (val + nerr) :=
  match q with SendId => (n, inl (NOptInt (Some 4))) | _ => (S n, inl NUnit) end.
Definition count_recv (n : nat) (q : RecvReq) : nat * (val + nerr) :=
  match q with RecvId => (n, inl (NOptInt (Some 4))) | _ => (S n, inl NUnit) end.
Definition idle : Part.state (T:=nat) (A:=val) := Part.init 0%nat.
Definition write : Part.call (T:=nat) (A:=val) :=
  held_call no_early count_send (WriteChunk [Byte.x61]) Ok.
Definition gone : Part.state (T:=nat) (A:=val) := (Part.take busy idle).1.
Definition running : Part.state (T:=nat) (A:=val) := Part.begin 1 write idle.
Definition two : handles (S:=nat) (R:=nat) := mk_handles [idle; running] [idle; idle].
End StreamsExample.

Lemma stream_taken_for_good_witness :
  Part.value (Part.run [Part.Begin 7 StreamsExample.write; Part.Complete] StreamsExample.gone) = None.
Proof.
  apply (Part.stream_taken_for_good (A:=val) [] 0%nat busy 0%nat StreamsExample.gone
    [Part.Begin 7 StreamsExample.write; Part.Complete] eq_refl).
Defined.

Lemma methods_after_take_witness :
  answered_gone StreamsExample.no_early 9 false StreamsExample.gone
    (invoke StreamsExample.no_early 9
       (send_call StreamsExample.no_early (fun _ => true) (fun _ _ => true) StreamsExample.count_send (m_write []))
       StreamsExample.gone).
Proof.
  apply (proj1 (methods_after_take StreamsExample.no_early (fun _ => true) (fun _ _ => true)
    StreamsExample.count_send StreamsExample.count_recv 9 StreamsExample.gone StreamsExample.gone
    eq_refl eq_refl eq_refl eq_refl) (m_write [])).
Defined.

Lemma splice_busy_loses_first_witness :
  exists h', splice StreamsExample.no_early StreamsExample.count_send StreamsExample.count_recv
    StreamsExample.two (0, 0)%nat (1, 1)%nat 65536 false (Ok tt) = (h', Err busy) /\
    took StreamsExample.two h' (0, 0)%nat.
Proof.
  apply (splice_busy_loses_first StreamsExample.no_early StreamsExample.count_send
    StreamsExample.count_recv StreamsExample.two (0, 0)%nat (1, 1)%nat
    StreamsExample.idle StreamsExample.idle StreamsExample.running StreamsExample.idle
    (1%nat, StreamsExample.write) 65536 (Ok tt)); reflexivity || discriminate.
Defined.
