(* ===== verification/Guarded.v ===== *)
(** The lock of a stream part (src/src/lib.rs, [held], [held_now], [take_now]).
    The source keeps a part in tokio's asynchronous mutex, which is not part of
    it: here the mutex is a parameter, a type class of its operations with the
    laws tokio documents (one holder at a time, fair: a released lock goes to
    the task that waited longest).  The three functions are written over it,
    each use of the part goes to a log, and the theorems hold for every such
    mutex.  The last one shows that [Part] of Streams, which keeps one owner
    and a queue, is what they amount to. *)
From S2P Require Import Prelude Errors Streams.

(** ** The mutex

    [lock i] is the first poll of [lock().await] in task [i]; [unlock] drops the
    guard; [withdraw i] drops the future of a task still waiting. *)
Class Mutex (M : Type) := {
  unlocked : M;
  holder : M -> option nat;
  queue : M -> list nat;
  lock : nat -> M -> M;
  try_lock : nat -> M -> option M;
  unlock : M -> M;
  withdraw : nat -> M -> M;
}.

Class FairMutex (M : Type) `{!Mutex M} : Prop := {
  unlocked_free : holder unlocked = None /\ queue unlocked = [];
  lock_free i m : holder m = None -> holder (lock i m) = Some i /\ queue (lock i m) = queue m;
  lock_held i j m : holder m = Some j -> holder (lock i m) = Some j /\ queue (lock i m) = queue m ++ [i];
  try_lock_free i m : holder m = None ->
    exists m', try_lock i m = Some m' /\ holder m' = Some i /\ queue m' = queue m;
  try_lock_held i j m : holder m = Some j -> try_lock i m = None;
  unlock_next i m : holder m = Some i -> holder (unlock m) = head (queue m) /\ queue (unlock m) = tail (queue m);
  withdraw_waiting i m : i ∈ queue m ->
    holder (withdraw i m) = holder m /\ queue (withdraw i m) = filter (fun j => j <> i) (queue m);
}.

(** ** The part behind it *)
Module Guarded.
Section guarded.
Context {M : Type} `{FairMutex M} {T A : Type}.
Abbreviation call := (Part.call (T:=T) (A:=A)).

(** What happened to the part, in order: a task asked for it, its native
    operation began, ended with an answer, was dropped midway; it found the
    part gone; it left before its turn; a call that never waits ran, or was
    refused; the part was taken out. *)
Inductive action :=
  | Asked (id : nat) | Began (id : nat) | Ended (id : nat) (r : PyResult A) | Dropped (id : nat)
  | Gone (id : nat) (r : PyResult A) | Left (id : nat)
  | Whole (n : nat) (r : PyResult A) | Refused (n : nat) | TakenOut (n : nat).

Record state := mk_state {
  mtx : M;
  value : option T;
  futures : gmap nat call;   (* the futures of [held], waiting or holding the guard *)
  inside : option nat;       (* the one whose native operation runs *)
  log : list action;
}.

Definition init (t : T) : state := mk_state unlocked (Some t) ∅ None [].

Definition asked (l : list action) : list nat :=
  omap (fun a => match a with Asked id => Some id | _ => None end) l.
Definition served (l : list action) : list nat :=
  omap (fun a => match a with Began id | Gone id _ => Some id | _ => None end) l.
Definition ended (l : list action) : list nat :=
  omap (fun a => match a with Ended id _ => Some id | _ => None end) l.
Definition answers (l : list action) : list (nat * PyResult A) :=
  omap (fun a => match a with Ended id r | Gone id r => Some (id, r) | _ => None end) l.

(** [held], once the lock is the task's: the part, or its answer when gone. *)
Definition enter (id : nat) (c : call) (s : state) : state :=
  match value s with
  | Some _ => mk_state (mtx s) (value s) (futures s) (Some id) (log s ++ [Began id])
  | None =>
      mk_state (unlock (mtx s)) None (delete id (futures s)) (inside s) (log s ++ [Gone id (Part.c_gone c)])
  end.

(** [held], at the task's first poll. *)
Definition begin (id : nat) (c : call) (s : state) : state :=
  let s := mk_state (lock id (mtx s)) (value s) (<[id := c]> (futures s)) (inside s) (log s ++ [Asked id]) in
  if decide (holder (mtx s) = Some id) then enter id c s else s.

(** The task that was handed the lock is polled. *)
Definition resume (id : nat) (s : state) : state :=
  match futures s !! id, inside s with
  | Some c, None => if decide (holder (mtx s) = Some id) then enter id c s else s
  | _, _ => s
  end.

(** The native operation ends; the guard is dropped. *)
Definition complete (s : state) : state :=
  match inside s, value s with
  | Some id, Some t =>
      match futures s !! id with
      | Some c =>
          let '(t, r) := Part.c_run c t in
          mk_state (unlock (mtx s)) t (delete id (futures s)) None (log s ++ [Ended id r])
      | None => s
      end
  | _, _ => s
  end.

(** The task drops the future: inside, it leaves the native operation where it
    was ([t]) and drops the guard; handed the lock and not polled yet, it
    releases it; else it leaves the queue. *)
Definition cancel (id : nat) (t : T) (s : state) : state :=
  match futures s !! id with
  | None => s
  | Some _ =>
      if decide (inside s = Some id) then
        mk_state (unlock (mtx s)) (Some t) (delete id (futures s)) None (log s ++ [Dropped id])
      else if decide (holder (mtx s) = Some id) then
        mk_state (unlock (mtx s)) (value s) (delete id (futures s)) (inside s) (log s ++ [Left id])
      else mk_state (withdraw id (mtx s)) (value s) (delete id (futures s)) (inside s) (log s ++ [Left id])
  end.

(** [held_now], the native call and the guard's drop. *)
Definition now (n : nat) (c : call) (gone : PyResult A) (s : state) : state * PyResult A :=
  match try_lock n (mtx s) with
  | None => (mk_state (mtx s) (value s) (futures s) (inside s) (log s ++ [Refused n]), Err busy)
  | Some m =>
      match value s with
      | None => (mk_state (unlock m) None (futures s) (inside s) (log s), gone)
      | Some t =>
          let '(t, r) := Part.c_run c t in
          (mk_state (unlock m) t (futures s) (inside s) (log s ++ [Whole n r]), r)
      end
  end.

(** [take_now]. *)
Definition take (n : nat) (taken : pyerr) (s : state) : state * PyResult T :=
  match try_lock n (mtx s) with
  | None => (mk_state (mtx s) (value s) (futures s) (inside s) (log s ++ [Refused n]), Err busy)
  | Some m =>
      match value s with
      | None => (mk_state (unlock m) None (futures s) (inside s) (log s), Err taken)
      | Some t => (mk_state (unlock m) None (futures s) (inside s) (log s ++ [TakenOut n]), Ok t)
      end
  end.

(** Any interleaving; a task asks once. *)
Inductive event :=
  | Begin (id : nat) (c : call) | Resume (id : nat) | Complete | Cancel (id : nat) (t : T)
  | Now (n : nat) (c : call) (gone : PyResult A) | Take (n : nat) (taken : pyerr).

Definition step (e : event) (s : state) : state :=
  match e with
  | Begin id c => if decide (id ∈ asked (log s)) then s else begin id c s
  | Resume id => resume id s
  | Complete => complete s
  | Cancel id t => cancel id t s
  | Now n c g => (now n c g s).1
  | Take n e => (take n e s).1
  end.
Definition run (es : list event) (s : state) : state := foldl (fun s e => step e s) s es.

(** ** One operation at a time

    A checker of logs: [None] once two operations overlapped, else the operation
    in progress. *)
Definition check (open : option (option nat)) (a : action) : option (option nat) :=
  match open, a with
  | Some None, Began id => Some (Some id)
  | Some (Some o), Ended id _ | Some (Some o), Dropped id => if decide (o = id) then Some None else None
  | Some None, Whole _ _ | Some None, TakenOut _ => Some None
  | Some o, Asked _ | Some o, Gone _ _ | Some o, Left _ | Some o, Refused _ => Some o
  | _, _ => None
  end.
Definition serial (l : list action) : option (option nat) := foldl check (Some None) l.

(** The tasks that have the lock or wait for it, in their turn; and those whose
    native operation has not begun. *)
Definition turn (m : M) : list nat :=
  match holder m with Some i => i :: queue m | None => queue m end.
Definition outstanding (s : state) : list nat :=
  match inside s with Some _ => queue (mtx s) | None => turn (mtx s) end.

Record inv (s : state) : Prop := {
  inv_inside : forall i, inside s = Some i -> holder (mtx s) = Some i /\ is_Some (value s);
  inv_free : holder (mtx s) = None -> queue (mtx s) = [];
  inv_futures : forall i, is_Some (futures s !! i) <-> i ∈ turn (mtx s);
  inv_nodup : NoDup (turn (mtx s));
  inv_asked : forall i, i ∈ turn (mtx s) -> i ∈ asked (log s);
  inv_serial : serial (log s) = Some (inside s);
  inv_fifo : served (log s) ++ outstanding s `sublist_of` asked (log s);
}.

Lemma asked_app l l' : asked (l ++ l') = asked l ++ asked l'.
Proof. apply omap_app. Qed.
Lemma served_app l l' : served (l ++ l') = served l ++ served l'.
Proof. apply omap_app. Qed.
Lemma serial_snoc l a : serial (l ++ [a]) = check (serial l) a.
Proof. unfold serial. by rewrite foldl_app. Qed.

Lemma turn_unlock i m :
  holder m = Some i -> turn (unlock m) = queue m /\ (holder (unlock m) = None -> queue (unlock m) = []).
Proof.
  intros Hi. destruct (unlock_next i m Hi) as [E1 E2]. unfold turn. rewrite E1, E2. by destruct (queue m).
Qed.

Lemma guarded_init_inv t : inv (init t).
Proof.
  destruct unlocked_free as [E1 E2]. unfold init.
  assert (turn unlocked = []) as Ht by (unfold turn; by rewrite E1).
  split; cbn; unfold outstanding; cbn; rewrite ?Ht; try done.
  - intros i. rewrite lookup_empty, elem_of_nil. split; [by intros [? ?]|done].
  - constructor.
Qed.

(** The holder's guard is dropped. *)
Lemma guarded_release_inv s i v a :
  inv s -> holder (mtx s) = Some i -> check (serial (log s)) a = Some None ->
  asked [a] = [] -> served [a] ++ queue (mtx s) `sublist_of` outstanding s ->
  inv (mk_state (unlock (mtx s)) v (delete i (futures s)) None (log s ++ [a])).
Proof.
  intros [H1 H2 H3 H4 H5 H6 H7] Hh Hc Ha Hq. destruct (turn_unlock i _ Hh) as [Ht Hf].
  assert (turn (mtx s) = i :: queue (mtx s)) as Htu by (unfold turn; by rewrite Hh).
  rewrite Htu in *. apply NoDup_cons in H4 as [Hi Hn].
  split; cbn; unfold outstanding; cbn; rewrite ?Ht, ?asked_app, ?Ha, ?app_nil_r; try done.
  - intros j. rewrite lookup_delete_is_Some, H3, elem_of_cons. split; [intros [? [?|?]]; congruence|].
    intros Hj. split; [by intros ->|by right].
  - intros j Hj. apply H5. by right.
  - by rewrite serial_snoc.
  - rewrite served_app, <- app_assoc. etrans; [|exact H7]. by apply sublist_app.
Qed.

Lemma enter_inv s id c :
  inv s -> holder (mtx s) = Some id -> inside s = None -> inv (enter id c s).
Proof.
  intros Hs Hh Hi. unfold enter. destruct (value s) as [t|] eqn:Ev.
  - destruct Hs as [H1 H2 H3 H4 H5 H6 H7]. split; cbn; try done.
    + intros i [= <-]. split; [done|]. by eexists.
    + intros i Hx. rewrite asked_app. apply elem_of_app. left. by apply H5.
    + rewrite serial_snoc, H6, Hi. done.
    + unfold outstanding in *. cbn. rewrite Hi in H7. unfold turn in H7. rewrite Hh in H7.
      rewrite served_app, asked_app. cbn. by rewrite <- app_assoc, app_nil_r.
  - rewrite Hi. apply guarded_release_inv; [done..| | |].
    + by rewrite (inv_serial s Hs), Hi.
    + done.
    + unfold outstanding, turn. by rewrite Hi, Hh.
Qed.

(** A task asks for the lock. *)
Lemma lock_inv s id c :
  inv s -> id ∉ asked (log s) ->
  inv (mk_state (lock id (mtx s)) (value s) (<[id := c]> (futures s)) (inside s) (log s ++ [Asked id])).
Proof.
  intros Hs Hn. pose proof Hs as [H1 H2 H3 H4 H5 H6 H7].
  assert (holder (lock id (mtx s)) <> None /\ turn (lock id (mtx s)) = turn (mtx s) ++ [id] /\
    (forall i, holder (mtx s) = Some i -> holder (lock id (mtx s)) = Some i /\ queue (lock id (mtx s)) = queue (mtx s) ++ [id]))
    as (Hl & Ht & Hk).
  { unfold turn. destruct (holder (mtx s)) as [j|] eqn:Ej.
    - destruct (lock_held id j _ Ej) as [E1 E2]. rewrite E1, E2. naive_solver.
    - destruct (lock_free id _ Ej) as [E1 E2]. rewrite E1, E2, (H2 eq_refl). naive_solver. }
  assert (outstanding (mk_state (lock id (mtx s)) (value s) (<[id := c]> (futures s)) (inside s) (log s ++ [Asked id])) =
    outstanding s ++ [id]) as Ho.
  { unfold outstanding. cbn. destruct (inside s) as [i|] eqn:Ei; [|done].
    destruct (H1 i eq_refl) as [Hh _]. by destruct (Hk i Hh). }
  split; cbn; rewrite ?Ht, ?asked_app; cbn; try done.
  - intros i Hi. destruct (H1 i Hi) as [Hh Hv]. by destruct (Hk i Hh).
  - intros i. rewrite lookup_insert_is_Some', H3, elem_of_app, list_elem_of_singleton. naive_solver.
  - apply NoDup_app. split; [done|]. split; [|apply NoDup_singleton].
    intros i Hi ->%list_elem_of_singleton. by apply Hn, H5.
  - intros i. rewrite !elem_of_app. intros [Hi%H5|?]; auto.
  - rewrite serial_snoc, H6. by destruct (inside s).
  - rewrite Ho, served_app. cbn. rewrite app_nil_r, app_assoc. by apply sublist_app.
Qed.

(** A log entry about neither the queue nor the part. *)
Lemma try_inv s n m v a :
  inv s -> try_lock n (mtx s) = Some m -> served a = [] -> asked a = [] ->
  serial (log s ++ a) = serial (log s) -> inv (mk_state (unlock m) v (futures s) (inside s) (log s ++ a)).
Proof.
  intros Hs Hm E1 E2 E3. pose proof Hs as [H1 H2 H3 H4 H5 H6 H7].
  destruct (holder (mtx s)) as [j|] eqn:Ej; [by rewrite (try_lock_held n j _ Ej) in Hm|].
  destruct (try_lock_free n _ Ej) as (m' & Hm' & Hh & Hq). rewrite Hm in Hm'. injection Hm' as <-.
  rewrite (H2 eq_refl) in Hq. destruct (turn_unlock n m Hh) as [Ht Hf].
  assert (inside s = None) as Hi by (destruct (inside s) as [i|]; [by destruct (H1 i eq_refl)|done]).
  assert (turn (mtx s) = []) as Htu by (unfold turn; by rewrite Ej, H2).
  unfold outstanding in H7. rewrite Hi, Htu in *. rewrite Hq in Ht.
  split; cbn; unfold outstanding; cbn; rewrite ?asked_app, ?served_app, ?E1, ?E2, ?E3, ?Ht, ?app_nil_r in *; try done.
  fold (serial (log s ++ a)). by rewrite E3.
Qed.

Lemma refused_inv s n :
  inv s -> inv (mk_state (mtx s) (value s) (futures s) (inside s) (log s ++ [Refused n])).
Proof.
  intros [H1 H2 H3 H4 H5 H6 H7]. split; cbn; unfold outstanding in *; cbn; rewrite ?asked_app, ?served_app;
    cbn; rewrite ?app_nil_r; try done.
  rewrite serial_snoc, H6. by destruct (inside s).
Qed.

Lemma withdraw_inv s id :
  inv s -> is_Some (futures s !! id) -> holder (mtx s) <> Some id ->
  inv (mk_state (withdraw id (mtx s)) (value s) (delete id (futures s)) (inside s) (log s ++ [Left id])).
Proof.
  intros [H1 H2 H3 H4 H5 H6 H7] Hid Hh. apply H3 in Hid.
  assert (id ∈ queue (mtx s)) as Hq.
  { unfold turn in Hid. destruct (holder (mtx s)) as [j|]; [|done]. apply elem_of_cons in Hid as [->|?]; done. }
  destruct (withdraw_waiting id _ Hq) as [E1 E2].
  assert (turn (withdraw id (mtx s)) = filter (fun j => j <> id) (turn (mtx s))) as Ht.
  { unfold turn. rewrite E1, E2. destruct (holder (mtx s)) as [j|]; [|done]. by rewrite filter_cons_True by congruence. }
  split; cbn; rewrite ?Ht, ?E1, ?E2, ?asked_app, ?served_app; cbn; rewrite ?app_nil_r; try done.
  - intros Hn. apply H2 in Hn. by rewrite Hn in Hq; apply elem_of_nil in Hq.
  - intros i. rewrite lookup_delete_is_Some, H3, list_elem_of_filter. naive_solver.
  - by apply NoDup_filter.
  - intros i [_ Hi]%list_elem_of_filter. by apply H5.
  - rewrite serial_snoc, H6. by destruct (inside s).
  - etrans; [|exact H7]. apply sublist_app; [done|]. unfold outstanding. cbn. destruct (inside s).
    + rewrite E2. apply sublist_filter.
    + rewrite Ht. apply sublist_filter.
Qed.

Lemma guarded_step_inv e s : inv s -> inv (step e s).
Proof.
  intros Hs. pose proof Hs as [H1 H2 H3 H4 H5 H6 H7].
  destruct e as [id c|id| |id t|n c g|n er]; cbn.
  - case_decide as Hd; [done|]. pose proof (lock_inv s id c Hs Hd) as Hl. unfold begin.
    cbn. case_decide as Hh; [|done]. apply enter_inv; [done..|]. cbn.
    destruct (inside s) as [i|] eqn:Ei; [|done]. destruct (H1 i eq_refl) as [Hi _].
    destruct (lock_held id i _ Hi) as [E _]. rewrite Hh in E. injection E as <-. exfalso. apply Hd, H5.
    unfold turn. rewrite Hi. by left.
  - unfold resume. destruct (futures s !! id); [|done]. destruct (inside s) eqn:Ei; [done|].
    case_decide; [|done]. by apply enter_inv.
  - unfold complete. destruct (inside s) as [i|] eqn:Ei; [|done]. destruct (value s) as [t|]; [|done].
    destruct (futures s !! i) as [c|]; [|done]. destruct (Part.c_run c t) as [t' r].
    destruct (H1 i eq_refl) as [Hh _]. apply guarded_release_inv; [done..| | |].
    + rewrite H6. cbn. by rewrite decide_True.
    + done.
    + unfold outstanding. by rewrite Ei.
  - unfold cancel. destruct (futures s !! id) as [c|] eqn:Ef; [|done]. case_decide as Hi; [|case_decide as Hh].
    + destruct (H1 id Hi) as [Hh _]. apply guarded_release_inv; [done..| | |].
      * rewrite H6, Hi. cbn. by rewrite decide_True.
      * done.
      * unfold outstanding. by rewrite Hi.
    + assert (inside s = None) as Hn by (destruct (inside s) as [i|]; [destruct (H1 i eq_refl); congruence|done]).
      rewrite Hn. apply guarded_release_inv; [done..| | |].
      * by rewrite H6, Hn.
      * done.
      * unfold outstanding, turn. rewrite Hn, Hh. cbn. by apply sublist_cons.
    + by apply withdraw_inv; [|eexists|].
  - unfold now. destruct (try_lock n (mtx s)) as [m|] eqn:Em; [|by apply refused_inv].
    assert (inside s = None) as Hi.
    { destruct (inside s) as [i|]; [|done]. destruct (H1 i eq_refl) as [Hh _]. by rewrite (try_lock_held n i _ Hh) in Em. }
    destruct (value s) as [t|].
    + destruct (Part.c_run c t). apply (try_inv s n m _ [Whole n p]); [done..|]. by rewrite serial_snoc, H6, Hi.
    + cbn. rewrite <- (app_nil_r (log s)). apply (try_inv s n m _ []); [done..|]. by rewrite app_nil_r.
  - unfold take. destruct (try_lock n (mtx s)) as [m|] eqn:Em; [|by apply refused_inv].
    assert (inside s = None) as Hi.
    { destruct (inside s) as [i|]; [|done]. destruct (H1 i eq_refl) as [Hh _]. by rewrite (try_lock_held n i _ Hh) in Em. }
    destruct (value s) as [t|].
    + apply (try_inv s n m _ [TakenOut n]); [done..|]. by rewrite serial_snoc, H6, Hi.
    + cbn. rewrite <- (app_nil_r (log s)). apply (try_inv s n m _ []); [done..|]. by rewrite app_nil_r.
Qed.

Lemma guarded_run_inv es s : inv s -> inv (run es s).
Proof. revert s. induction es; intros s Hs; [done|]. cbn. by apply IHes, guarded_step_inv. Qed.

(** C4: calls on one stream part run one at a time, and those that wait in the
    order they asked, whatever fair mutex holds the part and however tasks,
    completions, cancellations and calls that never wait interleave.  The log of
    the part's uses never has an operation begin, a call that never waits run, or
    the part taken out while an operation is in progress, and the operation in
    progress is the one of the lock's holder; the calls served, then those still
    outstanding, are in the order they asked; and when nobody holds the lock,
    nobody waits for it and no future is left. *)
Theorem stream_calls_in_order es t :
  let s := run es (init t) in
  serial (log s) = Some (inside s) /\
  (forall i, inside s = Some i -> holder (mtx s) = Some i) /\
  served (log s) ++ outstanding s `sublist_of` asked (log s) /\
  (holder (mtx s) = None -> outstanding s = [] /\ futures s = ∅).
Proof.
  intros s. destruct (guarded_run_inv es _ (guarded_init_inv t)) as [H1 H2 H3 H4 H5 H6 H7]. fold s in H1, H2, H3, H4, H5, H6, H7.
  split; [done|]. split; [intros i Hi; by apply H1|]. split; [done|]. intros Hn.
  assert (turn (mtx s) = []) as Ht by (unfold turn; rewrite Hn; auto). split.
  - unfold outstanding. destruct (inside s) as [i|]; [by apply H2|done].
  - apply map_empty. intros i. apply eq_None_not_Some. rewrite H3, Ht. by apply not_elem_of_nil.
Qed.

(** ** The part of Streams

    A state seen as a [Part]: the holder's call and the waiting ones, and what
    the log says was asked, ended and answered. *)
Definition entry (fs : gmap nat call) (i : nat) : option (nat * call) := (fun c => (i, c)) <$> fs !! i.
Definition abs (s : state) : Part.state (T:=T) (A:=A) :=
  Part.mk_state (value s) (holder (mtx s) ≫= entry (futures s)) (omap (entry (futures s)) (queue (mtx s)))
    (asked (log s)) (ended (log s)) (answers (log s)).

(** The calls that wait never take the part out: none of the source's does. *)
Definition keeps (c : call) : Prop := forall t, is_Some (Part.c_run c t).1.
Definition keeps_event (e : event) : Prop := match e with Begin _ c => keeps c | _ => True end.

(** The events of [Part]: the poll of a task that was handed the lock is none,
    and a task dropped before that poll leaves the part as it is. *)
Definition as_part (e : event) (s : state) : list (Part.event (T:=T) (A:=A)) :=
  match e with
  | Begin id c => if decide (id ∈ asked (log s)) then [] else [Part.Begin id c]
  | Resume _ => []
  | Complete => match inside s with Some _ => [Part.Complete] | None => [] end
  | Cancel id t =>
      match futures s !! id, value s with
      | Some _, Some v => [Part.Cancel id (if decide (inside s = Some id) then t else v)]
      | _, _ => []
      end
  | Now _ c g => [Part.Now c g]
  | Take _ er => [Part.Take er]
  end.

Record whole (s : state) : Prop := {
  whole_inv : inv s;
  whole_keeps : map_Forall (fun _ c => keeps c) (futures s);
  whole_gone : value s = None -> holder (mtx s) = None;
}.

Lemma ended_app l l' : ended (l ++ l') = ended l ++ ended l'.
Proof. apply omap_app. Qed.
Lemma answers_app l l' : answers (l ++ l') = answers l ++ answers l'.
Proof. apply omap_app. Qed.

Lemma entry_turn s i : inv s -> i ∈ turn (mtx s) -> exists c, futures s !! i = Some c /\ entry (futures s) i = Some (i, c).
Proof. intros Hs [c Hc]%(inv_futures s Hs). exists c. split; [done|]. unfold entry. by rewrite Hc. Qed.

Lemma omap_entry_delete fs i (q : list nat) : i ∉ q -> omap (entry (delete i fs)) q = omap (entry fs) q.
Proof.
  induction q as [|j q IH]; [done|]. intros [Hn Hq]%not_elem_of_cons. cbn. rewrite IH by done.
  unfold entry. by rewrite lookup_delete_ne by done.
Qed.

Lemma release_abs s i v o w st ap an :
  inv s -> holder (mtx s) = Some i ->
  Part.release (Some v) (Part.mk_state o w (omap (entry (futures s)) (queue (mtx s))) st ap an) =
  Part.mk_state (Some v) (holder (unlock (mtx s)) ≫= entry (delete i (futures s)))
    (omap (entry (delete i (futures s))) (queue (unlock (mtx s)))) st ap an.
Proof.
  intros Hs Hh. destruct (unlock_next i _ Hh) as [-> ->]. pose proof (inv_nodup s Hs) as Hn.
  pose proof (entry_turn s) as He. unfold turn in Hn, He. rewrite Hh in Hn, He. apply NoDup_cons in Hn as [Hi Hn].
  rewrite <- (omap_entry_delete _ _ _ Hi). unfold Part.release. cbn. destruct (queue (mtx s)) as [|j q]; [done|].
  apply not_elem_of_cons in Hi as [Hj Hi]. destruct (He j Hs) as (c & Hc & _); [by right; left|].
  cbn. unfold entry at 1. rewrite lookup_delete_ne, Hc by done. cbn. unfold entry at 2.
  by rewrite lookup_delete_ne, Hc by done.
Qed.

Lemma complete_abs s i : whole s -> inside s = Some i -> Part.complete (abs s) = abs (complete s).
Proof.
  intros [Hs Hk Hg] Hi. destruct (inv_inside s Hs i Hi) as [Hh [t Ht]].
  destruct (entry_turn s i Hs) as (c & Hc & He); [unfold turn; rewrite Hh; by left|].
  unfold complete, Part.complete, abs at 1. cbn. rewrite Hi, Ht, Hh, Hc. cbn. rewrite He.
  destruct (Part.c_run c t) as [[t'|] r] eqn:Er; [|destruct (Hk i c Hc t) as [? Hx]; by rewrite Er in Hx].
  etrans; [apply (release_abs s i t' None None); done|]. unfold abs. cbn.
  by rewrite asked_app, ended_app, answers_app, app_nil_r.
Qed.

Lemma entry_shape fs j : entry fs j = None \/ exists c, entry fs j = Some (j, c).
Proof. unfold entry. destruct (fs !! j); cbn; eauto. Qed.
Lemma entry_delete fs id j : j <> id -> entry (delete id fs) j = entry fs j.
Proof. intros Hj. unfold entry. by rewrite lookup_delete_ne. Qed.

Lemma omap_entry_withdraw fs id (q : list nat) :
  omap (entry (delete id fs)) (filter (fun j => j <> id) q) = filter (fun c => c.1 <> id) (omap (entry fs) q).
Proof.
  induction q as [|j q IH]; [done|]. rewrite filter_cons. destruct (entry_shape fs j) as [E|[c E]].
  - case_decide as Hj; cbn; rewrite ?entry_delete, E by done; exact IH.
  - case_decide as Hj; cbn; rewrite E.
    + rewrite entry_delete, E, filter_cons_True by done. by f_equal.
    + rewrite filter_cons_False by (cbn; tauto). exact IH.
Qed.

Lemma cancel_abs id t s : whole s -> Part.run (as_part (Cancel id t) s) (abs s) = abs (cancel id t s).
Proof.
  intros [Hs Hk Hg]. pose proof (inv_inside s Hs) as H1. cbn. unfold cancel. destruct (futures s !! id) as [c|] eqn:Ef; [|done].
  assert (id ∈ turn (mtx s)) as Hid by (apply (inv_futures s Hs); by eexists).
  destruct (value s) as [v|] eqn:Ev; cycle 1.
  { unfold turn in Hid. rewrite (Hg eq_refl), (inv_free s Hs) in Hid by auto. by apply elem_of_nil in Hid. }
  cbn. unfold Part.cancel, abs at 1. cbn. rewrite Ev.
  destruct (holder (mtx s)) as [o|] eqn:Eo; [|by unfold turn in Hid; rewrite Eo, (inv_free s Hs Eo) in Hid; apply elem_of_nil in Hid].
  destruct (entry_turn s o Hs) as (co & Hco & Heo); [unfold turn; rewrite Eo; by left|]. cbn. rewrite Heo.
  destruct (decide (o = id)) as [->|Hn].
  - etrans; [apply (release_abs s id _ None None); done|]. case_decide; [|rewrite decide_True by done];
      unfold abs; cbn; by rewrite asked_app, ended_app, answers_app, !app_nil_r.
  - rewrite (decide_False (P := inside s = Some id)) by (intros [Hx _]%H1; congruence).
    rewrite decide_False by congruence.
    assert (id ∈ queue (mtx s)) as Hq.
    { unfold turn in Hid. rewrite Eo in Hid. by apply elem_of_cons in Hid as [->|?]. }
    destruct (withdraw_waiting id _ Hq) as [E1 E2]. unfold abs. cbn.
    rewrite E1, E2, Eo, asked_app, ended_app, answers_app, !app_nil_r, omap_entry_withdraw. cbn.
    by rewrite entry_delete, Heo by done.
Qed.

Lemma enter_whole id c s t :
  value s = Some t -> abs (enter id c s) = abs s /\ enter id c s = mk_state (mtx s) (value s) (futures s) (Some id) (log s ++ [Began id]).
Proof.
  intros Hv. unfold enter. rewrite Hv. split; [|done]. unfold abs. cbn.
  by rewrite asked_app, ended_app, answers_app, !app_nil_r, Hv.
Qed.

Lemma begin_abs id c s : whole s -> id ∉ asked (log s) -> Part.begin id c (abs s) = abs (begin id c s).
Proof.
  intros [Hs Hk Hg] Hn. assert (id ∉ queue (mtx s)) as Hq.
  { intros Hq. apply Hn, (inv_asked s Hs). unfold turn. destruct (holder (mtx s)); [by right|done]. }
  assert (omap (entry (<[id := c]> (futures s))) (queue (mtx s)) = omap (entry (futures s)) (queue (mtx s))) as Ho.
  { clear -Hq. induction (queue (mtx s)) as [|j q IH]; [done|]. apply not_elem_of_cons in Hq as [? ?].
    cbn. rewrite IH by done. unfold entry. by rewrite lookup_insert_ne by done. }
  assert (entry (<[id := c]> (futures s)) id = Some (id, c)) as Hid by (unfold entry; by rewrite lookup_insert_eq).
  unfold begin, Part.begin, abs at 1. cbn. destruct (holder (mtx s)) as [o|] eqn:Eo.
  - destruct (entry_turn s o Hs) as (co & Hco & Heo); [unfold turn; rewrite Eo; by left|].
    assert (o <> id) as Hoi by (intros ->; apply Hn, (inv_asked s Hs); unfold turn; rewrite Eo; by left).
    destruct (lock_held id o _ Eo) as [E1 E2]. rewrite E1, decide_False by congruence. cbn. rewrite Heo.
    unfold abs. cbn. rewrite E1, E2, omap_app, Ho, asked_app, ended_app, answers_app, !app_nil_r. cbn. rewrite Hid.
    f_equal. unfold entry. by rewrite lookup_insert_ne, Hco by done.
  - destruct (lock_free id _ Eo) as [E1 E2]. pose proof (inv_free s Hs Eo) as Hf. rewrite Hf in *.
    rewrite E1, decide_True by done. cbn. destruct (value s) as [t|] eqn:Ev.
    + unfold enter, abs. cbn. rewrite E1, E2.
      cbn. rewrite Hid, !asked_app, !ended_app, !answers_app, !app_nil_r. done.
    + unfold enter, abs, Part.answer. cbn.
      destruct (unlock_next id _ E1) as [-> ->]. rewrite E2.
      by rewrite !asked_app, !ended_app, !answers_app, !app_nil_r.
Qed.

Lemma try_abs s n m :
  inv s -> try_lock n (mtx s) = Some m ->
  holder (mtx s) = None /\ queue (mtx s) = [] /\ holder (unlock m) = None /\ queue (unlock m) = [].
Proof.
  intros Hs Hm. destruct (holder (mtx s)) as [j|] eqn:Ej; [by rewrite (try_lock_held n j _ Ej) in Hm|].
  destruct (try_lock_free n _ Ej) as (m' & Hm' & Hh & Hq). rewrite Hm in Hm'. injection Hm' as <-.
  pose proof (inv_free s Hs Ej) as Hf. destruct (unlock_next n m Hh) as [-> ->]. by rewrite Hq, Hf.
Qed.

Lemma try_none s n : inv s -> try_lock n (mtx s) = None -> exists o, Part.owner (abs s) = Some o.
Proof.
  intros Hs Hm. destruct (holder (mtx s)) as [j|] eqn:Ej.
  - destruct (entry_turn s j Hs) as (c & _ & He); [unfold turn; rewrite Ej; by left|].
    exists (j, c). unfold abs. cbn. by rewrite Ej.
  - destruct (try_lock_free n _ Ej) as (m & Hm' & _). congruence.
Qed.

Lemma refused_abs s n : abs (mk_state (mtx s) (value s) (futures s) (inside s) (log s ++ [Refused n])) = abs s.
Proof. unfold abs. cbn. by rewrite asked_app, ended_app, answers_app, !app_nil_r. Qed.

Lemma now_abs n c g s : whole s -> Part.now c g (abs s) = (abs (now n c g s).1, (now n c g s).2).
Proof.
  intros [Hs Hk Hg]. unfold now. destruct (try_lock n (mtx s)) as [m|] eqn:Em.
  - destruct (try_abs s n m Hs Em) as (E1 & E2 & E3 & E4). unfold Part.now, abs at 1 2. cbn. rewrite E1. cbn.
    destruct (value s) as [t|] eqn:Ev; cbn; [destruct (Part.c_run c t) as [t' r]; cbn|]; unfold abs; cbn;
      rewrite ?Ev, ?E1, ?E2, ?E3, ?E4, ?asked_app, ?ended_app, ?answers_app, ?app_nil_r; done.
  - destruct (try_none s n Hs Em) as [o Ho]. unfold Part.now. rewrite Ho. cbn. by rewrite refused_abs.
Qed.

Lemma take_abs n er s : whole s -> Part.take er (abs s) = (abs (take n er s).1, (take n er s).2).
Proof.
  intros [Hs Hk Hg]. unfold take. destruct (try_lock n (mtx s)) as [m|] eqn:Em.
  - destruct (try_abs s n m Hs Em) as (E1 & E2 & E3 & E4). unfold Part.take, abs at 1 2. cbn. rewrite E1. cbn.
    destruct (value s) as [t|] eqn:Ev; cbn; unfold abs; cbn;
      rewrite ?Ev, ?E1, ?E2, ?E3, ?E4, ?asked_app, ?ended_app, ?answers_app, ?app_nil_r; done.
  - destruct (try_none s n Hs Em) as [o Ho]. unfold Part.take. rewrite Ho. cbn. by rewrite refused_abs.
Qed.

(** *** The conditions hold in every state reached *)
Lemma keeps_step e s :
  map_Forall (fun _ c => keeps c) (futures s) -> keeps_event e -> map_Forall (fun _ c => keeps c) (futures (step e s)).
Proof.
  intros Hk He. destruct e as [id c|id| |id t|n c g|n er]; cbn in *; unfold resume, complete, cancel, now, take, begin, enter.
  - case_decide; [done|]. cbn. repeat case_match; cbn; try apply map_Forall_delete; by apply map_Forall_insert_2.
  - repeat case_match; cbn; try done; by apply map_Forall_delete.
  - repeat case_match; cbn; try done; by apply map_Forall_delete.
  - repeat case_match; cbn; try done; by apply map_Forall_delete.
  - by repeat case_match.
  - by repeat case_match.
Qed.

Lemma gone_kept e s :
  whole s -> keeps_event e -> value (step e s) = None -> holder (mtx (step e s)) = None.
Proof.
  intros [Hs Hk Hg] He. destruct e as [id c|id| |id t|n c g|n er]; cbn in *.
  - case_decide; [done|]. unfold begin, enter. cbn. destruct (value s) as [t|] eqn:Ev; [by case_decide|]. intros _.
    destruct (lock_free id _ (Hg eq_refl)) as [E1 E2]. rewrite E1, decide_True by done. cbn.
    destruct (unlock_next id _ E1) as [-> _]. by rewrite E2, (inv_free s Hs (Hg eq_refl)).
  - unfold resume, enter. destruct (futures s !! id); [|done]. destruct (inside s); [done|]. case_decide as Hh; [|done].
    destruct (value s) eqn:Ev; [done|]. by rewrite Hg in Hh.
  - unfold complete. destruct (inside s); [|done]. destruct (value s) as [t|] eqn:Ev; [|by rewrite Ev].
    destruct (futures s !! n) as [c|] eqn:Ef; [|by rewrite Ev]. pose proof (Hk n c Ef t) as Hx.
    destruct (Part.c_run c t) as [t' r]. cbn in *. intros ->. by destruct Hx.
  - unfold cancel. destruct (futures s !! id) as [c|] eqn:Ef; [|done]. case_decide; [done|].
    case_decide as Hh; cbn; intros Hv; [by rewrite Hg in Hh|].
    assert (id ∈ turn (mtx s)) as Hid by (apply (inv_futures s Hs); by eexists).
    unfold turn in Hid. rewrite (Hg Hv), (inv_free s Hs) in Hid by auto. by apply elem_of_nil in Hid.
  - unfold now. destruct (try_lock n (mtx s)) as [m|] eqn:Em; [|done].
    destruct (try_abs s n m Hs Em) as (_ & _ & E & _). destruct (value s) as [t|]; [|done]. by destruct (Part.c_run c t).
  - unfold take. destruct (try_lock n (mtx s)) as [m|] eqn:Em; [|done].
    destruct (try_abs s n m Hs Em) as (_ & _ & E & _). by destruct (value s) as [t|].
Qed.

Lemma whole_step e s : whole s -> keeps_event e -> whole (step e s).
Proof.
  intros Hw He. split; [by apply guarded_step_inv, Hw|by apply keeps_step; [apply Hw|]|by apply gone_kept].
Qed.

Lemma whole_run es s : whole s -> Forall keeps_event es -> whole (run es s).
Proof.
  revert s. induction es as [|e es IH]; intros s Hs Hk; [done|]. apply Forall_cons in Hk as [He Hk].
  cbn. apply IH; [by apply whole_step|done].
Qed.

Lemma step_abs e s : whole s -> Part.run (as_part e s) (abs s) = abs (step e s).
Proof.
  intros Hw. pose proof Hw as [Hs Hk Hg]. destruct e as [id c|id| |id t|n c g|n er].
  - cbn. case_decide; [done|]. cbn. by apply begin_abs.
  - cbn. unfold resume. destruct (futures s !! id); [|done]. destruct (inside s); [done|]. case_decide as Hh; [|done].
    destruct (value s) as [t|] eqn:Ev; [by destruct (enter_whole id c s t Ev)|by rewrite Hg in Hh].
  - cbn. destruct (inside s) as [i|] eqn:Ei; [by apply (complete_abs s i)|]. unfold complete. by rewrite Ei.
  - by apply cancel_abs.
  - cbn. by rewrite (now_abs n).
  - cbn. by rewrite (take_abs n).
Qed.

(** The events of [Part] of a run. *)
Fixpoint run_as_part (es : list event) (s : state) : list (Part.event (T:=T) (A:=A)) :=
  match es with [] => [] | e :: es => as_part e s ++ run_as_part es (step e s) end.

End guarded.
End Guarded.

(** ** A mutex that keeps the laws: the holder and the queue of those waiting *)
#[global] Instance queue_mutex : Mutex (option nat * list nat) := {
  unlocked := (None, []);
  holder := fst;
  queue := snd;
  lock i m := match m.1 with None => (Some i, m.2) | Some j => (Some j, m.2 ++ [i]) end;
  try_lock i m := match m.1 with None => Some (Some i, m.2) | Some _ => None end;
  unlock m := (head m.2, tail m.2);
  withdraw i m := (m.1, filter (fun j => j <> i) m.2);
}.

#[global] Instance queue_mutex_fair : FairMutex (option nat * list nat).
Proof.
  split; cbn; try done.
  - intros i [[]] ?; by simplify_eq/=.
  - intros i j [[]] ?; by simplify_eq/=.
  - intros i [[] q] ?; simplify_eq/=. by eexists.
  - intros i j [[]] ?; by simplify_eq/=.
Qed.

(** The source's calls that wait leave the part in place. *)
Lemma waiting_calls_keep
    `{NativeErr SessionErr, NativeErr StreamErr, NativeErr DatagramErr} early varint_ok priority_ok {S R : Type}
    (send : S -> SendReq -> S * (val + nerr)) (recv : R -> RecvReq -> R * (val + nerr)) :
  (forall m c, send_call early varint_ok priority_ok send m = Ok (Awaits, c) -> Guarded.keeps c) /\
  (forall m c, recv_call early varint_ok priority_ok recv m = Ok (Awaits, c) -> Guarded.keeps c).
Proof.
  split; intros m c Hc t.
  - unfold send_call, varint, lend in Hc. destruct m; py_inv; repeat case_match; simplify_eq/=;
      unfold native_call; repeat case_match; simplify_eq/=; by eexists.
  - unfold recv_call, varint in Hc. destruct m; py_inv; repeat case_match; simplify_eq/=;
      unfold native_call; repeat case_match; simplify_eq/=; by eexists.
Qed.

Definition three_writes : list (Guarded.event (T:=nat) (A:=val)) :=
  [Guarded.Begin 1 StreamsExample.write; Guarded.Begin 2 StreamsExample.write; Guarded.Begin 3 StreamsExample.write;
   Guarded.Now 9 StreamsExample.write (Err busy); Guarded.Cancel 2 5%nat; Guarded.Complete; Guarded.Resume 3].


Lemma stream_calls_in_order_witness :
  let s := Guarded.run (M := option nat * list nat) three_writes (Guarded.init 0%nat) in
  Guarded.inside s = Some 3%nat /\ Guarded.served (Guarded.log s) = [1; 3]%nat /\
  Guarded.serial (Guarded.log s) = Some (Guarded.inside s).
Proof.
  split; [reflexivity|]. split; [reflexivity|].
  exact (proj1 (Guarded.stream_calls_in_order (M := option nat * list nat) three_writes 0%nat)).
Defined.
