(* ===== verification/StreamSpec.v ===== *)
(** The contract of a stream part: an atomic object.  A call is invoked, takes
    effect at one instant on the part alone, and its result is given out at most
    once; the mutex, its queue, the tasks and the event loop are not mentioned.
    What Python sees of the object are labels; Calls shows that every run of
    the implementation has the labels of a run of this object. *)
From S2P Require Import Prelude Streams.

Module Atomic.
Section atomic.
Context {T A O : Type} (into_py : A -> PyResult O).
Abbreviation call := (Part.call (T:=T) (A:=A)).

(** The part, the calls that have not taken effect, those that have and whose
    answer was not given out, and the identities used. *)
Record spec := mk_spec {
  value : option T;
  invoked : gmap nat call;
  answered : gmap nat (PyResult A);
  made : gset nat;
}.

Definition start (t : T) : spec := mk_spec (Some t) ∅ ∅ ∅.

(** What is seen from outside: a method is called; its future is given a value
    or an exception; its task drops it ([left]: the native operation was running
    and left the part so); a call that never waits, with what it returned or
    raised; the part taken out, or the exception. *)
Inductive label :=
  | LInvoke (id : nat) (c : call)
  | LDeliver (id : nat) (o : PyResult O)
  | LDrop (id : nat) (left : option T)
  | LNow (c : call) (gone r : PyResult A)
  | LTake (er : pyerr) (r : PyResult T).

Inductive astep : spec -> option label -> spec -> Prop :=
  | Invoke id c v i a m :
      id ∉ m ->
      astep (mk_spec v i a m) (Some (LInvoke id c)) (mk_spec v (<[id := c]> i) a ({[id]} ∪ m))
  (** a call takes effect on the part *)
  | Effect id c t t' x i a m :
      i !! id = Some c -> Part.c_run c t = (t', x) ->
      astep (mk_spec (Some t) i a m) None (mk_spec t' (delete id i) (<[id := x]> a) m)
  (** a call finds the part gone *)
  | Gone id c i a m :
      i !! id = Some c ->
      astep (mk_spec None i a m) None (mk_spec None (delete id i) (<[id := Part.c_gone c]> a) m)
  (** the answer is given out, converted, and cannot be given again *)
  | Deliver id r v i a m :
      a !! id = Some r ->
      astep (mk_spec v i a m) (Some (LDeliver id (r ≫= into_py))) (mk_spec v i (delete id a) m)
  (** a call is cancelled before it took effect: it has none *)
  | Withdraw id v i a m :
      v = None \/ a !! id = None ->
      astep (mk_spec v i a m) (Some (LDrop id None)) (mk_spec v (delete id i) (delete id a) m)
  (** or while its native operation ran, which is dropped where it was *)
  | Abandon id c t t' i a m :
      i !! id = Some c ->
      astep (mk_spec (Some t) i a m) (Some (LDrop id (Some t'))) (mk_spec (Some t') (delete id i) (delete id a) m)
  (** a call that never waits takes effect now, finds the part gone, or is
      refused, which needs a call that has not taken effect *)
  | Immediate c g t t' x i a m :
      Part.c_run c t = (t', x) -> astep (mk_spec (Some t) i a m) (Some (LNow c g x)) (mk_spec t' i a m)
  | ImmediateGone c g i a m : astep (mk_spec None i a m) (Some (LNow c g g)) (mk_spec None i a m)
  | ImmediateBusy c g v i a m :
      i <> ∅ -> astep (mk_spec v i a m) (Some (LNow c g (Err busy))) (mk_spec v i a m)
  | TakeOut er t i a m : astep (mk_spec (Some t) i a m) (Some (LTake er (Ok t))) (mk_spec None i a m)
  | TakeGone er i a m : astep (mk_spec None i a m) (Some (LTake er (Err er))) (mk_spec None i a m)
  | TakeBusy er v i a m :
      i <> ∅ -> astep (mk_spec v i a m) (Some (LTake er (Err busy))) (mk_spec v i a m).

(** A run with its labels. *)
Inductive atrace : spec -> list label -> spec -> Prop :=
  | trace_nil a : atrace a [] a
  | trace_silent a b l c : astep a None b -> atrace b l c -> atrace a l c
  | trace_label a x b l c : astep a (Some x) b -> atrace b l c -> atrace a (x :: l) c.

Lemma atrace_app a l b l' c : atrace a l b -> atrace b l' c -> atrace a (l ++ l') c.
Proof. induction 1; cbn; eauto using atrace. Qed.
Lemma atrace_one a x b : astep a (Some x) b -> atrace a [x] b.
Proof. eauto using atrace. Qed.
Lemma atrace_tau a b : astep a None b -> atrace a [] b.
Proof. eauto using atrace. Qed.

(** *** What the object promises its users *)
Definition deliveries (l : list label) : list nat :=
  omap (fun x => match x with LDeliver id _ => Some id | _ => None end) l.
Definition invocations (l : list label) : list nat :=
  omap (fun x => match x with LInvoke id _ => Some id | _ => None end) l.

(** A call not answered, or answered and not given out, was made and not given
    out, and is not both. *)
Record fresh (done : list nat) (a : spec) : Prop := {
  fresh_invoked : forall id, is_Some (invoked a !! id) -> (id ∈ made a) /\ (id ∉ done) /\ answered a !! id = None;
  fresh_answered : forall id, is_Some (answered a !! id) -> id ∈ made a /\ id ∉ done;
  fresh_done : forall id, id ∈ done -> id ∈ made a;
}.

Definition given (x : option label) : list nat := match x with Some x => deliveries [x] | None => [] end.

Lemma fresh_effect done v v' id x i a m :
  fresh done (mk_spec v i a m) -> is_Some (i !! id) -> fresh done (mk_spec v' (delete id i) (<[id := x]> a) m).
Proof.
  intros [H1 H2 H3] Hi. cbn in *. split; cbn; [..|done]; intros j.
  - intros [Hn Hj]%lookup_delete_is_Some. rewrite lookup_insert_ne by done. by apply H1.
  - intros [<-|[_ Hj]]%lookup_insert_is_Some; [|by apply H2]. destruct (H1 id Hi) as (? & ? & _). done.
Qed.

Lemma fresh_forget done v v' id i a m :
  fresh done (mk_spec v i a m) -> fresh done (mk_spec v' (delete id i) (delete id a) m).
Proof.
  intros [H1 H2 H3]. cbn in *. split; cbn; [..|done]; intros j.
  - intros [Hn Hj]%lookup_delete_is_Some. rewrite lookup_delete_ne by done. by apply H1.
  - intros [_ Hj]%lookup_delete_is_Some. by apply H2.
Qed.

Lemma fresh_value done v v' i a m : fresh done (mk_spec v i a m) -> fresh done (mk_spec v' i a m).
Proof. intros [H1 H2 H3]. by split. Qed.

Lemma fresh_step done a x b :
  fresh done a -> astep a x b -> fresh (done ++ given x) b /\ (forall id, id ∈ given x -> id ∉ done).
Proof.
  intros Hf Hs. destruct Hs; cbn [given deliveries omap list_omap]; rewrite ?app_nil_r;
    (split; [|try by intros ? ?%elem_of_nil]); try exact Hf;
    try (by eapply fresh_effect; [exact Hf|eexists]); try (by eapply fresh_forget, Hf);
    try (by eapply fresh_value, Hf).
  - destruct Hf as [H1 H2 H3]. cbn in *. split; cbn; intros j.
    + intros [<-|[Hn Hj]]%lookup_insert_is_Some; [|destruct (H1 j Hj) as (? & ? & ?); set_solver].
      split_and!; [set_solver|by intros ?%H3|]. apply eq_None_not_Some. by intros [? _]%H2.
    + intros Hj%H2. set_solver.
    + intros Hj%H3. set_solver.
  - destruct Hf as [H1 H2 H3]. cbn in *. split; cbn; intros j; rewrite ?elem_of_app, ?list_elem_of_singleton.
    + intros Hj. destruct (H1 j Hj) as (? & ? & Hn). rewrite lookup_delete_None. split_and!; [done| |by right].
      intros [?| ->]; [done|congruence].
    + intros [Hn Hj]%lookup_delete_is_Some. destruct (H2 j Hj). split; [done|]. intros [?| ->]; done.
    + intros [?| ->]; [by apply H3|]. apply H2. eauto.
  - intros j ->%list_elem_of_singleton. apply (fresh_answered _ _ Hf). cbn. eauto.
Qed.

Lemma atrace_once done a l b :
  atrace a l b -> fresh done a -> NoDup done -> NoDup (done ++ deliveries l) /\ (forall id, id ∈ done ++ deliveries l -> id ∈ made b).
Proof.
  intros Ht. revert done. induction Ht as [a|a b l c Hs Ht IH|a x b l c Hs Ht IH]; intros done Hf Hnd.
  - cbn. rewrite app_nil_r. split; [done|]. apply Hf.
  - destruct (fresh_step _ _ _ _ Hf Hs) as [Hf' _]. cbn in Hf'. rewrite app_nil_r in Hf'. by apply IH.
  - destruct (fresh_step _ _ _ _ Hf Hs) as [Hf' Hn]. cbn in Hf'.
    assert (deliveries (x :: l) = given (Some x) ++ deliveries l) as -> by (by destruct x).
    rewrite app_assoc. apply IH; [done|]. apply NoDup_app. split_and!; [done| |destruct x; repeat constructor; set_solver].
    intros j Hj Hg. by apply (Hn j).
Qed.

Lemma made_invoked a l b id : atrace a l b -> id ∈ made b -> id ∈ made a \/ id ∈ invocations l.
Proof.
  induction 1 as [a|a b l c Hs Ht IH|a x b l c Hs Ht IH]; [by left|..]; intros Hm.
  - destruct (IH Hm) as [Hb|Hl]; [|by right]. inversion Hs; subst; cbn in *; auto.
  - destruct (IH Hm) as [Hb|Hl]; [|right; destruct x; cbn; rewrite ?elem_of_cons; auto].
    inversion Hs; subst; cbn in *; auto.
    apply elem_of_union in Hb as [->%elem_of_singleton|?]; [|auto]. right. apply elem_of_cons. by left.
Qed.

(** A result is given out once, for a call that was made. *)
Lemma spec_delivers_once t l b :
  atrace (start t) l b ->
  NoDup (deliveries l) /\ forall id, id ∈ deliveries l -> id ∈ invocations l.
Proof.
  intros Ht. destruct (atrace_once [] (start t) l b Ht) as [H1 H2]; [|constructor|].
  { split; cbn; [intros id [? ?]; set_solver..|]. by intros ? ?%elem_of_nil. }
  split; [done|]. intros id Hid%H2. by destruct (made_invoked _ _ _ id Ht Hid).
Qed.
End atomic.
End Atomic.
