(* ===== verification/Calls.v ===== *)
(** Awaited stream calls, end to end: the asyncio future of [future_into_py]
    (src/src/rt.rs) around a call on a stream part (src/src/lib.rs, [held]).
    A method such as [RecvStream.read] spawns a task whose inner future locks
    the part, runs the native operation and answers; Python may cancel the
    future it awaits at any time.  The theorems are about both components
    together, proved from the lemmas of each. *)
From S2P Require Import Prelude Errors Config Bridge Streams StreamSpec.

(** ** What a part keeps account of

    The calls answered, the running one and the waiting ones are, in this
    order, among the calls made. *)
Module Tally.
Section tally.
Context {T A : Type}.
Abbreviation pstate := (Part.state (T:=T) (A:=A)).

Definition tally (p : pstate) : list nat := (Part.answers p).*1 ++ Part.pending p.

Lemma tally_begin id c (p : pstate) :
  Part.inv p -> tally (Part.begin id c p) = tally p ++ [id] /\
  Part.started (Part.begin id c p) = Part.started p ++ [id].
Proof.
  intros [Hf _ _]. unfold tally, Part.begin, Part.pending. cbn [Part.owner Part.value].
  destruct (Part.owner p) as [o|]; cbn.
  - rewrite map_app. cbn. by rewrite app_comm_cons, app_assoc.
  - rewrite Hf by done. destruct (Part.value p); cbn; rewrite ?fmap_app, ?app_nil_r; done.
Qed.

Lemma tally_complete (p : pstate) :
  Part.inv p -> tally (Part.complete p) = tally p /\ Part.started (Part.complete p) = Part.started p.
Proof.
  intros Hi. destruct (Part.owner p) as [[id c]|] eqn:Eo.
  - split; [apply (proj1 (Part.complete_owner p (id, c) Hi Eo))|].
    unfold Part.complete. rewrite Eo. destruct (Part.value p) as [t|]; [|done].
    destruct (Part.c_run c t) as [[t'|] r]; unfold Part.release; cbn; [by destruct (Part.waiting p)|done].
  - unfold Part.complete. by rewrite Eo.
Qed.

(** A cancellation takes its call out of the account, and touches nothing else. *)
Lemma pending_cancel id t (p : pstate) :
  Part.inv p -> NoDup (Part.pending p) ->
  Part.pending (Part.cancel id t p) = filter (fun i => i <> id) (Part.pending p) /\
  Part.answers (Part.cancel id t p) = Part.answers p /\
  Part.started (Part.cancel id t p) = Part.started p.
Proof.
  intros [Hf _ _] Hnd. unfold Part.cancel. destruct (Part.owner p) as [[o c]|] eqn:Eo.
  - assert (Part.pending p = o :: map fst (Part.waiting p)) as Hp by (unfold Part.pending; by rewrite Eo).
    rewrite Hp in *. apply NoDup_cons in Hnd as [Ho Hnd]. rewrite filter_cons. case_decide as Hd.
    + rewrite decide_False by tauto. subst o. rewrite Part.pending_release. split; [|unfold Part.release; by destruct (Part.waiting p)].
      symmetry. clear -Ho. induction (map fst (Part.waiting p)) as [|x l IH]; [done|].
      apply not_elem_of_cons in Ho as [? ?]. rewrite filter_cons_True by done. f_equal. by apply IH.
    + rewrite decide_True by done. unfold Part.pending. cbn. rewrite ?Eo. cbn.
      split; [|done]. f_equal. clear. induction (Part.waiting p) as [|x l IH]; [done|].
      rewrite filter_cons. cbn [map]. rewrite filter_cons. repeat case_decide; cbn [map]; (done || by f_equal).
  - unfold Part.pending. rewrite Eo, Hf by done. done.
Qed.

Lemma tally_now c g (p : pstate) :
  tally (Part.now c g p).1 = tally p /\ Part.started (Part.now c g p).1 = Part.started p.
Proof.
  unfold Part.now. destruct (Part.owner p) eqn:Eo; [done|]. destruct (Part.value p); [|done].
  destruct (Part.c_run c _). unfold tally, Part.pending. cbn. by rewrite Eo.
Qed.

Lemma tally_take er (p : pstate) :
  tally (Part.take er p).1 = tally p /\ Part.started (Part.take er p).1 = Part.started p.
Proof.
  unfold Part.take. destruct (Part.owner p) eqn:Eo; [done|]. destruct (Part.value p); [|done].
  unfold tally, Part.pending. cbn. by rewrite Eo.
Qed.

Lemma run_started es (p : pstate) id : id ∈ Part.started p -> id ∈ Part.started (Part.run es p).
Proof.
  revert p. induction es as [|e es IH]; intros p Hp; [done|]. apply IH.
  destruct e; cbn; unfold Part.begin, Part.complete, Part.cancel, Part.now, Part.take, Part.release, Part.answer;
    repeat case_match; cbn; rewrite ?elem_of_app; auto.
Qed.

(** The account of a reached part. *)
Record accounted (p : pstate) : Prop := {
  acc_inv : Part.inv p;
  acc_tally : tally p `sublist_of` Part.started p;
  acc_nodup : NoDup (Part.started p);
}.

Lemma accounted_same p q :
  accounted p -> Part.inv q -> tally q = tally p /\ Part.started q = Part.started p -> accounted q.
Proof. intros [_ Ht Hn] Hq [E1 E2]. split; [done|by rewrite E1, E2|by rewrite E2]. Qed.

Lemma accounted_step e p :
  accounted p -> (forall id c, e = Part.Begin id c -> id ∉ Part.started p) -> accounted (Part.step e p).
Proof.
  intros Ha Hfresh. pose proof Ha as [Hi Ht Hn].
  pose proof (Part.part_step_inv e p Hi) as Hi'.
  destruct e as [id c| |id t|c g|er]; cbn in *.
  - destruct (tally_begin id c p Hi) as [E1 E2]. split; [done|rewrite E1, E2; by apply sublist_app|].
    rewrite E2. apply NoDup_app. split; [done|]. split; [|by apply NoDup_singleton].
    intros x Hx ->%list_elem_of_singleton. by apply (Hfresh id c).
  - by apply (accounted_same p); [| |apply tally_complete].
  - assert (NoDup (Part.pending p)) as Hnp.
    { eapply sublist_NoDup, NoDup_app in Ht as (_ & _ & ?); done. }
    destruct (pending_cancel id t p Hi Hnp) as (E1 & E2 & E3). split; [done| |by rewrite E3].
    rewrite E3. etrans; [|exact Ht]. unfold tally. rewrite E1, E2.
    apply sublist_app; [done|]. apply sublist_filter.
  - by apply (accounted_same p); [| |apply tally_now].
  - by apply (accounted_same p); [| |apply tally_take].
Qed.

Lemma accounted_init t : accounted (Part.init t : pstate).
Proof. split; [apply Part.init_inv|done|constructor]. Qed.

Lemma answered_started p id r : accounted p -> (id, r) ∈ Part.answers p -> id ∈ Part.started p.
Proof.
  intros [_ Ht _] Hr. eapply elem_of_submseteq; [|by apply sublist_submseteq, Ht].
  unfold tally. apply elem_of_app. left. apply list_elem_of_fmap. by exists (id, r).
Qed.

Lemma pending_started p id : accounted p -> id ∈ Part.pending p -> id ∈ Part.started p.
Proof.
  intros [_ Ht _] Hr. eapply elem_of_submseteq; [|by apply sublist_submseteq, Ht].
  unfold tally. apply elem_of_app. by right.
Qed.

Lemma accounted_nodup p : accounted p -> NoDup (tally p).
Proof. intros [_ Ht Hn]. by eapply sublist_NoDup. Qed.

(** A call is answered once. *)
Lemma answer_unique p id r1 r2 :
  accounted p -> (id, r1) ∈ Part.answers p -> (id, r2) ∈ Part.answers p -> r1 = r2.
Proof.
  intros Ha%accounted_nodup H1 H2. apply NoDup_app in Ha as (Hn & _ & _).
  induction (Part.answers p) as [|[i r] l IH]; [by apply elem_of_nil in H1|].
  cbn in Hn. apply NoDup_cons in Hn as [Hi Hn].
  assert (forall x, (id, x) ∈ l -> id ∈ l.*1) as Hin by (intros x Hx; apply list_elem_of_fmap; by exists (id, x)).
  apply elem_of_cons in H1 as [[= -> ->]|H1]; apply elem_of_cons in H2 as [[= E2]|H2]; subst;
    eauto; exfalso; eauto.
Qed.
End tally.
End Tally.

(** ** Calls awaited from Python *)
Module Awaited.
Import Tally.
Section awaited.
Context {T A O : Type} (into_py : A -> PyResult O).
Abbreviation pstate := (Part.state (T:=T) (A:=A)).
Abbreviation call := (Part.call (T:=T) (A:=A)).
Abbreviation task := (FutureIntoPy.state (V:=A) (O:=O)).

(** A call: what its inner future does with the part, and the task of
    [future_into_py] around it. *)
Record entry := mk_entry { e_call : call; e_task : task }.
Record state := mk_state { part : pstate; calls : gmap nat entry }.

Definition init (t : T) : state := mk_state (Part.init t) ∅.

(** The method is called: [future_into_py] makes the future and spawns the
    task, which has not been polled yet. *)
Definition invoke (id : nat) (c : call) (s : state) : state :=
  match calls s !! id with
  | Some _ => s
  | None => mk_state (part s) (<[id := mk_entry c FutureIntoPy.init]> (calls s))
  end.

(** The answer of call [id]. *)
Definition answer_of (id : nat) (l : list (nat * PyResult A)) : option (PyResult A) :=
  snd <$> List.find (fun a => Nat.eqb a.1 id) l.

Definition holds (id : nat) (p : pstate) : bool :=
  match Part.owner p with Some (o, _) => Nat.eqb o id | None => false end.

(** A poll of the inner future: it asks for the lock at its first poll, and when
    it holds the part and the native operation has [ended], it is ready. *)
Definition ask (id : nat) (c : call) (p : pstate) : pstate :=
  if decide (id ∈ Part.started p) then p else Part.begin id c p.
Definition go_on (id : nat) (ended : bool) (p : pstate) : pstate :=
  if ended && holds id p then Part.complete p else p.
Definition inner_poll (id : nat) (c : call) (ended : bool) (p : pstate) : pstate * option (PyResult A) :=
  let p := go_on id ended (ask id c p) in (p, answer_of id (Part.answers p)).

(** A poll of the task: the cancel branch first, whose readiness drops the
    inner future with what it holds (the native operation left as [t]). *)
Definition poll (id : nat) (ended : bool) (t : T) (loop_open : bool) (s : state) : state :=
  match calls s !! id with
  | Some (mk_entry c k) =>
      match FutureIntoPy.tk k, FutureIntoPy.tx k with
      | FutureIntoPy.Selecting, FutureIntoPy.Held =>
          let '(p, ready) := inner_poll id c ended (part s) in
          mk_state p (<[id := mk_entry c (FutureIntoPy.select_poll into_py ready loop_open k)]> (calls s))
      | FutureIntoPy.Selecting, _ =>
          mk_state (Part.cancel id t (part s))
            (<[id := mk_entry c (FutureIntoPy.select_poll into_py None loop_open k)]> (calls s))
      | _, _ => s
      end
  | None => s
  end.

(** What happens on the event loop to a call's future. *)
Inductive py_event := PyCancel | PyOnCancel | PyCollect | PyComplete.
Definition py_exec (e : py_event) (k : task) : task :=
  match e with
  | PyCancel =>
      match FutureIntoPy.fut k with
      | FutureIntoPy.Pending =>
          FutureIntoPy.mk_state FutureIntoPy.Cancelled (FutureIntoPy.tx k) (FutureIntoPy.tk k)
            (FutureIntoPy.posted k) (FutureIntoPy.sets k)
      | _ => k
      end
  | PyOnCancel => FutureIntoPy.on_cancel k
  | PyCollect =>
      match FutureIntoPy.tx k with
      | FutureIntoPy.Held =>
          FutureIntoPy.mk_state (FutureIntoPy.fut k) FutureIntoPy.Lost (FutureIntoPy.tk k)
            (FutureIntoPy.posted k) (FutureIntoPy.sets k)
      | _ => k
      end
  | PyComplete => FutureIntoPy.complete k
  end.

Inductive event :=
  | Invoke (id : nat) (c : call)
  | Poll (id : nat) (ended : bool) (t : T) (loop_open : bool)
  | OnLoop (id : nat) (e : py_event)
  | Now (c : call) (gone : PyResult A)
  | Take (taken : pyerr).

Definition exec (e : event) (s : state) : state :=
  match e with
  | Invoke id c => invoke id c s
  | Poll id ended t lo => poll id ended t lo s
  | OnLoop id e =>
      mk_state (part s) (alter (fun x => mk_entry (e_call x) (py_exec e (e_task x))) id (calls s))
  | Now c g => mk_state (Part.now c g (part s)).1 (calls s)
  | Take er => mk_state (Part.take er (part s)).1 (calls s)
  end.
Definition run (es : list event) (s : state) : state := foldl (fun s e => exec e s) s es.

(** *** Invariant *)

(** What is known of one call: its task is a reachable one, a result selected is
    the answer of the part, a place in the queue or the lock belongs to a task
    that still selects, and a task that selects is in the queue or answered
    once it was polled. *)
Record entry_ok (p : pstate) (id : nat) (x : entry) : Prop := {
  ok_task : FutureIntoPy.reachable into_py (e_task x);
  ok_selected : forall r, FutureIntoPy.tk (e_task x) = FutureIntoPy.Selected r -> (id, r) ∈ Part.answers p;
  ok_pending : id ∈ Part.pending p -> FutureIntoPy.tk (e_task x) = FutureIntoPy.Selecting;
  ok_selecting : FutureIntoPy.tk (e_task x) = FutureIntoPy.Selecting -> id ∈ Part.started p -> id ∈ tally p;
}.

Record inv (s : state) : Prop := {
  inv_part : accounted (part s);
  inv_known : forall id, id ∈ Part.started (part s) -> is_Some (calls s !! id);
  inv_entry : map_Forall (entry_ok (part s)) (calls s);
}.

Lemma answer_of_some id l r : answer_of id l = Some r -> (id, r) ∈ l.
Proof.
  unfold answer_of. destruct (List.find _ l) as [[i x]|] eqn:E; [|done]. intros [= <-].
  apply List.find_some in E as [H1 H2%Nat.eqb_eq]. cbn in *. subst. by apply list_elem_of_In.
Qed.

Lemma answer_of_elem id l : id ∈ l.*1 -> is_Some (answer_of id l).
Proof.
  intros ([i x] & -> & Hx)%list_elem_of_fmap. unfold answer_of.
  destruct (List.find _ l) eqn:E; [by eexists|]. exfalso.
  apply list_elem_of_In in Hx. pose proof (List.find_none _ _ E _ Hx) as Hn. cbn in Hn.
  by rewrite Nat.eqb_refl in Hn.
Qed.

(** What one call sees of a step of the part that is not its own. *)
Record grows (id : nat) (p q : pstate) : Prop := {
  g_answers : forall r, (id, r) ∈ Part.answers p -> (id, r) ∈ Part.answers q;
  g_pending : id ∈ Part.pending q -> id ∈ Part.pending p;
  g_tally : id ∈ tally p -> id ∈ tally q;
  g_started : id ∈ Part.started q -> id ∈ Part.started p;
}.

Lemma entry_ok_grows p q id x : entry_ok p id x -> grows id p q -> entry_ok q id x.
Proof. intros [H1 H2 H3 H4] [Ha Hp Ht Hs]. split; eauto. Qed.

Lemma grows_trans id p q r : grows id p q -> grows id q r -> grows id p r.
Proof. intros [] []. split; eauto. Qed.

Lemma grows_begin i c id (p : pstate) : Part.inv p -> id <> i -> grows id p (Part.begin i c p).
Proof.
  intros Hi Hn. destruct (tally_begin i c p Hi) as [E1 E2]. split.
  - intros r Hr. unfold Part.begin. cbn. repeat case_match; cbn; [done..|]. apply elem_of_app. by left.
  - unfold Part.begin, Part.pending. cbn. destruct (Part.owner p) as [o|] eqn:Eo; cbn.
    + rewrite map_app. rewrite !elem_of_cons, elem_of_app. cbn. rewrite list_elem_of_singleton. tauto.
    + rewrite (Part.inv_free p Hi Eo). destruct (Part.value p); cbn; rewrite ?Eo; cbn; rewrite ?list_elem_of_singleton; done.
  - rewrite E1, elem_of_app. by left.
  - rewrite E2, elem_of_app, list_elem_of_singleton. tauto.
Qed.

Lemma grows_complete id (p : pstate) : Part.inv p -> grows id p (Part.complete p).
Proof.
  intros Hi. destruct (tally_complete p Hi) as [E1 E2]. split; [| |by rewrite E1|by rewrite E2];
    unfold Part.complete; destruct (Part.owner p) as [[o c]|] eqn:Eo; try done;
    destruct (Part.value p) as [t|]; try done; destruct (Part.c_run c t) as [t' r].
  - intros x Hx. unfold Part.release. cbn. destruct t'; cbn; [destruct (Part.waiting p); cbn|];
      rewrite ?elem_of_app; auto.
  - rewrite Part.pending_release. unfold Part.pending. rewrite Eo. cbn.
    destruct t'; [|by intros ?%elem_of_nil]. intros. by apply elem_of_cons; right.
Qed.

Lemma accounted_pending (p : pstate) : accounted p -> NoDup (Part.pending p).
Proof. intros Ha%accounted_nodup. by apply NoDup_app in Ha as (_ & _ & ?). Qed.

Lemma grows_cancel i t id (p : pstate) : accounted p -> id <> i -> grows id p (Part.cancel i t p).
Proof.
  intros Ha Hn. destruct (pending_cancel i t p (acc_inv p Ha) (accounted_pending p Ha)) as (E1 & E2 & E3).
  split; unfold tally; rewrite ?E1, ?E2, ?E3; try done.
  - by intros [_ ?]%list_elem_of_filter.
  - rewrite !elem_of_app, list_elem_of_filter. tauto.
Qed.

Lemma grows_same id (p q : pstate) : Part.answers q = Part.answers p -> Part.pending q = Part.pending p ->
  Part.started q = Part.started p -> grows id p q.
Proof. intros E1 E2 E3. split; unfold tally; by rewrite ?E1, ?E2, ?E3. Qed.

Lemma grows_now c g id (p : pstate) : grows id p (Part.now c g p).1.
Proof.
  unfold Part.now. destruct (Part.owner p) eqn:Eo; [by apply grows_same|]. destruct (Part.value p); [|by apply grows_same].
  destruct (Part.c_run c _). apply grows_same; unfold Part.pending; cbn; by rewrite ?Eo.
Qed.

Lemma grows_take er id (p : pstate) : grows id p (Part.take er p).1.
Proof.
  unfold Part.take. destruct (Part.owner p) eqn:Eo; [by apply grows_same|]. destruct (Part.value p); [|by apply grows_same].
  apply grows_same; unfold Part.pending; cbn; by rewrite ?Eo.
Qed.

Lemma ask_spec id c p :
  accounted p -> (id ∈ Part.started p -> id ∈ tally p) ->
  let q := ask id c p in
  accounted q /\ (forall j, j <> id -> grows j p q) /\ id ∈ tally q /\
  (forall j, j ∈ Part.started q -> j = id \/ j ∈ Part.started p) /\ exists es, q = Part.run es p.
Proof.
  intros Ha Ht. unfold ask. case_decide as Hd.
  - split_and!; auto; [by intros; apply grows_same|by exists []].
  - destruct (tally_begin id c p (acc_inv p Ha)) as [E1 E2]. split_and!.
    + apply (accounted_step (Part.Begin id c)); [done|]. by intros ? ? [= -> ->].
    + intros j Hj. apply grows_begin; [apply Ha|done].
    + rewrite E1, elem_of_app, list_elem_of_singleton. by right.
    + intros j. rewrite E2, elem_of_app, list_elem_of_singleton. tauto.
    + by exists [Part.Begin id c].
Qed.

(** The owner whose operation ended is no longer pending. *)
Lemma complete_leaves id p : accounted p -> holds id p = true -> id ∉ Part.pending (Part.complete p).
Proof.
  intros Ha Hh. unfold holds in Hh. destruct (Part.owner p) as [[o x]|] eqn:Eo; [|done].
  apply Nat.eqb_eq in Hh as ->. pose proof (accounted_pending p Ha) as Hn. unfold Part.pending in Hn.
  rewrite Eo in Hn. apply NoDup_cons in Hn as [Hn _]. cbn in Hn. intros Hc. apply Hn.
  unfold Part.complete in Hc. rewrite Eo in Hc.
  destruct (Part.value p) as [v|] eqn:Ev; [|by rewrite (Part.inv_taken p (acc_inv p Ha) Ev) in Eo].
  destruct (Part.c_run x v) as [[v'|] r]; rewrite Part.pending_release in Hc; [done|by apply elem_of_nil in Hc].
Qed.

Lemma go_on_spec id ended p :
  accounted p ->
  let q := go_on id ended p in
  accounted q /\ (forall j, grows j p q) /\ tally q = tally p /\ Part.started q = Part.started p /\
  (ended = true -> id ∈ Part.pending q -> holds id q = false) /\ exists es, q = Part.run es p.
Proof.
  intros Ha q.
  destruct (ended && holds id p) eqn:Eh; subst q; unfold go_on; rewrite Eh; cycle 1.
  { split_and!; try done; [by intros -> _|by exists []]. }
  apply andb_true_iff in Eh as [_ Eh].
  destruct (tally_complete p (acc_inv p Ha)) as [E1 E2].
  assert (accounted (Part.complete p)) as Hac by (by apply (accounted_step Part.Complete)).
  split_and!; auto; [intros; apply grows_complete; apply Ha| |by exists [Part.Complete]].
  intros _ Hc. by destruct (complete_leaves id p Ha Eh).
Qed.

(** A poll of the inner future: its own call is in the account afterwards, and
    ready exactly when it is answered. *)
Lemma inner_poll_spec id c ended p q ready :
  accounted p -> (id ∈ Part.started p -> id ∈ tally p) -> inner_poll id c ended p = (q, ready) ->
  accounted q /\ (forall j, j <> id -> grows j p q) /\ id ∈ tally q /\
  (forall j, j ∈ Part.started q -> j = id \/ j ∈ Part.started p) /\
  (exists es, q = Part.run es p) /\
  match ready with
  | Some r => (id, r) ∈ Part.answers q /\ id ∉ Part.pending q
  | None => id ∈ Part.pending q /\ (ended = true -> holds id q = false)
  end.
Proof.
  intros Ha Ht [= Hq Hr]. destruct (ask_spec id c p Ha Ht) as (Ha1 & Hg1 & Ht1 & Hk1 & es1 & He1).
  destruct (go_on_spec id ended _ Ha1) as (Ha2 & Hg2 & Ht2 & Hs2 & Hh2 & es2 & He2).
  rewrite Hq in *. rewrite Ht2, Hs2. split_and!; auto.
  - intros j Hj. eapply grows_trans; eauto.
  - exists (es1 ++ es2). unfold Part.run. rewrite foldl_app. by rewrite He2, He1.
  - subst ready. destruct (answer_of id (Part.answers q)) as [r|] eqn:Er.
    + apply answer_of_some in Er. split; [done|]. pose proof (accounted_nodup q Ha2) as Hn.
      apply NoDup_app in Hn as (_ & Hn & _). apply Hn. apply list_elem_of_fmap. by exists (id, r).
    + assert (id ∈ Part.pending q) as Hpd; [|auto].
      rewrite <- Ht2 in Ht1. apply elem_of_app in Ht1 as [Hx|?]; [|done].
      apply answer_of_elem in Hx. rewrite Er in Hx. by apply is_Some_None in Hx.
Qed.

(** *** The invariant holds *)
Lemma task_step (k k' : task) :
  FutureIntoPy.reachable into_py k -> FutureIntoPy.step into_py k k' -> FutureIntoPy.reachable into_py k'.
Proof. intros Hr Hs. eapply steps_trans; [exact Hr|]. by apply steps_one. Qed.

Lemma py_exec_ok e (k : task) :
  FutureIntoPy.reachable into_py k ->
  FutureIntoPy.reachable into_py (py_exec e k) /\ FutureIntoPy.tk (py_exec e k) = FutureIntoPy.tk k.
Proof.
  intros Hr. destruct e; cbn.
  - destruct (FutureIntoPy.fut k) eqn:Ef; [|done..]. split; [|done]. by eapply task_step, FutureIntoPy.step_cancel.
  - split; [eapply task_step, FutureIntoPy.step_on_cancel; done|]. unfold FutureIntoPy.on_cancel. by repeat case_match.
  - destruct (FutureIntoPy.tx k) eqn:Et; [|done..]. split; [|done]. by eapply task_step, FutureIntoPy.step_collect.
  - split; [eapply task_step, FutureIntoPy.step_complete; done|]. unfold FutureIntoPy.complete. by repeat case_match.
Qed.

(** The entry of the task polled. *)
Lemma entry_polled p id c k ready lo :
  FutureIntoPy.reachable into_py k -> FutureIntoPy.tk k = FutureIntoPy.Selecting ->
  match FutureIntoPy.tx k with
  | FutureIntoPy.Held =>
      id ∈ tally p /\
      match ready with Some r => (id, r) ∈ Part.answers p /\ id ∉ Part.pending p | None => True end
  | _ => id ∉ Part.pending p
  end ->
  entry_ok p id (mk_entry c (FutureIntoPy.select_poll into_py ready lo k)).
Proof.
  intros Hr Hk Hp.
  assert (FutureIntoPy.reachable into_py (FutureIntoPy.select_poll into_py ready lo k)) as Hr'
    by (eapply task_step, FutureIntoPy.step_select; done).
  split; [done|..]; cbn; unfold FutureIntoPy.select_poll in *; rewrite Hk in *;
    destruct (FutureIntoPy.tx k); cbn; try done.
  - destruct ready; cbn; [|by rewrite Hk]. intros r' [= <-]. tauto.
  - destruct ready; cbn; [naive_solver|done].
  - intros _ _. tauto.
Qed.

Lemma poll_inv id ended t lo s : inv s -> inv (poll id ended t lo s).
Proof.
  intros Hs. pose proof Hs as [Ha Hk He]. unfold poll.
  destruct (calls s !! id) as [[c k]|] eqn:Ei; [|done].
  pose proof (He id _ Ei) as [H1 H2 H3 H4]. cbn [e_task] in *.
  destruct (FutureIntoPy.tk k) eqn:Ek; [|done..].
  assert (forall q x, (forall j, j <> id -> grows j (part s) q) -> entry_ok q id x ->
    map_Forall (entry_ok q) (<[id := x]> (calls s))) as Hmap.
  { intros q x Hg Hx j y. destruct (decide (j = id)) as [->|Hj].
    - rewrite lookup_insert_eq. by intros [= <-].
    - rewrite lookup_insert_ne by done. intros Hy. eapply entry_ok_grows; [by apply He|auto]. }
  assert (FutureIntoPy.tx k <> FutureIntoPy.Held -> inv (mk_state (Part.cancel id t (part s))
    (<[id := mk_entry c (FutureIntoPy.select_poll into_py None lo k)]> (calls s)))) as Hc.
  { intros Ht. destruct (pending_cancel id t _ (acc_inv _ Ha) (accounted_pending _ Ha)) as (E1 & E2 & E3).
    split; cbn.
    - by apply (accounted_step (Part.Cancel id t)).
    - intros j. rewrite E3. intros Hj%Hk. apply lookup_insert_is_Some'. by right.
    - apply Hmap; [intros; by apply grows_cancel|]. apply entry_polled; [done..|].
      destruct (FutureIntoPy.tx k); [done|..]; rewrite E1, list_elem_of_filter; tauto. }
  destruct (FutureIntoPy.tx k) eqn:Et; [|by apply Hc..].
  destruct (inner_poll id c ended (part s)) as [q ready] eqn:Eq.
  destruct (inner_poll_spec id c ended _ q ready Ha (H4 eq_refl) Eq) as (Haq & Hg & Hta & Hst & _ & Hr).
  split; cbn.
  - done.
  - intros j [->|Hj%Hk]%Hst; apply lookup_insert_is_Some'; auto.
  - apply Hmap; [done|]. apply entry_polled; [done..|]. rewrite Et. split; [done|]. by destruct ready.
Qed.

Lemma exec_inv e s : inv s -> inv (exec e s).
Proof.
  intros Hs. pose proof Hs as [Ha Hk He]. destruct e as [id c|id ended t lo|id e|c g|er]; cbn.
  - unfold invoke. destruct (calls s !! id) eqn:Ei; [done|]. split; cbn; [done|..].
    + intros j Hj%Hk. apply lookup_insert_is_Some'. by right.
    + apply map_Forall_insert_2; [|done].
      assert (id ∉ Part.started (part s)) as Hn by (intros [? ?]%Hk; congruence).
      split; [constructor|done|..]; cbn; [done|]. by intros _ ?.
  - by apply poll_inv.
  - split; cbn; [done|..].
    + intros j Hj%Hk. by rewrite lookup_alter_is_Some.
    + intros j y. rewrite lookup_alter. case_decide as Hj; [|by apply He]. subst j.
      intros (x & Hx & ->)%fmap_Some. pose proof (He id x Hx) as [H1 H2 H3 H4].
      destruct (py_exec_ok e (e_task x) H1) as [Hr Htk]. split; cbn; rewrite ?Htk; auto.
  - split; cbn; [by apply (accounted_step (Part.Now c g))|by rewrite (proj2 (tally_now c g (part s)))|].
    intros j y Hy. eapply entry_ok_grows; [by apply He|apply grows_now].
  - split; cbn; [by apply (accounted_step (Part.Take er))|by rewrite (proj2 (tally_take er (part s)))|].
    intros j y Hy. eapply entry_ok_grows; [by apply He|apply grows_take].
Qed.

Lemma awaited_run_inv es s : inv s -> inv (run es s).
Proof. revert s. induction es; intros s Hs; [done|]. cbn. by apply IHes, exec_inv. Qed.

Lemma awaited_init_inv t : inv (init t).
Proof. split; [apply accounted_init|by intros ? ?%elem_of_nil|apply map_Forall_empty]. Qed.

Lemma reached_inv es t : inv (run es (init t)).
Proof. apply awaited_run_inv, awaited_init_inv. Qed.

(** Whatever happens to the tasks, the part only goes through steps of its own. *)
Lemma exec_part e s : inv s -> exists es, part (exec e s) = Part.run es (part s).
Proof.
  intros [Ha _ He]. destruct e as [id c|id ended t lo|id e|c g|er]; cbn.
  - exists []. unfold invoke. by case_match.
  - unfold poll. destruct (calls s !! id) as [[c k]|] eqn:Ei; [|by exists []].
    pose proof (He id _ Ei) as [_ _ _ H4]. cbn [e_task] in H4.
    destruct (FutureIntoPy.tk k) eqn:Ek; [|by exists []..].
    destruct (FutureIntoPy.tx k); [|by exists [Part.Cancel id t]..].
    destruct (inner_poll id c ended (part s)) as [q ready] eqn:Eq.
    by destruct (inner_poll_spec id c ended _ q ready Ha (H4 eq_refl) Eq) as (_ & _ & _ & _ & ? & _).
  - by exists [].
  - by exists [Part.Now c g].
  - by exists [Part.Take er].
Qed.

(** *** What is seen from outside *)
Abbreviation label := (Atomic.label (T:=T) (A:=A) (O:=O)).
Abbreviation astep := (Atomic.astep into_py).
Abbreviation atrace := (Atomic.atrace into_py).

(** The labels of a step, read off the states before and after it: a future was
    given something exactly when its count of [set_result] and [set_exception]
    calls grew. *)
Definition given_to (id : nat) (s s' : state) : list label :=
  match calls s !! id, calls s' !! id with
  | Some x, Some x' =>
      match FutureIntoPy.fut (e_task x') with
      | FutureIntoPy.Set_ o =>
          replicate (FutureIntoPy.sets (e_task x') - FutureIntoPy.sets (e_task x)) (Atomic.LDeliver id o)
      | _ => []
      end
  | _, _ => []
  end.

Definition dropped_by (id : nat) (t : T) (s : state) : list label :=
  match calls s !! id with
  | Some (mk_entry _ k) =>
      match FutureIntoPy.tk k, FutureIntoPy.tx k with
      | FutureIntoPy.Selecting, FutureIntoPy.Held => []
      | FutureIntoPy.Selecting, _ => [Atomic.LDrop id (if holds id (part s) then Some t else None)]
      | _, _ => []
      end
  | None => []
  end.

Definition labels_of (e : event) (s : state) : list label :=
  match e with
  | Invoke id c => match calls s !! id with None => [Atomic.LInvoke id c] | Some _ => [] end
  | Poll id _ t _ => dropped_by id t s ++ given_to id s (exec e s)
  | OnLoop id _ => given_to id s (exec e s)
  | Now c g => [Atomic.LNow c g (Part.now c g (part s)).2]
  | Take er => [Atomic.LTake er (Part.take er (part s)).2]
  end.
Fixpoint labels (es : list event) (s : state) : list label :=
  match es with [] => [] | e :: es => labels_of e s ++ labels es (exec e s) end.

(** *** The atomic object a state stands for *)
Definition open_call (ans : list (nat * PyResult A)) (id : nat) (x : entry) : option call :=
  match FutureIntoPy.tk (e_task x), answer_of id ans with
  | FutureIntoPy.Selecting, None => Some (e_call x)
  | _, _ => None
  end.
Definition open_answer (ans : list (nat * PyResult A)) (id : nat) (x : entry) : option (PyResult A) :=
  match FutureIntoPy.tk (e_task x), FutureIntoPy.fut (e_task x) with
  | FutureIntoPy.ReturnedEarly, _ | _, FutureIntoPy.Set_ _ => None
  | _, _ => answer_of id ans
  end.
Definition view (v : option T) (ans : list (nat * PyResult A)) (cs : gmap nat entry) : Atomic.spec :=
  Atomic.mk_spec v (map_imap (open_call ans) cs) (map_imap (open_answer ans) cs) (dom cs).
Definition abs (s : state) : Atomic.spec := view (Part.value (part s)) (Part.answers (part s)) (calls s).

Lemma answer_of_app id ans j x :
  answer_of id (ans ++ [(j, x)]) =
    match answer_of id ans with Some r => Some r | None => if decide (j = id) then Some x else None end.
Proof.
  unfold answer_of. induction ans as [|[i r] ans IH]; cbn.
  - destruct (Nat.eqb_spec j id); [by rewrite decide_True|by rewrite decide_False].
  - destruct (Nat.eqb i id); [done|apply IH].
Qed.

(** A call in progress, and not answered. *)
Definition active (ans : list (nat * PyResult A)) (cs : gmap nat entry) (id : nat) (c : call) : Prop :=
  exists k, cs !! id = Some (mk_entry c k) /\ FutureIntoPy.tk k = FutureIntoPy.Selecting /\
    (forall o, FutureIntoPy.fut k <> FutureIntoPy.Set_ o) /\ answer_of id ans = None.

Lemma active_open ans cs id c v : active ans cs id c -> Atomic.invoked (view v ans cs) !! id = Some c.
Proof.
  intros (k & Hk & Ht & _ & Ha). cbn. rewrite map_lookup_imap, Hk. cbn. unfold open_call. cbn. by rewrite Ht, Ha.
Qed.

Lemma active_other ans cs id c j x : active ans cs id c -> j <> id -> active (ans ++ [(j, x)]) cs id c.
Proof.
  intros (k & Hk & Ht & Hf & Ha) Hn. exists k. split_and!; try done. by rewrite answer_of_app, Ha, decide_False.
Qed.

(** An answer the part gives is an effect of the object. *)
Lemma view_answer v ans cs id c x :
  active ans cs id c ->
  view v (ans ++ [(id, x)]) cs =
    Atomic.mk_spec v (delete id (map_imap (open_call ans) cs)) (<[id := x]> (map_imap (open_answer ans) cs)) (dom cs).
Proof.
  intros (k & Hk & Ht & Hf & Ha). unfold view. f_equal; apply map_eq; intros j; rewrite map_lookup_imap.
  - rewrite lookup_delete. case_decide as Hj.
    + subst j. rewrite Hk. cbn. unfold open_call. cbn. by rewrite Ht, answer_of_app, Ha, decide_True.
    + rewrite map_lookup_imap. destruct (cs !! j); [|done]. cbn. unfold open_call.
      rewrite answer_of_app. rewrite decide_False by done. by destruct (answer_of j ans).
  - rewrite lookup_insert. case_decide as Hj.
    + subst j. rewrite Hk. cbn. unfold open_answer. cbn. rewrite Ht, answer_of_app, Ha, decide_True by done.
      destruct (FutureIntoPy.fut k) eqn:E; [done..|]. by destruct (Hf r).
    + rewrite map_lookup_imap. destruct (cs !! j); [|done]. cbn. unfold open_answer.
      rewrite answer_of_app. rewrite decide_False by done. by destruct (answer_of j ans).
Qed.

Lemma view_effect ans cs id c t t' x :
  active ans cs id c -> Part.c_run c t = (t', x) ->
  atrace (view (Some t) ans cs) [] (view t' (ans ++ [(id, x)]) cs).
Proof.
  intros Ha Hr. rewrite (view_answer _ _ _ _ _ _ Ha). apply Atomic.atrace_tau.
  eapply Atomic.Effect; [by apply (active_open _ _ _ _ None)|done].
Qed.

Lemma view_gone ans cs w :
  NoDup w.*1 -> Forall (fun x => active ans cs x.1 x.2) w ->
  atrace (view None ans cs) [] (view None (ans ++ map (fun x => (x.1, Part.c_gone x.2)) w) cs).
Proof.
  revert ans. induction w as [|[id c] w IH]; intros ans Hn Hw; cbn; [rewrite app_nil_r; constructor|].
  cbn in Hn. apply NoDup_cons in Hn as [Hid Hn]. apply Forall_cons in Hw as [Ha Hw]. cbn in Ha.
  change ((id, Part.c_gone c) :: map (fun x => (x.1, Part.c_gone x.2)) w)
    with ([(id, Part.c_gone c)] ++ map (fun x : nat * call => (x.1, Part.c_gone x.2)) w).
  rewrite app_assoc. eapply (Atomic.atrace_app _ _ [] _ []); [|apply IH; [done|]].
  - rewrite (view_answer _ _ _ _ _ _ Ha). apply Atomic.atrace_tau. apply Atomic.Gone.
    by apply (active_open _ _ _ _ None).
  - rewrite Forall_forall in *. intros [j cj] Hj. apply active_other; [by apply (Hw (j, cj))|]. cbn. intros <-.
    apply Hid. apply list_elem_of_fmap. by exists (id, cj).
Qed.

(** *** The calls the part works for are calls made *)
Definition in_progress (p : pstate) : list (nat * call) :=
  match Part.owner p with Some o => o :: Part.waiting p | None => Part.waiting p end.
Definition called (s : state) : Prop :=
  forall id c, (id, c) ∈ in_progress (part s) -> exists k, calls s !! id = Some (mk_entry c k).

Lemma in_progress_pending (p : pstate) : (in_progress p).*1 = Part.pending p.
Proof. unfold in_progress, Part.pending. by destruct (Part.owner p). Qed.

Lemma in_progress_release t (p : pstate) x : x ∈ in_progress (Part.release t p) -> x ∈ Part.waiting p.
Proof.
  unfold Part.release, in_progress. destruct t; cbn; [|by intros ?%elem_of_nil]. by destruct (Part.waiting p).
Qed.

Lemma in_progress_step e (p : pstate) x :
  x ∈ in_progress (Part.step e p) -> x ∈ in_progress p \/ exists id c, e = Part.Begin id c /\ x = (id, c).
Proof.
  assert (forall y, y ∈ Part.waiting p -> y ∈ in_progress p) as Hw.
  { intros y Hy. unfold in_progress. destruct (Part.owner p); [by apply elem_of_cons; right|done]. }
  destruct e as [id c| |id t|c g|er]; cbn.
  - unfold Part.begin, in_progress. cbn. destruct (Part.owner p) as [o|] eqn:Eo; cbn.
    + rewrite !elem_of_cons, elem_of_app, list_elem_of_singleton. naive_solver.
    + destruct (Part.value p); cbn; rewrite ?Eo, ?elem_of_cons; naive_solver.
  - unfold Part.complete. destruct (Part.owner p) as [[id c]|] eqn:Eo; [|by left].
    destruct (Part.value p) as [v|]; [|by left]. destruct (Part.c_run c v).
    intros Hx%in_progress_release. cbn in Hx. auto.
  - unfold Part.cancel. destruct (Part.owner p) as [[o c]|] eqn:Eo; [|by left]. case_decide.
    + intros Hx%in_progress_release. auto.
    + unfold in_progress. cbn. rewrite Eo, !elem_of_cons, list_elem_of_filter. naive_solver.
  - unfold Part.now. repeat case_match; cbn; auto.
  - unfold Part.take. repeat case_match; cbn; auto.
Qed.

Lemma called_part p s :
  called s -> (forall id c, (id, c) ∈ in_progress p -> (id, c) ∈ in_progress (part s)) -> called (mk_state p (calls s)).
Proof. intros Hc Hp id c Hx. cbn in *. by apply Hc, Hp. Qed.

Lemma in_progress_inner id c ended (p : pstate) x :
  x ∈ in_progress (go_on id ended (ask id c p)) -> x ∈ in_progress p \/ x = (id, c).
Proof.
  assert (x ∈ in_progress (ask id c p) -> x ∈ in_progress p \/ x = (id, c)) as Ha.
  { unfold ask. case_decide; [by left|]. intros [?|(i & y & [= -> ->] & ->)]%(in_progress_step (Part.Begin id c)); auto. }
  unfold go_on. case_match; [|done]. intros [?|(i & y & ? & _)]%(in_progress_step Part.Complete); [auto|done].
Qed.

Lemma called_insert p id c k k' s :
  called s -> calls s !! id = Some (mk_entry c k) ->
  (forall x, x ∈ in_progress p -> x ∈ in_progress (part s) \/ x = (id, c)) ->
  called (mk_state p (<[id := mk_entry c k']> (calls s))).
Proof.
  intros Hc Hk Hp j cj Hx. cbn in *. rewrite lookup_insert. case_decide as Hj; [subst j|].
  - destruct (Hp _ Hx) as [Hin|[= ->]]; [|by eauto]. destruct (Hc _ _ Hin) as [k0 Hk0].
    rewrite Hk in Hk0. injection Hk0 as <- <-. by eauto.
  - destruct (Hp _ Hx) as [Hin|[= -> ->]]; [by apply Hc|done].
Qed.

Lemma called_exec e s : called s -> called (exec e s).
Proof.
  intros Hc. destruct e as [id c|id ended t lo|id e|c g|er]; cbn.
  - unfold invoke. destruct (calls s !! id) eqn:Ei; [done|]. intros j cj Hx. cbn in *.
    destruct (Hc j cj Hx) as [k Hk]. exists k. rewrite lookup_insert_ne by congruence. done.
  - unfold poll. destruct (calls s !! id) as [[c k]|] eqn:Ei; [|done].
    destruct (FutureIntoPy.tk k); [|done..]. destruct (FutureIntoPy.tx k).
    + eapply called_insert; [done..|]. apply in_progress_inner.
    + eapply called_insert; [done..|]. intros x [?|(i & y & ? & _)]%(in_progress_step (Part.Cancel id t)); [auto|done].
    + eapply called_insert; [done..|]. intros x [?|(i & y & ? & _)]%(in_progress_step (Part.Cancel id t)); [auto|done].
  - intros j cj Hx. cbn in *. destruct (Hc j cj Hx) as [k Hk]. rewrite lookup_alter. case_decide; [subst j|by eauto].
    rewrite Hk. by eexists.
  - apply called_part; [done|]. by intros i x [?|(? & ? & ? & _)]%(in_progress_step (Part.Now c g)).
  - apply called_part; [done|]. by intros i x [?|(? & ? & ? & _)]%(in_progress_step (Part.Take er)).
Qed.

Lemma not_answered (p : pstate) id : id ∉ (Part.answers p).*1 -> answer_of id (Part.answers p) = None.
Proof.
  intros Hn. destruct (answer_of id (Part.answers p)) as [r|] eqn:E; [|done]. exfalso. apply Hn.
  apply answer_of_some in E. apply list_elem_of_fmap. by exists (id, r).
Qed.

Lemma selecting_unset (k : task) o :
  FutureIntoPy.reachable into_py k -> FutureIntoPy.tk k = FutureIntoPy.Selecting -> FutureIntoPy.fut k <> FutureIntoPy.Set_ o.
Proof. intros Hr Ht Ho. destruct (FutureIntoPy.delivered_once into_py k o Hr Ho) as (_ & r & Hr' & _). congruence. Qed.

Lemma in_progress_active s id c :
  inv s -> called s -> (id, c) ∈ in_progress (part s) -> active (Part.answers (part s)) (calls s) id c.
Proof.
  intros [Ha Hk He] Hc Hx. destruct (Hc id c Hx) as [k Hk']. exists k.
  assert (id ∈ Part.pending (part s)) as Hp.
  { rewrite <- in_progress_pending. apply list_elem_of_fmap. by exists (id, c). }
  pose proof (He id _ Hk') as [Hr _ Hsel _]. cbn in *. specialize (Hsel Hp). split_and!; [done..| |].
  - intros o. by apply selecting_unset.
  - apply not_answered. pose proof (accounted_nodup _ Ha) as Hn. apply NoDup_app in Hn as (_ & Hn & _).
    intros Hi. by apply (Hn id Hi).
Qed.
(** *** A call whose task still selects is answered only when the part is gone *)
Definition unanswered (s : state) : Prop :=
  forall id c k r, calls s !! id = Some (mk_entry c k) -> FutureIntoPy.tk k = FutureIntoPy.Selecting ->
    (id, r) ∈ Part.answers (part s) -> Part.value (part s) = None.

Lemma gone_step e (p : pstate) : Part.inv p -> Part.value p = None -> Part.value (Part.step e p) = None.
Proof. intros Hi Hv. apply (Part.taken_step e p Hi Hv). Qed.

Lemma answers_inner id c ended (p : pstate) j r :
  accounted p -> (id ∈ Part.started p -> id ∈ tally p) -> let q := go_on id ended (ask id c p) in
  (Part.value p = None -> Part.value q = None) /\
  ((j, r) ∈ Part.answers q -> (j, r) ∈ Part.answers p \/ j = id \/ Part.value q = None).
Proof.
  intros Ha Ht. destruct (ask_spec id c p Ha Ht) as (Ha1 & _).
  assert ((Part.value p = None -> Part.value (ask id c p) = None) /\
    ((j, r) ∈ Part.answers (ask id c p) -> (j, r) ∈ Part.answers p \/ j = id)) as [Hv1 Hr1].
  { unfold ask. case_decide; [auto|]. split; [apply (gone_step (Part.Begin id c)), Ha|].
    unfold Part.begin. cbn. repeat case_match; cbn; [auto..|].
    rewrite elem_of_app, list_elem_of_singleton. intros [?|[= -> _]]; auto. }
  unfold go_on. destruct (ended && holds id (ask id c p)) eqn:Eh; [|naive_solver].
  apply andb_true_iff in Eh as [_ Eh]. split; [intros Hv; apply (gone_step Part.Complete); [apply Ha1|auto]|].
  unfold Part.complete. unfold holds in Eh. destruct (Part.owner (ask id c p)) as [[o x]|]; [|done].
  apply Nat.eqb_eq in Eh as ->. destruct (Part.value (ask id c p)) as [v|]; [|naive_solver].
  destruct (Part.c_run x v) as [[v'|] y]; unfold Part.release; cbn; [|by auto].
  destruct (Part.waiting (ask id c p)); cbn; rewrite elem_of_app, list_elem_of_singleton; naive_solver.
Qed.

Lemma now_answers c g (p : pstate) :
  Part.answers (Part.now c g p).1 = Part.answers p /\ (Part.value p = None -> Part.value (Part.now c g p).1 = None).
Proof. unfold Part.now. repeat case_match; by simplify_eq/=. Qed.

Lemma take_answers er (p : pstate) :
  Part.answers (Part.take er p).1 = Part.answers p /\ (Part.value p = None -> Part.value (Part.take er p).1 = None).
Proof. unfold Part.take. repeat case_match; by simplify_eq/=. Qed.

Lemma unanswered_exec e s : inv s -> unanswered s -> unanswered (exec e s).
Proof.
  intros Hs Hu. pose proof Hs as [Ha Hkn He]. destruct e as [id c|id ended t lo|id e|c g|er]; intros j cj kj r Hj Ht Hr; cbn in *.
  - unfold invoke in *. destruct (calls s !! id) eqn:Ei; [by eapply Hu|]. cbn in *.
    rewrite lookup_insert in Hj. case_decide; [|by eapply Hu]. subst j.
    destruct (Hkn id) as [x Hx]; [by eapply answered_started|congruence].
  - unfold poll in *. destruct (calls s !! id) as [[c k]|] eqn:Ei; [|by eapply Hu].
    destruct (FutureIntoPy.tk k) eqn:Ek; [|by eapply Hu..].
    pose proof (He id _ Ei) as [_ _ _ H4]. cbn in H4.
    destruct (FutureIntoPy.tx k) eqn:Ex; cbn in *; rewrite lookup_insert in Hj.
    + destruct (answers_inner id c ended (part s) j r Ha (H4 Ek)) as [Hv Hi].
      destruct (Hi Hr) as [Hin|[->|?]]; [..|done].
      * case_decide; [subst j; injection Hj as <- <-|]; eauto.
      * rewrite decide_True in Hj by done. injection Hj as <- <-. exfalso.
        destruct (answer_of_elem id (Part.answers (go_on id ended (ask id c (part s))))) as [y Hy];
          [apply list_elem_of_fmap; by exists (id, r)|].
        rewrite Hy in Ht. unfold FutureIntoPy.select_poll in Ht. by rewrite Ek, Ex in Ht.
    + destruct (pending_cancel id t _ (acc_inv _ Ha) (accounted_pending _ Ha)) as (_ & E & _). rewrite E in Hr.
      case_decide; [|apply (gone_step (Part.Cancel id t)); [apply Ha|by eapply Hu]].
      injection Hj as <- <-. unfold FutureIntoPy.select_poll in Ht. by rewrite Ek, Ex in Ht.
    + destruct (pending_cancel id t _ (acc_inv _ Ha) (accounted_pending _ Ha)) as (_ & E & _). rewrite E in Hr.
      case_decide; [|apply (gone_step (Part.Cancel id t)); [apply Ha|by eapply Hu]].
      injection Hj as <- <-. unfold FutureIntoPy.select_poll in Ht. by rewrite Ek, Ex in Ht.
  - rewrite lookup_alter in Hj. case_decide; [subst j|by eapply Hu].
    apply fmap_Some in Hj as ([c0 k0] & Hx & [= -> ->]). pose proof (He id _ Hx) as [H1 _ _ _]. cbn in *.
    rewrite (proj2 (py_exec_ok e k0 H1)) in Ht. by eapply Hu.
  - destruct (now_answers c g (part s)) as [E1 E2]. rewrite E1 in Hr. by eapply E2, Hu.
  - destruct (take_answers er (part s)) as [E1 E2]. rewrite E1 in Hr. by eapply E2, Hu.
Qed.

(** *** Each step is a run of the object with the same labels *)
Lemma ask_inv id c k s :
  inv s -> called s -> calls s !! id = Some (mk_entry c k) -> FutureIntoPy.tk k = FutureIntoPy.Selecting ->
  inv (mk_state (ask id c (part s)) (calls s)) /\ called (mk_state (ask id c (part s)) (calls s)).
Proof.
  intros [Ha Hkn He] Hc Hk Ht. pose proof (He id _ Hk) as [H1 H2 H3 H4]. cbn [e_task] in *.
  destruct (ask_spec id c (part s) Ha (H4 Ht)) as (Ha' & Hg & Hta & Hst & _). split; [split; cbn|].
  - done.
  - intros j [->|Hj]%Hst; [by eauto|by apply Hkn].
  - intros j y Hy. destruct (decide (j = id)) as [->|Hn]; [|eapply entry_ok_grows; [by apply He|auto]].
    rewrite Hk in Hy. injection Hy as <-. split; cbn; [done|by rewrite Ht|done|done].
  - intros j cj Hx. cbn in *. unfold ask in Hx. case_decide; [by apply Hc|].
    apply (in_progress_step (Part.Begin id c)) in Hx as [?|(i & y & [= <- <-] & [= -> ->])]; [by apply Hc|by eauto].
Qed.

Lemma ask_trace id c k s :
  inv s -> calls s !! id = Some (mk_entry c k) -> FutureIntoPy.tk k = FutureIntoPy.Selecting ->
  atrace (abs s) [] (abs (mk_state (ask id c (part s)) (calls s))).
Proof.
  intros [Ha Hkn He] Hk Ht. unfold ask. case_decide as Hd; [constructor|].
  unfold abs, Part.begin. cbn. destruct (Part.owner (part s)) eqn:Eo; cbn; [constructor|].
  destruct (Part.value (part s)) eqn:Ev; cbn; rewrite ?Ev; [constructor|].
  apply (view_gone _ _ [(id, c)]); [apply NoDup_singleton|]. constructor; [|constructor]. exists k.
  pose proof (He id _ Hk) as [Hr _ _ _]. split_and!; [done..| |].
  - intros o. by apply selecting_unset.
  - apply not_answered. intros ([i r] & Hi & Hin)%list_elem_of_fmap. cbn in Hi. subst i. apply Hd. by eapply answered_started.
Qed.

Lemma complete_trace s :
  inv s -> called s -> atrace (abs s) [] (abs (mk_state (Part.complete (part s)) (calls s))).
Proof.
  intros Hs Hc. unfold abs, Part.complete. cbn. destruct (Part.owner (part s)) as [[id c]|] eqn:Eo; [|constructor].
  destruct (Part.value (part s)) as [t|] eqn:Ev; [|rewrite Ev; constructor].
  destruct (Part.c_run c t) as [t' x] eqn:Er.
  assert (forall j cj, (j, cj) ∈ (id, c) :: Part.waiting (part s) -> active (Part.answers (part s)) (calls s) j cj) as Hact.
  { intros j cj Hj. apply in_progress_active; [done..|]. unfold in_progress. by rewrite Eo. }
  eapply (Atomic.atrace_app _ _ [] _ []); [eapply view_effect; [apply Hact; by left|exact Er]|].
  unfold Part.release. cbn. destruct t' as [t'|]; [destruct (Part.waiting (part s)); constructor|]. cbn.
  pose proof (accounted_pending _ (inv_part s Hs)) as Hn. rewrite <- in_progress_pending in Hn.
  unfold in_progress in Hn. rewrite Eo in Hn. cbn in Hn. apply NoDup_cons in Hn as [Hi Hn].
  apply view_gone; [done|]. apply Forall_forall. intros [j cj] Hj. apply active_other; [apply Hact; by right|].
  cbn. intros <-. apply Hi. apply list_elem_of_fmap. by exists (id, cj).
Qed.

Lemma go_on_trace id ended s :
  inv s -> called s -> atrace (abs s) [] (abs (mk_state (go_on id ended (part s)) (calls s))).
Proof. intros Hs Hc. unfold go_on. case_match; [by apply complete_trace|constructor]. Qed.

(** The task's own state changes with its answer. *)
Lemma view_select v ans cs id c k lo :
  cs !! id = Some (mk_entry c k) -> FutureIntoPy.tk k = FutureIntoPy.Selecting ->
  FutureIntoPy.tx k = FutureIntoPy.Held ->
  view v ans (<[id := mk_entry c (FutureIntoPy.select_poll into_py (answer_of id ans) lo k)]> cs) = view v ans cs.
Proof.
  intros Hk Ht Hx. unfold view. f_equal; [apply map_eq; intros j..|].
  - rewrite !map_lookup_imap, lookup_insert. case_decide as Hj; [subst j|done]. rewrite Hk. cbn.
    unfold open_call, FutureIntoPy.select_poll. cbn. rewrite Ht, Hx. destruct (answer_of id ans); cbn; by rewrite ?Ht.
  - rewrite !map_lookup_imap, lookup_insert. case_decide as Hj; [subst j|done]. rewrite Hk. cbn.
    unfold open_answer, FutureIntoPy.select_poll. cbn. rewrite Ht, Hx. destruct (answer_of id ans); cbn; by rewrite ?Ht.
  - apply dom_insert_lookup_L. by rewrite Hk.
Qed.

Lemma view_forget v ans cs id c k k' :
  cs !! id = Some (mk_entry c k) -> FutureIntoPy.tk k' = FutureIntoPy.ReturnedEarly ->
  view v ans (<[id := mk_entry c k']> cs) =
    Atomic.mk_spec v (delete id (map_imap (open_call ans) cs)) (delete id (map_imap (open_answer ans) cs)) (dom cs).
Proof.
  intros Hk Ht. unfold view. f_equal; [apply map_eq; intros j..|].
  - rewrite map_lookup_imap, lookup_insert, lookup_delete, map_lookup_imap. case_decide; [|done].
    cbn. unfold open_call. cbn. by rewrite Ht.
  - rewrite map_lookup_imap, lookup_insert, lookup_delete, map_lookup_imap. case_decide; [|done].
    cbn. unfold open_answer. cbn. by rewrite Ht.
  - apply dom_insert_lookup_L. by rewrite Hk.
Qed.

Lemma drop_trace id c k t lo s :
  inv s -> called s -> unanswered s -> calls s !! id = Some (mk_entry c k) -> FutureIntoPy.tk k = FutureIntoPy.Selecting ->
  FutureIntoPy.tx k <> FutureIntoPy.Held ->
  atrace (abs s) [Atomic.LDrop id (if holds id (part s) then Some t else None)]
    (abs (mk_state (Part.cancel id t (part s))
       (<[id := mk_entry c (FutureIntoPy.select_poll into_py None lo k)]> (calls s)))).
Proof.
  intros Hs Hc Hu Hk Ht Hx. apply Atomic.atrace_one. unfold abs. cbn.
  pose proof (inv_part s Hs) as Ha.
  assert (Part.value (part s) = None \/ map_imap (open_answer (Part.answers (part s))) (calls s) !! id = None) as Hn.
  { destruct (answer_of id (Part.answers (part s))) as [r|] eqn:Er; [left; by eapply Hu, answer_of_some|right].
    rewrite map_lookup_imap, Hk. cbn. unfold open_answer. cbn. rewrite Ht, Er. by destruct (FutureIntoPy.fut k). }
  destruct (pending_cancel id t _ (acc_inv _ Ha) (accounted_pending _ Ha)) as (_ & -> & _).
  rewrite (view_forget _ _ _ _ _ k) by (done || (unfold FutureIntoPy.select_poll; rewrite Ht; by destruct (FutureIntoPy.tx k))).
  unfold holds, Part.cancel. destruct (Part.owner (part s)) as [[o x]|] eqn:Eo; [|by apply Atomic.Withdraw].
  case_decide as Hd; [subst o|rewrite (proj2 (Nat.eqb_neq o id) Hd); by apply Atomic.Withdraw].
  rewrite Nat.eqb_refl. destruct (Part.value (part s)) as [v|] eqn:Ev; [|by rewrite (Part.inv_taken _ (acc_inv _ Ha) Ev) in Eo].
  replace (Part.value (Part.release (Some t) (part s))) with (Some t) by (unfold Part.release; by destruct (Part.waiting (part s))).
  apply (Atomic.Abandon _ id x). apply (active_open _ _ _ _ None). apply in_progress_active; [done..|].
  unfold in_progress. rewrite Eo. by left.
Qed.
(** A step that leaves an answer as open as it was gives nothing out. *)
Lemma given_none id s s' x x' :
  calls s !! id = Some x -> calls s' !! id = Some x' ->
  FutureIntoPy.sets (e_task x') = FutureIntoPy.sets (e_task x) -> given_to id s s' = [].
Proof.
  intros Hx Hx' He. unfold given_to. rewrite Hx, Hx', He, Nat.sub_diag. by destruct (FutureIntoPy.fut _).
Qed.

Lemma py_exec_shape e (k : task) :
  (FutureIntoPy.sets (py_exec e k) = FutureIntoPy.sets k /\
   forall ans id c, open_answer ans id (mk_entry c (py_exec e k)) = open_answer ans id (mk_entry c k)) \/
  (exists o rest, FutureIntoPy.posted k = o :: rest /\ FutureIntoPy.fut (py_exec e k) = FutureIntoPy.Set_ o /\
   FutureIntoPy.fut k = FutureIntoPy.Pending /\ FutureIntoPy.sets (py_exec e k) = S (FutureIntoPy.sets k)).
Proof.
  unfold open_answer. destruct e; cbn.
  - left. destruct (FutureIntoPy.fut k) eqn:E; cbn; rewrite ?E; [|done..]. split; [done|]. intros.
    by destruct (FutureIntoPy.tk k).
  - left. unfold FutureIntoPy.on_cancel. destruct (FutureIntoPy.cancelled _); [|done]. by destruct (FutureIntoPy.tx k).
  - left. by destruct (FutureIntoPy.tx k).
  - unfold FutureIntoPy.complete. destruct (FutureIntoPy.posted k) as [|o rest]; [by left|].
    destruct (FutureIntoPy.fut k) eqn:E; cbn; rewrite ?E; [right; by exists o, rest|by left..].
Qed.

Lemma view_alter v ans cs id (f : entry -> entry) :
  (forall x, cs !! id = Some x -> open_call ans id (f x) = open_call ans id x /\ open_answer ans id (f x) = open_answer ans id x) ->
  view v ans (alter f id cs) = view v ans cs.
Proof.
  intros Hf. unfold view. f_equal; [apply map_eq; intros j..|apply dom_alter_L];
    rewrite !map_lookup_imap, lookup_alter; (case_decide as Hj; [subst j|done]);
    (destruct (cs !! id) as [x|] eqn:E; [|done]); cbn; by apply Hf.
Qed.

Lemma on_loop_trace id e s :
  inv s -> atrace (abs s) (given_to id s (exec (OnLoop id e) s)) (abs (exec (OnLoop id e) s)).
Proof.
  intros [Ha Hkn He]. destruct (calls s !! id) as [[c k]|] eqn:Hk; cycle 1.
  { unfold given_to. rewrite Hk. unfold abs. cbn. rewrite view_alter; [constructor|]. intros x. by rewrite Hk. }
  assert (calls (exec (OnLoop id e) s) !! id = Some (mk_entry c (py_exec e k))) as Hk'
    by (cbn; by rewrite lookup_alter_eq, Hk).
  pose proof (He id _ Hk) as [Hr Hsel _ _]. cbn [e_task] in *.
  destruct (py_exec_ok e k Hr) as [_ Htk]. destruct (py_exec_shape e k) as [[Hn Ho]|(o & rest & Hp & Hf' & Hf & Hn)].
  - rewrite (given_none _ _ _ _ _ Hk Hk') by done. unfold abs. cbn. rewrite view_alter; [constructor|].
    intros x. rewrite Hk. intros [= <-]. split; [|apply Ho]. unfold open_call. cbn. by rewrite Htk.
  - unfold given_to. rewrite Hk, Hk'. cbn [e_task]. rewrite Hf', Hn, Nat.sub_succ_l, Nat.sub_diag by lia. cbn [replicate].
    destruct (FutureIntoPy.posted_selected into_py k o rest Hr Hp) as (r & Hs & ->).
    specialize (Hsel r Hs). apply Atomic.atrace_one. unfold abs. cbn.
    assert (answer_of id (Part.answers (part s)) = Some r) as Hans.
    { destruct (answer_of_elem id (Part.answers (part s))) as [r' Hr']; [apply list_elem_of_fmap; by exists (id, r)|].
      rewrite Hr'. f_equal. apply answer_of_some in Hr'. by eapply answer_unique. }
    assert (view (Part.value (part s)) (Part.answers (part s))
      (alter (fun x => mk_entry (e_call x) (py_exec e (e_task x))) id (calls s)) =
      Atomic.mk_spec (Part.value (part s)) (map_imap (open_call (Part.answers (part s))) (calls s))
        (delete id (map_imap (open_answer (Part.answers (part s))) (calls s))) (dom (calls s))) as ->.
    { unfold view. f_equal; [apply map_eq; intros j..|apply dom_alter_L];
        rewrite ?lookup_delete, !map_lookup_imap, lookup_alter; (case_decide as Hj; [subst j|done]); rewrite Hk; cbn.
      - unfold open_call. cbn. by rewrite Htk.
      - unfold open_answer. cbn. rewrite Hf'. by destruct (FutureIntoPy.tk _). }
    apply Atomic.Deliver. rewrite map_lookup_imap, Hk. cbn. unfold open_answer. cbn. by rewrite Hs, Hf.
Qed.

Lemma poll_trace id ended t lo s :
  inv s -> called s -> unanswered s -> let e := Poll id ended t lo in atrace (abs s) (labels_of e s) (abs (exec e s)).
Proof.
  intros Hs Hc Hu e. unfold e. cbn [labels_of exec].
  destruct (calls s !! id) as [[c k]|] eqn:Hk; cycle 1.
  { unfold dropped_by, given_to, poll. rewrite Hk. constructor. }
  assert (given_to id s (poll id ended t lo s) = []) as ->.
  { unfold poll. rewrite Hk. destruct (FutureIntoPy.tk k) eqn:Et; [|by eapply given_none..].
    destruct (FutureIntoPy.tx k) eqn:Ex; (eapply given_none; [done|cbn; by rewrite lookup_insert_eq|]);
      cbn; unfold FutureIntoPy.select_poll; rewrite Et, Ex; [|done..]. by case_match. }
  rewrite app_nil_r. unfold dropped_by, poll. rewrite Hk. destruct (FutureIntoPy.tk k) eqn:Et; [|constructor..].
  destruct (FutureIntoPy.tx k) eqn:Ex; [|apply drop_trace; done || congruence..].
  unfold inner_poll. destruct (ask_inv id c k s Hs Hc Hk Et) as [Hs' Hc'].
  eapply (Atomic.atrace_app _ _ [] _ []); [by eapply ask_trace|].
  eapply (Atomic.atrace_app _ _ [] _ []); [by apply (go_on_trace id ended)|].
  unfold abs. cbn. rewrite view_select by done. constructor.
Qed.

Lemma busy_open s o : inv s -> called s -> Part.owner (part s) = Some o -> Atomic.invoked (abs s) <> ∅.
Proof.
  intros Hs Hc Ho He. destruct o as [id c].
  assert (active (Part.answers (part s)) (calls s) id c) as Ha.
  { apply in_progress_active; [done..|]. unfold in_progress. rewrite Ho. by left. }
  apply (active_open _ _ _ _ (Part.value (part s))) in Ha. unfold abs in He. rewrite He in Ha.
  by rewrite lookup_empty in Ha.
Qed.

Lemma exec_trace e s : inv s -> called s -> unanswered s -> atrace (abs s) (labels_of e s) (abs (exec e s)).
Proof.
  intros Hs Hc Hu. destruct e as [id c|id ended t lo|id e|c g|er].
  - cbn. unfold invoke. destruct (calls s !! id) as [x|] eqn:Ei; [constructor|]. apply Atomic.atrace_one.
    assert (answer_of id (Part.answers (part s)) = None) as Hn.
    { apply not_answered. intros ([i r] & Hi & Hin)%list_elem_of_fmap. cbn in Hi. subst i.
      destruct (inv_known s Hs id) as [x Hx]; [eapply answered_started; [apply Hs|done]|congruence]. }
    replace (abs (mk_state (part s) (<[id := mk_entry c FutureIntoPy.init]> (calls s))))
      with (Atomic.mk_spec (Part.value (part s)) (<[id := c]> (Atomic.invoked (abs s))) (Atomic.answered (abs s))
        ({[id]} ∪ dom (calls s))).
    { apply Atomic.Invoke. by apply not_elem_of_dom. }
    unfold abs, view. cbn. f_equal; [apply map_eq; intros j..|by rewrite dom_insert_L];
      rewrite ?lookup_insert, !map_lookup_imap, ?lookup_insert; (case_decide as Hj; [subst j|done]);
      rewrite ?Ei; cbn; unfold open_call, open_answer; cbn; by rewrite Hn.
  - by apply poll_trace.
  - by apply on_loop_trace.
  - cbn. apply Atomic.atrace_one. unfold Part.now. destruct (Part.owner (part s)) as [o|] eqn:Eo.
    { apply (Atomic.ImmediateBusy _ c g (Part.value (part s))). exact (busy_open s _ Hs Hc Eo). }
    unfold abs. destruct (Part.value (part s)) as [v|] eqn:Ev; cbn; [|rewrite Ev; apply Atomic.ImmediateGone].
    destruct (Part.c_run c v) as [v' x] eqn:Er. cbn. by eapply Atomic.Immediate.
  - cbn. apply Atomic.atrace_one. unfold Part.take. destruct (Part.owner (part s)) as [o|] eqn:Eo.
    { apply (Atomic.TakeBusy _ er (Part.value (part s))). exact (busy_open s _ Hs Hc Eo). }
    unfold abs. destruct (Part.value (part s)) as [v|] eqn:Ev; cbn; [|rewrite Ev; apply Atomic.TakeGone].
    apply Atomic.TakeOut.
Qed.

Lemma run_trace es s : inv s -> called s -> unanswered s -> atrace (abs s) (labels es s) (abs (run es s)).
Proof.
  revert s. induction es as [|e es IH]; intros s Hs Hc Hu; [constructor|].
  eapply Atomic.atrace_app; [by apply exec_trace|].
  apply IH; [by apply exec_inv|by apply called_exec|by apply unanswered_exec].
Qed.

(** C5: what Python sees of a stream part, through futures, tasks, the mutex and
    the event loop, is what an atomic object shows.  Whatever calls, polls,
    cancellations and completions interleave, the run's labels in their order
    (each method called, each result given to a future, each call dropped, each
    call that never waits with its result, each take with its result) are the
    labels of a run of the atomic part that ends with the same part: every
    result is that of its own call, taking effect at one instant between the
    call and the result, on the part as the calls before it left it.  A result
    is given out at most once, and only for a call made. *)
Theorem awaited_refines_atomic es t :
  let l := labels es (init t) in
  (exists a, atrace (Atomic.start t) l a /\ Atomic.value a = Part.value (part (run es (init t)))) /\
  NoDup (Atomic.deliveries l) /\ (forall id, id ∈ Atomic.deliveries l -> id ∈ Atomic.invocations l).
Proof.
  intros l. assert (atrace (Atomic.start t) l (abs (run es (init t)))) as Ht.
  { change (Atomic.start t) with (abs (init t)) at 1. apply run_trace; [apply awaited_init_inv|by intros id c ?%elem_of_nil|].
    intros id c k r. cbn. by rewrite lookup_empty. }
  split; [by eexists|]. by eapply Atomic.spec_delivers_once.
Qed.

(** *** Cancellation *)
Lemma cancelled_exec e s id c k :
  calls s !! id = Some (mk_entry c k) -> FutureIntoPy.fut k = FutureIntoPy.Cancelled ->
  exists k', calls (exec e s) !! id = Some (mk_entry c k') /\ FutureIntoPy.fut k' = FutureIntoPy.Cancelled.
Proof.
  intros Hk Hc. assert (exists k', Some (mk_entry c k) = Some (mk_entry c k') /\ FutureIntoPy.fut k' = FutureIntoPy.Cancelled) as Hsame by eauto.
  destruct e as [i x|i ended t lo|i e|x g|er]; cbn; try by rewrite Hk.
  - unfold invoke. destruct (calls s !! i) eqn:Ei; [by rewrite Hk|]. cbn.
    rewrite lookup_insert_ne by congruence. by rewrite Hk.
  - unfold poll. destruct (calls s !! i) as [[x ki]|] eqn:Ei; [|by rewrite Hk].
    destruct (decide (i = id)) as [->|Hn].
    + rewrite Hk in Ei. injection Ei as <- <-.
      assert (forall ready, FutureIntoPy.fut (FutureIntoPy.select_poll into_py ready lo k) = FutureIntoPy.Cancelled) as Hp
        by (intros ready; unfold FutureIntoPy.select_poll; repeat case_match; done).
      repeat case_match; cbn; rewrite ?lookup_insert_eq, ?Hk; eauto.
    + repeat case_match; cbn; rewrite ?lookup_insert_ne, ?Hk by done; done.
  - rewrite lookup_alter. case_decide; [|by rewrite Hk]. subst i. rewrite Hk. cbn. eexists. split; [done|].
    destruct e; cbn; rewrite ?Hc; [done|..].
    + unfold FutureIntoPy.on_cancel. by repeat case_match.
    + by case_match.
    + unfold FutureIntoPy.complete. rewrite Hc. by case_match.
Qed.

Lemma cancelled_run es s id c k :
  calls s !! id = Some (mk_entry c k) -> FutureIntoPy.fut k = FutureIntoPy.Cancelled ->
  exists k', calls (run es s) !! id = Some (mk_entry c k') /\ FutureIntoPy.fut k' = FutureIntoPy.Cancelled.
Proof.
  revert s k. induction es as [|e es IH]; intros s k Hk Hc; [by eauto|].
  destruct (cancelled_exec e s id c k Hk Hc) as (k' & Hk' & Hc'). by apply (IH (exec e s) k').
Qed.

(** C6: a cancelled call gives the stream back.  The part is held and waited
    for only by tasks that still run; and when Python cancels a call it
    awaits, the task's next poll takes the call out of the queue, or out of the
    part it held, which passes to the next waiting call: no other call loses
    its place or is answered, a call that did not hold the part has left it as
    it was, and nothing is ever delivered for it. *)
Theorem cancel_gives_back es t id c k ended t' lo :
  let s := run es (init t) in
  calls s !! id = Some (mk_entry c k) ->
  FutureIntoPy.fut k = FutureIntoPy.Pending -> FutureIntoPy.tx k = FutureIntoPy.Held ->
  FutureIntoPy.tk k = FutureIntoPy.Selecting ->
  let s' := run [OnLoop id PyCancel; OnLoop id PyOnCancel; Poll id ended t' lo] s in
  (forall i, i ∈ Part.pending (part s) -> exists c k, calls s !! i = Some (mk_entry c k) /\
     FutureIntoPy.tk k = FutureIntoPy.Selecting) /\
  Part.pending (part s') = filter (fun i => i <> id) (Part.pending (part s)) /\
  Part.answers (part s') = Part.answers (part s) /\
  (holds id (part s) = false -> Part.value (part s') = Part.value (part s)) /\
  forall es', exists k', calls (run es' s') !! id = Some (mk_entry c k') /\
    FutureIntoPy.fut k' = FutureIntoPy.Cancelled.
Proof.
  intros s Hk Hf Ht Htk s'. pose proof (reached_inv es t) as Hs. fold s in Hs. destruct Hs as [Ha Hkn He].
  assert (part s' = Part.cancel id t' (part s) /\ exists k', calls s' !! id = Some (mk_entry c k') /\
    FutureIntoPy.fut k' = FutureIntoPy.Cancelled) as (Hp & k' & Hk' & Hc').
  { unfold s', run. cbn [foldl exec]. unfold poll. cbn [calls part]. rewrite !lookup_alter_eq, Hk. cbn.
    unfold FutureIntoPy.on_cancel. rewrite Hf. cbn. rewrite Ht. cbn. rewrite Htk. cbn.
    split; [done|]. eexists. rewrite lookup_insert_eq. done. }
  destruct (pending_cancel id t' _ (acc_inv _ Ha) (accounted_pending _ Ha)) as (E1 & E2 & _).
  rewrite Hp, E1, E2. split_and!; try done.
  - intros i Hi. destruct (Hkn i) as [[c0 k0] Hi0]; [by apply pending_started|].
    exists c0, k0. split; [done|]. by apply (ok_pending _ _ _ (He i _ Hi0)).
  - unfold holds, Part.cancel. destruct (Part.owner (part s)) as [[o x]|]; [|done].
    intros Ho%Nat.eqb_neq. by rewrite decide_False.
  - intros es'. by apply (cancelled_run es' s' id c k').
Qed.

(** *** Progress *)
Lemma holds_head (p : pstate) id :
  Part.inv p -> holds id p = match Part.pending p with i :: _ => Nat.eqb i id | [] => false end.
Proof.
  intros [Hf _ _]. unfold holds, Part.pending. destruct (Part.owner p) as [[o x]|]; [done|]. by rewrite Hf.
Qed.

Lemma complete_head (p : pstate) id l :
  Part.inv p -> Part.pending p = id :: l ->
  Part.pending (Part.complete p) = l \/ Part.pending (Part.complete p) = [].
Proof.
  intros Hi Hp. unfold Part.pending in Hp. unfold Part.complete.
  destruct (Part.owner p) as [[o x]|] eqn:Eo; [|by rewrite (Part.inv_free p Hi Eo) in Hp].
  injection Hp as -> Hl. destruct (Part.value p) as [v|] eqn:Ev; [|by rewrite (Part.inv_taken p Hi Ev) in Eo].
  destruct (Part.c_run x v) as [[v'|] r]; rewrite Part.pending_release; auto.
Qed.

(** A poll of the inner future of the first pending call, whose operation
    ended, or of a call answered already. *)
Lemma inner_poll_head (p : pstate) id c l q ready :
  accounted p -> id ∈ Part.started p -> id ∈ tally p ->
  Part.pending p = id :: l \/ Part.pending p = [] -> inner_poll id c true p = (q, ready) ->
  is_Some ready /\ (Part.pending q = l \/ Part.pending q = []).
Proof.
  intros Ha Hst Ht Hp Eq. destruct (inner_poll_spec id c true p q ready Ha (fun _ => Ht) Eq) as (_ & _ & _ & _ & _ & Hr).
  injection Eq as Eq _. unfold ask, go_on in Eq. rewrite decide_True in Eq by done. cbn [andb] in Eq.
  rewrite (holds_head p id (acc_inv p Ha)) in Eq.
  destruct Hp as [Hp|Hp]; rewrite Hp in Eq; rewrite ?Nat.eqb_refl in Eq; subst q.
  - pose proof (accounted_pending p Ha) as Hnd. rewrite Hp in Hnd. apply NoDup_cons in Hnd as [Hn _].
    destruct (complete_head p id l (acc_inv p Ha) Hp) as [E|E]; rewrite E in *; (split; [|by auto]);
      (destruct ready; [by eexists|]); destruct Hr as [Hr _]; [done|by apply elem_of_nil in Hr].
  - split; [|by right]. destruct ready; [by eexists|]. rewrite Hp in Hr. by destruct Hr as [?%elem_of_nil _].
Qed.

Lemma filter_ne_head (l : list nat) id :
  NoDup (id :: l) -> filter (fun i => i <> id) (id :: l) = l.
Proof.
  intros [Hn _]%NoDup_cons. rewrite filter_cons_False by tauto.
  induction l as [|x l IH]; [done|]. apply not_elem_of_cons in Hn as [? ?].
  rewrite filter_cons_True by done. f_equal. auto.
Qed.

Lemma poll_head s id c k l t :
  inv s -> calls s !! id = Some (mk_entry c k) -> FutureIntoPy.tk k = FutureIntoPy.Selecting ->
  id ∈ Part.started (part s) -> Part.pending (part s) = id :: l \/ Part.pending (part s) = [] ->
  let s' := poll id true t true s in
  (exists ready, calls s' = <[id := mk_entry c (FutureIntoPy.select_poll into_py ready true k)]> (calls s) /\
     (FutureIntoPy.tx k = FutureIntoPy.Held -> is_Some ready)) /\
  (Part.pending (part s') = l \/ Part.pending (part s') = []).
Proof.
  intros [Ha Hkn He] Hk Htk Hst Hp. pose proof (He id _ Hk) as [_ _ _ H4]. cbn [e_task] in H4. cbn zeta.
  assert (Part.pending (Part.cancel id t (part s)) = l \/ Part.pending (Part.cancel id t (part s)) = []) as Hc.
  { pose proof (accounted_pending _ Ha) as Hnd.
    destruct (pending_cancel id t _ (acc_inv _ Ha) Hnd) as (E1 & _ & _). rewrite E1.
    destruct Hp as [Hp|Hp]; rewrite Hp in *; [left; by apply filter_ne_head|by right]. }
  unfold poll. rewrite Hk, Htk. destruct (FutureIntoPy.tx k) eqn:Et; [|split; [|exact Hc]; by exists None..].
  destruct (inner_poll id c true (part s)) as [q ready] eqn:Eq.
  destruct (inner_poll_head _ _ _ l _ _ Ha Hst (H4 Htk Hst) Hp Eq) as [Hr Hq]. split; [|done].
  by exists ready.
Qed.

Definition polls (t : T) (l : list nat) : list event := map (fun id => Poll id true t true) l.

Lemma polls_others t l s id : id ∉ l -> calls (run (polls t l) s) !! id = calls s !! id.
Proof.
  revert s. induction l as [|i l IH]; intros s; [done|]. intros [Hn Hl]%not_elem_of_cons.
  change (run (polls t (i :: l)) s) with (run (polls t l) (poll i true t true s)).
  rewrite IH by done. unfold poll. destruct (calls s !! i) as [[c k]|]; [|done].
  repeat case_match; cbn; by rewrite ?lookup_insert_ne by done.
Qed.

Lemma polls_serve t l s :
  inv s -> NoDup l ->
  (forall id, id ∈ l -> id ∈ Part.started (part s) /\ exists c k, calls s !! id = Some (mk_entry c k) /\
     FutureIntoPy.tk k = FutureIntoPy.Selecting) ->
  Part.pending (part s) = l \/ Part.pending (part s) = [] ->
  let s' := run (polls t l) s in
  Part.pending (part s') = [] /\
  forall id c k, id ∈ l -> calls s !! id = Some (mk_entry c k) ->
    exists ready, calls s' !! id = Some (mk_entry c (FutureIntoPy.select_poll into_py ready true k)) /\
      (FutureIntoPy.tx k = FutureIntoPy.Held -> is_Some ready).
Proof.
  revert s. induction l as [|i l IH]; intros s Hs Hnd Hl Hp.
  { cbn. split; [by destruct Hp|]. by intros ? ? ? ?%elem_of_nil. }
  apply NoDup_cons in Hnd as [Hi Hnd].
  destruct (Hl i) as (Hst & c & k & Hk & Htk); [by left|].
  destruct (poll_head s i c k l t Hs Hk Htk Hst Hp) as [(ready & Ec & Hr) Hp'].
  change (run (polls t (i :: l)) s) with (run (polls t l) (poll i true t true s)).
  assert (forall j, j ∈ l -> calls (poll i true t true s) !! j = calls s !! j) as Hj.
  { intros j Hj. rewrite Ec. apply lookup_insert_ne. by intros ->. }
  destruct (IH (poll i true t true s)) as [H1 H2]; [by apply poll_inv|done| |done|].
  { intros j Hjl. destruct (Hl j) as (Hsj & cj & kj & Hkj & Htj); [by right|]. rewrite Hj by done.
    split; [|by eauto]. destruct (exec_part (Poll i true t true) s Hs) as [es Hes]. cbn in Hes. rewrite Hes.
    by apply run_started. }
  split; [done|]. intros j cj kj [->|Hjl]%elem_of_cons Hkj.
  - exists ready. rewrite polls_others by done. rewrite Ec, lookup_insert_eq. rewrite Hk in Hkj.
    by injection Hkj as <- <-.
  - apply H2; [done|]. by rewrite Hj.
Qed.

(** C7: every awaited call is served.  From every state reached, when the
    runtime polls the pending calls' tasks in turn, each once and with its
    native operation ended, none is left waiting; every call that was not
    cancelled has its own answer, and its future, if Python has not cancelled it
    meanwhile, is given that answer by the completion scheduled; and the task of
    a cancelled call has returned. *)
Theorem awaited_calls_served es t t' :
  let s := run es (init t) in
  let s' := run (polls t' (Part.pending (part s))) s in
  Part.pending (part s') = [] /\
  forall id c k, id ∈ Part.pending (part s) -> calls s !! id = Some (mk_entry c k) ->
    exists k', calls s' !! id = Some (mk_entry c k') /\
      match FutureIntoPy.tx k with
      | FutureIntoPy.Held =>
          exists r, (id, r) ∈ Part.answers (part s') /\ FutureIntoPy.tk k' = FutureIntoPy.Selected r /\
            (FutureIntoPy.fut k = FutureIntoPy.Pending ->
             FutureIntoPy.fut (FutureIntoPy.complete k') = FutureIntoPy.Set_ (r ≫= into_py))
      | _ => FutureIntoPy.tk k' = FutureIntoPy.ReturnedEarly
      end.
Proof.
  intros s s'. pose proof (reached_inv es t) as Hs. fold s in Hs. pose proof Hs as [Ha Hkn He].
  destruct (polls_serve t' (Part.pending (part s)) s Hs (accounted_pending _ Ha)) as [H1 H2]; [|by left|].
  { intros id Hid. pose proof (pending_started _ _ Ha Hid) as Hst. split; [done|].
    destruct (Hkn id Hst) as [[c k] Hk]. exists c, k. split; [done|]. by apply (ok_pending _ _ _ (He id _ Hk)). }
  split; [done|]. intros id c k Hid Hk. destruct (H2 id c k Hid Hk) as (ready & Hk' & Hr).
  fold s' in Hk'. exists (FutureIntoPy.select_poll into_py ready true k). split; [done|].
  pose proof (inv_entry s' (awaited_run_inv _ s Hs) id _ Hk') as [_ Hans _ _].
  pose proof (He id _ Hk) as [Hreach _ Hpend _]. cbn in *. specialize (Hpend Hid).
  pose proof (FutureIntoPy.selecting_fresh into_py k Hreach Hpend) as Hpost.
  unfold FutureIntoPy.select_poll in *. rewrite Hpend in *. destruct (FutureIntoPy.tx k); [|done..].
  destruct (Hr eq_refl) as [r ->]. exists r. split_and!; [by apply Hans|done|].
  intros Hf. unfold FutureIntoPy.complete. cbn. rewrite Hpost. cbn. by rewrite Hf.
Qed.
End awaited.

(** Two reads of a counter, the second waiting for the first. *)
Definition bump : Part.call (T:=nat) (A:=nat) := Part.mk_call (fun t => (Some (S t), Ok t)) (Ok 0%nat).
Definition two_reads : list (event (T:=nat) (A:=nat)) :=
  [Invoke 1 bump; Invoke 2 bump; Poll 1 false 0%nat true; Poll 2 false 0%nat true].
Definition reading : state (T:=nat) (A:=nat) (O:=nat) := run Ok two_reads (init 5%nat).

Lemma cancel_gives_back_witness :
  Part.pending (part reading) = [1; 2]%nat /\
  Part.pending (part (run Ok [OnLoop 1 PyCancel; OnLoop 1 PyOnCancel; Poll 1 false 7%nat true] reading)) = [2%nat].
Proof.
  split; [reflexivity|].
  exact (proj1 (proj2 (cancel_gives_back Ok two_reads 5%nat 1 bump FutureIntoPy.init false 7%nat true
    eq_refl eq_refl eq_refl eq_refl))).
Defined.
End Awaited.
