(* ===== verification/Buffers.v ===== *)
(** Buffers lent without a copy (src/src/lib.rs, "streams"): a received buffer
    that Python reads through [memoryview(chunk)] ([Chunk]), and a Python
    buffer that the native side sends from ([Lent], [lend]).  Each has an
    [unsafe] block; what makes them sound is who keeps whose memory alive, which
    is modelled here: memory, the values that hold it, and what Python and the
    native side may do meanwhile.  An object or an allocation goes when the last
    reference to it does, as the interpreter and the crate [bytes] document. *)
From S2P Require Import Prelude Errors.

(** No entry of [m] refers to [x]. *)
Definition unused {A} (key : A -> nat) (m : gmap nat A) (x : nat) : bool :=
  bool_decide (map_Forall (fun _ a => key a <> x) m).

Lemma unused_spec {A} (key : A -> nat) (m : gmap nat A) x :
  unused key m x = true <-> forall i a, m !! i = Some a -> key a <> x.
Proof. unfold unused. by rewrite bool_decide_eq_true. Qed.

Lemma unused_false {A} (key : A -> nat) (m : gmap nat A) x :
  unused key m x = false -> exists i a, m !! i = Some a /\ key a = x.
Proof.
  unfold unused. rewrite bool_decide_eq_false. intros (i & a & Hi & Ha)%map_not_Forall; [|apply _].
  exists i, a. split; [done|]. by destruct (decide (key a = x)).
Qed.

(** ** [Chunk]: native bytes that Python reads *)
Module ChunkView.

(** A [Bytes] value: a part of a shared allocation. *)
Record Bytes := mk_bytes { b_block : nat; b_off : nat; b_len : nat }.

(** A [Py_buffer] of a chunk: the object it keeps alive, the pointer and the
    length, whether it is read-only; [v_shown]: the bytes it was made of. *)
Record view := mk_view { v_obj : nat; v_block : nat; v_off : nat; v_len : nat; v_readonly : bool; v_shown : bytes }.

(** A [Chunk] object, with the handle it owns. *)
Record state := mk_state {
  blocks : gmap nat bytes;  (** the live allocations *)
  handles : gmap nat Bytes;  (** the live [Bytes] values, native ones and those of chunks *)
  chunks : gmap nat nat;  (** the live chunks and the handle each owns *)
  refs : gmap nat nat;  (** the references of Python to chunks *)
  views : gmap nat view;
}.
Definition init : state := mk_state ∅ ∅ ∅ ∅ ∅.

(** What memory holds at a pointer: [None] is a read out of live memory. *)
Definition read (s : state) (block off len : nat) : option bytes :=
  m ← blocks s !! block;
  if decide (off + len <= length m)%nat then Some (take len (drop off m)) else None.
Definition read_bytes (s : state) (b : Bytes) : option bytes := read s (b_block b) (b_off b) (b_len b).
Definition read_view (s : state) (v : view) : option bytes := read s (v_block v) (v_off v) (v_len v).

(** The drop of a [Bytes] value: the last one frees the allocation. *)
Definition drop_handle (h : nat) (s : state) : state :=
  match handles s !! h with
  | None => s
  | Some b =>
      let hs := delete h (handles s) in
      mk_state (if unused b_block hs (b_block b) then delete (b_block b) (blocks s) else blocks s)
        hs (chunks s) (refs s) (views s)
  end.

(** A chunk that nothing refers to any more is deallocated, with its handle. *)
Definition collect (c : nat) (s : state) : state :=
  match chunks s !! c with
  | Some h =>
      if unused (fun r => r) (refs s) c && unused v_obj (views s) c then
        drop_handle h (mk_state (blocks s) (handles s) (delete c (chunks s)) (refs s) (views s))
      else s
  | None => s
  end.

(** *** The binding *)
Definition PyBUF_WRITABLE : Z := 1.
Definition read_only_err : pyerr := new_err PyBufferError [Lit "the chunk is read-only"].

(** [Chunk::__getbuffer__] of chunk [c] for a view [v]; [fill]: what
    [PyBuffer_FillInfo] gives, which fills the view with the pointer, the length
    and the flag it is given, and takes a reference to the object. *)
Definition getbuffer (c v : nat) (flags : Z) (fill : PyResult unit) (s : state) : state * PyResult unit :=
  if negb (Z.land flags PyBUF_WRITABLE =? 0)%Z then (s, Err read_only_err)
  else
    match chunks s !! c ≫= fun h => handles s !! h with
    | None => (s, Ok tt)
    | Some b =>
        match fill with
        | Err e => (s, Err e)
        | Ok _ =>
            (mk_state (blocks s) (handles s) (chunks s) (refs s)
               (<[v := mk_view c (b_block b) (b_off b) (b_len b) true (default [] (read_bytes s b))]> (views s)), Ok tt)
        end
    end.

(** [PyBuffer_Release] of a view: [__releasebuffer__] does nothing, then the
    reference to the chunk goes. *)
Definition releasebuffer (v : nat) (s : state) : state :=
  match views s !! v with
  | None => s
  | Some w => collect (v_obj w) (mk_state (blocks s) (handles s) (chunks s) (refs s) (delete v (views s)))
  end.

(** [Bound::new(py, Chunk(b))]: the handle moves into a new object that Python
    has one reference to. *)
Definition new_chunk (c r h : nat) (s : state) : state :=
  mk_state (blocks s) (handles s) (<[c := h]> (chunks s)) (<[r := c]> (refs s)) (views s).

(** *** Interleavings

    Python copies and drops its references and takes and releases views (a
    [memoryview] lives until it is released); the native side allocates, takes
    parts of what it has and drops them. *)
Inductive step : state -> state -> Prop :=
  | step_alloc s k h m :
      blocks s !! k = None -> handles s !! h = None ->
      step s (mk_state (<[k := m]> (blocks s)) (<[h := mk_bytes k 0 (length m)]> (handles s))
                (chunks s) (refs s) (views s))
  | step_slice s h b h' off len :
      handles s !! h = Some b -> handles s !! h' = None -> (off + len <= b_len b)%nat ->
      step s (mk_state (blocks s) (<[h' := mk_bytes (b_block b) (b_off b + off) len]> (handles s))
                (chunks s) (refs s) (views s))
  | step_drop s h :
      unused (fun x => x) (chunks s) h = true -> step s (drop_handle h s)
  | step_chunk s c r h b :
      handles s !! h = Some b -> unused (fun x => x) (chunks s) h = true ->
      chunks s !! c = None -> unused (fun x => x) (refs s) c = true -> refs s !! r = None ->
      step s (new_chunk c r h s)
  | step_incref s r c r' : refs s !! r = Some c -> refs s !! r' = None ->
      step s (mk_state (blocks s) (handles s) (chunks s) (<[r' := c]> (refs s)) (views s))
  | step_decref s r c :
      refs s !! r = Some c ->
      step s (collect c (mk_state (blocks s) (handles s) (chunks s) (delete r (refs s)) (views s)))
  | step_getbuffer s r c v flags fill :
      refs s !! r = Some c -> views s !! v = None -> step s (getbuffer c v flags fill s).1
  | step_release s v : step s (releasebuffer v s).
Definition reachable (s : state) : Prop := steps step init s.

(** *** Invariant *)
Record inv (s : state) : Prop := {
  inv_handle : forall h b, handles s !! h = Some b -> is_Some (read_bytes s b);
  inv_chunk : forall c h, chunks s !! c = Some h -> is_Some (handles s !! h);
  inv_owner : forall c c' h, chunks s !! c = Some h -> chunks s !! c' = Some h -> c = c';
  inv_ref : forall r c, refs s !! r = Some c -> is_Some (chunks s !! c);
  inv_view : forall v w, views s !! v = Some w -> v_readonly w = true /\
    exists h, chunks s !! v_obj w = Some h /\ handles s !! h = Some (mk_bytes (v_block w) (v_off w) (v_len w)) /\
      read_view s w = Some (v_shown w);
}.

(** The memory of the handles left stays when one is dropped. *)
Lemma drop_handle_read s h h' b :
  handles s !! h' = Some b -> h' <> h -> read_bytes (drop_handle h s) b = read_bytes s b.
Proof.
  intros Hb Hn. unfold drop_handle. destruct (handles s !! h) as [x|]; [|done].
  unfold read_bytes, read. cbn. case_match eqn:Eu; [|done].
  rewrite lookup_delete_ne; [done|]. intros Hx. rewrite unused_spec in Eu.
  apply (Eu h' b); [|done]. by rewrite lookup_delete_ne.
Qed.

Lemma drop_handle_fields h s :
  chunks (drop_handle h s) = chunks s /\ refs (drop_handle h s) = refs s /\
  views (drop_handle h s) = views s /\ handles (drop_handle h s) = delete h (handles s).
Proof.
  unfold drop_handle. destruct (handles s !! h) as [x|] eqn:Eh; [done|]. by rewrite delete_id.
Qed.

Lemma drop_handle_inv h s : inv s -> (forall c, chunks s !! c <> Some h) -> inv (drop_handle h s).
Proof.
  intros [H1 H2 H3 H4 H5] Hu. destruct (drop_handle_fields h s) as (E1 & E2 & E3 & E4).
  split; rewrite ?E1, ?E2, ?E3, ?E4.
  - intros h' b (Hn & Hb)%lookup_delete_Some. rewrite (drop_handle_read s h h' b) by done. eauto.
  - intros c h' Hc. rewrite lookup_delete_ne; [eauto|]. intros <-. by apply (Hu c).
  - done.
  - done.
  - intros v w Hw. destruct (H5 v w Hw) as (Hr & h' & Hc & Hh & Hs). split; [done|]. exists h'.
    assert (h' <> h) by (intros ->; by apply (Hu (v_obj w))).
    split_and!; [done|by rewrite lookup_delete_ne|]. rewrite <- Hs.
    apply (drop_handle_read s h h' _ Hh); done.
Qed.

Lemma collect_inv c s : inv s -> inv (collect c s).
Proof.
  intros Hi. unfold collect. destruct (chunks s !! c) as [h|] eqn:Ec; [|done].
  destruct (unused _ (refs s) c) eqn:Er; [|done]. destruct (unused v_obj (views s) c) eqn:Ev; [|done]. cbn.
  rewrite unused_spec in Er. rewrite unused_spec in Ev. destruct Hi as [H1 H2 H3 H4 H5].
  apply drop_handle_inv; cbn.
  - split; cbn; [done|..].
    + intros c' h' (Hn & Hc)%lookup_delete_Some. eauto.
    + intros c1 c2 h' (? & ?)%lookup_delete_Some (? & ?)%lookup_delete_Some. eauto.
    + intros r c' Hr. rewrite lookup_delete_ne; [eauto|]. intros <-. by apply (Er r c).
    + intros v w Hw. destruct (H5 v w Hw) as (Hr & h' & Hc & Hh & Hs). split; [done|]. exists h'.
      rewrite lookup_delete_ne; [done|]. intros E. by apply (Ev v w).
  - intros c' (Hn & Hc)%lookup_delete_Some. by apply Hn, (H3 c c' h).
Qed.

Lemma insert_view_inv s c h b v :
  inv s -> chunks s !! c = Some h -> handles s !! h = Some b ->
  inv (mk_state (blocks s) (handles s) (chunks s) (refs s)
    (<[v := mk_view c (b_block b) (b_off b) (b_len b) true (default [] (read_bytes s b))]> (views s))).
Proof.
  intros [H1 H2 H3 H4 H5] Hc Hh. split; cbn; [done..|].
  intros v' w. rewrite lookup_insert. case_decide; [|apply H5]. intros [= <-]. cbn. split; [done|].
  exists h. destruct b as [k off len]. split_and!; [done..|].
  destruct (H1 h _ Hh) as [m Hm]. unfold read_bytes in Hm. cbn in Hm.
  change (read s k off len = Some (default [] (read s k off len))). by rewrite Hm.
Qed.

Lemma read_slice s b off len :
  is_Some (read_bytes s b) -> (off + len <= b_len b)%nat ->
  is_Some (read_bytes s (mk_bytes (b_block b) (b_off b + off) len)).
Proof.
  unfold read_bytes, read. cbn. destruct (blocks s !! b_block b) as [m|]; cbn; [|by intros [? [=]]].
  intros Hs Hl. case_decide as Hd; [|by destruct Hs]. rewrite decide_True by lia. by eexists.
Qed.

(** More handles: what the old ones show stays. *)
Lemma add_handle_inv s bl h b :
  inv s -> handles s !! h = None -> (forall k m, blocks s !! k = Some m -> bl !! k = Some m) ->
  is_Some (read_bytes (mk_state bl (handles s) (chunks s) (refs s) (views s)) b) ->
  inv (mk_state bl (<[h := b]> (handles s)) (chunks s) (refs s) (views s)).
Proof.
  intros [H1 H2 H3 H4 H5] Hh Hbl Hb.
  assert (forall k off len x, read s k off len = Some x ->
    read (mk_state bl (<[h := b]> (handles s)) (chunks s) (refs s) (views s)) k off len = Some x) as Hold.
  { unfold read. cbn. intros k off len x. destruct (blocks s !! k) as [m|] eqn:Ek; [|done]. by rewrite (Hbl k m Ek). }
  split; cbn; [| |done|done|].
  - intros h' b'. rewrite lookup_insert. case_decide; [by intros [= <-]|].
    intros [x Hx]%H1. exists x. by apply Hold.
  - intros c h' Hc. apply lookup_insert_is_Some'. eauto.
  - intros v w Hw. destruct (H5 v w Hw) as (Hr & h' & Hc & Hh' & Hs). split; [done|]. exists h'.
    split_and!; [done|rewrite lookup_insert_ne; [done|congruence]|by apply Hold].
Qed.

Lemma new_chunk_inv s c r h b :
  inv s -> handles s !! h = Some b -> (forall c, chunks s !! c <> Some h) -> chunks s !! c = None ->
  inv (new_chunk c r h s).
Proof.
  intros [H1 H2 H3 H4 H5] Hh Hu Hc. split; cbn; [done|..].
  - intros c' h'. rewrite lookup_insert. case_decide; [intros [= <-]; eauto|eauto].
  - intros c1 c2 h'. rewrite !lookup_insert. repeat case_decide; subst; intros; simplify_eq; try done; eauto;
      exfalso; by eapply Hu.
  - intros r' c'. rewrite lookup_insert. case_decide; [intros [= <-]; by rewrite lookup_insert_eq|].
    intros Hr. apply lookup_insert_is_Some'. eauto.
  - intros v w Hw. destruct (H5 v w Hw) as (Hr & h' & Hc' & Hh' & Hs). split; [done|]. exists h'.
    by rewrite lookup_insert_ne by congruence.
Qed.

Lemma refs_inv s rs : inv s -> (forall r c, rs !! r = Some c -> is_Some (chunks s !! c)) ->
  inv (mk_state (blocks s) (handles s) (chunks s) rs (views s)).
Proof. intros [] ?. by split. Qed.

Lemma chunk_step_inv s s' : inv s -> step s s' -> inv s'.
Proof.
  intros Hi Hst. pose proof Hi as [H1 H2 H3 H4 H5].
  destruct Hst as [s k h m Hk Hh|s h b h' off len Hb Hh' Hl|s h Hu|s c r h b Hb Hu Hc _ _|s r c r' Hr _|s r c Hr
    |s r c v flags fill Hr _|s v].
  - apply add_handle_inv; [done..| |].
    + intros k' m' Hk'. rewrite lookup_insert_ne; [done|congruence].
    + unfold read_bytes, read. cbn. rewrite lookup_insert_eq. cbn. rewrite decide_True by lia. by eexists.
  - apply add_handle_inv; [done..|]. apply (read_slice s); eauto.
  - rewrite unused_spec in Hu. apply drop_handle_inv; [done|]. intros c Hc. by apply (Hu c h).
  - rewrite unused_spec in Hu. apply (new_chunk_inv s c r h b); [done..| |done]. intros c' Hc'. by apply (Hu c' h).
  - apply refs_inv; [done|]. intros r0 c0. rewrite lookup_insert. case_decide; [intros [= <-]; eauto|eauto].
  - apply collect_inv, refs_inv; [done|]. intros r0 c0 (_ & ?)%lookup_delete_Some. eauto.
  - unfold getbuffer. destruct (negb _); [done|]. destruct (chunks s !! c) as [h|] eqn:Ec; [|done]. cbn.
    destruct (handles s !! h) as [b|] eqn:Eh; [|done]. destruct fill; [|done]. by apply (insert_view_inv s c h b).
  - unfold releasebuffer. destruct (views s !! v) as [w|]; [|done]. apply collect_inv.
    split; cbn; [done..|]. intros v' w' (_ & ?)%lookup_delete_Some. eauto.
Qed.

(** Nothing is kept that nothing refers to. *)
Definition used (s : state) (c : nat) : Prop :=
  (exists r, refs s !! r = Some c) \/ exists v w, views s !! v = Some w /\ v_obj w = c.
Record tidy (s : state) : Prop := {
  tidy_chunks : forall c h, chunks s !! c = Some h -> used s c;
  tidy_blocks : forall k m, blocks s !! k = Some m -> exists h b, handles s !! h = Some b /\ b_block b = k;
}.

Lemma drop_handle_tidy h s : tidy s -> tidy (drop_handle h s).
Proof.
  intros [H1 H2]. destruct (drop_handle_fields h s) as (E1 & E2 & E3 & E4).
  split; unfold used; rewrite ?E1, ?E2, ?E3, ?E4; [done|]. intros k m Hk.
  assert (forall h' b, h' <> h -> handles s !! h' = Some b -> b_block b = k ->
    exists h0 b0, delete h (handles s) !! h0 = Some b0 /\ b_block b0 = k) as Hother.
  { intros h' b Hn Hb Ek. exists h', b. by rewrite lookup_delete_ne. }
  unfold drop_handle in Hk. destruct (handles s !! h) as [b|] eqn:Eh; cbn in Hk.
  - destruct (unused b_block (delete h (handles s)) (b_block b)) eqn:Eu.
    + apply lookup_delete_Some in Hk as [Hn Hk]. destruct (H2 k m Hk) as (h' & b' & Hb' & Ek).
      apply (Hother h' b'); [|done..]. intros ->. congruence.
    + destruct (H2 k m Hk) as (h' & b' & Hb' & Ek). destruct (decide (h' = h)) as [->|Hn]; [|by apply (Hother h' b')].
      rewrite Eh in Hb'. injection Hb' as ->. apply unused_false in Eu as (i & a & Hi & Ha).
      exists i, a. by rewrite Ha.
  - destruct (H2 k m Hk) as (h' & b' & Hb' & Ek). apply (Hother h' b'); [congruence|done..].
Qed.

Lemma collect_tidy c s :
  (forall c' h, c' <> c -> chunks s !! c' = Some h -> used s c') ->
  (forall k m, blocks s !! k = Some m -> exists h b, handles s !! h = Some b /\ b_block b = k) ->
  tidy (collect c s).
Proof.
  intros Hc Hb. unfold collect. destruct (chunks s !! c) as [h|] eqn:Ec.
  2:{ split; [|done]. intros c' h' Hc'. apply (Hc c' h'); [congruence|done]. }
  destruct (unused (fun r => r) (refs s) c) eqn:Er; cbn; [destruct (unused v_obj (views s) c) eqn:Ev; cbn|].
  - apply drop_handle_tidy. split; [|done]. cbn. intros c' h' [Hn Hc']%lookup_delete_Some. by apply (Hc c' h').
  - apply unused_false in Ev as (v & w & Hv & Hw). split; [|done]. intros c' h' Hc'.
    destruct (decide (c' = c)) as [->|Hn]; [right; eauto|eauto].
  - apply unused_false in Er as (r & c0 & Hr & ->). split; [|done]. intros c' h' Hc'.
    destruct (decide (c' = c)) as [->|Hn]; [left; eauto|eauto].
Qed.

Lemma chunk_step_tidy s s' : tidy s -> step s s' -> tidy s'.
Proof.
  intros Ht Hst. pose proof Ht as [H1 H2]. unfold used in H1.
  destruct Hst as [s k h m Hk Hh|s h b h' off len Hb Hh' Hl|s h Hu|s c r h b Hb Hu Hc _ Hr|s r c r' Hr Hr'|s r c Hr
    |s r c v flags fill Hr Hv|s v].
  - split; [done|]. cbn. intros k' m'. rewrite lookup_insert. case_decide as Hd.
    + subst. exists h. eexists. rewrite lookup_insert_eq. done.
    + intros (h' & b & Hb & Ek)%H2. exists h', b. rewrite lookup_insert_ne; [done|congruence].
  - split; [done|]. cbn. intros k' m' (h0 & b0 & Hb0 & Ek)%H2. exists h0, b0. rewrite lookup_insert_ne; [done|congruence].
  - by apply drop_handle_tidy.
  - split; [|done]. unfold used. cbn. intros c' h'. rewrite lookup_insert. case_decide as Hd.
    + subst. intros _. left. exists r. by rewrite lookup_insert_eq.
    + intros [[r' Hr']|?]%H1; [left; exists r'|by right]. rewrite lookup_insert_ne; [done|congruence].
  - split; [|done]. unfold used. cbn. intros c' h' [[r0 Hr0]|?]%H1; [left; exists r0|by right].
    rewrite lookup_insert_ne; [done|congruence].
  - apply collect_tidy; [|done]. unfold used. cbn. intros c' h' Hn [[r0 Hr0]|?]%H1; [left; exists r0|by right].
    rewrite lookup_delete_ne; [done|congruence].
  - unfold getbuffer. destruct (negb _); [done|]. destruct (_ ≫= _) as [b|]; [|done]. destruct fill; [|done].
    split; [|done]. unfold used. cbn. intros c' h' [?|(v' & w & Hv' & Hw)]%H1; [by left|right].
    exists v', w. rewrite lookup_insert_ne; [done|congruence].
  - unfold releasebuffer. destruct (views s !! v) as [w|] eqn:Ev; [|done]. apply collect_tidy; [|done].
    unfold used. cbn. intros c' h' Hn [?|(v' & w' & Hv' & Hw)]%H1; [by left|right].
    exists v', w'. rewrite lookup_delete_ne; [done|congruence].
Qed.

Lemma chunk_reachable s : reachable s -> inv s /\ tidy s.
Proof.
  intros Hr. split.
  - apply (steps_invariant step inv chunk_step_inv _ _ Hr). by split.
  - apply (steps_invariant step tidy chunk_step_tidy _ _ Hr). by split.
Qed.

(** C19: the memory a chunk lends to Python is there for as long as Python can
    read it.  Whatever references Python drops, whatever the native side drops
    or allocates, and in whichever order, a live view reads only live memory,
    finds the bytes that were received, and is read-only (a request for a
    writable view raises and changes nothing); and the memory does not outlive
    its users: without references, views and native handles none is left. *)
Theorem chunk_views_sound s :
  reachable s ->
  (forall v w, views s !! v = Some w -> read_view s w = Some (v_shown w) /\ v_readonly w = true) /\
  (forall c v flags fill, Z.land flags PyBUF_WRITABLE <> 0%Z ->
     getbuffer c v flags fill s = (s, Err read_only_err)) /\
  (refs s = ∅ -> views s = ∅ -> (forall h b, handles s !! h = Some b -> exists c, chunks s !! c = Some h) ->
     blocks s = ∅).
Proof.
  intros [[H1 H2 H3 H4 H5] [T1 T2]]%chunk_reachable. split_and!.
  - intros v w Hw. by destruct (H5 v w Hw) as (Hr & h & _ & _ & Hs).
  - intros c v flags fill Hf. unfold getbuffer. apply Z.eqb_neq in Hf. by rewrite Hf.
  - intros Hr Hv Hn. apply map_empty. intros k. apply eq_None_not_Some. intros [m Hm].
    destruct (T2 k m Hm) as (h & b & Hb & _). destruct (Hn h b Hb) as [c Hc].
    destruct (T1 c h Hc) as [[r Hx]|(v & w & Hx & _)]; rewrite ?Hr, ?Hv, lookup_empty in Hx; done.
Qed.

(** [read_chunk]: Python is left with a [memoryview] only, and the native side
    has dropped its buffer. *)
Definition received : state :=
  new_chunk 1 0 0 (mk_state (<[0%nat := [Byte.x2a; Byte.x2b]]> ∅) (<[0%nat := mk_bytes 0 0 2]> ∅) ∅ ∅ ∅).
Definition only_viewed : state :=
  let s := (getbuffer 1 0 0 (Ok tt) received).1 in
  collect 1 (mk_state (blocks s) (handles s) (chunks s) (delete 0%nat (refs s)) (views s)).

Lemma only_viewed_reachable : reachable only_viewed.
Proof.
  eapply steps_cons; [by apply (step_alloc init 0 0 [Byte.x2a; Byte.x2b])|].
  eapply steps_cons; [by eapply (step_chunk _ 1 0 0)|].
  eapply steps_cons; [by eapply (step_getbuffer _ 0 1 0 0 (Ok tt))|].
  by apply steps_one, (step_decref _ 0 1).
Qed.

Lemma chunk_views_sound_witness :
  exists w, views only_viewed !! 0%nat = Some w /\ read_view only_viewed w = Some [Byte.x2a; Byte.x2b].
Proof.
  eexists. split; [reflexivity|].
  exact (proj1 (proj1 (chunk_views_sound only_viewed only_viewed_reachable) 0%nat _ eq_refl)).
Defined.
End ChunkView.

(** ** [Lent]: Python's bytes that the native side reads *)
Module LentBuffer.

(** A [Lent]: a [PyBuffer] of an object, which keeps it alive and exported;
    [l_shown], [l_written]: the bytes lent, and whether Python has written to
    them since. *)
Record lent := mk_lent { l_obj : nat; l_len : nat; l_shown : bytes; l_written : bool }.

Record state := mk_state {
  objs : gmap nat bytes;  (** the live objects of Python with their memory *)
  refs : gmap nat nat;  (** the references of Python to them *)
  lents : gmap nat lent;  (** the live [Lent] values *)
  handles : gmap nat nat;  (** the live [Bytes] values and the [Lent] each shares *)
}.
Definition init : state := mk_state ∅ ∅ ∅ ∅.

(** An object that nothing refers to is deallocated; a buffer exported counts. *)
Definition collect (o : nat) (s : state) : state :=
  if unused (fun x => x) (refs s) o && unused l_obj (lents s) o
  then mk_state (delete o (objs s)) (refs s) (lents s) (handles s) else s.

(** The drop of a [PyBuffer] releases it. *)
Definition drop_lent (l : nat) (s : state) : state :=
  match lents s !! l with
  | None => s
  | Some x => collect (l_obj x) (mk_state (objs s) (refs s) (delete l (lents s)) (handles s))
  end.

(** *** The binding *)
Definition not_contiguous : pyerr := new_err PyValueError [Lit "the buffer is not contiguous"].

(** [lend] of the object [o]: [get], what [PyBuffer::get] gives (an exported
    buffer, contiguous or not); a buffer that is not is dropped again. *)
Definition lend (o l h : nat) (get : PyResult bool) (s : state) : state * PyResult nat :=
  match get, objs s !! o with
  | Err e, _ => (s, Err e)
  | Ok contiguous, Some m =>
      let s := mk_state (objs s) (refs s) (<[l := mk_lent o (length m) m false]> (lents s)) (handles s) in
      if negb contiguous then (drop_lent l s, Err not_contiguous)
      else (mk_state (objs s) (refs s) (lents s) (<[h := l]> (handles s)), Ok h)
  | Ok _, None => (s, Err not_contiguous)
  end.

(** [Lent::as_ref]: the memory at the pointer; [None] is a read out of live
    memory. *)
Definition as_ref (l : nat) (s : state) : option bytes :=
  x ← lents s !! l;
  m ← objs s !! l_obj x;
  if decide (l_len x <= length m)%nat then Some (take (l_len x) m) else None.

(** The drop of a [Bytes] value made [from_owner]: the last one drops the owner. *)
Definition drop_handle (h : nat) (s : state) : state :=
  match handles s !! h with
  | None => s
  | Some l =>
      let hs := delete h (handles s) in
      let s := mk_state (objs s) (refs s) (lents s) hs in
      if unused (fun x => x) hs l then drop_lent l s else s
  end.

(** What Python does to an object it has: an object with exported buffers is not
    resized ([BufferError]); its bytes may be written in place. *)
Definition resize (o : nat) (m : bytes) (s : state) : state * PyResult unit :=
  if unused l_obj (lents s) o then (mk_state (<[o := m]> (objs s)) (refs s) (lents s) (handles s), Ok tt)
  else (s, Err (new_err PyBufferError [Lit "Existing exports of data: object cannot be re-sized"])).

Definition touched (o : nat) (x : lent) : lent :=
  if decide (l_obj x = o) then mk_lent (l_obj x) (l_len x) (l_shown x) true else x.
Definition write (o : nat) (m : bytes) (s : state) : state :=
  match objs s !! o with
  | Some m0 =>
      if decide (length m = length m0)
      then mk_state (<[o := m]> (objs s)) (refs s) (touched o <$> lents s) (handles s) else s
  | None => s
  end.

Inductive step : state -> state -> Prop :=
  | step_new s o r m :
      objs s !! o = None -> refs s !! r = None ->
      step s (mk_state (<[o := m]> (objs s)) (<[r := o]> (refs s)) (lents s) (handles s))
  | step_incref s r o r' : refs s !! r = Some o -> refs s !! r' = None ->
      step s (mk_state (objs s) (<[r' := o]> (refs s)) (lents s) (handles s))
  | step_decref s r o : refs s !! r = Some o ->
      step s (collect o (mk_state (objs s) (delete r (refs s)) (lents s) (handles s)))
  | step_write s r o m : refs s !! r = Some o -> step s (write o m s)
  | step_resize s r o m : refs s !! r = Some o -> step s (resize o m s).1
  | step_lend s r o l h get :
      refs s !! r = Some o -> lents s !! l = None -> unused (fun x => x) (handles s) l = true ->
      handles s !! h = None -> step s (lend o l h get s).1
  | step_clone s h l h' : handles s !! h = Some l -> handles s !! h' = None ->
      step s (mk_state (objs s) (refs s) (lents s) (<[h' := l]> (handles s)))
  | step_drop s h : step s (drop_handle h s).
Definition reachable (s : state) : Prop := steps step init s.

(** *** Invariant *)
Record inv (s : state) : Prop := {
  inv_handle : forall h l, handles s !! h = Some l -> is_Some (lents s !! l);
  inv_ref : forall r o, refs s !! r = Some o -> is_Some (objs s !! o);
  inv_lent : forall l x, lents s !! l = Some x -> exists m, objs s !! l_obj x = Some m /\
    length m = l_len x /\ (l_written x = false -> m = l_shown x);
}.
(** Apart from the object [o] and the [Lent] [l], nothing is kept that nothing
    refers to. *)
Record tidy_but (o l : option nat) (s : state) : Prop := {
  tidy_lent : forall i x, Some i <> l -> lents s !! i = Some x -> exists h, handles s !! h = Some i;
  tidy_obj : forall i m, Some i <> o -> objs s !! i = Some m ->
    (exists r, refs s !! r = Some i) \/ exists l x, lents s !! l = Some x /\ l_obj x = i;
}.
Abbreviation tidy := (tidy_but None None).
Abbreviation good s := (inv s /\ tidy s).

Lemma collect_good o s : inv s -> tidy_but (Some o) None s -> good (collect o s).
Proof.
  intros [H1 H2 H3] [T1 T2]. unfold collect.
  destruct (unused (fun x => x) (refs s) o) eqn:Er; cbn; [destruct (unused l_obj (lents s) o) eqn:El; cbn|].
  - rewrite unused_spec in Er. rewrite unused_spec in El. split; split; cbn; [done|..].
    + intros r i Hr. rewrite lookup_delete_ne; [eauto|]. intros <-. by apply (Er r o).
    + intros l x Hx. destruct (H3 l x Hx) as (m & Hm & ?). exists m. rewrite lookup_delete_ne; [done|].
      intros E. by apply (El l x).
    + done.
    + intros i m _ (Hn & Hi)%lookup_delete_Some. apply (T2 i m); [congruence|done].
  - apply unused_false in El as (l & x & Hx & Hl). split; [done|]. split; [done|]. intros i m _ Hi.
    destruct (decide (i = o)) as [->|]; [right; eauto|]. apply (T2 i m); [congruence|done].
  - apply unused_false in Er as (r & i & Hr & ->). split; [done|]. split; [done|]. intros i m _ Hi.
    destruct (decide (i = o)) as [->|]; [left; eauto|]. apply (T2 i m); [congruence|done].
Qed.

Lemma drop_lent_good l s :
  inv s -> (forall h, handles s !! h <> Some l) -> tidy_but None (Some l) s -> good (drop_lent l s).
Proof.
  intros Hi Hh [T1 T2]. pose proof Hi as [H1 H2 H3]. unfold drop_lent. destruct (lents s !! l) as [x|] eqn:El.
  2:{ split; [done|]. split; [|done]. intros i y _ Hy. apply (T1 i y); [congruence|done]. }
  apply collect_good.
  - split; cbn; [|done|].
    + intros h i Hi'. rewrite lookup_delete_ne; [eauto|]. intros <-. by apply (Hh h).
    + intros i y (_ & Hy)%lookup_delete_Some. eauto.
  - split; cbn.
    + intros i y _ (Hn & Hy)%lookup_delete_Some. apply (T1 i y); [congruence|done].
    + intros i m Hn Hm. destruct (T2 i m) as [?|(l' & y & Hy & Ey)]; [done..|by left|right].
      exists l', y. rewrite lookup_delete_ne; [done|]. intros <-. rewrite El in Hy. congruence.
Qed.

Lemma write_good o m s : good s -> good (write o m s).
Proof.
  intros [[H1 H2 H3] [T1 T2]]. unfold write. destruct (objs s !! o) as [m0|] eqn:Eo; [|done].
  case_decide as Hl; [|done].
  assert (forall x, l_obj (touched o x) = l_obj x /\ l_len (touched o x) = l_len x) as Ht
    by (intros x; unfold touched; by case_decide).
  split; split; cbn.
  - intros h l Hh. rewrite lookup_fmap, fmap_is_Some. eauto.
  - intros r i Hr. apply lookup_insert_is_Some'. eauto.
  - intros l y. rewrite lookup_fmap. intros (x & Hx & ->)%fmap_Some. destruct (Ht x) as [E1 E2]. rewrite E1, E2.
    destruct (H3 l x Hx) as (m1 & Hm & Hlen & Hs). rewrite lookup_insert. unfold touched.
    case_decide as Hd; case_decide as Hd'; cbn; try congruence.
    + exists m. split; [done|]. split; [|done]. rewrite Hl. rewrite <- Hd in Hm. congruence.
    + by exists m1.
  - intros i y _. rewrite lookup_fmap. intros (x & Hx & ->)%fmap_Some. by apply (T1 i x).
  - intros i m1 _ Hi. assert (exists m2, objs s !! i = Some m2) as [m2 Hm2].
    { destruct (decide (o = i)) as [<-|]; [eauto|]. rewrite lookup_insert_ne in Hi by done. eauto. }
    destruct (T2 i m2) as [?|(l & x & Hx & Ex)]; [done..|by left|right].
    exists l, (touched o x). rewrite lookup_fmap, Hx. split; [done|]. by rewrite (proj1 (Ht x)).
Qed.

Lemma resize_good o m s : good s -> is_Some (objs s !! o) -> good (resize o m s).1.
Proof.
  intros [[H1 H2 H3] [T1 T2]] [m0 Ho]. unfold resize. destruct (unused l_obj (lents s) o) eqn:Eu; [|done]. cbn.
  rewrite unused_spec in Eu. split; split; cbn; [done|..|done|].
  - intros r i Hr. apply lookup_insert_is_Some'. eauto.
  - intros l x Hx. destruct (H3 l x Hx) as (m1 & Hm & ?). exists m1. rewrite lookup_insert_ne; [done|].
    intros E. by apply (Eu l x).
  - intros i m1 _. rewrite lookup_insert. case_decide as Hd; [subst; intros _; by apply (T2 i m0)|]. by apply T2.
Qed.

Lemma lend_good o l h get s :
  good s -> lents s !! l = None -> (forall i, handles s !! i <> Some l) -> handles s !! h = None ->
  good (lend o l h get s).1.
Proof.
  intros [Hi Ht] Hl Hu Hh. pose proof Hi as [H1 H2 H3]. pose proof Ht as [T1 T2]. unfold lend.
  destruct get as [c|]; [|done]. destruct (objs s !! o) as [m|] eqn:Eo; [|done].
  assert (inv (mk_state (objs s) (refs s) (<[l := mk_lent o (length m) m false]> (lents s)) (handles s))) as Hinv.
  { split; cbn; [|done|].
    - intros i k Hk. apply lookup_insert_is_Some'. eauto.
    - intros i x. rewrite lookup_insert. case_decide; [|eauto]. intros [= <-]. cbn. by exists m. }
  assert (tidy_but None (Some l) (mk_state (objs s) (refs s) (<[l := mk_lent o (length m) m false]> (lents s)) (handles s))) as Hti.
  { split; cbn.
    - intros i x Hn. rewrite lookup_insert_ne by congruence. by apply T1.
    - intros i mi _ Hm. destruct (T2 i mi) as [?|(l' & x & Hx & Ex)]; [done..|by left|right].
      exists l', x. rewrite lookup_insert_ne; [done|congruence]. }
  destruct c; cbn; [|by apply drop_lent_good]. destruct Hinv as [I1 I2 I3], Hti as [J1 J2]. cbn in *.
  split; split; cbn; [|done..| |done].
  - intros i k. rewrite (lookup_insert (handles s)). case_decide; [intros [= <-]|apply I1]. by rewrite lookup_insert_eq.
  - intros i x _ Hx. destruct (decide (i = l)) as [->|Hn]; [exists h; by rewrite lookup_insert_eq|].
    destruct (J1 i x) as [h' Hh']; [congruence|done|]. exists h'. rewrite lookup_insert_ne; [done|congruence].
Qed.

Lemma drop_handle_good h s : good s -> good (drop_handle h s).
Proof.
  intros [[H1 H2 H3] [T1 T2]]. unfold drop_handle. destruct (handles s !! h) as [l|] eqn:Eh; [|done].
  assert (inv (mk_state (objs s) (refs s) (lents s) (delete h (handles s)))) as Hinv.
  { split; cbn; [|done..]. intros i k (_ & ?)%lookup_delete_Some. eauto. }
  assert (forall i x, i <> l -> lents s !! i = Some x -> exists h', delete h (handles s) !! h' = Some i) as Hk.
  { intros i x Hn Hx. destruct (T1 i x) as [h' Hh']; [done..|]. exists h'. rewrite lookup_delete_ne; [done|congruence]. }
  destruct (unused (fun x => x) (delete h (handles s)) l) eqn:Eu.
  - rewrite unused_spec in Eu. apply drop_lent_good; [done|..]; cbn.
    + intros i Hi. by apply (Eu i l).
    + split; [|done]. intros i x Hn. apply Hk. congruence.
  - apply unused_false in Eu as (i & k & Hi & ->). split; [done|]. split; [|done]. cbn. intros j x _ Hx.
    destruct (decide (j = l)) as [->|]; [by exists i|by apply (Hk j x)].
Qed.

Lemma lent_step_good s s' : good s -> step s s' -> good s'.
Proof.
  intros Hg Hst. pose proof Hg as [[H1 H2 H3] [T1 T2]].
  destruct Hst as [s o r m Ho Hr|s r o r' Hr Hr'|s r o Hr|s r o m Hr|s r o m Hr|s r o l h get Hr Hl Hu Hh|s h l h' Hh Hh'|s h].
  - split; split; cbn; [done|..|done|].
    + intros r0 i. rewrite lookup_insert. case_decide; [intros [= <-]; by rewrite lookup_insert_eq|].
      intros ?. apply lookup_insert_is_Some'. eauto.
    + intros l x Hx. destruct (H3 l x Hx) as (m0 & Hm & ?). exists m0. rewrite lookup_insert_ne; [done|congruence].
    + intros i m0 _. rewrite lookup_insert. case_decide; [subst; left; exists r; by rewrite lookup_insert_eq|].
      intros Hi. destruct (T2 i m0) as [[r0 ?]|?]; [done..| |by right]. left. exists r0. rewrite lookup_insert_ne; [done|congruence].
  - split; split; cbn; [done| |done..|].
    + intros r0 i. rewrite lookup_insert. case_decide; [intros [= <-]; eauto|eauto].
    + intros i m0 _ Hi. destruct (T2 i m0) as [[r0 ?]|?]; [done..| |by right]. left. exists r0. rewrite lookup_insert_ne; [done|congruence].
  - apply collect_good; split; cbn; [done| |done..|].
    + intros r0 i (_ & ?)%lookup_delete_Some. eauto.
    + intros i m0 Hn Hi. destruct (T2 i m0) as [[r0 ?]|?]; [done..| |by right]. left. exists r0. rewrite lookup_delete_ne; [done|congruence].
  - by apply write_good.
  - apply resize_good; eauto.
  - rewrite unused_spec in Hu. apply lend_good; [done..| |done]. intros i Hi. by apply (Hu i l).
  - split; split; cbn; [|done..| |done].
    + intros i k. rewrite lookup_insert. case_decide; [intros [= <-]; eauto|eauto].
    + intros i x Hn Hx. destruct (T1 i x) as [h0 ?]; [done..|]. exists h0. rewrite lookup_insert_ne; [done|congruence].
  - by apply drop_handle_good.
Qed.

(** C20: the memory Python lends to the native side is there for as long as the
    native side can read it.  Whatever references Python drops, whatever it
    tries to resize, and whatever copies of the buffer the native side makes
    and drops, a read of a [Bytes] value finds live memory of the length that
    was lent, and the bytes that were lent unless Python has written to them
    since; a buffer that is not contiguous is refused and not kept exported;
    Python cannot resize the object meanwhile, and can again, with nothing left
    exported, once the last copy is dropped. *)
Theorem lent_buffers_sound s :
  reachable s ->
  (forall h l, handles s !! h = Some l -> exists x b, lents s !! l = Some x /\ as_ref l s = Some b /\
     length b = l_len x /\ (l_written x = false -> b = l_shown x) /\
     forall m, (resize (l_obj x) m s).1 = s /\ is_ok (resize (l_obj x) m s).2 = false) /\
  (forall o l h, lents s !! l = None ->
     (lend o l h (Ok false) s).2 = Err not_contiguous /\ lents (lend o l h (Ok false) s).1 = lents s) /\
  (handles s = ∅ -> lents s = ∅ /\ forall o m, is_ok (resize o m s).2 = true).
Proof.
  intros Hr. assert (good s) as [[H1 H2 H3] [T1 T2]].
  { apply (steps_invariant step (fun s => good s) lent_step_good _ _ Hr). by split; split. }
  split; [|split].
  - intros h l Hh. destruct (H1 h l Hh) as [x Hx]. destruct (H3 l x Hx) as (m & Hm & Hl & Hs).
    exists x, m. unfold as_ref. rewrite Hx. cbn. rewrite Hm. cbn. rewrite decide_True by lia. rewrite <- Hl.
    rewrite take_ge by lia. split_and!; try done; intros m'; unfold resize;
      (destruct (unused l_obj (lents s) (l_obj x)) eqn:Eu; [|done]); rewrite unused_spec in Eu; by destruct (Eu l x).
  - intros o l h Hl. unfold lend. destruct (objs s !! o) as [m|]; [|done]. cbn. split; [done|].
    unfold drop_lent. cbn. rewrite lookup_insert_eq. unfold collect. cbn.
    case_match; cbn; by rewrite delete_insert_id.
  - intros He. assert (lents s = ∅) as El.
    { apply map_empty. intros l. apply eq_None_not_Some. intros [x Hx].
      destruct (T1 l x) as [h Hh]; [done..|]. by rewrite He, lookup_empty in Hh. }
    split; [done|]. intros o m. unfold resize. by rewrite El.
Qed.

(** A [bytearray] lent for sending, which Python then forgets. *)
Definition owned : state := mk_state (<[0%nat := [Byte.x2a; Byte.x2b]]> ∅) (<[0%nat := 0%nat]> ∅) ∅ ∅.
Definition sending : state :=
  let s := (lend 0 0 0 (Ok true) owned).1 in
  collect 0 (mk_state (objs s) (delete 0%nat (refs s)) (lents s) (handles s)).

Lemma sending_reachable : reachable sending.
Proof.
  eapply steps_cons; [by apply (step_new init 0 0 [Byte.x2a; Byte.x2b])|].
  eapply steps_cons; [by eapply (step_lend _ 0 0 0 0 (Ok true))|].
  by apply steps_one, (step_decref _ 0 0).
Qed.

Lemma lent_buffers_sound_witness :
  as_ref 0 sending = Some [Byte.x2a; Byte.x2b] /\
  exists x b, lents sending !! 0%nat = Some x /\ as_ref 0 sending = Some b /\ length b = l_len x.
Proof.
  split; [reflexivity|].
  destruct (proj1 (lent_buffers_sound sending sending_reachable) 0%nat 0%nat eq_refl) as (x & b & Hx & Hb & Hl & _).
  exact (ex_intro _ x (ex_intro _ b (conj Hx (conj Hb Hl)))).
Defined.
End LentBuffer.
