(* ===== verification/Carrier.v ===== *)
(** The halves of a carrier as Python sees them (src/src/layer.rs):
    [CarrierStream], its release when a layer fails ([CarrierStream::release],
    [wrap]), and what a transform is told of a carrier ([PipeHint::of]).

    Each half is behind its own fair mutex ([Streams.Part]); [release] takes the
    read half out of its mutex and then the write half, waiting its turn at
    each. *)
From S2P Require Import Prelude Errors Streams.
Open Scope Z_scope.

(** [PipeHint]: the source is the peer when no intermediary reported one. *)
Module Hint.
Section hint.
Context {SocketAddr Host AdmittedValue : Type} (split_addr : SocketAddr -> Host * Z).

(** The native hint, and Python's view of it. *)
Record native_hint (Pair : Type) := mk_native {
  n_source : option SocketAddr;
  n_peer : option SocketAddr;
  n_pair : option Pair;
  n_admitted : option AdmittedValue;
}.
Arguments mk_native {Pair}.
Arguments n_source {Pair}.
Arguments n_peer {Pair}.
Arguments n_pair {Pair}.
Arguments n_admitted {Pair}.

Record PipeHint := mk_hint {
  source : option (Host * Z);
  peer : option (Host * Z);
  split : bool;
  admitted : option AdmittedValue;
}.

Definition hint_of {Pair} (h : native_hint Pair) : PipeHint :=
  mk_hint
    (split_addr <$> match n_source h with Some a => Some a | None => n_peer h end)
    (split_addr <$> n_peer h)
    (match n_pair h with Some _ => true | None => false end)
    (n_admitted h).
End hint.
End Hint.

Module Halves.
Section carrier.
Context {IoErr : Type} `{NativeErr IoErr}.
(** The halves of a [PipeStream] and tokio's operations on them: [read] into a
    buffer of [n] bytes (what it put there), [write_all], [flush],
    [shutdown]. *)
Context {Rh Wh : Type}.
Context (read_half : Z -> Rh -> Rh * (bytes + IoErr)).
Context (write_all : bytes -> Wh -> Wh * (unit + IoErr)).
Context (flush shutdown_half : Wh -> Wh * (unit + IoErr)).

Definition released : pyerr := new_err PyRuntimeError [Lit "carrier released"].

Definition io_result {A} (x : A + IoErr) : PyResult A :=
  match x with inl a => Ok a | inr e => Err (io_err e) end.

(** [CarrierStream.read], [write] and [shutdown] once they hold the half. *)
Definition read_call (n : Z) : Part.call (T:=Rh) (A:=bytes) :=
  Part.mk_call (fun r => let '(r, x) := read_half (Z.max n 1) r in (Some r, io_result x))
    (Err released).

Definition write_call (data : bytes) : Part.call (T:=Wh) (A:=unit) :=
  Part.mk_call (fun w =>
    let '(w, x) := write_all data w in
    match io_result x with
    | Err e => (Some w, Err e)
    | Ok _ => let '(w, y) := flush w in (Some w, io_result y)
    end) (Err released).

Definition shutdown_call : Part.call (T:=Wh) (A:=unit) :=
  Part.mk_call (fun w => let '(w, x) := shutdown_half w in (Some w, io_result x)) (Err released).

(** [lock().await.take()]. *)
Definition take_call {T A} (a : A) : Part.call (T:=T) (A:=A) :=
  Part.mk_call (fun _ => (None, Ok a)) (Ok a).

(** How far [release] is: not called, waiting for the read half, waiting for
    the write half, done. *)
Inductive phase := Held | OnRead | OnWrite | Released.

Record carrier := mk_carrier {
  r : Part.state (T:=Rh) (A:=bytes);
  w : Part.state (T:=Wh) (A:=unit);
  ph : phase;
}.

(** [CarrierStream::new]: the two halves of the stream. *)
Definition new (rh : Rh) (wh : Wh) : carrier := mk_carrier (Part.init rh) (Part.init wh) Held.

(** The call of [release] is number 0 on each half, those of Python are the
    others. *)
Definition answered {T A} (s : Part.state (T:=T) (A:=A)) : bool :=
  bool_decide (0%nat ∈ (Part.answers s).*1).

Inductive event :=
  | Read (id : nat) (n : Z) | Write (id : nat) (data : bytes) | Shutdown (id : nat)
  | ReadDone | WriteDone
  | ReadCancelled (id : nat) (t : Rh) | WriteCancelled (id : nat) (t : Wh)
  | Release.

(** [release] goes on once it has taken the half it waited for. *)
Definition release_poll (c : carrier) : carrier :=
  match ph c with
  | OnRead =>
      if answered (r c) then mk_carrier (r c) (Part.begin 0 (take_call tt) (w c)) OnWrite else c
  | OnWrite => if answered (w c) then mk_carrier (r c) (w c) Released else c
  | _ => c
  end.

Definition act (e : event) (c : carrier) : carrier :=
  match e with
  | Read id n => mk_carrier (Part.begin (S id) (read_call n) (r c)) (w c) (ph c)
  | Write id d => mk_carrier (r c) (Part.begin (S id) (write_call d) (w c)) (ph c)
  | Shutdown id => mk_carrier (r c) (Part.begin (S id) shutdown_call (w c)) (ph c)
  | ReadDone => mk_carrier (Part.complete (r c)) (w c) (ph c)
  | WriteDone => mk_carrier (r c) (Part.complete (w c)) (ph c)
  | ReadCancelled id t => mk_carrier (Part.cancel (S id) t (r c)) (w c) (ph c)
  | WriteCancelled id t => mk_carrier (r c) (Part.cancel (S id) t (w c)) (ph c)
  | Release =>
      match ph c with
      | Held => mk_carrier (Part.begin 0 (take_call []) (r c)) (w c) OnRead
      | _ => c
      end
  end.

Definition step (c : carrier) (e : event) : carrier := release_poll (act e c).
Definition run (es : list event) (c : carrier) : carrier := foldl step c es.

(** *** [wrap] *)
Context {Chan : Type} (other : string -> IoErr) (to_string : pyerr -> string).
Definition py_io (e : pyerr) : IoErr := other (to_string e).

(** The end of the layer's coroutine: on a failure the carrier is released. *)
Definition wrap_end {A} (res : PyResult A) (c : carrier) : carrier :=
  match res with Ok _ => c | Err _ => step c Release end.

(** The result of [wrap]'s closure, once it has one. *)
Definition wrap_result {A} (chan : Chan) (res : PyResult A) (c : carrier) : option (Chan + IoErr) :=
  match res, ph c with
  | Ok _, _ => Some (inl chan)
  | Err e, Released => Some (inr (py_io e))
  | Err _, _ => None
  end.

(** *** Invariant *)

(** Call 0 takes the half out, and has once it is answered. *)
Record ok {T A} (a : A) (s : Part.state (T:=T) (A:=A)) : Prop := {
  ok_inv : Part.inv s;
  ok_take k : Part.owner s = Some (0%nat, k) \/ (0%nat, k) ∈ Part.waiting s -> k = take_call a;
  ok_gone : 0%nat ∈ (Part.answers s).*1 -> Part.value s = None;
}.

Definition asked {T A} (s : Part.state (T:=T) (A:=A)) : Prop :=
  0%nat ∈ (Part.answers s).*1 ++ Part.pending s.

Lemma ok_begin {T A} (a : A) id k (s : Part.state (T:=T) (A:=A)) :
  ok a s -> (id = 0%nat -> k = take_call a) -> ok a (Part.begin id k s).
Proof.
  intros [Hi Ht Hg] Hk. pose proof (Part.part_step_inv (Part.Begin id k) s Hi) as Hi'. simpl in Hi'.
  unfold Part.begin in *. simpl in *. destruct (Part.owner s) as [o|] eqn:Eo.
  - split; simpl; [done| |done]. intros k' [Hx|Hx]; [apply Ht; left; congruence|].
    apply elem_of_app in Hx as [Hx|Hx]; [by apply Ht; right|].
    apply list_elem_of_singleton in Hx. injection Hx as <- ->. auto.
  - destruct (Part.value s) as [t|] eqn:Ev; (split; simpl; [done| |done]).
    + intros k' [Hx|Hx]; [injection Hx as -> ->; auto|]. apply Ht. by right.
    + intros k' [Hx|Hx]; [congruence|]. apply Ht. by right.
Qed.

Lemma ok_release {T A} (a : A) t (s : Part.state (T:=T) (A:=A)) :
  Part.inv (Part.release t s) ->
  (forall k, (0%nat, k) ∈ Part.waiting s -> k = take_call a) ->
  (t <> None -> 0%nat ∉ (Part.answers s).*1) -> ok a (Part.release t s).
Proof.
  intros Hi Ht Hg. split; [done| |]; unfold Part.release; destruct t as [t|]; simpl.
  - destruct (Part.waiting s) as [|x q]; simpl; intros k [Hx|Hx]; simplify_eq;
      [by apply elem_of_nil in Hx|apply Ht; left|apply Ht; by right].
  - intros k [Hx|Hx]; [done|by apply elem_of_nil in Hx].
  - specialize (Hg ltac:(done)). destruct (Part.waiting s); simpl; by intros ?%Hg.
  - done.
Qed.

Lemma ok_complete {T A} (a : A) (s : Part.state (T:=T) (A:=A)) : ok a s -> ok a (Part.complete s).
Proof.
  intros [Hi Ht Hg]. pose proof (Part.part_step_inv Part.Complete s Hi) as Hi'. simpl in Hi'.
  unfold Part.complete in *. destruct (Part.owner s) as [[id k]|] eqn:Eo; [|by split; rewrite ?Eo].
  destruct (Part.value s) as [t|] eqn:Ev; [|by split; rewrite ?Eo, ?Ev].
  destruct (Part.c_run k t) as [t' x] eqn:Er. apply ok_release; simpl; [done|auto|].
  intros Hne. rewrite fmap_app, not_elem_of_app. split; [by intros ?%Hg|]. simpl.
  intros Hx%list_elem_of_singleton. subst id.
  rewrite (Ht k (or_introl eq_refl)) in Er. simpl in Er. by injection Er as <- _.
Qed.

Lemma ok_cancel {T A} (a : A) id t (s : Part.state (T:=T) (A:=A)) : ok a s -> ok a (Part.cancel (S id) t s).
Proof.
  intros [Hi Ht Hg]. pose proof (Part.part_step_inv (Part.Cancel (S id) t) s Hi) as Hi'. simpl in Hi'.
  unfold Part.cancel in *. destruct (Part.owner s) as [[o k]|] eqn:Eo; [|by split; rewrite ?Eo].
  destruct (decide (o = S id)).
  - apply ok_release; [done|auto|]. intros _ Hx%Hg. by rewrite (Part.inv_taken _ Hi Hx) in Eo.
  - split; simpl; [done| |done]. intros k' [Hx|[_ Hx]%list_elem_of_filter]; apply Ht; [left; congruence|by right].
Qed.

Lemma asked_begin0 {T A} k (s : Part.state (T:=T) (A:=A)) : asked (Part.begin 0 k s).
Proof.
  unfold asked, Part.begin, Part.pending, Part.answer. simpl.
  destruct (Part.owner s) as [o|] eqn:Eo; simpl; [|destruct (Part.value s); simpl].
  - apply elem_of_app. right. right. rewrite map_app. apply elem_of_app. right. by left.
  - apply elem_of_app. right. by left.
  - rewrite fmap_app. simpl. rewrite !elem_of_app, list_elem_of_singleton. auto.
Qed.

Lemma asked_begin {T A} id k (s : Part.state (T:=T) (A:=A)) : asked s -> asked (Part.begin id k s).
Proof.
  unfold asked, Part.begin, Part.pending, Part.answer. simpl. rewrite !elem_of_app.
  destruct (Part.owner s) as [o|] eqn:Eo; simpl; [|destruct (Part.value s); simpl].
  - rewrite !elem_of_cons, map_app, elem_of_app. intuition.
  - rewrite elem_of_cons. intuition.
  - rewrite fmap_app, elem_of_app. intuition.
Qed.

Lemma asked_complete {T A} (s : Part.state (T:=T) (A:=A)) : Part.inv s -> asked s -> asked (Part.complete s).
Proof.
  intros Hi Ha. destruct (Part.owner s) as [o|] eqn:Eo.
  - unfold asked. by rewrite (proj1 (Part.complete_owner s o Hi Eo)).
  - unfold Part.complete. by rewrite Eo.
Qed.

Lemma asked_cancel {T A} id t (s : Part.state (T:=T) (A:=A)) : asked s -> asked (Part.cancel (S id) t s).
Proof.
  unfold asked. intros Ha. unfold Part.cancel.
  destruct (Part.owner s) as [[o k]|] eqn:Eo; [|done]. unfold Part.pending in Ha. rewrite Eo in Ha.
  rewrite elem_of_app, elem_of_cons in Ha. simpl in Ha.
  destruct (decide (o = S id)) as [->|].
  - rewrite Part.pending_release, elem_of_app.
    unfold Part.release. destruct (Part.waiting s); simpl in *; naive_solver.
  - unfold Part.pending. simpl. rewrite elem_of_app, elem_of_cons.
    destruct Ha as [Hx|[Hx|Hx]]; auto. right. right.
    apply list_elem_of_fmap in Hx as ([i c] & Hi & Hx). simpl in Hi. subst i.
    apply list_elem_of_fmap. exists (0%nat, c). split; [done|]. by apply list_elem_of_filter.
Qed.

Record inv (c : carrier) : Prop := {
  inv_r : ok [] (r c);
  inv_w : ok tt (w c);
  inv_phase :
    match ph c with
    | Held => True
    | OnRead => asked (r c)
    | OnWrite => Part.value (r c) = None /\ asked (w c)
    | Released => Part.value (r c) = None /\ Part.value (w c) = None
    end;
}.

Lemma answered_true {T A} (s : Part.state (T:=T) (A:=A)) : answered s = true <-> 0%nat ∈ (Part.answers s).*1.
Proof. apply bool_decide_eq_true. Qed.

Lemma inv_release_poll c : inv c -> inv (release_poll c).
Proof.
  intros [Hr Hw Hp]. unfold release_poll. destruct (ph c) eqn:Ep; try by split; rewrite ?Ep.
  - destruct (answered (r c)) eqn:Ea; [|by split; rewrite ?Ep].
    split; simpl; [done|by apply ok_begin|]. split; [|apply asked_begin0].
    by apply (ok_gone _ _ Hr), answered_true.
  - destruct (answered (w c)) eqn:Ea; [|by split; rewrite ?Ep].
    split; simpl; [done..|]. split; [by apply Hp|]. by apply (ok_gone _ _ Hw), answered_true.
Qed.

(** What every call of Python on a half keeps: call 0 takes the half, is not
    forgotten, and a half that was taken out stays out. *)
Definition keeps {T A} (a : A) (f : Part.state (T:=T) (A:=A) -> Part.state (T:=T) (A:=A)) : Prop :=
  forall s, ok a s ->
    ok a (f s) /\ (asked s -> asked (f s)) /\ (Part.value s = None -> Part.value (f s) = None).

Lemma keeps_begin {T A} (a : A) id k : keeps a (Part.begin (T:=T) (S id) k).
Proof.
  intros s Hs. split; [by apply ok_begin|]. split; [by apply asked_begin|].
  apply (Part.taken_step (Part.Begin (S id) k)), (ok_inv _ _ Hs).
Qed.
Lemma keeps_complete {T A} (a : A) : keeps a (Part.complete (T:=T)).
Proof.
  intros s Hs. pose proof (ok_inv _ _ Hs). split; [by apply ok_complete|].
  split; [by apply asked_complete|]. by apply (Part.taken_step Part.Complete).
Qed.
Lemma keeps_cancel {T A} (a : A) id t : keeps a (Part.cancel (T:=T) (S id) t).
Proof.
  intros s Hs. split; [by apply ok_cancel|]. split; [by apply asked_cancel|].
  apply (Part.taken_step (Part.Cancel (S id) t)), (ok_inv _ _ Hs).
Qed.

Lemma inv_on_read f c : keeps [] f -> inv c -> inv (mk_carrier (f (r c)) (w c) (ph c)).
Proof.
  intros Hf [Hr Hw Hp]. destruct (Hf _ Hr) as (H1 & H2 & H3). split; simpl; [done..|].
  destruct (ph c); naive_solver.
Qed.
Lemma inv_on_write f c : keeps tt f -> inv c -> inv (mk_carrier (r c) (f (w c)) (ph c)).
Proof.
  intros Hf [Hr Hw Hp]. destruct (Hf _ Hw) as (H1 & H2 & H3). split; simpl; [done..|].
  destruct (ph c); naive_solver.
Qed.

Lemma inv_act e c : inv c -> inv (act e c).
Proof.
  intros Hi. destruct e; simpl.
  1, 4, 6: by apply inv_on_read; auto using keeps_begin, keeps_complete, keeps_cancel.
  1-4: by apply inv_on_write; auto using keeps_begin, keeps_complete, keeps_cancel.
  destruct (ph c) eqn:Ep; [|exact Hi..]. destruct Hi as [Hr Hw _].
  split; simpl; [by apply ok_begin|done|apply asked_begin0].
Qed.

Lemma carrier_inv_run es c : inv c -> inv (run es c).
Proof.
  revert c. induction es as [|e es IH]; intros c Hc; [done|]. apply IH. by apply inv_release_poll, inv_act.
Qed.

Lemma ok_init {T A} (a : A) (t : T) : ok a (Part.init t).
Proof.
  split; [apply Part.init_inv| |]; simpl; [|by intros ?%elem_of_nil].
  intros k [Hx|Hx]; [done|by apply elem_of_nil in Hx].
Qed.

Lemma inv_new rh wh : inv (new rh wh).
Proof. split; simpl; [apply ok_init..|done]. Qed.

(** A half without its value has nothing running and nothing waiting. *)
Lemma gone_idle {T A} (a : A) (s : Part.state (T:=T) (A:=A)) :
  ok a s -> Part.value s = None -> Part.owner s = None /\ Part.pending s = [].
Proof.
  intros Hs Hv. destruct (ok_inv _ _ Hs) as [Hf Ht _]. specialize (Ht Hv). split; [done|].
  unfold Part.pending. by rewrite Ht, (Hf Ht).
Qed.

Lemma released_step e c : inv c -> ph c = Released -> ph (step c e) = Released.
Proof.
  intros Hi Hp. unfold step, release_poll.
  assert (ph (act e c) = Released) as Ha by (destruct e; simpl; rewrite ?Hp; done). by rewrite Ha.
Qed.

Lemma released_run es c : inv c -> ph c = Released -> ph (run es c) = Released.
Proof.
  revert c. induction es as [|e es IH]; intros c Hi Hp; [done|].
  apply IH; [by apply inv_release_poll, inv_act | by apply released_step].
Qed.

(** C30: once a carrier is released neither half is left, whatever Python still
    holds and calls: no operation on it is running or waiting, and every later
    [read], [write] and [shutdown] raises at once. *)
Theorem release_drops es rh wh es' :
  ph (run es (new rh wh)) = Released ->
  let c := run es' (run es (new rh wh)) in
  Part.value (r c) = None /\ Part.value (w c) = None /\
  Part.pending (r c) = [] /\ Part.pending (w c) = [] /\
  forall id,
    (forall n, Part.answers (r (act (Read id n) c)) = Part.answers (r c) ++ [(S id, Err released)]) /\
    (forall d, Part.answers (w (act (Write id d) c)) = Part.answers (w c) ++ [(S id, Err released)]) /\
    Part.answers (w (act (Shutdown id) c)) = Part.answers (w c) ++ [(S id, Err released)].
Proof.
  intros Hp c. pose proof (carrier_inv_run es _ (inv_new rh wh)) as Hi.
  pose proof (carrier_inv_run es' _ Hi) as [Hr Hw Hv]. rewrite released_run in Hv by done.
  destruct Hv as [Hv1 Hv2]. fold c in Hr, Hw, Hv1, Hv2.
  destruct (gone_idle _ _ Hr Hv1) as [Ho1 Hp1], (gone_idle _ _ Hw Hv2) as [Ho2 Hp2].
  split_and!; try done. intros id. simpl. unfold Part.begin. simpl. by rewrite Ho1, Ho2, Hv1, Hv2.
Qed.

(** Each operation that ends brings the release nearer. *)
Lemma release_nearer {T A} (a : A) (s : Part.state (T:=T) (A:=A)) :
  ok a s -> asked s -> answered (Part.complete s) = false ->
  (length (Part.pending (Part.complete s)) < length (Part.pending s))%nat.
Proof.
  intros [Hi _ _] Ha Hn. destruct (Part.owner s) as [o|] eqn:Eo.
  - exact (proj2 (Part.complete_owner s o Hi Eo)).
  - unfold Part.complete in Hn. rewrite Eo in Hn. apply not_true_iff_false in Hn. destruct Hn.
    apply answered_true. unfold asked, Part.pending in Ha.
    by rewrite Eo, (Part.inv_free _ Hi Eo), app_nil_r in Ha.
Qed.

Lemma finish_read n c :
  inv c -> ph c = OnRead -> (length (Part.pending (r c)) <= n)%nat ->
  exists k, ph (run (replicate k ReadDone) c) = OnWrite.
Proof.
  revert c. induction n as [n IH] using lt_wf_ind; intros c Hi Hp Hn.
  pose proof (inv_release_poll _ (inv_act ReadDone c Hi)) as Hi'.
  pose proof (inv_phase _ Hi) as Ha. rewrite Hp in Ha.
  destruct (answered (Part.complete (r c))) eqn:Ea.
  { exists 1%nat. simpl. unfold step, release_poll. simpl. by rewrite Hp, Ea. }
  pose proof (release_nearer _ _ (inv_r _ Hi) Ha Ea) as Hl.
  assert (step c ReadDone = mk_carrier (Part.complete (r c)) (w c) OnRead) as Hs
    by (unfold step, release_poll; simpl; by rewrite Hp, Ea).
  destruct (IH (length (Part.pending (Part.complete (r c)))) ltac:(lia) (step c ReadDone)) as [k Hk];
    [exact Hi'|by rewrite Hs|by rewrite Hs|]. by exists (S k).
Qed.

Lemma finish_write n c :
  inv c -> ph c = OnWrite -> (length (Part.pending (w c)) <= n)%nat ->
  exists k, ph (run (replicate k WriteDone) c) = Released.
Proof.
  revert c. induction n as [n IH] using lt_wf_ind; intros c Hi Hp Hn.
  pose proof (inv_release_poll _ (inv_act WriteDone c Hi)) as Hi'.
  pose proof (inv_phase _ Hi) as Ha. rewrite Hp in Ha. destruct Ha as [_ Ha].
  destruct (answered (Part.complete (w c))) eqn:Ea.
  { exists 1%nat. simpl. unfold step, release_poll. simpl. by rewrite Hp, Ea. }
  pose proof (release_nearer _ _ (inv_w _ Hi) Ha Ea) as Hl.
  assert (step c WriteDone = mk_carrier (r c) (Part.complete (w c)) OnWrite) as Hs
    by (unfold step, release_poll; simpl; by rewrite Hp, Ea).
  destruct (IH (length (Part.pending (Part.complete (w c)))) ltac:(lia) (step c WriteDone)) as [k Hk];
    [exact Hi'|by rewrite Hs|by rewrite Hs|]. by exists (S k).
Qed.

(** C31: a failed layer's carrier is released, and [wrap] returns the layer's
    error, once the operations that run and wait on its halves have ended in
    turn. *)
Theorem failed_layer_releases {A} es rh wh e (chan : Chan) :
  let c := run es (new rh wh) in
  ph c = Held ->
  exists i j,
    let c' := run (replicate i ReadDone ++ replicate j WriteDone) (wrap_end (Err e : PyResult A) c) in
    ph c' = Released /\ wrap_result chan (Err e : PyResult A) c' = Some (inr (py_io e)).
Proof.
  intros c Hp. assert (inv (step c Release)) as Hi by apply inv_release_poll, inv_act, carrier_inv_run, inv_new.
  assert (exists i, ph (run (replicate i ReadDone) (step c Release)) = OnWrite) as [i Hi1].
  { destruct (ph (step c Release)) eqn:Es.
    - exfalso. revert Es. unfold step, release_poll. simpl. rewrite Hp. simpl. by destruct (answered _).
    - by eapply finish_read.
    - by exists 0%nat.
    - exfalso. revert Es. unfold step, release_poll. simpl. rewrite Hp. simpl. by destruct (answered _). }
  destruct (finish_write _ _ (carrier_inv_run _ _ Hi) Hi1 (le_n _)) as [j Hj].
  exists i, j. simpl. unfold run in *. rewrite foldl_app, Hj. done.
Qed.

(** While a read of Python holds the read half, the release is not answered. *)
Lemma held_unanswered c id k :
  inv c -> Part.owner (r c) = Some (S id, k) ->
  answered (r c) = false /\ is_Some (Part.value (r c)).
Proof.
  intros [[Hri _ Hg] _ _] Ho. destruct (Part.value (r c)) eqn:Ev.
  - split; [|done]. apply not_true_iff_false. rewrite answered_true. by intros ?%Hg.
  - by rewrite (Part.inv_taken _ Hri Ev) in Ho.
Qed.

(** The read [id] neither ends nor is cancelled. *)
Definition leaves (id : nat) (ev : event) : Prop :=
  ev <> ReadDone /\ forall t, ev <> ReadCancelled id t.

Lemma held_step ev c id k :
  leaves id ev -> inv c -> ph c = OnRead -> Part.owner (r c) = Some (S id, k) ->
  ph (step c ev) = OnRead /\ Part.owner (r (step c ev)) = Some (S id, k).
Proof.
  intros [Hd Hc] Hi Hp Ho.
  assert (ph (act ev c) = OnRead /\ Part.owner (r (act ev c)) = Some (S id, k)) as [Hp2 Ho2].
  { destruct ev; simpl; rewrite ?Hp; split; try done.
    - unfold Part.begin. simpl. by rewrite Ho.
    - unfold Part.cancel. rewrite Ho. case_decide as E; [|done]. injection E as ->. by destruct (Hc t). }
  destruct (held_unanswered _ _ _ (inv_act ev c Hi) Ho2) as [Ha _].
  unfold step, release_poll. by rewrite Hp2, Ha.
Qed.

Lemma held_run es c id k :
  Forall (leaves id) es -> inv c -> ph c = OnRead -> Part.owner (r c) = Some (S id, k) ->
  ph (run es c) = OnRead /\ Part.owner (r (run es c)) = Some (S id, k).
Proof.
  intros Hes. revert c. induction Hes as [|ev es Hev Hes IH]; intros c Hi Hp Ho; [done|].
  destruct (held_step ev c id k Hev Hi Hp Ho) as [Hp2 Ho2].
  apply IH; [by apply inv_release_poll, inv_act|done..].
Qed.

(** But the release waits for an operation in progress: while a [read] of
    the layer holds the read half and neither ends nor is cancelled, whatever
    else happens, the carrier stays open and [wrap] does not return. *)
Theorem failed_layer_waits_for_read {A} es rh wh e (chan : Chan) id k es' :
  let c := run es (new rh wh) in
  ph c = Held -> Part.owner (r c) = Some (S id, k) -> Forall (leaves id) es' ->
  let c' := run es' (wrap_end (Err e : PyResult A) c) in
  wrap_result chan (Err e : PyResult A) c' = None /\ is_Some (Part.value (r c')).
Proof.
  intros c Hp Ho Hes. assert (inv c) as Hi by apply carrier_inv_run, inv_new.
  assert (Part.owner (r (act Release c)) = Some (S id, k)) as Ho1
    by (simpl; rewrite Hp; simpl; unfold Part.begin; simpl; by rewrite Ho).
  destruct (held_unanswered _ _ _ (inv_act Release c Hi) Ho1) as [Ha _].
  assert (step c Release = act Release c) as Hs
    by (unfold step, release_poll; rewrite Ha; simpl; by rewrite Hp).
  simpl. rewrite Hs.
  destruct (held_run es' (act Release c) id k) as (Hp2 & Ho2);
    [done|by apply inv_act|simpl; by rewrite Hp|done|].
  rewrite Hp2. split; [done|]. eapply held_unanswered; [|exact Ho2]. by apply carrier_inv_run, inv_act.
Qed.
End carrier.

(** *** A carrier whose peer sent one byte *)
Module Example.
#[global] Instance txt : NativeErr unit :=
  { display _ := "gone"; debug _ := "Gone"; is_retryable _ := false }.
Definition read_half (n : Z) (b : bytes) : bytes * (bytes + unit) :=
  ([], inl (firstn (Z.to_nat n) b)).
Definition write_all (d : bytes) (out : bytes) : bytes * (unit + unit) := (out ++ d, inl tt).
Definition no_op (out : bytes) : bytes * (unit + unit) := (out, inl tt).
Abbreviation run_ex := (run read_half write_all no_op no_op).
Abbreviation carrier_ex := (carrier (Rh:=bytes) (Wh:=bytes)).
Definition reading : carrier_ex := run_ex [Read 3 65536] (new [Byte.x61] []).
Definition failure : pyerr := new_err PyRuntimeError [Lit "handshake failed"].
End Example.

Lemma release_drops_witness :
  let c := Example.run_ex [Write 1 [Byte.x62]] (Example.run_ex
    [Read 3 65536; Release; ReadDone; ReadDone; WriteDone] (new [Byte.x61] [])) in
  Part.value (r c) = None /\ Part.answers (w c) = [(0%nat, Ok tt); (2%nat, Err released)].
Proof.
  intros c. split; [|reflexivity].
  exact (proj1 (release_drops Example.read_half Example.write_all Example.no_op Example.no_op
    [Read 3 65536; Release; ReadDone; ReadDone; WriteDone] [Byte.x61] [] [Write 1 [Byte.x62]] eq_refl)).
Defined.

Lemma failed_layer_releases_witness :
  exists i j, let c' := Example.run_ex (replicate i ReadDone ++ replicate j WriteDone)
    (wrap_end Example.read_half Example.write_all Example.no_op Example.no_op
       (Err Example.failure : PyResult unit) Example.reading) in
  ph c' = Released /\
  wrap_result (fun _ => tt) (fun _ => EmptyString) tt (Err Example.failure : PyResult unit) c' = Some (inr tt).
Proof.
  exact (failed_layer_releases Example.read_half Example.write_all Example.no_op Example.no_op
    (fun _ => tt) (fun _ => EmptyString) [Read 3 65536] [Byte.x61] [] Example.failure tt eq_refl).
Defined.

Lemma failed_layer_waits_for_read_witness :
  wrap_result (fun _ => tt) (fun _ => EmptyString) tt (Err Example.failure : PyResult unit)
    (Example.run_ex [Write 1 [Byte.x62]; WriteDone; Read 4 10]
       (wrap_end Example.read_half Example.write_all Example.no_op Example.no_op
          (Err Example.failure : PyResult unit) Example.reading)) = None.
Proof.
  refine (proj1 (failed_layer_waits_for_read Example.read_half Example.write_all Example.no_op
    Example.no_op (fun _ => tt) (fun _ => EmptyString) [Read 3 65536] [Byte.x61] [] Example.failure tt 3
    (read_call Example.read_half 65536) [Write 1 [Byte.x62]; WriteDone; Read 4 10] eq_refl eq_refl _)).
  repeat constructor; discriminate.
Defined.
End Halves.
