(* ===== verification/Admission.v ===== *)
(** Carrier admission and credentials (src/src/admission.rs): the exporter
    protocol between a Python call and the thread that holds the carrier
    ([with_info], [CarrierInfo::export]), the decider written in Python
    ([PyDecide]), its verdicts, and client credentials. *)
From S2P Require Import Prelude Duration Pyo3.
Open Scope Z_scope.

(** ** The exporter

    [with_info] runs the call [f] on a scoped thread that is given a view of
    the carrier, and answers the view's exporter requests from a channel until
    the call's [Done]; Python may keep the view, and use it from any thread, as
    long as it likes.  A step is one action of one of these threads. *)
Module Exporter.

Inductive Ask := Export (request : nat) | Done.

(** The scoped thread: in [f], after it sent [Done], or unwound by a panic. *)
Inductive caller := InCall | Returned | Panicked.

(** The thread of [with_info]: in the loop, waiting to join the call, or gone,
    which drops the receiver. *)
Inductive server := Serving | Joining | Left.

Record state := mk_state {
  queue : list Ask;
  call : caller;
  serve : server;
  view : bool;  (** a reference to the view, and with it a sender, is alive *)
  asked : list nat;  (** history: the calls of [export], in order *)
  answers : list (nat * bool);  (** what they returned: the exporter's value, or [None] *)
}.

(** The calls of [export] that have not returned. *)
Definition waiting (s : state) : list nat := filter (fun r => r ∉ (answers s).*1) (asked s).

Definition init : state := mk_state [] InCall Serving true [] [].

(** [CarrierInfo.export]: the request is sent, with the channel of its answer, or
    the receiver is gone. *)
Definition export (r : nat) (s : state) : state :=
  match serve s with
  | Left => mk_state (queue s) (call s) (serve s) (view s) (asked s ++ [r]) (answers s ++ [(r, false)])
  | _ => mk_state (queue s ++ [Export r]) (call s) (serve s) (view s) (asked s ++ [r]) (answers s)
  end.

(** The end of [f]: [Done] is sent, or the thread unwinds and its sender is
    dropped. *)
Definition returns (s : state) : state :=
  mk_state (queue s ++ [Done]) Returned (serve s) (view s) (asked s) (answers s).
Definition panics (s : state) : state :=
  mk_state (queue s) Panicked (serve s) (view s) (asked s) (answers s).

(** The last reference to the view is dropped. *)
Definition forget (s : state) : state :=
  mk_state (queue s) (call s) (serve s) false (asked s) (answers s).

(** No sender is left: [recv] of an empty queue fails. *)
Definition hung_up (s : state) : bool :=
  negb (view s) && match call s with InCall => false | _ => true end.

(** One turn of the loop, [None] while [recv] blocks. *)
Definition turn (s : state) : option state :=
  match queue s with
  | Export r :: q => Some (mk_state q (call s) Serving (view s) (asked s) (answers s ++ [(r, true)]))
  | Done :: q => Some (mk_state q (call s) Joining (view s) (asked s) (answers s))
  | [] =>
      if hung_up s then Some (mk_state [] (call s) Joining (view s) (asked s) (answers s)) else None
  end.

Definition requests (q : list Ask) : list nat := omap (fun a => match a with Export r => Some r | Done => None end) q.

(** The return of [with_info]: the receiver is dropped with what is queued, and
    with each request in it the sender of its answer: it gets [None]. *)
Definition leave (s : state) : state :=
  mk_state [] (call s) Left (view s) (asked s) (answers s ++ map (fun r => (r, false)) (requests (queue s))).

Inductive step : state -> state -> Prop :=
  | step_export s r : view s = true -> r ∉ asked s -> step s (export r s)
  | step_return s : call s = InCall -> step s (returns s)
  | step_panic s : call s = InCall -> step s (panics s)
  | step_forget s : view s = true -> waiting s = [] -> step s (forget s)
  | step_serve s s' : serve s = Serving -> turn s = Some s' -> step s s'
  | step_leave s : serve s = Joining -> call s <> InCall -> step s (leave s).

Definition reachable (s : state) : Prop := steps step init s.

(** Each request asked is answered or in the queue, once; once the loop is over,
    the call is. *)
Record inv (s : state) : Prop := {
  inv_asked : asked s ≡ₚ (answers s).*1 ++ requests (queue s);
  inv_nodup : NoDup (asked s);
  inv_done : In Done (queue s) -> call s = Returned;
  inv_returned : call s = Returned -> serve s = Serving -> In Done (queue s);
  inv_over : serve s <> Serving -> call s <> InCall;
  inv_left : serve s = Left -> queue s = [];
}.

Lemma requests_app q1 q2 : requests (q1 ++ q2) = requests q1 ++ requests q2.
Proof. apply omap_app. Qed.

Lemma turn_inv s s' : serve s = Serving -> turn s = Some s' -> inv s -> inv s'.
Proof.
  intros Hs Ht [Hw Hn Hd Hr Ho Hl]. unfold turn in Ht. destruct (queue s) as [|[r|] q] eqn:Eq.
  - destruct (hung_up s) eqn:Eh; [|done]. injection Ht as <-. split; simpl; try done.
    unfold hung_up in Eh. by destruct (call s), (view s).
  - injection Ht as <-. simpl in Hw. split; simpl; try done.
    + by rewrite Hw, fmap_app, <- app_assoc.
    + intros Hin. apply Hd. by right.
    + intros Hc _. destruct (Hr Hc Hs) as [?|?]; [done|done].
  - injection Ht as <-. assert (call s = Returned) as Hc by (apply Hd; by left).
    split; simpl; [done|done|done|done|congruence|done].
Qed.

Lemma exporter_step_inv s s' : inv s -> step s s' -> inv s'.
Proof.
  intros Hi Hst. destruct Hst as [s r Hv Hr1|s Hc|s Hc|s Hv Hw|s s' Hs Ht|s Hs Hc].
  5: by eapply turn_inv.
  all: destruct Hi as [Hw' Hn Hd Hr Ho Hl].
  - assert (NoDup (asked s ++ [r])) as Hn' by (rewrite Permutation_app_comm; by constructor).
    assert (forall q, In Done (q ++ [Export r]) <-> In Done q) as Hin.
    { intros q. rewrite in_app_iff. simpl. naive_solver. }
    unfold export. destruct (serve s) eqn:Es.
    3: { split; simpl; rewrite ?fmap_app, ?Es; auto. rewrite Hw'. simpl. solve_Permutation. }
    all: split; simpl; rewrite ?Hin, ?Es; auto; try congruence; by rewrite requests_app, Hw', <- app_assoc.
  - split; simpl; rewrite ?requests_app, ?app_nil_r, ?in_app_iff; simpl; auto.
    intros Hs. assert (call s <> InCall) by (apply Ho; congruence). done.
  - split; simpl; auto; [|congruence]. intros H%Hd. congruence.
  - split; simpl; auto.
  - split; simpl; [|done|done|congruence|by intros _|done].
    rewrite fmap_app, app_nil_r. rewrite <- list_fmap_compose. simpl. by rewrite list_fmap_id.
Qed.

Lemma exporter_reachable_inv s : reachable s -> inv s.
Proof.
  intros Hr. eapply steps_invariant; [exact exporter_step_inv|exact Hr|].
  split; simpl; try done. constructor.
Qed.

(** Those waiting are those in the queue. *)
Lemma waiting_queued s : inv s -> waiting s ≡ₚ requests (queue s).
Proof.
  intros [Hw Hn _ _ _ _]. unfold waiting. pose proof Hn as Hn'. rewrite Hw in Hn'.
  apply NoDup_app in Hn' as (_ & Hd & Hq). rewrite Hw, filter_app.
  assert (forall l, (forall r, r ∈ l -> r ∈ (answers s).*1) -> filter (fun r => r ∉ (answers s).*1) l = []) as H1.
  { induction l as [|x l IH]; intros Hl; [done|]. rewrite filter_cons_False by (intros Hx; apply Hx, Hl; by left).
    apply IH. intros r Hr. apply Hl. by right. }
  assert (forall l : list nat, (forall r, r ∈ l -> r ∉ (answers s).*1) -> filter (fun r => r ∉ (answers s).*1) l = l) as H2.
  { induction l as [|x l IH]; intros Hl; [done|]. rewrite filter_cons_True by (apply Hl; by left).
    f_equal. apply IH. intros r Hr. apply Hl. by right. }
  rewrite H1, H2; [done|intros r Hr Ha; by apply (Hd r)|done].
Qed.

(** What is left of [with_info] once the call returned: turns of the loop, then
    the join. *)
Fixpoint finish (n : nat) (s : state) : state :=
  match serve s with
  | Left => s
  | Joining => leave s
  | Serving =>
      match n with
      | O => s
      | S n => match turn s with Some s' => finish n s' | None => s end
      end
  end.

(** C16: every exporter request is answered exactly once.  In every state
    reached the calls of [export] made so far, no two the same, are those that
    returned and those whose request is in the queue, which are the ones
    waiting; a request is answered with the exporter's value only by the loop,
    while [with_info] serves, and with [None] otherwise; once [with_info]
    returned every call made has its one answer, and a call on a view that
    Python kept returns [None] at once. *)
Theorem exporter_each_answered s :
  reachable s ->
  NoDup (asked s) /\ asked s ≡ₚ (answers s).*1 ++ requests (queue s) /\ waiting s ≡ₚ requests (queue s) /\
  (forall s' r, step s s' -> (r, true) ∈ answers s' -> (r, true) ∈ answers s \/
     serve s = Serving /\ exists q, queue s = Export r :: q) /\
  (serve s = Left -> asked s ≡ₚ (answers s).*1 /\ forall r, answers (export r s) = answers s ++ [(r, false)]).
Proof.
  intros Hi%exporter_reachable_inv. pose proof Hi as [Hw Hn _ _ _ Hl]. split; [done|]. split; [done|].
  split; [by apply waiting_queued|]. split.
  - intros s' r Hst Hr. destruct Hst as [s r' Hv Hr1|s Hc|s Hc|s Hv Hw'|s s' Hs Ht|s Hs Hc]; simpl in Hr; try by left.
    + unfold export in Hr. destruct (serve s); simpl in Hr; try by left.
      apply elem_of_app in Hr as [?|Hr%list_elem_of_singleton]; [by left|done].
    + unfold turn in Ht. destruct (queue s) as [|[r'|] q] eqn:Eq; [case_match; [|done]|..]; injection Ht as <-; simpl in Hr; try by left.
      apply elem_of_app in Hr as [?|[= ->]%list_elem_of_singleton]; [by left|right; eauto].
    + apply elem_of_app in Hr as [?|(x & [= ] & _)%list_elem_of_fmap]. by left.
  - intros Hs. rewrite Hw, (Hl Hs). simpl. rewrite app_nil_r. split; [done|]. intros r. unfold export. by rewrite Hs.
Qed.

Lemma finish_served n s :
  inv s -> call s = Returned -> (length (queue s) <= n)%nat ->
  steps step s (finish n s) /\ serve (finish n s) = Left.
Proof.
  revert s. induction n as [|n IH]; intros s Hi Hc Hn.
  all: destruct (serve s) eqn:Es.
  all: try (by simpl; rewrite Es; split; [constructor|]).
  all: try (simpl; rewrite Es; split; [|done]; apply steps_one, step_leave; [done|congruence]).
  all: pose proof (inv_returned _ Hi Hc Es) as Hin.
  - destruct (queue s); [done|simpl in Hn; lia].
  - simpl. rewrite Es. destruct (queue s) as [|a q] eqn:Eq; [done|].
    assert (exists s', turn s = Some s' /\ call s' = Returned /\ queue s' = q) as (s' & Ht & Hc' & Hq).
    { unfold turn. rewrite Eq. destruct a; eexists; (split; [reflexivity|]); simpl; done. }
    rewrite Ht. assert (step s s') as Hstep by (by apply step_serve).
    destruct (IH s') as [H1 H2]; [by eapply exporter_step_inv|done|rewrite Hq; simpl in Hn; lia|].
    split; [|done]. by eapply steps_cons.
Qed.

(** C17: once the Python call returned, [with_info] returns, whatever requests
    are still queued and although Python may keep the view: at most the
    requests queued before [Done] are served, and then the receiver goes. *)
Theorem exporter_returns s :
  reachable s -> call s = Returned ->
  let s' := finish (length (queue s)) s in
  steps step s s' /\ serve s' = Left /\ waiting s' = [].
Proof.
  intros Hr Hc. pose proof (exporter_reachable_inv s Hr) as Hi.
  destruct (finish_served (length (queue s)) s Hi Hc ltac:(lia)) as [H1 H2]. split; [done|]. split; [done|].
  assert (inv (finish (length (queue s)) s)) as Hf
    by (eapply steps_invariant; [exact exporter_step_inv|exact H1|exact Hi]).
  pose proof (waiting_queued _ Hf) as Hw. rewrite (inv_left _ Hf H2) in Hw. by apply Permutation_nil_r in Hw.
Qed.

(** A call that unwound left no [Done], and while the view lives the channel
    stays open. *)
Definition stuck (s : state) : Prop :=
  call s = Panicked /\ ~ In Done (queue s) /\ (view s = true -> serve s = Serving).

Lemma exporter_stuck_step s s' : stuck s -> step s s' -> stuck s'.
Proof.
  intros (Hc & Hd & Hv) Hst.
  destruct Hst as [s r Hvw _|s Hc'|s Hc'|s Hvw Hw|s s' Hs Ht|s Hs Hc']; try congruence.
  - unfold export. rewrite (Hv Hvw). repeat split; simpl; auto. rewrite in_app_iff. simpl. naive_solver.
  - by repeat split.
  - unfold turn, hung_up in Ht. rewrite Hc in Ht. unfold stuck.
    destruct (queue s) as [|[r|] q] eqn:Eq; simpl in Hd.
    2: injection Ht as <-; simpl; split; [done|]; split; [|done]; intros ?; apply Hd; by right.
    2: exfalso; apply Hd; by left.
    destruct (view s) eqn:Ev; [done|]. simpl in Ht. injection Ht as <-. simpl. split; [done|]. by split; [|congruence].
  - repeat split; simpl; auto. intros Hvw. apply Hv in Hvw. congruence.
Qed.

(** A panic of the call is not always reported: when the call unwinds while
    Python keeps the view it was given, [with_info] never gets past its loop
    for as long as the view lives, whatever else happens, instead of returning
    the error "the call panicked". *)
Theorem exporter_panic_hangs :
  exists s, reachable s /\ call s = Panicked /\
    forall s', steps step s s' -> view s' = true -> serve s' = Serving.
Proof.
  exists (panics init). split; [by apply steps_one, step_panic|]. split; [done|].
  intros s' Hs. assert (stuck s') as (_ & _ & H); [|done].
  eapply steps_invariant; [exact exporter_stuck_step|exact Hs|].
  split; [done|]. split; [intros []|done].
Qed.

Lemma exporter_each_answered_witness :
  asked (export 0 init) ≡ₚ (answers (export 0 init)).*1 ++ requests (queue (export 0 init)).
Proof.
  apply (exporter_each_answered (export 0 init)).
  apply steps_one, step_export; [reflexivity|apply not_elem_of_nil].
Defined.

Lemma exporter_returns_witness :
  serve (finish 3 (returns (export 1 (export 0 init)))) = Left.
Proof.
  apply (exporter_returns (returns (export 1 (export 0 init)))); [|reflexivity].
  eapply steps_cons; [apply (step_export _ 0); [reflexivity|apply not_elem_of_nil]|].
  eapply steps_cons; [apply (step_export _ 1); [reflexivity|simpl; set_solver]|].
  apply steps_one, step_return. reflexivity.
Defined.
End Exporter.

(** ** Verdicts *)
Section verdicts.
Context {P : Py}.

Inductive V :=
  | Accept (skip : Z) (value : option obj)
  | Fallback | Stall | Close.

(** [zmux::Verdict]: [accept(skip)], with a value or without. *)
Inductive NativeVerdict :=
  | NAccept (skip : Z) (value : option obj)
  | NFallback | NStall | NClose.

Definition native (v : V) : NativeVerdict :=
  match v with
  | Accept skip value => NAccept skip value
  | Fallback => NFallback
  | Stall => NStall
  | Close => NClose
  end.

(** [Verdict.accept], and the getters. *)
Definition accept (skip : Z) (value : option obj) : V := Accept skip value.
Definition verdict_skip (v : V) : option Z := match v with Accept skip _ => Some skip | _ => None end.
Definition verdict_value (v : V) : option obj := match v with Accept _ value => value | _ => None end.

(** [__eq__]: [py_eq] compares two Python objects, and may raise; [None] is an
    object that is no verdict. *)
Definition verdict_eq (py_eq : obj -> obj -> PyResult bool) (a : V) (b : option V) : PyResult bool :=
  match b with
  | None => Ok false
  | Some b =>
      match a, b with
      | Accept s x, Accept t y =>
          if s =? t then
            match x, y with
            | None, None => Ok true
            | Some x, Some y => py_eq x y
            | _, _ => Ok false
            end
          else Ok false
      | Fallback, Fallback | Stall, Stall | Close, Close => Ok true
      | _, _ => Ok false
      end
  end.

(** ** The decider

    [Loop] is an event loop.  [called] is the outcome of the call of the Python
    decider: [inl] an I/O error of [with_info], [inr] what Python returned or
    raised; [resolve] is the result of a coroutine run on a loop, and
    [into_future] whether it could be started there. *)
Context {Loop : Type}.
Context (as_verdict : obj -> PyResult V).
Context (into_future : Loop -> obj -> PyResult unit) (resolve : Loop -> obj -> PyResult obj).

(** The loop taken by the admission: a [OnceLock]. *)
Definition once_set {A} (cell : option A) (a : A) : option A :=
  match cell with Some a => Some a | None => Some a end.

Record PyDecide := mk_decide { locals : option Loop }.

(** The decider of [Admission::new], made with the loop [running], if one is. *)
Definition decide_new (running : option Loop) : PyDecide :=
  match running with
  | Some l => mk_decide (once_set None l)
  | None => mk_decide None
  end.

(** Its cell when a listener is made ([Admission::for_listener]). *)
Definition for_listener (running : option Loop) (d : PyDecide) : PyDecide :=
  match running with
  | Some l => mk_decide (once_set (locals d) l)
  | None => d
  end.

Inductive Started := Value (v : obj) | Ready (r : PyResult obj) | Coroutine (l : Loop) (v : obj).

Definition no_loop : pyerr :=
  new_err PyValueError [Lit "an async decide needs its Listener made inside a running event loop"].

(** [PyDecide::start]. *)
Definition decide_start (d : PyDecide) (called : string + PyResult obj) : Started :=
  match called with
  | inl io => Ready (Err (new_err PyValueError [Disp io]))
  | inr (Ok v) =>
      if match hasattr v "__await__" with Ok b => b | Err _ => false end then
        match locals d with
        | None => Ready (Err no_loop)
        | Some l =>
            match into_future l v with
            | Ok _ => Coroutine l v
            | Err e => Ready (Err e)
            end
        end
      else Value v
  | inr (Err e) => Ready (Err e)
  end.

(** [PyDecide::verdict]: the verdict, and what is reported as unraisable. *)
Definition decide_verdict (r : PyResult obj) : NativeVerdict * list pyerr :=
  match (v ← r; v ← as_verdict v; Ok (native v)) with
  | Ok v => (v, [])
  | Err e => (NClose, [e])
  end.

Definition decide (d : PyDecide) (called : string + PyResult obj) : NativeVerdict * list pyerr :=
  match decide_start d called with
  | Value v => decide_verdict (Ok v)
  | Ready r => decide_verdict r
  | Coroutine l v => decide_verdict (resolve l v)
  end.

(** What the decider's answer is, where it has one. *)
Definition answer (d : PyDecide) (called : string + PyResult obj) : option obj :=
  match called with
  | inr (Ok v) =>
      if match hasattr v "__await__" with Ok b => b | Err _ => false end then
        l ← locals d;
        match into_future l v, resolve l v with
        | Ok _, Ok o => Some o
        | _, _ => None
        end
      else Some v
  | _ => None
  end.

(** C15: admission fails closed: a carrier is admitted, handed to the fallback or
    stalled only on a [Verdict] that the decider itself returned, or that its
    coroutine resolved to, and exactly as that verdict says; an exception, a
    value that is no [Verdict], a coroutine without a loop and an I/O failure
    close the carrier and are reported, once. *)
Theorem decide_fails_closed d called :
  match answer d called with
  | Some o =>
      match as_verdict o with
      | Ok v => decide d called = (native v, [])
      | Err e => decide d called = (NClose, [e])
      end
  | None => exists e, decide d called = (NClose, [e])
  end.
Proof.
  unfold decide, decide_start, decide_verdict, answer. destruct called as [io|[v|e]]; [by eexists| |by eexists].
  destruct (hasattr v "__await__") as [[]|]; simpl.
  2, 3: by destruct (as_verdict v).
  destruct (locals d) as [l|]; simpl; [|by eexists].
  destruct (into_future l v) as [[]|e]; [|by eexists].
  destruct (resolve l v) as [o|e]; simpl; [by destruct (as_verdict o)|by eexists].
Qed.

Definition with_listeners (ls : list (option Loop)) (d : PyDecide) : PyDecide :=
  fold_left (fun d l => for_listener l d) ls d.

Lemma with_listeners_kept ls l d : locals d = Some l -> locals (with_listeners ls d) = Some l.
Proof.
  revert d. induction ls as [|[x|] ls IH]; intros d Hd; simpl; auto. apply IH. simpl. by rewrite Hd.
Qed.

(** An [async] decider keeps to one event loop: the first one running when the
    admission or a listener with it was made; later listeners, on whatever
    loop, do not change it. *)
Theorem decider_loop_first ls r :
  locals (with_listeners ls (decide_new r)) = head (omap id (r :: ls)).
Proof.
  destruct r as [l|]; simpl; [by apply with_listeners_kept|].
  induction ls as [|[x|] ls IH]; simpl; [done| |done]. by apply with_listeners_kept.
Qed.

(** ** Timers and credentials *)

(** The native admission and its builders. *)
Context {NAdmission : Type} (with_decider : Z -> PyDecide -> NAdmission).
Context {PrefixAuth : Type} (prefix_verifier : PrefixAuth -> Z -> Z -> NAdmission).
Context (with_peek_timeout : Duration -> NAdmission -> NAdmission).
Context (with_stall_interval : Duration -> Duration -> NAdmission -> NAdmission).

Record Admission := mk_admission { inner : NAdmission; decider : option PyDecide }.

Definition with_times (a : NAdmission) (d : option PyDecide) (peek_timeout : option f64)
    (stall : option (f64 * f64)) : PyResult Admission :=
  a ← match peek_timeout with
      | Some t => t ← seconds "peek_timeout" t; Ok (with_peek_timeout t a)
      | None => Ok a
      end;
  a ← match stall with
      | Some (min, max) =>
          min ← seconds "stall" min; max ← seconds "stall" max; Ok (with_stall_interval min max a)
      | None => Ok a
      end;
  Ok (mk_admission a d).

(** [Admission::new] and [Admission.prefix_auth] (its verifier made of the
    shared parameters, [skew] and [max_nonces]). *)
Definition admission_new (running : option Loop) (peek : Z) (peek_timeout : option f64)
    (stall : option (f64 * f64)) : PyResult Admission :=
  let d := decide_new running in
  with_times (with_decider peek d) (Some d) peek_timeout stall.

Definition prefix_auth (auth : PrefixAuth) (skew max_nonces : Z) (peek_timeout : option f64)
    (stall : option (f64 * f64)) : PyResult Admission :=
  with_times (prefix_verifier auth skew max_nonces) None peek_timeout stall.

(** [Admission::for_listener]: the admission it gives a listener made with the
    loop [running], if one is; the decider's cell is shared with it. *)
Definition admission_for_listener (running : option Loop) (a : Admission) : Admission :=
  mk_admission (inner a) (for_listener running <$> decider a).

(** [credential]: a [PrefixAuth] object ([as_prefix]), or one with the two
    methods. *)
Inductive Credential (Auth : Type) := PrefixCredential (a : Auth) | PythonCredential (o : obj).
#[global] Arguments PrefixCredential {Auth} a.
#[global] Arguments PythonCredential {Auth} o.

Definition credential_err : pyerr :=
  new_err PyValueError [Lit "a credential is a PrefixAuth or has prefix(info) and header(info) methods"].

Definition credential {Auth} (as_prefix : obj -> option Auth) (o : option obj) :
    PyResult (option (Credential Auth)) :=
  match o with
  | None => Ok None
  | Some o =>
      match as_prefix o with
      | Some a => Ok (Some (PrefixCredential a))
      | None =>
          b ← hasattr o "prefix";
          b ← (if b : bool then hasattr o "header" else Ok false);
          if b : bool then Ok (Some (PythonCredential o)) else Err credential_err
      end
  end.

(** [http_client_options] (src/src/lib.rs): an HTTP carrier does not see the
    TLS layer, so a credential bound to it is refused. *)
Definition bind_tls_err : pyerr :=
  new_err PyValueError [Lit "HTTP carriers take tokens without bind_tls"].

Record HttpOptions (Auth : Type) := mk_http_options {
  http_path : string;
  http_credential : option (Credential Auth);
}.
#[global] Arguments mk_http_options {Auth} _ _.

Definition http_client_options {Auth} (as_prefix : obj -> option Auth) (binds_tls : Auth -> bool)
    (path : string) (c : option obj) : PyResult (HttpOptions Auth) :=
  _ ← raise_if (match c ≫= as_prefix with Some a => binds_tls a | None => false end) bind_tls_err;
  cr ← credential as_prefix c;
  Ok (mk_http_options path cr).

(** An HTTP carrier never carries a token bound to a TLS layer it does not
    see: the options are made only with no credential, with an unbound
    [PrefixAuth], or with an object that has both methods; anything else
    raises. *)
Theorem http_credential_unbound {Auth} (as_prefix : obj -> option Auth) binds_tls path c o :
  http_client_options as_prefix binds_tls path c = Ok o ->
  http_path _ o = path /\
  match http_credential _ o with
  | None => c = None
  | Some (PrefixCredential a) => exists p, c = Some p /\ as_prefix p = Some a /\ binds_tls a = false
  | Some (PythonCredential p) =>
      c = Some p /\ as_prefix p = None /\ hasattr p "prefix" = Ok true /\ hasattr p "header" = Ok true
  end.
Proof.
  unfold http_client_options, credential. intros H. py_inv. subst o. simpl. split; [done|].
  destruct c as [p|]; simpl in *; [|by py_inv; subst].
  destruct (as_prefix p) as [a|] eqn:Ea; [py_inv; subst; by eauto|].
  destruct (hasattr p "prefix") as [[]|] eqn:E1; simpl in *; py_inv; try done.
  destruct (hasattr p "header") as [[]|] eqn:E2; simpl in *; py_inv; simplify_eq/=; try done.
Qed.
End verdicts.

(** A [PrefixAuth] that is not bound to TLS, given to an HTTP dial. *)
Lemma http_credential_unbound_witness :
  exists o, http_client_options (P:=PyVal.pyval_py)
    (fun v => match v with PyVal.VInt n => Some n | _ => None end) (fun n => n =? 7)
    "/zmux" (Some (PyVal.VInt 3)) = Ok o /\ http_path _ o = "/zmux".
Proof.
  eexists. split; [reflexivity|].
  apply (http_credential_unbound (P:=PyVal.pyval_py)
    (fun v => match v with PyVal.VInt n => Some n | _ => None end) (fun n => n =? 7)
    "/zmux" (Some (PyVal.VInt 3))). reflexivity.
Defined.
