(* ===== verification/CarrierView.v ===== *)
(** What a Python decider, credential or transform is shown of a carrier
    (src/src/admission.rs, src/src/layer.rs): the view [CarrierInfo] made by
    [with_info], the value an admission gives a carrier, credentials written in
    Python, and the error of a transform. *)
From S2P Require Import Prelude Duration Pyo3 Admission.
Open Scope Z_scope.

(** ** [CarrierInfo] *)

(** The native metadata: addresses, the request's header where the carrier has
    one, and the TLS exporter where it has a handshake. *)
Record NativeInfo (Addr : Type) := mk_native_info {
  ni_source : option Addr;
  ni_peer : option Addr;
  ni_alpn : option bytes;
  ni_server_name : option string;
  ni_request : option (list (string * bytes));
  ni_head : bool;
  ni_exporter : option (bytes -> bytes -> Z -> option bytes);
}.
Arguments mk_native_info {Addr} _ _ _ _ _ _ _.
Arguments ni_source {Addr} _.
Arguments ni_peer {Addr} _.
Arguments ni_alpn {Addr} _.
Arguments ni_server_name {Addr} _.
Arguments ni_request {Addr} _.
Arguments ni_head {Addr} _.
Arguments ni_exporter {Addr} _.

(** The view; [exporter]: a channel to the thread that holds the carrier. *)
Record CarrierInfo := mk_info {
  source : option (string * Z);
  peer : option (string * Z);
  alpn : option bytes;
  server_name : option string;
  headers : option (list (string * bytes));
  head : bool;
  exporter : bool;
}.

Section view.
Context {Addr : Type}.
(** An address as [(host, port)]. *)
Context (host_port : Addr -> string * Z).

(** The view [with_info] makes; its exporter only when the carrier has one. *)
Definition view_of (i : NativeInfo Addr) : CarrierInfo :=
  mk_info (host_port <$> ni_source i) (host_port <$> ni_peer i) (ni_alpn i) (ni_server_name i)
    (ni_request i) (ni_head i) (bool_decide (is_Some (ni_exporter i))).

(** [CarrierInfo.__repr__]. *)
Definition info_repr (dbg_addr : option (string * Z) -> string) (dbg_name : option string -> string) (v : CarrierInfo) : msg :=
  [Lit "CarrierInfo(source="; Disp (dbg_addr (source v)); Lit ", peer="; Disp (dbg_addr (peer v));
   Lit ", server_name="; Disp (dbg_name (server_name v)); Lit ", head=";
   Disp (if head v then "true" else "false"); Lit ")"].

(** [CarrierInfo::export] while the call runs (the protocol of [Exporter]
    answers it): the carrier's exporter, [None] without one. *)
Definition export_value (i : NativeInfo Addr) (v : CarrierInfo) (label context : bytes) (len : Z) : option bytes :=
  if exporter v then ni_exporter i ≫= (fun e => e label context len) else None.

(** [with_info]: without an exporter [f] is called here; with one, on a thread of
    its own ([spawned]: whether that could be started, [panicked]: the call
    unwound). *)
Definition with_info {R IoErr} (spawn : option IoErr) (panicked : bool) (panic_err : IoErr)
    (i : NativeInfo Addr) (f : CarrierInfo -> R) : R + IoErr :=
  match ni_exporter i with
  | None => inl (f (view_of i))
  | Some _ =>
      match spawn with
      | Some e => inr e
      | None => if panicked then inr panic_err else inl (f (view_of i))
      end
  end.

(** ** Admitted values

    An [AdmittedValue] is a value of any type behind a pointer; the binding puts
    Python objects there, other code may put others. *)
Context {P : Py}.
Inductive AdmittedValue := PyAdmitted (o : obj) | OtherAdmitted (id : nat).

Definition admitted_obj (v : option AdmittedValue) : option obj :=
  match v with Some (PyAdmitted o) => Some o | _ => None end.

(** The value of a native verdict, as a listener keeps it for the carrier. *)
Definition native_value (v : NativeVerdict) : option AdmittedValue :=
  match v with NAccept _ (Some o) => Some (PyAdmitted o) | _ => None end.

(** The class attributes and [__repr__] of [Verdict]; [repr] is Python's. *)
Definition FALLBACK : V := Fallback.
Definition STALL : V := Stall.
Definition CLOSE : V := Close.
Definition verdict_repr (decimal : Z -> string) (repr : obj -> PyResult string) (v : V) : PyResult msg :=
  match v with
  | Accept skip None => Ok [Lit "Verdict.accept("; Disp (decimal skip); Lit ")"]
  | Accept skip (Some o) =>
      r ← repr o; Ok [Lit "Verdict.accept("; Disp (decimal skip); Lit ", value="; Disp r; Lit ")"]
  | Fallback => Ok [Lit "Verdict.FALLBACK"]
  | Stall => Ok [Lit "Verdict.STALL"]
  | Close => Ok [Lit "Verdict.CLOSE"]
  end.

(** The object a decider gives [Verdict.accept] is the one [Session.admitted],
    [Pipe.admitted] and [PipeHint.admitted] give back; nothing else is. *)
Theorem admitted_roundtrip skip value v :
  admitted_obj (native_value (native (accept skip value))) = value /\
  (is_Some (admitted_obj (native_value (native v))) -> exists s, verdict_skip v = Some s) /\
  (forall i, admitted_obj (Some (OtherAdmitted i)) = None).
Proof. destruct v as [s [o|]| | |], value as [x|]; repeat split; simpl; eauto; by intros [? ?]. Qed.

(** ** Credentials *)

(** [PrefixAuth::new]: [make] is the zmux crate's constructor, which needs a
    key and a slot. *)
Definition prefix_auth_new {Auth} (make : bytes -> Duration -> bool -> option Auth) (with_header : string -> Auth -> Auth)
    (psk : bytes) (slot : Z) (bind_tls : bool) (header : option string) : PyResult Auth :=
  a ← ok_or (make psk (from_secs slot) bind_tls)
        (new_err PyValueError [Lit "prefix authentication needs a non-empty psk and slot > 0"]);
  Ok (match header with Some h => with_header h a | None => a end).

(** [PyCredential::call]: the method called with the view, its result
    extracted; any Python error becomes an I/O error of its text. *)
Definition credential_call {R IoErr} (spawn : option IoErr) (panicked : bool) (panic_err : IoErr)
    (other : pyerr -> IoErr) (call_method : obj -> string -> CarrierInfo -> PyResult obj)
    (c : obj) (method : string) (i : NativeInfo Addr) (extract : obj -> PyResult R) : R + IoErr :=
  match with_info spawn panicked panic_err i (fun v => r ← call_method c method v; extract r) with
  | inr e => inr e
  | inl (Ok r) => inl r
  | inl (Err e) => inr (other e)
  end.

Section python_credential.
Context {IoErr : Type} (panic_err : IoErr) (other : pyerr -> IoErr).
Context (call_method : obj -> string -> CarrierInfo -> PyResult obj).
Context (extract_header : obj -> PyResult (string * string)).
Definition cred_prefix spawn panicked (c : obj) (i : NativeInfo Addr) : bytes + IoErr :=
  credential_call spawn panicked panic_err other call_method c "prefix" i extract_bytes.
Definition cred_header spawn panicked (c : obj) (i : NativeInfo Addr) : (string * string) + IoErr :=
  credential_call spawn panicked panic_err other call_method c "header" i extract_header.

(** A Python credential presents what its method returned for this carrier, and
    nothing when the method raised or returned something else. *)
Lemma credential_presents spawn panicked c i b :
  cred_prefix spawn panicked c i = inl b ->
  exists r, call_method c "prefix" (view_of i) = Ok r /\ extract_bytes r = Ok b.
Proof.
  unfold cred_prefix, credential_call, with_info.
  destruct (call_method c "prefix" (view_of i)) as [r|e] eqn:E; simpl;
    destruct (ni_exporter i), spawn, panicked; simpl; try done;
    destruct (extract_bytes r) eqn:Er; try done; intros [= <-]; eauto.
Qed.
End python_credential.
End view.

(** ** The error of an inbound transform ([layer::transform])

    The listener sees one I/O error; the exception is reported as unraisable,
    unless it is the cancellation of the transform itself. *)
Definition transform_end {io} (cancelled : pyerr -> bool) (r : PyResult io) : (io + string) * list pyerr :=
  match r with
  | Ok i => (inl i, [])
  | Err e => (inr "inbound transform failed", if cancelled e then [] else [e])
  end.

(** ** What an [Admission] and a [PrefixAuth] tell about themselves

    Over the native readers. *)
Class AdmissionReads (NAdmission PrefixAuth : Type) := {
  r_peek : NAdmission -> Z;
  r_peek_timeout : NAdmission -> Duration;
  r_stall_interval : NAdmission -> Duration * Duration;
  r_binds_tls : PrefixAuth -> bool;
  r_header_name : PrefixAuth -> string;
}.
Section reads.
Context {N A : Type} `{AdmissionReads N A}.
Definition peek (a : N) : Z := r_peek a.
Definition peek_timeout (a : N) : f64 := as_secs_f64 (r_peek_timeout a).
Definition stall (a : N) : f64 * f64 :=
  let '(min, max) := r_stall_interval a in (as_secs_f64 min, as_secs_f64 max).
Definition prefix_auth_repr (a : A) : msg :=
  [Lit "PrefixAuth(bind_tls="; Lit (if r_binds_tls a then "True" else "False"); Lit ", header=";
   Dbg (r_header_name a); Lit ")"].
End reads.
