(* ===== verification/Mode.v ===== *)
(** Carrier modes (src/src/mode.rs): the policy of an auto mode, the cache of
    carrier kinds, candidates and the modes made of them. *)
From S2P Require Import Prelude Duration Pyo3 Shaping.
Open Scope Z_scope.

(** The policy; [p_cache] is the cache the choices are remembered in. *)
Record ModePolicy (Cache : Type) := mk_policy {
  p_cache : option Cache;
  p_key : string;
  p_timer_factor : f64;
  p_timer_min : Duration;
  p_timer_max : Duration;
  p_settle : Duration;
  p_drop_window : Duration;
  p_no_join : bool;
}.
Arguments mk_policy {Cache} _ _ _ _ _ _ _ _.

Definition factor_err : pyerr := new_err PyValueError [Lit "timer_factor is a non-negative finite number"].

Section mode.
Context {Cache Kind Candidate : Type}.
Context (from_name : string -> option Kind).

(** [policy]. *)
Definition policy (cache : option Cache) (key : string)
    (timer_factor timer_min timer_max settle drop_window : f64) (no_join : bool) :
    PyResult (ModePolicy Cache) :=
  _ ← raise_if (negb (is_finite timer_factor && f64_le f64_zero timer_factor)) factor_err;
  tmin ← mode_dur "timer_min" timer_min;
  tmax ← mode_dur "timer_max" timer_max;
  st ← mode_dur "settle" settle;
  dw ← mode_dur "drop_window" drop_window;
  Ok (mk_policy cache key timer_factor tmin tmax st dw no_join).

(** [CarrierCache::new]: the durations given to the native cache. *)
Definition cache_new (success_ttl backoff_min backoff_max : f64) :
    PyResult (Duration * Duration * Duration) :=
  a ← seconds "success_ttl" success_ttl;
  b ← seconds "backoff_min" backoff_min;
  c ← seconds "backoff_max" backoff_max;
  Ok (a, b, c).

(** [kind], and the cache's questions by a kind's name. *)
Definition kind (name : string) : PyResult Kind :=
  ok_or (from_name name) (new_err PyValueError [Lit "unknown carrier kind "; Dbg name]).
Definition is_usable (native : string -> Kind -> bool) (key carrier : string) : PyResult bool :=
  k ← kind carrier; Ok (native key k).
Definition is_failed (native : string -> Kind -> bool) (key carrier : string) : PyResult bool :=
  k ← kind carrier; Ok (native key k).

(** [CarrierCache::restore]: [parse] is the snapshot's parser, [merge] the
    native merge. *)
Definition restore {Snapshot} (parse : string -> Snapshot + string) (merge : Snapshot -> Cache -> Cache)
    (text : string) (c : Cache) : Cache * PyResult unit :=
  match parse text with
  | inl s => (merge s c, Ok tt)
  | inr e => (c, Err (new_err PyValueError [Disp e]))
  end.

(** [Mode]. *)
Inductive Mode := Explicit (c : Candidate) | Auto (cs : list Candidate).

Definition mode_explicit (c : Candidate) : Mode := Explicit c.
Definition mode_auto (cs : list Candidate) : PyResult Mode :=
  match cs with
  | [] => Err (new_err PyValueError [Lit "auto mode without a candidate"])
  | _ => Ok (Auto cs)
  end.
Definition is_auto (m : Mode) : bool := match m with Auto _ => true | Explicit _ => false end.
Definition candidates (m : Mode) : list Candidate :=
  match m with Explicit c => [c] | Auto cs => cs end.

(** [CarrierCache::snapshot], and the text of a mode: its kind and its
    candidates' names, most preferred first. *)
Definition snapshot {Snapshot} (take : Cache -> Snapshot) (to_json : Snapshot -> string) (c : Cache) : string :=
  to_json (take c).
Definition mode_repr (kind_name : Candidate -> string) (m : Mode) : string :=
  ("Mode." ++ (if is_auto m then "auto" else "explicit") ++ "(" ++
     String.concat ", " (kind_name <$> candidates m) ++ ")")%string.

(** [dial_mode]: the configuration and the policy are read first; [dial] is the
    native dial, whose failure lists every candidate tried; [result_obj] makes
    the Python object of one try, and may raise. *)
Definition dial_mode {Config Session Result} (config : PyResult Config)
    (pol : PyResult (ModePolicy Cache)) (m : Mode)
    (dial : Mode -> Config -> ModePolicy Cache -> Session + (string * list Result))
    (result_obj : Result -> PyResult string) : PyResult Session :=
  c ← config;
  p ← pol;
  match dial m c p with
  | inl s => Ok s
  | inr (text, results) =>
      rs ← foldr (fun r acc => o ← result_obj r; os ← acc; Ok (o :: os)) (Ok []) results;
      Err (new_err ModeError (Disp text :: map Disp rs))
  end.

(** Whether a policy's numbers are valid. *)
Definition policy_valid (factor tmin tmax st dw : f64) : bool :=
  is_finite factor && f64_le f64_zero factor && secs_ok tmin && secs_ok tmax && secs_ok st && secs_ok dw.

Lemma mode_dur_ok name v :
  match mode_dur name v with
  | Ok d => secs_ok v = true /\ try_from_secs_f64 v = Some d
  | Err e => secs_ok v = false /\ e = new_err PyValueError (secs_msg name)
  end.
Proof.
  unfold mode_dur. destruct (try_from_secs_f64 v) as [d|] eqn:E; simpl.
  - split; [|done]. apply try_from_secs_f64_is_some. eauto.
  - split; [|done]. destruct (secs_ok v) eqn:Es; [|done].
    apply try_from_secs_f64_is_some in Es. by rewrite E in Es; destruct Es.
Qed.

(** The policy of a mode is made exactly from valid numbers, a finite
    non-negative factor and four durations of [0, 2^64) s: then it holds them
    all, with the cache, the key and [no_join] as given; any other number, NaN
    included, raises [ValueError]. *)
Theorem mode_policy_checked cache key factor tmin tmax st dw no_join :
  match policy cache key factor tmin tmax st dw no_join with
  | Ok p =>
      policy_valid factor tmin tmax st dw = true /\
      p_cache _ p = cache /\ p_key _ p = key /\ p_no_join _ p = no_join /\ p_timer_factor _ p = factor /\
      try_from_secs_f64 tmin = Some (p_timer_min _ p) /\ try_from_secs_f64 tmax = Some (p_timer_max _ p) /\
      try_from_secs_f64 st = Some (p_settle _ p) /\ try_from_secs_f64 dw = Some (p_drop_window _ p)
  | Err e => policy_valid factor tmin tmax st dw = false /\ e_class e = PyValueError
  end.
Proof.
  unfold policy, policy_valid, raise_if. destruct (is_finite factor && f64_le f64_zero factor); simpl; [|done].
  pose proof (mode_dur_ok "timer_min" tmin) as H1. destruct (mode_dur "timer_min" tmin) as [d1|e]; destruct H1 as [-> H1]; simpl; [|by subst].
  pose proof (mode_dur_ok "timer_max" tmax) as H2. destruct (mode_dur "timer_max" tmax) as [d2|e]; destruct H2 as [-> H2]; simpl; [|by subst].
  pose proof (mode_dur_ok "settle" st) as H3. destruct (mode_dur "settle" st) as [d3|e]; destruct H3 as [-> H3]; simpl; [|by subst].
  pose proof (mode_dur_ok "drop_window" dw) as H4. destruct (mode_dur "drop_window" dw) as [d4|e]; destruct H4 as [-> H4]; simpl; [|by subst].
  done.
Qed.
End mode.
