(* ===== verification/Pool.v ===== *)
(** Keeping pipes up (src/src/pool.rs): the decisions of a pool policy asked
    from Python, the decisions Python makes itself, and the pools. *)
From S2P Require Import Prelude Duration Pyo3 PipeOptions Mode.
Open Scope Z_scope.

(** [Duration::from_secs_f64] panics where [try_from_secs_f64] fails; PyO3
    raises a panic of a method as [PanicException]. *)
Definition panic : pyerr := new_err PanicException [Lit "cannot convert float seconds to Duration"].
Definition from_secs_f64 (v : f64) : PyResult Duration := ok_or (try_from_secs_f64 v) panic.

Record PoolMember := mk_member {
  m_id : Z;
  m_age : Duration;
  m_idle : Duration;
  m_pipes : Z;
  m_bytes_sent : Z;
  m_bytes_received : Z;
}.

Record PoolPolicyDecision := mk_decision {
  d_count : option Z;
  d_dial_after : option f64;
  d_retire : list Z;
  d_recheck : option f64;
  d_probe_interval : option f64;
  d_probe_jitter : option f64;
}.

(** [MemberDecision]: a policy's own answer. *)
Record MemberDecision := mk_member_decision {
  o_count : option Z;
  o_dial_after : option f64;
  o_retire : list Z;
  o_recheck : option Duration;
  o_probe_interval : option f64;
  o_probe_jitter : option f64;
}.

(** Python's view of it. *)
Definition decision_of (o : MemberDecision) : PoolPolicyDecision :=
  mk_decision (o_count o) (o_dial_after o) (o_retire o) (dur (o_recheck o)) (o_probe_interval o)
    (o_probe_jitter o).

Definition bad_metric (x : f64) : bool := negb (is_finite x) || f64_lt x f64_zero.
Definition metric_err (k : string) : pyerr :=
  new_err PyValueError [Lit "member "; Disp k; Lit " is a finite non-negative number"].
Definition since_err : pyerr := new_err PyValueError [Lit "since_dial is a finite non-negative number"].
Definition no_id_err : pyerr := new_err PyValueError [Lit "member without an id"].

Section decide.
Context {P : Py}.
(** A member is a [dict]: [get_item] of each key. *)
Abbreviation member := (string -> PyResult (option obj)).

Definition metric (d : member) (k : string) : PyResult f64 :=
  o ← d k;
  match o with
  | None => Ok f64_zero
  | Some v => x ← extract_f64 v; if bad_metric x then Err (metric_err k) else Ok x
  end.

(** The body of the loop of [PoolPolicy.decide]. *)
Definition read_member (d : member) : PyResult PoolMember :=
  i ← d "id";
  i ← ok_or i no_id_err;
  id ← extract_u64 i;
  a ← metric d "age"; age ← from_secs_f64 a;
  b ← metric d "idle"; idle ← from_secs_f64 b;
  p ← metric d "pipes";
  s ← metric d "bytes_sent";
  r ← metric d "bytes_received";
  Ok (mk_member id age idle (count p) (count s) (count r)).

Fixpoint read_members (ds : list member) : PyResult (list PoolMember) :=
  match ds with
  | [] => Ok []
  | d :: ds => m ← read_member d; ms ← read_members ds; Ok (m :: ms)
  end.

Definition read_since (s : option f64) : PyResult (option Duration) :=
  match s with
  | Some x => if bad_metric x then Err since_err else Some <$> from_secs_f64 x
  | None => Ok None
  end.

(** [PoolPolicy.decide]: [native] is the policy's own decision, on its state. *)
Definition decide {State} (native : Z -> option Duration -> list PoolMember -> State -> MemberDecision * State)
    (failures : Z) (members : list member) (since_dial : option f64) (st : State) :
    PyResult PoolPolicyDecision * State :=
  match (ms ← read_members members; since ← read_since since_dial; Ok (ms, since)) with
  | Err e => (Err e, st)
  | Ok (ms, since) => let '(d, st) := native failures since ms st in (Ok (decision_of d), st)
  end.

Lemma from_secs_f64_panics x : secs_ok x = false -> from_secs_f64 x = Err panic.
Proof.
  unfold from_secs_f64. destruct (try_from_secs_f64 x) as [d|] eqn:E; [|done].
  intros Hs. assert (secs_ok x = true) by (apply try_from_secs_f64_is_some; eauto). congruence.
Qed.

(** A time that passes the policy's own checks can still panic: for every
    finite non-negative number of seconds from 2^64 on, given as [since_dial] or
    as [age] of a member, the call dies in [Duration::from_secs_f64]
    ([PanicException]) where a [ValueError] is documented; below 2^64 the
    policy decides with it, and an error never changes the policy's state. *)
Theorem decide_large_time_panics {State}
    (native : Z -> option Duration -> list PoolMember -> State -> MemberDecision * State)
    failures (st : State) x :
  bad_metric x = false ->
  decide native failures [] (Some x) st =
    (if secs_ok x
     then let '(d, st') := native failures (try_from_secs_f64 x) [] st in (Ok (decision_of d), st')
     else (Err panic, st)) /\
  (forall d ds since i id, d "id" = Ok (Some i) -> extract_u64 i = Ok id -> metric d "age" = Ok x ->
   secs_ok x = false -> decide native failures (d :: ds) since st = (Err panic, st)).
Proof.
  intros Hx. split.
  - unfold decide. simpl. rewrite Hx. destruct (secs_ok x) eqn:E.
    + apply try_from_secs_f64_is_some in E as [d Hd]. unfold from_secs_f64. rewrite Hd. done.
    + by rewrite from_secs_f64_panics.
  - intros d ds since i id Hi Hid Ha Hs. unfold decide. cbn [read_members].
    unfold read_member. rewrite Hi. simpl. rewrite Hid. simpl. rewrite Ha. simpl.
    by rewrite from_secs_f64_panics.
Qed.
End decide.

(** ** Decisions made in Python *)

Definition interval_err : pyerr := new_err PyValueError [Lit "probe_interval is 0 or at least 1 s"].
Definition jitter_err : pyerr := new_err PyValueError [Lit "probe_jitter is in [0, 1)"].

(** [PoolPolicyDecision::new]; [interval_ok] and [jitter_ok] are the native
    setters' checks. *)
Section decisions.
Context (interval_ok : Period -> bool) (jitter_ok : f64 -> bool).

Fixpoint check_times (ts : list (string * option f64)) : PyResult unit :=
  match ts with
  | [] => Ok tt
  | (name, v) :: ts =>
      _ ← raise_if (match v with Some v => bad_metric v | None => false end) (new_err PyValueError (secs_msg name));
      check_times ts
  end.

Definition check_interval (i : f64) : PyResult unit :=
  p ← (if f64_eq i f64_zero then Ok Off
       else Every <$> ok_or (try_from_secs_f64 i) interval_err);
  raise_if (negb (interval_ok p)) interval_err.

Definition decision_new (count : option Z) (dial_after : option f64) (retire : list Z)
    (recheck probe_interval probe_jitter : option f64) : PyResult PoolPolicyDecision :=
  _ ← check_times [("dial_after", dial_after); ("recheck", recheck)];
  _ ← (match probe_interval with Some i => check_interval i | None => Ok tt end);
  _ ← (match probe_jitter with
       | Some j => raise_if (negb (jitter_ok j)) jitter_err
       | None => Ok tt
       end);
  Ok (mk_decision count dial_after retire recheck probe_interval probe_jitter).
End decisions.

(** 2^64 seconds. *)
Lemma decide_large_time_panics_witness :
  bad_metric (f64_of_Z (2 ^ 64)) = false /\
  decide (P:=PyVal.pyval_py) (fun _ _ _ (n : nat) => (mk_member_decision None None [] None None None, n))
    0 [] (Some (f64_of_Z (2 ^ 64))) 5%nat = (Err panic, 5%nat).
Proof.
  assert (bad_metric (f64_of_Z (2 ^ 64)) = false) as Hx by (vm_compute; reflexivity).
  split; [exact Hx|].
  rewrite (proj1 (decide_large_time_panics (P:=PyVal.pyval_py)
    (fun _ _ _ (n : nat) => (mk_member_decision None None [] None None None, n)) 0 5%nat _ Hx)).
  vm_compute. reflexivity.
Defined.

(** ** Pools *)
Section pools.
Context {P : Py}.
Context {Cache Kind Candidate Policy : Type}.
Context (new : PipeOptions) (validate : PipeOptions -> bool).
(** [PoolPolicy::of]: a policy object, or one read from JSON; and the zmux
    crate's check of a mode under a policy ([PipePool::mode]), when the pool is
    made and again when it is maintained. *)
Context (policy_of : obj -> PyResult Policy).
Abbreviation Mode := (Mode (Candidate:=Candidate)).
Context (mode_check mode_check_again : Mode -> ModePolicy Cache -> option string).

Record Rotate := mk_rotate { r_jitter : f64; r_max_bytes : option Z; r_max_age : option Duration }.

Record PipePool := mk_pool {
  pool_count : Z;
  pool_dial : option obj;
  pool_join : option obj;
  pool_mode : option (Mode * ModePolicy Cache);
  pool_options : PipeOptions;
  pool_rotate : option Rotate;
  pool_policy : option Policy;
  pool_rejected : option obj;
}.

Definition jitter_range_err : pyerr := new_err PyValueError [Lit "rotate_jitter is between 0 and 1"].
Definition one_of_err : pyerr := new_err PyTypeError [Lit "PipePool takes one of dial and join"].

Definition build (count : Z) (dial join : option obj) (mode : option (Mode * ModePolicy Cache))
    (rotate_max_bytes : option Z) (rotate_max_age : option f64) (rotate_jitter : f64)
    (pool_policy options decision_rejected : option obj) : PyResult PipePool :=
  _ ← raise_if (negb (f64_le f64_zero rotate_jitter && f64_le rotate_jitter f64_one)) jitter_range_err;
  age ← map_transpose (fun a =>
          ok_or (try_from_secs_f64 a) (new_err PyValueError (secs_msg "rotate_max_age"))) rotate_max_age;
  let rotate :=
    match rotate_max_bytes, age with
    | None, None => None
    | _, _ => Some (mk_rotate rotate_jitter rotate_max_bytes age)
    end in
  o ← pipe_options new validate options;
  p ← map_transpose policy_of pool_policy;
  Ok (mk_pool count dial join mode o rotate p decision_rejected).

Definition is_some {A} (o : option A) : bool := match o with Some _ => true | None => false end.

(** [PipePool(...)] and [PipePool.mode(...)]. *)
Definition pool_new (count : Z) (dial join : option obj) (rotate_max_bytes : option Z)
    (rotate_max_age : option f64) (rotate_jitter : f64)
    (pool_policy options decision_rejected : option obj) : PyResult PipePool :=
  _ ← raise_if (Bool.eqb (is_some dial) (is_some join)) one_of_err;
  build count dial join None rotate_max_bytes rotate_max_age rotate_jitter pool_policy options decision_rejected.

Definition pool_mode_new (mode : Mode) (count : Z) (pol : PyResult (ModePolicy Cache))
    (rotate_max_bytes : option Z) (rotate_max_age : option f64) (rotate_jitter : f64)
    (pool_policy options decision_rejected : option obj) : PyResult PipePool :=
  pol ← pol;
  _ ← (match mode_check mode pol with
       | Some m => Err (new_err PyValueError [Disp m])
       | None => Ok tt
       end);
  build count None None (Some (mode, pol)) rotate_max_bytes rotate_max_age rotate_jitter
    pool_policy options decision_rejected.

(** [PipePool::native]: how the members are dialled.  The two [expect]s are
    panics. *)
Inductive Dialer := ByMode (m : Mode) (p : ModePolicy Cache) | ByJoin (f : obj) | ByDial (f : obj).

Record NativePool := mk_native {
  n_dialer : Dialer;
  n_count : Z;
  n_options : PipeOptions;
  n_rotate : option Rotate;
  n_policy : option Policy;
  n_rejected : option obj;
}.

Definition pool_native (p : PipePool) : PyResult NativePool :=
  d ← match pool_mode p with
      | Some (m, pol) =>
          match mode_check_again m pol with
          | Some _ => Err (new_err PanicException [Lit "checked when the pool was made"])
          | None => Ok (ByMode m pol)
          end
      | None =>
          match pool_join p with
          | Some f => Ok (ByJoin f)
          | None =>
              match pool_dial p with
              | Some f => Ok (ByDial f)
              | None => Err (new_err PanicException [Lit "a dial or a join"])
              end
          end
      end;
  Ok (mk_native d (pool_count p) (pool_options p) (pool_rotate p) (pool_policy p) (pool_rejected p)).

(** [maintain]: needs a running event loop. *)
Definition maintain (locals : PyResult unit) (p : PipePool) : PyResult NativePool :=
  _ ← map_err (fun _ => new_err PyRuntimeError [Lit "maintain_pipes needs a running event loop"]) locals;
  pool_native p.

(** A rotation that does something, with a jitter that is a fraction. *)
Definition rotate_ok (r : Rotate) : Prop :=
  f64_le f64_zero (r_jitter r) = true /\ f64_le (r_jitter r) f64_one = true /\
  is_some (r_max_bytes r) || is_some (r_max_age r) = true.

(** What a pool is to do besides dialling, by the arguments it was made with. *)
Definition as_given (count : Z) (mb : option Z) (ma : option f64) (j : f64) (pp o dr : option obj) (n : NativePool) : Prop :=
  n_count n = count /\ pipe_options new validate o = Ok (n_options n) /\
  map_transpose policy_of pp = Ok (n_policy n) /\ n_rejected n = dr /\
  match n_rotate n with
  | Some r => rotate_ok r /\ r_jitter r = j /\ r_max_bytes r = mb /\ r_max_age r = (a ← ma; try_from_secs_f64 a)
  | None => mb = None /\ ma = None
  end.

Lemma build_spec count dial join mode mb ma j pp o dr p :
  build count dial join mode mb ma j pp o dr = Ok p ->
  pool_dial p = dial /\ pool_join p = join /\ pool_mode p = mode /\
  forall d, as_given count mb ma j pp o dr
    (mk_native d (pool_count p) (pool_options p) (pool_rotate p) (pool_policy p) (pool_rejected p)).
Proof using Type.
  unfold build. intros (u & Hj & H)%bind_ok_inv.
  apply bind_ok_inv in H as (age & Ha & H). py_inv. subst p. simpl.
  apply negb_false_iff, andb_true_iff in Hj as [Hj0 Hj1]. split_and!; try done. intros d.
  assert (age = (a ← ma; try_from_secs_f64 a)) as ->.
  { apply map_transpose_ok_inv in Ha. destruct ma as [a|]; [|done]. destruct Ha as (y & Hy & ->). simpl.
    by destruct (try_from_secs_f64 a); simplify_eq/=. }
  unfold as_given. cbn [n_count n_options n_policy n_rejected n_rotate]. split_and!; try done.
  destruct ma as [a|]; simpl in *; [destruct (try_from_secs_f64 a); simpl in Ha; [|done]|]; by destruct mb.
Qed.

(** C34: a pool that was made can be maintained, and does what it was made
    with: the maintainer of a [PipePool] dials with the [dial] it was given, or
    joins with its [join], exactly one of them, and that of [PipePool.mode] with
    the mode and the policy given; each keeps the count of members, the pipe
    options, the pool policy, the report of rejected decisions and the rotation
    given, which has a limit to rotate at and a jitter in [0, 1].  Neither of the
    [expect]s of [native] can fail, provided that the zmux crate accepts a mode
    and policy again that it accepted when the pool was made. *)
Theorem pool_can_be_maintained :
  (forall m pol, mode_check m pol = None -> mode_check_again m pol = None) ->
  (forall count dial join mb ma j pp o dr p, pool_new count dial join mb ma j pp o dr = Ok p ->
     exists n, maintain (Ok tt) p = Ok n /\ as_given count mb ma j pp o dr n /\
       match dial, join with
       | Some f, None => n_dialer n = ByDial f
       | None, Some f => n_dialer n = ByJoin f
       | _, _ => False
       end) /\
  (forall mode count pol mb ma j pp o dr p, pool_mode_new mode count pol mb ma j pp o dr = Ok p ->
     exists n k, maintain (Ok tt) p = Ok n /\ as_given count mb ma j pp o dr n /\
       pol = Ok k /\ n_dialer n = ByMode mode k).
Proof.
  intros Hagain. split.
  - intros count dial join mb ma j pp o dr p H. unfold pool_new in H. py_inv.
    apply build_spec in H as (Hd & Hj & Hm & Hr).
    unfold maintain, pool_native. simpl. rewrite Hm, Hj, Hd. destruct dial, join; simpl in *; try done;
      (eexists; split; [reflexivity|]; split; [apply Hr|done]).
  - intros mode count pol mb ma j pp o dr p H. unfold pool_mode_new in H. py_inv. subst.
    destruct (mode_check mode _) eqn:Ec; [done|]. apply build_spec in H as (Hd & Hj & Hm & Hr).
    unfold maintain, pool_native. simpl. rewrite Hm, (Hagain _ _ Ec). do 2 eexists. split; [reflexivity|].
    split; [apply Hr|done].
Qed.
End pools.

(** A pool of three members with a [dial] callable and a byte limit. *)
Definition sample_pool : PyResult (PipePool (P:=PyVal.pyval_py) (Cache:=unit) (Candidate:=unit) (Policy:=unit)) :=
  pool_new (P:=PyVal.pyval_py) sample_options (fun _ => true) (fun _ => Ok tt) 3
    (Some (PyVal.VStr "dial")) None (Some 1000) None f64_zero None None None.

Lemma pool_can_be_maintained_witness :
  exists p n, sample_pool = Ok p /\
    maintain (P:=PyVal.pyval_py) (fun _ _ => None) (Ok tt) p = Ok n /\ n_count n = 3 /\
    n_dialer n = ByDial (P:=PyVal.pyval_py) (PyVal.VStr "dial").
Proof.
  assert (exists p, sample_pool = Ok p) as (p & Hp) by (eexists; reflexivity).
  destruct (proj1 (pool_can_be_maintained (P:=PyVal.pyval_py) (Cache:=unit) (Candidate:=unit) (Policy:=unit)
    sample_options (fun _ => true) (fun _ => Ok tt) (fun _ _ => None) (fun _ _ => None) (fun _ _ h => h))
    _ _ _ _ _ _ _ _ _ p Hp) as (n & Hn & Hg & Hd).
  exists p, n. exact (conj Hp (conj Hn (conj (proj1 Hg) Hd))).
Defined.

(** ** Policies (src/src/pool.rs, [json_bytes], [PoolPolicy])

    The native policies live in a store: a [PoolPolicy] object and every pool
    given it hold the same one. *)
Section policies.
Context {P : Py} {Policy D : Type}.
(** The casts of an object, [json.dumps], and the shaping crate's parser. *)
Context (as_bytes : obj -> option bytes) (is_dict : obj -> bool) (json_dumps : obj -> PyResult obj).
Context (parse : bytes -> Policy + string) (as_policy : obj -> option nat).

Definition utf8 (s : string) : bytes := String.list_byte_of_string s.

Definition json_bytes (json : obj) : PyResult bytes :=
  if is_str json then utf8 <$> extract_str json
  else
    match as_bytes json with
    | Some b => Ok b
    | None =>
        if is_dict json then s ← json_dumps json; utf8 <$> extract_str s
        else Err (new_err PyValueError [Lit "pool policy JSON is str, bytes or dict"])
    end.

(** [PoolPolicy::parse], a new policy; [PoolPolicy::of], which shares that of an
    object; [Shared::decide], which moves it on. *)
Definition policy_parse (json : obj) (st : list Policy) : PyResult nat * list Policy :=
  match json_bytes json with
  | Err e => (Err e, st)
  | Ok b =>
      match parse b with
      | inl p => (Ok (length st), st ++ [p])
      | inr e => (Err (new_err PyValueError [Disp e]), st)
      end
  end.
Definition policy_of (o : obj) (st : list Policy) : PyResult nat * list Policy :=
  match as_policy o with
  | Some i => (Ok i, st)
  | None => policy_parse o st
  end.
Definition shared_decide (f : Policy -> Policy * D) (i : nat) (st : list Policy) : option D * list Policy :=
  match st !! i with
  | Some p => let '(p, d) := f p in (Some d, <[i := p]> st)
  | None => (None, st)
  end.

(** Pools given the same [PoolPolicy] share its state: a decision made for one
    is seen by the others, and by the object; a policy read from JSON again is
    another one, and a text that does not parse makes none. *)
Theorem policies_shared o i st f p :
  as_policy o = Some i -> st !! i = Some p ->
  let '(d, st') := shared_decide f i st in
  policy_of o st' = (Ok i, st') /\ d = Some (f p).2 /\ st' !! i = Some (f p).1 /\
  forall json,
    match policy_parse json st with
    | (Ok j, st2) => j <> i /\ st2 !! i = Some p /\ is_Some (st2 !! j)
    | (Err _, st2) => st2 = st
    end.
Proof.
  intros Ho Hi. unfold shared_decide. rewrite Hi. destruct (f p) as [p' d] eqn:Ef. simpl.
  pose proof (lookup_lt_Some _ _ _ Hi). split_and!; try done.
  - unfold policy_of. by rewrite Ho.
  - by apply list_lookup_insert_eq.
  - intros json. unfold policy_parse. destruct (json_bytes json) as [b|e]; [|done].
    destruct (parse b) as [q|e]; [|done]. split_and!; [lia|by apply lookup_app_l_Some|].
    rewrite lookup_app_r, Nat.sub_diag by lia. by eexists.
Qed.
End policies.

(** *** Text of a decision ([PoolPolicyDecision.__repr__]) *)
Definition opt_text {A} (show : A -> string) (v : option A) : piece :=
  match v with Some v => Disp (show v) | None => Lit "None" end.
Definition decision_repr (int : Z -> string) (float : f64 -> string) (ids : list Z -> string) (d : PoolPolicyDecision) : msg :=
  [Lit "PoolPolicyDecision(count="; opt_text int (d_count d); Lit ", dial_after="; opt_text float (d_dial_after d);
   Lit ", retire="; Disp (ids (d_retire d)); Lit ", recheck="; opt_text float (d_recheck d);
   Lit ", probe_interval="; opt_text float (d_probe_interval d); Lit ", probe_jitter=";
   opt_text float (d_probe_jitter d); Lit ")"].

(** ** [MaintainHandle]

    The native maintainer, over its two calls; what it adds stays in the
    session. *)
Class NativeMaintainer (H : Type) := { m_stop : H -> H; m_is_finished : H -> bool }.
Definition stop {H} `{NativeMaintainer H} (h : H) : H := m_stop h.
Definition finished {H} `{NativeMaintainer H} (h : H) : bool := m_is_finished h.
