(* ===== verification/Tls.v ===== *)
(** TLS settings (src/src/lib.rs, [TlsConfig]): what is kept of the arguments,
    and the rustls configurations built from it for each carrier. *)
From S2P Require Import Prelude.
Open Scope Z_scope.

(** [TlsConfig]. *)
Record TlsConfig := mk_tls {
  t_cert : option bytes;
  t_key : option bytes;
  t_ca : option bytes;
  t_verify : bool;
  t_alpn : list bytes;
}.

(** [Pem]: a [str] argument is a path, a [bytes] argument PEM text. *)
Inductive Pem := PemPath (p : string) | PemData (d : bytes).

Definition string_bytes (s : string) : bytes := String.list_byte_of_string s.

Definition pem_err (e : string) : pyerr := new_err PyValueError [Lit "invalid PEM: "; Disp e].
Definition value_err (e : string) : pyerr := new_err PyValueError [Disp e].

(** [HTTP1] and [http1]. *)
Definition HTTP1 : bytes := string_bytes "http/1.1".
Definition http1 : list bytes := [HTTP1].

(** [TlsConfig::web]. *)
Definition web : TlsConfig := mk_tls None None None true [].

(** [client_tls]. *)
Definition client_tls (tls : option TlsConfig) : TlsConfig :=
  match tls with Some t => t | None => web end.

(** ** rustls

    Certificates, keys and root stores are parsed and checked by rustls; its
    configurations are what the builder was given. *)
Class Rustls (Cert Key Root : Type) := {
  (** [std::fs::read], its error displayed *)
  read_file : string -> bytes + string;
  (** [CertificateDer::pem_slice_iter]: the items, an error where one does not
      parse *)
  pem_slice_iter : bytes -> list (Cert + string);
  (** [PrivateKeyDer::from_pem_slice] *)
  from_pem_slice : bytes -> Key + string;
  (** [RootCertStore::add] *)
  root_of : Cert -> Root + string;
  (** [webpki_roots::TLS_SERVER_ROOTS] *)
  TLS_SERVER_ROOTS : list Root;
  (** [with_safe_default_protocol_versions] *)
  protocol_versions : option string;
  (** [with_client_auth_cert], [with_single_cert]: the key fits the chain *)
  key_fits : list Cert -> Key -> option string;
  (** the verification of a server's chain against roots and a name, and of the
      handshake's signature by its certificate *)
  chain_trusted : list Root -> list Cert -> string -> bool;
  verify_tls12_signature : bytes -> Cert -> bytes -> bool;
  verify_tls13_signature : bytes -> Cert -> bytes -> bool;
}.

(** The handshake of rustls, as a client's: whether it completes, given its
    verifier's methods ([verify_server_cert]; [verify_tls12_signature] or
    [verify_tls13_signature]), with a server that sent a chain, asked for by a
    name, and signed the transcript [m] with [d].  What rustls documents of
    [ServerCertVerifier]: it completes only if the verifier accepted the chain
    for the name, and the signature by the chain's end-entity certificate. *)
Class Handshake (Cert : Type) := {
  completes : (list Cert -> string -> bool) -> (bool -> bytes -> Cert -> bytes -> bool) ->
    bool -> list Cert -> string -> bytes -> bytes -> bool;
  completes_verified chain_ok sig_ok tls13 certs name m d :
    completes chain_ok sig_ok tls13 certs name m d = true ->
    exists leaf, head certs = Some leaf /\ chain_ok certs name = true /\ sig_ok tls13 m leaf d = true;
}.

Section tls.
Context {Cert Key Root : Type} `{Rustls Cert Key Root, !Handshake Cert}.
(** [zmux::alpn_protocols(&[])], and [zmux::default_alpn], which fills in a
    list that is empty. *)
Context (zmux_alpn : list bytes) (default_alpn : list bytes -> list bytes -> list bytes).

(** The server verifier of a client: [NoVerify], or the one rustls makes of
    roots. *)
Inductive Verifier := NoVerify | WebPki (roots : list Root).

Record ClientConfig := mk_client {
  cc_verifier : Verifier;
  cc_auth : option (list Cert * Key);
  cc_alpn : list bytes;
}.
Record ServerConfig := mk_server { sc_cert : list Cert; sc_key : Key; sc_alpn : list bytes }.

(** [Pem::load]. *)
Definition load (p : Pem) : PyResult bytes :=
  match p with
  | PemPath p =>
      match read_file p with
      | inl d => Ok d
      | inr e => Err (new_err PyValueError [Disp p; Lit ": "; Disp e])
      end
  | PemData d => Ok d
  end.

(** [TlsConfig::new]. *)
Definition new (cert key ca : option Pem) (verify : bool) (alpn : option (list string)) : PyResult TlsConfig :=
  c ← map_transpose load cert;
  k ← map_transpose load key;
  a ← map_transpose load ca;
  Ok (mk_tls c k a verify (string_bytes <$> default [] alpn)).

(** [collect::<Result<Vec<_>, _>>().map_err(pem_err)]. *)
Fixpoint collect_certs (l : list (Cert + string)) : PyResult (list Cert) :=
  match l with
  | [] => Ok []
  | inl c :: l => cs ← collect_certs l; Ok (c :: cs)
  | inr e :: _ => Err (pem_err e)
  end.

Definition chain (t : TlsConfig) : PyResult (option (list Cert * Key)) :=
  match t_cert t, t_key t with
  | Some cert, Some key =>
      certs ← collect_certs (pem_slice_iter cert);
      key ← (match from_pem_slice key with inl k => Ok k | inr e => Err (pem_err e) end);
      Ok (Some (certs, key))
  | _, _ => Ok None
  end.

(** The loop over the certificates of [ca]. *)
Fixpoint add_roots (roots : list Root) (l : list (Cert + string)) : PyResult (list Root) :=
  match l with
  | [] => Ok roots
  | inl c :: l =>
      match root_of c with
      | inl r => add_roots (roots ++ [r]) l
      | inr e => Err (value_err e)
      end
  | inr e :: _ => Err (pem_err e)
  end.

Definition builder : PyResult unit :=
  match protocol_versions with None => Ok tt | Some e => Err (value_err e) end.

Definition verifier (t : TlsConfig) : PyResult Verifier :=
  if negb (t_verify t) then Ok NoVerify
  else
    roots ← (match t_ca t with
             | Some ca => add_roots [] (pem_slice_iter ca)
             | None => Ok TLS_SERVER_ROOTS
             end);
    Ok (WebPki roots).

Definition checked_key (ck : list Cert * Key) : PyResult (list Cert * Key) :=
  match key_fits ck.1 ck.2 with None => Ok ck | Some e => Err (value_err e) end.

Definition client (t : TlsConfig) : PyResult ClientConfig :=
  _ ← builder;
  v ← verifier t;
  ch ← chain t;
  auth ← map_transpose checked_key ch;
  Ok (mk_client v auth (t_alpn t)).

Definition server (t : TlsConfig) : PyResult ServerConfig :=
  ch ← chain t;
  ck ← ok_or ch (new_err PyValueError [Lit "a server needs cert and key"]);
  _ ← builder;
  ck ← checked_key ck;
  Ok (mk_server ck.1 ck.2 (t_alpn t)).

Definition client_alpn (defaults : list bytes) (t : TlsConfig) : PyResult ClientConfig :=
  c ← client t; Ok (mk_client (cc_verifier c) (cc_auth c) (default_alpn (cc_alpn c) defaults)).
Definition server_alpn (defaults : list bytes) (t : TlsConfig) : PyResult ServerConfig :=
  c ← server t; Ok (mk_server (sc_cert c) (sc_key c) (default_alpn (sc_alpn c) defaults)).
Definition client_zmux (t : TlsConfig) : PyResult ClientConfig := client_alpn zmux_alpn t.
Definition server_zmux (t : TlsConfig) : PyResult ServerConfig := server_alpn zmux_alpn t.

(** *** What a verifier accepts ([ServerCertVerifier])

    [NoVerify] accepts every chain; both check the handshake's signature. *)
Definition verify_server_cert (v : Verifier) (certs : list Cert) (name : string) : bool :=
  match v with NoVerify => true | WebPki roots => chain_trusted roots certs name end.
Definition verify_signature (v : Verifier) (tls13 : bool) (m : bytes) (c : Cert) (d : bytes) : bool :=
  match v with
  | NoVerify => if tls13 then verify_tls13_signature m c d else verify_tls12_signature m c d
  | WebPki _ => if tls13 then verify_tls13_signature m c d else verify_tls12_signature m c d
  end.

(** A server is accepted by a client with this configuration. *)
Definition accepts (c : ClientConfig) : bool -> list Cert -> string -> bytes -> bytes -> bool :=
  completes (verify_server_cert (cc_verifier c)) (verify_signature (cc_verifier c)).

(** *** Lemmas *)

Lemma collect_certs_ok l cs : collect_certs l = Ok cs <-> l = inl <$> cs.
Proof.
  revert cs. induction l as [|[c|e] l IH]; intros cs; simpl.
  - split; [by intros [= <-]|]. by destruct cs.
  - split.
    + intros (cs' & Hl%IH & [= <-])%bind_ok_inv. by rewrite Hl.
    + destruct cs as [|c' cs]; [done|]. intros [= -> Hl]. by rewrite (proj2 (IH cs) Hl).
  - split; [done|]. by destruct cs.
Qed.

(** The roots added are those of the parsed certificates, all of them. *)
Lemma add_roots_ok roots l rs :
  add_roots roots l = Ok rs ->
  exists cs new, l = inl <$> cs /\ rs = roots ++ new /\ Forall2 (fun c r => root_of c = inl r) cs new.
Proof.
  revert roots. induction l as [|[c|e] l IH]; intros roots; simpl; [|destruct (root_of c) as [r|] eqn:Hr|done].
  - intros [= <-]. exists [], []. by rewrite app_nil_r.
  - intros (cs & new & -> & -> & HF)%IH. exists (c :: cs), (r :: new).
    rewrite <- app_assoc. split_and!; [done..|]. by constructor.
  - done.
Qed.

Lemma chain_ok t r :
  chain t = Ok r ->
  match r with
  | Some (certs, k) =>
      exists cert key, t_cert t = Some cert /\ t_key t = Some key /\
        pem_slice_iter cert = inl <$> certs /\ from_pem_slice key = inl k
  | None => t_cert t = None \/ t_key t = None
  end.
Proof.
  unfold chain. destruct (t_cert t) as [cert|], (t_key t) as [key|]; intros E; py_inv; subst; eauto.
  destruct (from_pem_slice key) eqn:Hk; py_inv; subst.
  exists cert, key. split_and!; try done. by apply collect_certs_ok.
Qed.

Lemma checked_key_ok ck r : checked_key ck = Ok r -> r = ck.
Proof. unfold checked_key. case_match; [done|]. by intros [= <-]. Qed.

(** What the dials rely on: who is trusted, and what is presented, by the
    settings alone. *)
Definition as_configured (t : TlsConfig) (c : ClientConfig) : Prop :=
  (cc_verifier c = NoVerify <-> t_verify t = false) /\
  (forall roots, cc_verifier c = WebPki roots ->
     match t_ca t with
     | Some ca => exists cs, pem_slice_iter ca = inl <$> cs /\ Forall2 (fun c r => root_of c = inl r) cs roots
     | None => roots = TLS_SERVER_ROOTS
     end) /\
  match cc_auth c with
  | Some (certs, k) =>
      exists cert key, t_cert t = Some cert /\ t_key t = Some key /\
        pem_slice_iter cert = inl <$> certs /\ from_pem_slice key = inl k
  | None => t_cert t = None \/ t_key t = None
  end.

Lemma client_configured t c : client t = Ok c -> as_configured t c /\ cc_alpn c = t_alpn t.
Proof using Type.
  unfold client. intros E. py_inv. subst. simpl.
  match goal with H : verifier t = Ok ?v |- _ => rename H into Hv; rename v into v' end.
  match goal with H : map_transpose checked_key _ = Ok _ |- _ => apply map_transpose_ok_inv in H; rename H into Ha end.
  split; [|done]. unfold as_configured. simpl. split_and!.
  - unfold verifier in Hv. destruct (t_verify t); simpl in Hv; py_inv; subst; by split.
  - intros roots ->. unfold verifier in Hv. destruct (t_verify t); simpl in Hv; [|done].
    apply bind_ok_inv in Hv as (rs & Hr & [= ->]). destruct (t_ca t) as [ca|]; [|congruence].
    apply add_roots_ok in Hr as (cs & new & Hl & -> & HF). by exists cs.
  - match goal with H : chain t = Ok _ |- _ => apply chain_ok in H; rename H into Hc end.
    case_match; [|by subst]. destruct Ha as (b & ->%checked_key_ok & ->). done.
Qed.

Lemma client_alpn_configured defaults t c :
  client_alpn defaults t = Ok c -> as_configured t c /\ cc_alpn c = default_alpn (t_alpn t) defaults.
Proof using Type. unfold client_alpn. intros (c0 & [H0 <-]%client_configured & [= <-])%bind_ok_inv. done. Qed.

(** C21: what a client trusts and presents is what its settings say.  A server
    certificate goes unchecked exactly when [verify] is false, and even then
    the handshake's signature by it is checked; with [verify], the trusted
    roots are all the certificates of [ca] and nothing else, or the bundled web
    roots when there is no [ca].  A certificate is presented exactly when both
    [cert] and [key] are given: all of [cert], with [key].  The ALPN list is
    the one given, and the carrier's own when none was. *)
Theorem client_as_configured t defaults c :
  (forall l d, default_alpn l d = match l with [] => d | _ => l end) ->
  client_alpn defaults t = Ok c ->
  (cc_verifier c = NoVerify <-> t_verify t = false) /\
  (forall tls13 certs name m d, accepts c tls13 certs name m d = true ->
     exists leaf, head certs = Some leaf /\
       (if tls13 then verify_tls13_signature m leaf d else verify_tls12_signature m leaf d) = true /\
       (t_verify t = true -> exists roots, cc_verifier c = WebPki roots /\ chain_trusted roots certs name = true)) /\
  (forall roots, cc_verifier c = WebPki roots ->
     match t_ca t with
     | Some ca => exists cs, pem_slice_iter ca = inl <$> cs /\ Forall2 (fun c r => root_of c = inl r) cs roots
     | None => roots = TLS_SERVER_ROOTS
     end) /\
  match cc_auth c with
  | Some (certs, k) =>
      exists cert key, t_cert t = Some cert /\ t_key t = Some key /\
        pem_slice_iter cert = inl <$> certs /\ from_pem_slice key = inl k
  | None => t_cert t = None \/ t_key t = None
  end /\
  cc_alpn c = match t_alpn t with [] => defaults | l => l end.
Proof.
  intros Hfill [(Hno & Hr & Ha) Hl]%client_alpn_configured. split_and!; [done| |done|done|].
  - intros tls13 certs name m d (leaf & Hh & Hc & Hs)%completes_verified. exists leaf. split; [done|].
    split; [by destruct (cc_verifier c)|]. intros Ht. destruct (cc_verifier c) as [|roots]; [|by exists roots].
    rewrite (proj1 Hno eq_refl) in Ht. done.
  - rewrite Hl, Hfill. by destruct (t_alpn t).
Qed.

(** A server always presents a certificate, checked against its key; without
    both [cert] and [key] it is refused, whatever else is set. *)
Theorem server_has_certificate t c :
  server t = Ok c ->
  exists cert key, t_cert t = Some cert /\ t_key t = Some key /\
    pem_slice_iter cert = inl <$> sc_cert c /\ from_pem_slice key = inl (sc_key c) /\
    key_fits (sc_cert c) (sc_key c) = None /\ sc_alpn c = t_alpn t.
Proof.
  unfold server. intros E. py_inv. subst. simpl.
  match goal with H : chain t = Ok _ |- _ => apply chain_ok in H; rename H into Hc end. simpl in Hc.
  match goal with H : checked_key ?ck = Ok ?r |- _ => pose proof (checked_key_ok _ _ H) as ->; destruct ck; rename H into Hk end.
  simpl in Hc. destruct Hc as (cert & key & ? & ? & ? & ?). exists cert, key. split_and!; try done.
  unfold checked_key in Hk. simpl in *. by destruct (key_fits _ _).
Qed.
End tls.

(** ** An instance: certificates and keys are numbers, files do not exist *)
Module TlsExample.
Definition digits (b : bytes) : list (nat + string) := inl ∘ Byte.to_nat <$> b.
#[global] Instance toy_rustls : Rustls nat nat nat := {
  read_file p := inr "no such file";
  pem_slice_iter := digits;
  from_pem_slice b := match b with x :: _ => inl (Byte.to_nat x) | [] => inr "no key" end;
  root_of c := inl c;
  TLS_SERVER_ROOTS := [1]%nat;
  protocol_versions := None;
  key_fits cs k := match cs with c :: _ => if (c =? k)%nat then None else Some "mismatch" | [] => Some "empty" end;
  chain_trusted roots cs name := existsb (fun c => existsb (Nat.eqb c) roots) cs;
  verify_tls12_signature m c d := bool_decide (Byte.to_nat <$> m = Byte.to_nat <$> d);
  verify_tls13_signature m c d := bool_decide (Byte.to_nat <$> m = Byte.to_nat <$> d);
}.
#[global] Instance toy_handshake : Handshake nat.
Proof.
  refine {| completes chain_ok sig_ok tls13 certs name m d :=
    match certs with [] => false | leaf :: _ => chain_ok certs name && sig_ok tls13 m leaf d end |}.
  intros chain_ok sig_ok tls13 [|leaf certs] name m d; [done|]. intros [Hc Hs]%andb_true_iff. by exists leaf.
Defined.
Definition fill (l d : list bytes) : list bytes := match l with [] => d | _ => l end.
Definition mutual : TlsConfig := mk_tls (Some [Byte.x07]) (Some [Byte.x07]) (Some [Byte.x09]) true [].
Definition key_forgotten : TlsConfig := mk_tls (Some [Byte.x07]) None None true [].
End TlsExample.

Lemma client_as_configured_witness :
  let c := mk_client (Cert:=nat) (Key:=nat) (Root:=nat) (WebPki [9%nat]) (Some ([7], 7))%nat http1 in
  client_alpn TlsExample.fill http1 TlsExample.mutual = Ok c /\ (cc_verifier c = NoVerify <-> true = false).
Proof.
  intros c.
  assert (client_alpn TlsExample.fill http1 TlsExample.mutual = Ok c) as E by reflexivity.
  split; [exact E|].
  exact (proj1 (client_as_configured TlsExample.fill TlsExample.mutual http1 c (fun _ _ => eq_refl) E)).
Defined.
