(* ===== verification/Dial.v ===== *)
(** Dialling arguments (src/src/lib.rs, sections "pipes" and "session"):
    addresses and authorities, HTTP carriers, the exchange carrier's options,
    stream preambles and priorities. *)
From Stdlib Require Import Ascii.
From S2P Require Import Prelude Duration Pyo3 Errors Handles.
Open Scope Z_scope.

(** ** Text *)

(** [s.rsplit_once(c)]: around the last [c]. *)
Fixpoint rsplit_once (c : ascii) (s : string) : option (string * string) :=
  match s with
  | EmptyString => None
  | String a s =>
      match rsplit_once c s with
      | Some (h, p) => Some (String a h, p)
      | None => if Ascii.eqb a c then Some (EmptyString, s) else None
      end
  end.

(** [s.trim_start_matches(c)] and [s.trim_end_matches(c)]. *)
Fixpoint trim_start (c : ascii) (s : string) : string :=
  match s with
  | String a s' => if Ascii.eqb a c then trim_start c s' else s
  | EmptyString => EmptyString
  end.
Fixpoint trim_end (c : ascii) (s : string) : string :=
  match s with
  | EmptyString => EmptyString
  | String a s' =>
      match trim_end c s' with
      | EmptyString => if Ascii.eqb a c then EmptyString else String a EmptyString
      | t => String a t
      end
  end.

Fixpoint has_char (c : ascii) (s : string) : bool :=
  match s with EmptyString => false | String a s => Ascii.eqb a c || has_char c s end.

Definition starts (c : ascii) (s : string) : bool :=
  match s with String a _ => Ascii.eqb a c | EmptyString => false end.
Fixpoint ends (c : ascii) (s : string) : bool :=
  match s with
  | EmptyString => false
  | String a EmptyString => Ascii.eqb a c
  | String _ s => ends c s
  end.

(** ** Addresses *)

Definition host_of (addr : string) : string :=
  let host := match rsplit_once ":" addr with Some (h, _) => h | None => addr end in
  trim_end "]" (trim_start "[" host).

(** The port of an address in text, by default 443. *)
Definition port_of (addr : string) : string :=
  match rsplit_once ":" addr with Some (_, p) => p | None => "443" end.

(** A resolved address: its family, and the wildcard address a client binds. *)
Inductive family := IPv4 | IPv6.
Definition bind_for (f : family) : family * Z := (f, 0).

(** [authority_of] of a URL's host and port (as the [http] crate parsed them);
    [decimal] prints a number. *)
Definition authority_of (decimal : Z -> string) (host : option string) (port : option Z) : PyResult string :=
  h ← ok_or host (new_err PyValueError [Lit "URL without a host"]);
  Ok (h ++ ":" ++ decimal (match port with Some p => p | None => 443 end))%string.

(** [exchange_endpoint]: plain TCP to [addr], or TLS to [addr] with a server
    name and an HTTP authority; [name_ok] is rustls' check of a name. *)
Inductive Endpoint := Tcp (addr : string) | Tls (addr name authority : string).

Definition exchange_endpoint (name_ok : string -> PyResult unit) (addr : string) (tls : bool)
    (server_name : option string) : PyResult Endpoint :=
  if negb tls then Ok (Tcp addr)
  else
    let host := match server_name with Some n => n | None => host_of addr end in
    _ ← name_ok host;
    let port := port_of addr in
    let authority := if String.eqb port "443" then host else (host ++ ":" ++ port)%string in
    Ok (Tls addr host authority).

(** [dial_exchange]: the uplink's endpoint, and the downlink's, by default the
    same. *)
Definition dial_exchange (name_ok : string -> PyResult unit) (addr : string) (down_addr : option string)
    (tls : bool) (server_name : option string) : PyResult (Endpoint * Endpoint) :=
  up ← exchange_endpoint name_ok addr tls server_name;
  down ← (match down_addr with
          | Some d => exchange_endpoint name_ok d tls server_name
          | None => Ok up
          end);
  Ok (up, down).

(** *** Lemmas on text *)

Lemma rsplit_once_none c s : has_char c s = false -> rsplit_once c s = None.
Proof.
  induction s as [|a s IH]; simpl; [done|]. intros [Ha Hs]%orb_false_iff. by rewrite IH, Ha.
Qed.

Lemma rsplit_once_last c h p :
  has_char c p = false -> rsplit_once c (h ++ String c p) = Some (h, p).
Proof.
  intros Hp. induction h as [|a h IH]; simpl.
  - by rewrite rsplit_once_none, Ascii.eqb_refl.
  - by rewrite IH.
Qed.

Lemma trim_start_id c s : starts c s = false -> trim_start c s = s.
Proof. destruct s as [|a s]; simpl; [done|]. by intros ->. Qed.

Lemma trim_end_id c s : ends c s = false -> trim_end c s = s.
Proof.
  induction s as [|a s IH]; simpl; [done|]. destruct s as [|b s].
  - simpl. by intros ->.
  - intros H. rewrite IH by done. done.
Qed.

Lemma trim_end_app c s : ends c s = false -> trim_end c (s ++ String c EmptyString) = s.
Proof.
  induction s as [|a s IH]; intros H; simpl.
  - by rewrite Ascii.eqb_refl.
  - destruct s as [|b s].
    + simpl in *. by rewrite Ascii.eqb_refl, H.
    + rewrite (IH H). done.
Qed.

Lemma append_assoc (a b c : string) : ((a ++ b) ++ c)%string = (a ++ (b ++ c))%string.
Proof.
  induction a as [|x a IH]; [done|].
  change (String x ((a ++ b) ++ c) = String x (a ++ (b ++ c)))%string. by rewrite IH.
Qed.

Lemma starts_app c s t : s <> EmptyString -> starts c (s ++ t) = starts c s.
Proof. by destruct s. Qed.

(** A host: not empty, and without brackets at its ends. *)
Definition host_ok (h : string) : Prop := h <> EmptyString /\ starts "[" h = false /\ ends "]" h = false.

Lemma host_of_forms h p :
  host_ok h -> has_char ":" p = false ->
  host_of (h ++ String ":" p) = h /\
  host_of (String "[" (h ++ String "]" (String ":" p))) = h.
Proof.
  intros (Hne & Hs & He) Hp. unfold host_of. split.
  - rewrite rsplit_once_last by done. by rewrite trim_start_id, trim_end_id.
  - replace (String "[" (h ++ String "]" (String ":" p)))%string
      with ((String "[" (h ++ String "]" EmptyString)) ++ String ":" p)%string.
    + rewrite rsplit_once_last by done. cbn [trim_start]. rewrite Ascii.eqb_refl.
      rewrite trim_start_id; [by apply trim_end_app|]. by destruct h.
    + change (String "[" ((h ++ String "]" EmptyString) ++ String ":" p) =
        String "[" (h ++ (String "]" EmptyString ++ String ":" p)))%string. by rewrite append_assoc.
Qed.

(** [host_of] recovers the host of an address of either form, [host:port] or
    [[host]:port], a host with colons (IPv6) included. *)
Theorem host_of_address h p :
  host_ok h -> has_char ":" p = false ->
  host_of (h ++ String ":" p) = h /\
  host_of (String "[" (h ++ String "]" (String ":" p))) = h.
Proof. apply host_of_forms. Qed.

Lemma host_of_address_witness :
  host_of "example.org:8443" = "example.org" /\ host_of "[::1]:8443" = "::1".
Proof.
  split.
  - apply (host_of_address "example.org" "8443"); [|reflexivity]. split; [discriminate|]. split; reflexivity.
  - apply (host_of_address "::1" "8443"); [|reflexivity]. split; [discriminate|]. split; reflexivity.
Defined.

(** The two forms of an address. *)
Definition plain_form (h p : string) : string := (h ++ String ":" p)%string.
Definition bracket_form (h p : string) : string := String "[" (h ++ String "]" (String ":" p))%string.

Lemma port_of_forms h p :
  has_char ":" p = false -> port_of (plain_form h p) = p /\ port_of (bracket_form h p) = p.
Proof.
  intros Hp. unfold port_of, plain_form, bracket_form. split; [by rewrite rsplit_once_last|].
  replace (String "[" (h ++ String "]" (String ":" p)))%string
    with ((String "[" (h ++ String "]" EmptyString)) ++ String ":" p)%string.
  - by rewrite rsplit_once_last.
  - change (String "[" ((h ++ String "]" EmptyString) ++ String ":" p) =
      String "[" (h ++ (String "]" EmptyString ++ String ":" p)))%string. by rewrite append_assoc.
Qed.

(** C37: the endpoint of an exchange, for an address [h:p] or [[h]:p].  Without
    TLS it is the address.  With TLS it dials the address, its server name is
    the one given, else [h], and rustls must accept it, or its error is raised;
    its authority is that name alone for port 443 (and for an address without a
    port), and the name, a colon and the port otherwise.  So the authority of an
    IPv6 address [[h]:p] with another port comes out as [h:p], without the
    brackets that set the host's colons apart from the port's: it is not the
    address. *)
Theorem exchange_authority name_ok h p server_name :
  host_ok h -> has_char ":" p = false ->
  let host := default h server_name in
  (forall addr, addr = plain_form h p \/ addr = bracket_form h p ->
     exchange_endpoint name_ok addr false server_name = Ok (Tcp addr) /\
     exchange_endpoint name_ok addr true server_name =
       (_ ← name_ok host; Ok (Tls addr host (if decide (p = "443") then host else plain_form host p)))) /\
  (has_char ":" h = false ->
     exchange_endpoint name_ok h true server_name = (_ ← name_ok host; Ok (Tls h host host))) /\
  plain_form h p <> bracket_form h p.
Proof.
  intros Hh Hp host. destruct (host_of_forms h p Hh Hp) as [H4 H6]. destruct (port_of_forms h p Hp) as [P4 P6].
  assert (forall addr, host_of addr = h -> port_of addr = p ->
    exchange_endpoint name_ok addr true server_name =
      (_ ← name_ok host; Ok (Tls addr host (if decide (p = "443") then host else plain_form host p)))) as Hx.
  { intros addr Ea Ep. unfold exchange_endpoint, host. rewrite Ea, Ep. simpl negb. cbv iota.
    destruct (String.eqb_spec p "443"); case_decide; try done; by destruct server_name. }
  split_and!.
  - intros addr [->| ->]; (split; [done|]); by apply Hx.
  - intros Hc. unfold exchange_endpoint, host, port_of. simpl negb. cbv iota. rewrite rsplit_once_none by done.
    assert (host_of h = h) as ->.
    { unfold host_of. rewrite rsplit_once_none by done. destruct Hh as (_ & Hs & He).
      by rewrite trim_start_id, trim_end_id. }
    by destruct server_name.
  - destruct Hh as (Hh & Hs & _). destruct h as [|a h]; [done|]. intros [= ->]. done.
Qed.

Lemma exchange_authority_witness :
  exchange_endpoint (fun _ => Ok tt) "[::1]:8443" true None = Ok (Tls "[::1]:8443" "::1" "::1:8443") /\
  exchange_endpoint (fun _ => Ok tt) "example.org:443" true None = Ok (Tls "example.org:443" "example.org" "example.org").
Proof.
  split.
  - apply (exchange_authority (fun _ => Ok tt) "::1" "8443" None); [|reflexivity|by right].
    split; [discriminate|]. split; reflexivity.
  - apply (exchange_authority (fun _ => Ok tt) "example.org" "443" None); [|reflexivity|by left].
    split; [discriminate|]. split; reflexivity.
Defined.

(** ** HTTP carriers *)

Definition dial_request (carrier : string) (join : option string) : PyResult (PipeDirection * option string) :=
  dir ← (if String.eqb carrier "bidirectional" then Ok DirBidi
         else if String.eqb carrier "uplink" then Ok DirOut
         else if String.eqb carrier "downlink" then Ok DirIn
         else Err (new_err PyValueError [Lit "unknown HTTP carrier "; Dbg carrier]));
  Ok (dir, join).

(** *** [ExchangeOptions] *)
Inductive BodyEncoding := Binary | Base64.

Record ExchangeOptions := mk_exchange {
  x_encoding : BodyEncoding;
  x_unauthenticated : bool;
  x_psk : bytes;
  x_path : string;
  x_down_path : option string;
  x_query : string;
  x_down_requests : Z;
  x_up_requests : Z;
  x_up_piece : option Z;
  x_max_down_piece : option Z;
  x_down_piece : option Z;
  x_max_up_piece : option Z;
  x_down_window : Z;
  x_up_store : Z;
  x_max_carriers : option Z;
  x_max_recorded : Z;
  x_request_timeout : Duration;
  x_deadline : Duration;
  x_hold : Duration;
  x_coalesce : Duration;
  x_idle_timeout : Duration;
  x_gone_memory : Duration;
  x_time_window : Duration;
  x_backoff_initial : Duration;
  x_backoff_max : Duration;
}.

(** The keyword arguments, each [None] when not given. *)
Record ExchangeArgs := mk_exchange_args {
  a_psk : option bytes; a_unauthenticated : bool; a_encoding : string;
  a_path : option string; a_down_path : option string; a_query : option string;
  a_down_requests : option Z; a_up_requests : option Z; a_up_piece : option Z;
  a_max_down_piece : option Z; a_backoff_initial : option f64; a_backoff_max : option f64;
  a_request_timeout : option f64; a_deadline : option f64; a_hold : option f64;
  a_coalesce : option f64; a_down_piece : option Z; a_down_window : option Z;
  a_max_up_piece : option Z; a_up_store : option Z; a_idle_timeout : option f64;
  a_gone_memory : option f64; a_max_carriers : option Z; a_time_window : option f64;
  a_max_recorded : option Z;
}.

(** The macros [set!] and [set_secs!]. *)
Definition set_or {A} (d : A) (v : option A) : A := match v with Some v => v | None => d end.
Definition set_secs (d : Duration) (name : string) (v : option f64) : PyResult Duration :=
  match v with Some v => seconds name v | None => Ok d end.

(** [ExchangeOptions::new] over the native defaults [o]. *)
Definition exchange_options (o : ExchangeOptions) (a : ExchangeArgs) : PyResult ExchangeOptions :=
  enc ← (if String.eqb (a_encoding a) "binary" then Ok Binary
         else if String.eqb (a_encoding a) "base64" then Ok Base64
         else Err (new_err PyValueError [Lit "unknown encoding "; Dbg (a_encoding a)]));
  rt ← set_secs (x_request_timeout o) "request_timeout" (a_request_timeout a);
  dl ← set_secs (x_deadline o) "deadline" (a_deadline a);
  hd ← set_secs (x_hold o) "hold" (a_hold a);
  co ← set_secs (x_coalesce o) "coalesce" (a_coalesce a);
  it ← set_secs (x_idle_timeout o) "idle_timeout" (a_idle_timeout a);
  gm ← set_secs (x_gone_memory o) "gone_memory" (a_gone_memory a);
  tw ← set_secs (x_time_window o) "time_window" (a_time_window a);
  bi ← set_secs (x_backoff_initial o) "backoff_initial" (a_backoff_initial a);
  bm ← set_secs (x_backoff_max o) "backoff_max" (a_backoff_max a);
  Ok (mk_exchange enc (a_unauthenticated a) (set_or (x_psk o) (a_psk a)) (set_or (x_path o) (a_path a))
    (a_down_path a) (set_or (x_query o) (a_query a)) (set_or (x_down_requests o) (a_down_requests a))
    (set_or (x_up_requests o) (a_up_requests a)) (a_up_piece a) (a_max_down_piece a) (a_down_piece a)
    (a_max_up_piece a) (set_or (x_down_window o) (a_down_window a)) (set_or (x_up_store o) (a_up_store a))
    (a_max_carriers a) (set_or (x_max_recorded o) (a_max_recorded a)) rt dl hd co it gm tw bi bm).

(** The getters. *)
Definition exchange_encoding (o : ExchangeOptions) : string :=
  match x_encoding o with Base64 => "base64" | Binary => "binary" end.
Definition exchange_path (o : ExchangeOptions) : string := x_path o.
Definition exchange_down_path (o : ExchangeOptions) : option string := x_down_path o.

(** Options read back as they were given: the encoding by its name, which is
    accepted again, the path given or the default, and the downlink's path. *)
Theorem exchange_options_read o a x :
  exchange_options o a = Ok x ->
  exchange_encoding x = a_encoding a /\ exchange_path x = default (x_path o) (a_path a) /\
  exchange_down_path x = a_down_path a.
Proof.
  unfold exchange_options. intros E. py_inv. subst. unfold exchange_encoding, exchange_path, exchange_down_path. simpl.
  split_and!; [|by destruct (a_path a)|done].
  match goal with H : (if String.eqb _ "binary" then _ else _) = Ok _ |- _ => rename H into He end.
  destruct (String.eqb_spec (a_encoding a) "binary") as [->|_]; [by simplify_eq/=|].
  destruct (String.eqb_spec (a_encoding a) "base64") as [->|_]; by simplify_eq/=.
Qed.

(** ** Streams opened *)

(** [zmux::Preamble]: its builder and its readers. *)
Class PreambleOps (Preamble : Type) := {
  preamble_new : Preamble;
  with_pipe_carrier : Preamble -> Preamble;
  with_info : bytes -> Preamble -> Preamble;
  with_tlv : Z * bytes -> Preamble -> Preamble;
  p_info : Preamble -> option bytes;
  p_tlvs : Preamble -> list (Z * bytes);
  is_pipe_carrier : Preamble -> bool;
}.

(** Each builder sets what its name says. *)
Class PreambleLaws (Preamble : Type) `{PreambleOps Preamble} : Prop := {
  new_parts : p_info preamble_new = None /\ p_tlvs preamble_new = [] /\ is_pipe_carrier preamble_new = false;
  carrier_parts p :
    p_info (with_pipe_carrier p) = p_info p /\ p_tlvs (with_pipe_carrier p) = p_tlvs p /\
    is_pipe_carrier (with_pipe_carrier p) = true;
  info_parts i p :
    p_info (with_info i p) = Some i /\ p_tlvs (with_info i p) = p_tlvs p /\
    is_pipe_carrier (with_info i p) = is_pipe_carrier p;
  tlv_parts t p :
    p_info (with_tlv t p) = p_info p /\ p_tlvs (with_tlv t p) = p_tlvs p ++ [t] /\
    is_pipe_carrier (with_tlv t p) = is_pipe_carrier p;
}.

Section preambles.
Context {Preamble : Type} `{PreambleOps Preamble}.

Definition preamble (info : option bytes) (tlvs : option (list (Z * bytes))) (pipe_carrier : bool) : option Preamble :=
  match info, tlvs, pipe_carrier with
  | None, (None | Some []), false => None
  | _, _, _ =>
      let p := preamble_new in
      let p := if pipe_carrier then with_pipe_carrier p else p in
      let p := match info with Some i => with_info i p | None => p end in
      Some (fold_left (fun p t => with_tlv t p) (match tlvs with Some l => l | None => [] end) p)
  end.

(** The parts of a preamble as Python reads them ([RecvStream.preamble]). *)
Definition preamble_parts (p : Preamble) : option bytes * list (Z * bytes) * bool :=
  (p_info p, p_tlvs p, is_pipe_carrier p).

Context `{!PreambleLaws Preamble}.

Lemma with_tlvs l p :
  preamble_parts (fold_left (fun p t => with_tlv t p) l p) =
    (p_info p, p_tlvs p ++ l, is_pipe_carrier p).
Proof.
  revert p. induction l as [|t l IH]; intros p; simpl; [by rewrite app_nil_r|].
  rewrite IH. destruct (tlv_parts t p) as (-> & -> & ->). by rewrite <- app_assoc.
Qed.

(** A stream is opened with the preamble asked for, and with none exactly
    when nothing was asked: reading the parts back gives the info, the TLVs in
    order, and the carrier mark. *)
Theorem preamble_roundtrip info tlvs carrier :
  match preamble info tlvs carrier with
  | Some p => preamble_parts p = (info, default [] tlvs, carrier)
  | None => info = None /\ default [] tlvs = [] /\ carrier = false
  end.
Proof.
  unfold preamble. destruct new_parts as (N1 & N2 & N3).
  destruct (carrier_parts preamble_new) as (C1 & C2 & C3).
  assert (forall i p, p_info (with_info i p) = Some i /\ p_tlvs (with_info i p) = p_tlvs p /\
    is_pipe_carrier (with_info i p) = is_pipe_carrier p) as I by apply info_parts.
  destruct info as [i|], tlvs as [[|t l]|], carrier; cbv beta iota zeta; try done; rewrite with_tlvs;
    try rewrite (proj1 (I i _)), (proj1 (proj2 (I i _))), (proj2 (proj2 (I i _)));
    rewrite ?C1, ?C2, ?C3, ?N1, ?N2, ?N3; done.
Qed.
End preambles.

(** A preamble as the three parts it is built of. *)
Module PreambleParts.
Record parts := mk_parts { carrier : bool; info : option bytes; tlvs : list (Z * bytes) }.
#[export] Instance parts_ops : PreambleOps parts := {
  preamble_new := mk_parts false None [];
  with_pipe_carrier p := mk_parts true (info p) (tlvs p);
  with_info i p := mk_parts (carrier p) (Some i) (tlvs p);
  with_tlv t p := mk_parts (carrier p) (info p) (tlvs p ++ [t]);
  p_info := info; p_tlvs := tlvs; is_pipe_carrier := carrier;
}.
#[export] Instance parts_laws : PreambleLaws parts.
Proof. by split. Qed.
End PreambleParts.

(** *** Priorities ([Prios])

    Both priorities are checked before the stream is opened. *)
Section prios.
Context (priority_ok : Z -> bool -> bool).
Definition prio (p : Z * bool) : PyResult (Z * bool) :=
  if priority_ok p.1 p.2 then Ok p else Err (new_err PyValueError [Lit "urgency out of range"]).
Definition prios_new (local peer : option (Z * bool)) : PyResult (option (Z * bool) * option (Z * bool)) :=
  l ← map_transpose prio local; p ← map_transpose prio peer; Ok (l, p).
End prios.

(** [QualityBand] and [CapacityFloor]. *)
Section bands.
Context {P : Py} (extract_rate : obj -> PyResult Z).
Record QualityBand := mk_band { qb_rtt : Duration; qb_rate_ratio : f64; qb_min_interval : Duration }.
Definition quality_band (b : obj) : PyResult QualityBand :=
  rtt ← (v ← getattr b "rtt"; x ← extract_f64 v; seconds "rtt" x);
  ratio ← (v ← getattr b "rate_ratio"; extract_f64 v);
  mi ← (v ← getattr b "min_interval"; x ← extract_f64 v; seconds "min_interval" x);
  Ok (mk_band rtt ratio mi).
Record CapacityFloor := mk_floor { cf_rate : Z; cf_rate_ratio : f64 }.
Definition capacity_floor (f : obj) : PyResult CapacityFloor :=
  rate ← (v ← getattr f "rate"; extract_rate v);
  ratio ← (v ← getattr f "rate_ratio"; extract_f64 v);
  Ok (mk_floor rate ratio).
End bands.
