(* ===== verification/Dials.v ===== *)
(** Dialling (src/src/lib.rs, src/src/mode.rs): every [dial_*] function, the
    HTTP/2 connection, the QUIC client, and the candidates of a carrier mode.
    Each reads its arguments into what it will dial, and dials it through the
    carrier crates, which are parameters. *)
From Stdlib Require Import Ascii.
From S2P Require Import Prelude Duration Pyo3 Errors PipeOptions Handles Admission Tls Dial.
Open Scope Z_scope.

(** [http::Uri], and the URL type of the WebTransport crate. *)
Class UriOps (Uri Url : Type) := {
  parse_uri : string -> Uri + string;
  uri_scheme : Uri -> option string;
  uri_host : Uri -> option string;
  uri_port : Uri -> option Z;
  (** [into_client_request]: the URI of the request a WebSocket URL makes *)
  into_client_request : string -> Uri + string;
  parse_url : string -> Url + string;
  host_str : Url -> option string;
  port_or_known_default : Url -> option Z;
}.

(** The scheme of a parsed URI is its text before [://]; a request has the URI
    its URL parses to. *)
Class UriLaws (Uri Url : Type) `{UriOps Uri Url} : Prop := {
  scheme_prefix u s : parse_uri s = inl u ->
    (uri_scheme u = Some "wss" <-> starts_with "wss://" s = true);
  request_uri u s : into_client_request s = inl u -> parse_uri s = inl u;
}.

(** [Result::map_err(value_err)]. *)
Definition or_value_err {A} (r : A + string) : PyResult A :=
  match r with inl a => Ok a | inr e => Err (value_err e) end.
Definition check_value (e : option string) : PyResult unit :=
  match e with None => Ok tt | Some e => Err (value_err e) end.

Section dials.
Context {P : Py} {Cert Key Root : Type} `{!Rustls Cert Key Root}.
Context (zmux_alpn : list bytes) (default_alpn : list bytes -> list bytes -> list bytes) (WT_ALPN : bytes).
Context {Uri Url : Type} `{!UriOps Uri Url} (decimal : Z -> string).
(** [PrefixAuth] objects. *)
Context {Auth : Type} (as_prefix : obj -> option Auth) (binds_tls : Auth -> bool).
Abbreviation Cred := (Credential (P:=P) Auth).
Abbreviation Client := (ClientConfig (Cert:=Cert) (Key:=Key) (Root:=Root)).
Abbreviation credential := (credential as_prefix).
Abbreviation client_alpn := (client_alpn default_alpn).
Abbreviation client_zmux := (client_zmux zmux_alpn default_alpn).

(** ** I/O of other crates *)
Context {IoErr : Type} `{!NativeErr IoErr} {Addr Conn io : Type}.
(** [tokio::net::lookup_host], the error of an empty answer, an address's
    family; [quinn::Endpoint::client]. *)
Context (lookup_host : string -> list Addr + IoErr) (no_address : IoErr) (addr_family : Addr -> family).
Context (endpoint_client : family * Z -> option IoErr).

Definition or_io_err {A} (r : A + IoErr) : PyResult A :=
  match r with inl a => Ok a | inr e => Err (io_err e) end.

(** [resolve] and [lookup]. *)
Definition resolve (addr : string) : PyResult Addr :=
  l ← or_io_err (lookup_host addr);
  ok_or (head l) (new_err PyValueError [Lit "no address"]).
Definition lookup (addr : string) : Addr + IoErr :=
  match lookup_host addr with
  | inr e => inr e
  | inl [] => inr no_address
  | inl (a :: _) => inl a
  end.

(** ** [dial_tcp]

    A connection, with the bytes written to it; [cred_prefix] asks the
    credential, given the peer's address where it is known. *)
Context (tcp_connect : string -> Conn + IoErr) (peer_addr : Conn -> option Addr).
Context (cred_prefix : Cred -> option Addr -> bytes + IoErr).
Context (write_all : bytes -> Conn -> Conn + IoErr) (tcp_io : Conn -> io).

Definition tcp_open (addr : string) (cred : option Cred) : PyResult io :=
  tcp ← or_io_err (tcp_connect addr);
  tcp ← (match cred with
         | Some c =>
             prefix ← or_io_err (cred_prefix c (peer_addr tcp));
             or_io_err (write_all prefix tcp)
         | None => Ok tcp
         end);
  Ok (tcp_io tcp).

Definition dial_tcp (addr : string) (cred : option obj) : PyResult io :=
  c ← credential cred; tcp_open addr c.

(** ** What a dial over TLS is given *)
Record TlsDial := mk_tls_dial { td_addr : string; td_name : string; td_tls : Client; td_cred : option Cred }.

Definition name_of (server_name : option string) (addr : string) : string :=
  match server_name with Some n => n | None => host_of addr end.

Definition dial_tls (addr : string) (tls : option TlsConfig) (server_name : option string)
    (cred : option obj) : PyResult TlsDial :=
  c ← client_zmux (client_tls tls);
  let name := name_of server_name addr in
  cr ← credential cred;
  Ok (mk_tls_dial addr name c cr).

(** [QuicDial]; [quic_config] is the QUIC crate's check of the configuration
    ([zmux_quinn::client_config]). *)
Context (quic_config h3_config : Client -> Z -> option string) (quic_crypto : Client -> option string).

Record QuicDial := mk_quic { qd_addr : string; qd_name : string; qd_tls : Client; qd_lanes : Z; qd_cred : option Cred }.

Definition quic_new (addr : string) (tls : option TlsConfig) (server_name : option string) (lanes : Z)
    (cred : option obj) : PyResult QuicDial :=
  cr ← credential cred;
  let name := name_of server_name addr in
  c ← client_zmux (client_tls tls);
  _ ← check_value (quic_config c lanes);
  Ok (mk_quic addr name c lanes cr).

(** [open] of the three QUIC dials: an endpoint of the address's family, then
    the crate's dial. *)
Definition open_on {A} (addr : string) (dial : Addr -> A + IoErr) : A + IoErr :=
  match lookup addr with
  | inr e => inr e
  | inl a =>
      match endpoint_client (bind_for (addr_family a)) with
      | Some e => inr e
      | None => dial a
      end
  end.

Context (quinn_dial : QuicDial -> Addr -> io + IoErr).
Definition quic_open (d : QuicDial) : io + IoErr := open_on (qd_addr d) (quinn_dial d).
Definition dial_quic (addr : string) (tls : option TlsConfig) (server_name : option string) (lanes : Z)
    (cred : option obj) : PyResult io :=
  d ← quic_new addr tls server_name lanes cred; or_io_err (quic_open d).

(** [H3Dial]. *)
Record H3Dial := mk_h3 { h3_uri : Uri; h3_addr : string; h3_tls : Client; h3_lanes : Z; h3_cred : option Cred }.

Definition h3_new (url : string) (tls : option TlsConfig) (addr : option string) (lanes : Z)
    (cred : option obj) : PyResult H3Dial :=
  uri ← or_value_err (parse_uri url);
  a ← (match addr with
       | Some a => Ok a
       | None => authority_of decimal (uri_host uri) (uri_port uri)
       end);
  cr ← credential cred;
  c ← client (client_tls tls);
  _ ← check_value (h3_config c lanes);
  Ok (mk_h3 uri a c lanes cr).

Context (h3_dial : H3Dial -> Addr -> io + IoErr).
Definition h3_open (d : H3Dial) : io + IoErr := open_on (h3_addr d) (h3_dial d).
Definition dial_h3 (url : string) (tls : option TlsConfig) (addr : option string) (lanes : Z)
    (cred : option obj) : PyResult io :=
  d ← h3_new url tls addr lanes cred; or_io_err (h3_open d).

(** [WebTransportDial]: the connection's name is the host without brackets,
    the address looked up keeps them; its ALPN is WebTransport's only. *)
Record WebTransportDial := mk_wt {
  wt_url : Url; wt_host : string; wt_authority : string; wt_tls : Client; wt_lanes : Z; wt_cred : option Cred;
}.

Definition webtransport_new (url : string) (tls : option TlsConfig) (lanes : Z) (cred : option obj) :
    PyResult WebTransportDial :=
  u ← or_value_err (parse_url url);
  h ← ok_or (host_str u) (new_err PyValueError [Lit "URL without a host"]);
  let host := trim_end "]"%char (trim_start "["%char h) in
  let authority := (default "" (host_str u) ++ ":" ++ decimal (default 443 (port_or_known_default u)))%string in
  cr ← credential cred;
  c ← client (client_tls tls);
  let c := mk_client (cc_verifier c) (cc_auth c) [WT_ALPN] in
  _ ← check_value (quic_crypto c);
  Ok (mk_wt u host authority c lanes cr).

(** The connection, then the session on it. *)
Context (wt_connect : Client -> Addr -> string -> Conn + IoErr) (wt_dial_over : Conn -> WebTransportDial -> io + IoErr).
Definition wt_open (d : WebTransportDial) : io + IoErr :=
  open_on (wt_authority d) (fun a =>
    match wt_connect (wt_tls d) a (wt_host d) with
    | inr e => inr e
    | inl c => wt_dial_over c d
    end).
Definition dial_webtransport (url : string) (tls : option TlsConfig) (lanes : Z) (cred : option obj) :
    PyResult io :=
  d ← webtransport_new url tls lanes cred; or_io_err (wt_open d).

(** ** WebSocket

    [headers]: [list(h.items())] or [h] itself as pairs of strings; each name
    and value is checked by the HTTP crate. *)
Context (extract_items extract_pairs : obj -> PyResult (list (string * string))).
Context (header_name header_value : string -> option string).

Definition headers_of (h : option obj) : PyResult (list (string * string)) :=
  match h with
  | Some h =>
      b ← hasattr h "items";
      if b : bool then extract_items h else extract_pairs h
  | None => Ok []
  end.

Fixpoint insert_headers (l : list (string * string)) : PyResult (list (string * string)) :=
  match l with
  | [] => Ok []
  | (k, v) :: l =>
      _ ← check_value (header_name k);
      _ ← check_value (header_value v);
      r ← insert_headers l; Ok ((k, v) :: r)
  end.

(** What a WebSocket dial is given; [ws_tls]: it goes over TLS. *)
Record WsDial := mk_ws {
  ws_url : string; ws_headers : list (string * string); ws_tls : option Client; ws_cred : option Cred;
}.

Definition ws_connector (tls : option TlsConfig) : PyResult Client := client_alpn http1 (client_tls tls).

Definition is_wss (u : Uri) : bool :=
  match uri_scheme u with Some s => String.eqb s "wss" | None => false end.

Definition dial_websocket (url : string) (tls : option TlsConfig) (headers cred : option obj) : PyResult WsDial :=
  cr ← credential cred;
  hs ← headers_of headers;
  uri ← or_value_err (into_client_request url);
  hs ← insert_headers hs;
  c ← (if is_wss uri then Some <$> ws_connector tls else Ok None);
  Ok (mk_ws url hs c cr).

(** ** HTTP carriers *)
Abbreviation http_client_options := (http_client_options as_prefix binds_tls).
Context (name_ok : string -> PyResult unit).

(** [Http2Connection::connect]: plain, or over TLS to a name, which its future
    checks first. *)
Record Http2Dial := mk_h2 { h2_addr : string; h2_options : HttpOptions (P:=P) Auth; h2_tls : option (Client * string) }.
Definition h2 : list bytes := [string_bytes "h2"].
Definition http2_connect (addr path : string) (tls : option TlsConfig) (server_name : option string)
    (cred : option obj) : PyResult Http2Dial :=
  opts ← http_client_options path cred;
  c ← map_transpose (client_alpn h2) tls;
  Ok (mk_h2 addr opts ((fun c => (c, name_of server_name addr)) <$> c)).

(** [Http2Connection::open_carrier], [join_split]; [dial_http],
    [dial_http_split], [join_http_split]: what is checked before the dial. *)
Definition open_carrier (carrier : string) (join : option string) : PyResult (PipeDirection * option string) :=
  dial_request carrier join.
Definition dial_http (addr path : string) (cred : option obj) (carrier : string) (join : option string) :
    PyResult (string * HttpOptions (P:=P) Auth * (PipeDirection * option string)) :=
  opts ← http_client_options path cred;
  request ← dial_request carrier join;
  Ok (addr, opts, request).
Definition dial_http_split (addr path : string) (cred : option obj) : PyResult (string * HttpOptions (P:=P) Auth) :=
  opts ← http_client_options path cred; Ok (addr, opts).
Definition join_http_split (new : PipeOptions) (validate : PipeOptions -> bool) (addr path : string)
    (cred options : option obj) : PyResult (string * HttpOptions (P:=P) Auth * PipeOptions) :=
  opts ← http_client_options path cred;
  po ← pipe_options new validate options;
  Ok (addr, opts, po).
Definition http2_join_split (new : PipeOptions) (validate : PipeOptions -> bool) (options : option obj) :
    PyResult PipeOptions := pipe_options new validate options.

(** [dial_exchange]: its TLS settings and credential; the endpoints are
    [Dial.dial_exchange]'s. *)
Record ExchangeDial := mk_exchange_dial {
  xd_options : ExchangeOptions; xd_tls : option Client; xd_up : Endpoint; xd_down : Endpoint; xd_cred : option Cred;
}.
Definition dial_exchange (defaults : ExchangeOptions) (addr : string) (options : option ExchangeOptions)
    (down_addr : option string) (tls : option TlsConfig) (server_name : option string) (cred : option obj) :
    PyResult ExchangeDial :=
  let opts := default defaults options in
  cr ← credential cred;
  c ← map_transpose (client_alpn http1) tls;
  ends ← Dial.dial_exchange name_ok addr down_addr (bool_decide (is_Some c)) server_name;
  Ok (mk_exchange_dial opts c ends.1 ends.2 cr).

(** ** [QuicClient]

    An endpoint kept across connections; with 0-RTT, a memory of the servers'
    parameters ([zmux_quinn::ParameterMemory]). *)
Section quic_client.
Context {Mem : Type} (mem_new : option Z -> Mem) (mem_forget : string -> Mem -> Mem) (mem_clear : Mem -> Mem).
Context (mem_has : string -> Mem -> bool) (parse_addr : string -> PyResult Addr) (bind_endpoint : Addr -> option IoErr).

Record QuicClient := mk_quic_client {
  qc_tls : Client; qc_lanes : Z; qc_cred : option Cred; qc_bind : Addr; qc_memory : option Mem;
}.

Definition quic_client_new (tls : option TlsConfig) (lanes : Z) (zero_rtt : bool) (memory_capacity : option Z)
    (bind : string) (cred : option obj) : PyResult QuicClient :=
  let memory := if zero_rtt then Some (mem_new memory_capacity) else None in
  cr ← credential cred;
  c ← client_zmux (client_tls tls);
  _ ← check_value (quic_config c lanes);
  b ← parse_addr bind;
  _ ← (match bind_endpoint b with None => Ok tt | Some e => Err (io_err e) end);
  Ok (mk_quic_client c lanes cr b memory).

(** [dial] and [connect] on the kept endpoint: the name and the address they
    dial; [config] is what [cfg] gives. *)
Definition client_dial {A} (native : Addr -> string -> PyResult A) (addr : string) (server_name : option string) :
    PyResult A :=
  let name := name_of server_name addr in
  a ← resolve addr; native a name.
Definition client_connect {A Config} (native : Addr -> string -> Config -> PyResult A) (addr : string)
    (server_name : option string) (config : PyResult Config) : PyResult A :=
  c ← config;
  let name := name_of server_name addr in
  a ← resolve addr; native a name c.

Definition with_memory (f : Mem -> Mem) (q : QuicClient) : QuicClient :=
  match qc_memory q with
  | Some m => mk_quic_client (qc_tls q) (qc_lanes q) (qc_cred q) (qc_bind q) (Some (f m))
  | None => q
  end.
Definition forget (server_name : string) : QuicClient -> QuicClient := with_memory (mem_forget server_name).
Definition clear : QuicClient -> QuicClient := with_memory mem_clear.
Definition remembers (q : QuicClient) (server_name : string) : bool :=
  match qc_memory q with Some m => mem_has server_name m | None => false end.

(** Forgetting a server forgets that server only, clearing forgets all, and a
    client without 0-RTT remembers none, whatever it did. *)
Theorem quic_client_memory q s :
  (forall m t, mem_has t (mem_forget s m) = negb (String.eqb t s) && mem_has t m) ->
  (forall m t, mem_has t (mem_clear m) = false) ->
  (forall t, remembers (forget s q) t = negb (String.eqb t s) && remembers q t) /\
  (forall t, remembers (clear q) t = false) /\
  (qc_memory q = None -> forall t, remembers q t = false).
Proof.
  intros Hf Hc. unfold remembers, forget, clear, with_memory. destruct (qc_memory q) as [m|] eqn:E; simpl.
  - split_and!; try done.
  - rewrite E. split_and!; try done. intros t. by rewrite andb_false_r.
Qed.
End quic_client.

(** ** Candidates of a carrier mode (src/src/mode.rs) *)
Inductive Candidate :=
  | CStreaming (addr : string) (opts : HttpOptions (P:=P) Auth)
  | CSplit (addr : string) (opts : HttpOptions (P:=P) Auth)
  | CExchange (addr : string) (opts : ExchangeOptions)
  | CWebsocketTls (url : string) (tls : Client) (cred : option Cred)
  | CWebsocket (addr url : string) (cred : option Cred)
  | CQuic (d : QuicDial)
  | CHttp3 (d : H3Dial)
  | CWebTransport (d : WebTransportDial).

Definition cand_streaming (addr path : string) (cred : option obj) : PyResult Candidate :=
  opts ← http_client_options path cred; Ok (CStreaming addr opts).
Definition cand_split (addr path : string) (cred : option obj) : PyResult Candidate :=
  opts ← http_client_options path cred; Ok (CSplit addr opts).
Definition cand_exchange (defaults : ExchangeOptions) (addr : string) (options : option ExchangeOptions) : Candidate :=
  CExchange addr (default defaults options).

Definition cand_websocket (url : string) (tls : option TlsConfig) (cred : option obj) : PyResult Candidate :=
  cr ← credential cred;
  if starts_with "wss://" url then
    c ← ws_connector tls; Ok (CWebsocketTls url c cr)
  else
    uri ← or_value_err (parse_uri url);
    host ← ok_or (uri_host uri) (new_err PyValueError [Lit "URL without a host"]);
    let addr := (host ++ ":" ++ decimal (default 80 (uri_port uri)))%string in
    Ok (CWebsocket addr url cr).

Definition cand_quic (addr : string) (tls : option TlsConfig) (server_name : option string) (lanes : Z)
    (cred : option obj) : PyResult Candidate :=
  d ← quic_new addr tls server_name lanes cred; Ok (CQuic d).
Definition cand_http3 (url : string) (tls : option TlsConfig) (addr : option string) (lanes : Z)
    (cred : option obj) : PyResult Candidate :=
  d ← h3_new url tls addr lanes cred; Ok (CHttp3 d).
Definition cand_webtransport (url : string) (tls : option TlsConfig) (lanes : Z) (cred : option obj) :
    PyResult Candidate :=
  d ← webtransport_new url tls lanes cred; Ok (CWebTransport d).

(** One dial of a candidate; those of the HTTP and WebSocket crates dial as
    their crate does. *)
Context (crate_open : Candidate -> io + IoErr).
Definition cand_open (c : Candidate) : io + IoErr :=
  match c with
  | CQuic d => quic_open d
  | CHttp3 d => h3_open d
  | CWebTransport d => wt_open d
  | c => crate_open c
  end.

(** *** Properties *)

(** The TLS side of a dial: the settings given decide what is verified, which
    roots are trusted and which certificate is presented; without settings,
    the web roots are trusted and none is presented. *)
Definition verifies (tls : option TlsConfig) (c : Client) : Prop :=
  as_configured (client_tls tls) c /\
  (tls = None -> cc_verifier c = WebPki TLS_SERVER_ROOTS /\ cc_auth c = None).
(** And its ALPN list: the one given, filled in from [defaults] as the zmux
    crate does. *)
Definition offers (tls : option TlsConfig) (defaults : list bytes) (c : Client) : Prop :=
  cc_alpn c = default_alpn (t_alpn (client_tls tls)) defaults.

Lemma configured_verifies tls c : as_configured (client_tls tls) c -> verifies tls c.
Proof using Type.
  intros Hc. split; [done|]. intros ->. destruct Hc as (Hn & Hr & Ha). split.
  - destruct (cc_verifier c) as [|roots]; [pose proof (proj1 Hn eq_refl); done|]. by rewrite (Hr roots eq_refl).
  - destruct (cc_auth c) as [[certs k]|]; [|done]. by destruct Ha as (cert & key & [=] & _).
Qed.

Lemma client_verifies tls c :
  client (client_tls tls) = Ok c -> verifies tls c /\ cc_alpn c = t_alpn (client_tls tls).
Proof using Type. intros [Hc Hl]%client_configured. split; [by apply configured_verifies|done]. Qed.

Lemma client_alpn_verifies d tls c : client_alpn d (client_tls tls) = Ok c -> verifies tls c /\ offers tls d c.
Proof using Type. intros [Hc Hl]%client_alpn_configured. split; [by apply configured_verifies|done]. Qed.

Lemma opt_alpn_verifies d tls c :
  map_transpose (client_alpn d) tls = Ok c ->
  match c with Some k => is_Some tls /\ verifies tls k /\ offers tls d k | None => tls = None end.
Proof using Type.
  intros Hc%map_transpose_ok_inv. destruct tls as [t|]; [|by subst].
  destruct Hc as (k & Hk & ->). split; [done|]. by apply (client_alpn_verifies d (Some t)).
Qed.

Lemma fmap_some_inv {A} (r : PyResult A) x c : (Some <$> r) = Ok x -> x = Some c -> r = Ok c.
Proof using Type. destruct r; simpl; congruence. Qed.

Lemma dial_tls_ok addr tls name cred d :
  dial_tls addr tls name cred = Ok d ->
  (verifies tls (td_tls d) /\ offers tls zmux_alpn (td_tls d)) /\ td_addr d = addr /\ td_name d = name_of name addr /\
  credential cred = Ok (td_cred d).
Proof using Type.
  unfold dial_tls. intros. py_inv. subst. simpl. split; [|done]. by eapply client_alpn_verifies.
Qed.

Lemma dial_websocket_ok url tls headers cred d :
  dial_websocket url tls headers cred = Ok d ->
  ws_url d = url /\ credential cred = Ok (ws_cred d) /\
  exists u, into_client_request url = inl u /\
    match ws_tls d with Some c => is_wss u = true /\ verifies tls c /\ offers tls http1 c | None => is_wss u = false end.
Proof using Type.
  unfold dial_websocket. intros E. py_inv. subst. simpl. split_and!; [done..|].
  match goal with H : or_value_err (into_client_request url) = Ok ?x |- _ => exists x; rename H into Hu, x into u end.
  split; [by destruct (into_client_request url); simplify_eq/=|].
  match goal with H : (if is_wss u then _ else _) = Ok ?c |- _ => rename H into Hc; destruct c as [c|] end;
    (destruct (is_wss u); [|done]).
  - split; [done|]. eapply fmap_some_inv in Hc; [|done]. by eapply client_alpn_verifies.
  - by destruct (ws_connector tls).
Qed.

Lemma http2_connect_ok addr path tls name cred d :
  http2_connect addr path tls name cred = Ok d ->
  h2_addr d = addr /\ http_client_options path cred = Ok (h2_options d) /\
  match tls, h2_tls d with
  | Some t, Some (c, n) => verifies tls c /\ offers tls h2 c /\ n = name_of name addr
  | None, None => True
  | _, _ => False
  end.
Proof using Type.
  unfold http2_connect. intros E. py_inv. subst. simpl. split_and!; [done..|].
  match goal with H : map_transpose (client_alpn h2) _ = Ok ?x |- _ =>
    apply opt_alpn_verifies in H; rename H into Hv; destruct x as [c|] end; simpl; [|by subst].
  destruct Hv as ([t ->] & ? & ?). done.
Qed.

Lemma dial_exchange_ends addr down tls name ends :
  Dial.dial_exchange name_ok addr down tls name = Ok ends ->
  let d := default addr down in
  if tls then
    exists a1 a2, ends = (Tls addr (name_of name addr) a1, Tls d (name_of name d) a2)
  else ends = (Tcp addr, Tcp d).
Proof using Type.
  unfold Dial.dial_exchange, exchange_endpoint. destruct tls; simpl; intros; py_inv; subst.
  - destruct down; py_inv; subst; simpl; eauto.
  - destruct down; by simplify_eq/=.
Qed.

(** C22: no dial trusts an unverified server by accident.  Whatever carrier is
    dialled over TLS or QUIC ([dial_tls], [dial_quic], [dial_h3],
    [dial_webtransport], [dial_websocket] and its candidate, HTTP/2, the
    exchange, [QuicClient]), the settings decide: a server's certificate goes
    unchecked exactly when they say [verify=False], the roots are those of their
    [ca], else the bundled web roots, the certificate presented is theirs, and
    without settings the web roots are trusted and none is presented; each with
    the ALPN list given or the carrier's own.  The name the certificate must be
    for is the one asked for, else the host of the address ([dial_tls],
    [dial_quic], [QuicClient], HTTP/2, each endpoint of an exchange) or of the
    URL (WebTransport); HTTP/3 and WebSocket hand the URL itself to their
    crate.  A WebSocket goes over TLS exactly when its URL is [wss], HTTP/2 and
    the exchange exactly when settings are given. *)
Theorem dials_verify_servers :
  (forall addr tls name cred d, dial_tls addr tls name cred = Ok d ->
     verifies tls (td_tls d) /\ offers tls zmux_alpn (td_tls d) /\ td_addr d = addr /\ td_name d = name_of name addr) /\
  (forall addr tls name lanes cred d, quic_new addr tls name lanes cred = Ok d ->
     verifies tls (qd_tls d) /\ offers tls zmux_alpn (qd_tls d) /\ qd_addr d = addr /\ qd_name d = name_of name addr) /\
  (forall url tls addr lanes cred d, h3_new url tls addr lanes cred = Ok d ->
     verifies tls (h3_tls d) /\ cc_alpn (h3_tls d) = t_alpn (client_tls tls) /\ parse_uri url = inl (h3_uri d)) /\
  (forall url tls lanes cred d, webtransport_new url tls lanes cred = Ok d ->
     verifies tls (wt_tls d) /\ cc_alpn (wt_tls d) = [WT_ALPN] /\
     exists h, parse_url url = inl (wt_url d) /\ host_str (wt_url d) = Some h /\
       wt_host d = trim_end "]"%char (trim_start "["%char h)) /\
  (forall url tls headers cred d, dial_websocket url tls headers cred = Ok d ->
     ws_url d = url /\ exists u, into_client_request url = inl u /\
       match ws_tls d with
       | Some c => is_wss u = true /\ verifies tls c /\ offers tls http1 c
       | None => is_wss u = false
       end) /\
  (forall url tls cred c, cand_websocket url tls cred = Ok c ->
     if starts_with "wss://" url then
       exists k cr, c = CWebsocketTls url k cr /\ verifies tls k /\ offers tls http1 k
     else exists addr cr, c = CWebsocket addr url cr) /\
  (forall addr path tls name cred d, http2_connect addr path tls name cred = Ok d ->
     match tls, h2_tls d with
     | Some _, Some (c, n) => verifies tls c /\ offers tls h2 c /\ n = name_of name addr
     | None, None => True
     | _, _ => False
     end) /\
  (forall df addr o down tls name cred d, dial_exchange df addr o down tls name cred = Ok d ->
     let dn := default addr down in
     match tls, xd_tls d with
     | Some _, Some c => verifies tls c /\ offers tls http1 c /\
         exists a1 a2, xd_up d = Tls addr (name_of name addr) a1 /\ xd_down d = Tls dn (name_of name dn) a2
     | None, None => xd_up d = Tcp addr /\ xd_down d = Tcp dn
     | _, _ => False
     end) /\
  (forall Mem (mem_new : option Z -> Mem) parse_addr bind_endpoint tls lanes zero_rtt cap bind cred q,
     quic_client_new mem_new parse_addr bind_endpoint tls lanes zero_rtt cap bind cred = Ok q ->
     verifies tls (qc_tls q) /\ offers tls zmux_alpn (qc_tls q)) /\
  (forall A (native : Addr -> string -> PyResult A) addr name r, client_dial native addr name = Ok r ->
     exists a, resolve addr = Ok a /\ native a (name_of name addr) = Ok r) /\
  (forall A Config (native : Addr -> string -> Config -> PyResult A) addr name c r,
     client_connect native addr name c = Ok r ->
     exists a k, resolve addr = Ok a /\ c = Ok k /\ native a (name_of name addr) k = Ok r).
Proof.
  split_and!.
  - intros addr tls name cred d ([? ?] & ? & ? & _)%dial_tls_ok. done.
  - unfold quic_new. intros. py_inv. subst. simpl. split_and!; [by eapply client_alpn_verifies..|done|done].
  - unfold h3_new, or_value_err. intros url tls addr lanes cred d E. destruct (parse_uri url); [|done]. py_inv. subst. simpl.
    split_and!; [by apply client_verifies..|done].
  - unfold webtransport_new, or_value_err. intros url tls lanes cred d E.
    destruct (parse_url url) as [u|] eqn:Eu; [|done]. py_inv. subst. simpl. split_and!; [|done|by eauto].
    match goal with H : client _ = Ok _ |- _ => apply client_verifies in H as [? _] end. done.
  - intros url tls headers cred d (? & _ & ?)%dial_websocket_ok. done.
  - unfold cand_websocket. intros url tls cred c E. py_inv. destruct (starts_with "wss://" url); py_inv; subst; [|by eauto].
    do 2 eexists. split; [done|]. by eapply client_alpn_verifies.
  - intros addr path tls name cred d (_ & _ & ?)%http2_connect_ok. done.
  - unfold dial_exchange. intros df addr o down tls name cred d E. py_inv. subst. simpl.
    match goal with H : map_transpose _ tls = Ok ?x, H' : Dial.dial_exchange _ _ _ _ _ = Ok _ |- _ =>
      apply opt_alpn_verifies in H; rename H into Hv; apply dial_exchange_ends in H'; rename H' into He; destruct x as [c|] end.
    + destruct Hv as ([t ->] & ? & ?). rewrite bool_decide_true in He by done. destruct He as (a1 & a2 & ->). eauto 10.
    + subst tls. rewrite bool_decide_false in He by by intros [? ?]. by subst.
  - unfold quic_client_new. intros. py_inv. subst. simpl. by eapply client_alpn_verifies.
  - unfold client_dial. intros. py_inv. eauto.
  - unfold client_connect. intros. py_inv. eauto.
Qed.

(** C25: a candidate of a carrier mode dials what the function of the same
    carrier dials.  [Candidate.quic], [http3] and [webtransport] accept and
    refuse the same arguments as [dial_quic], [dial_h3] and
    [dial_webtransport], with the same error, and each dial of the candidate
    has the result of that function; [streaming] and [split] keep the address
    and the options of [dial_http] (bidirectional) and [dial_http_split], with
    the same errors; [exchange], which takes neither TLS nor a credential, keeps
    the address and the options of [dial_exchange].  [Candidate.websocket]
    decides by the text of the URL and [dial_websocket] by the URL parsed; for a
    URL that makes a request they agree: TLS with the same settings for [wss],
    plain otherwise, the same credential, the same errors, but that a plain URL
    without a host is found out earlier by the candidate.  For a URL that makes
    none the function raises, and the candidate does not look: with [wss] in
    front it accepts whatever follows, and otherwise any URI with a host. *)
Theorem candidates_dial_alike `{!UriLaws Uri Url} :
  (forall addr tls name lanes cred,
     dial_quic addr tls name lanes cred =
       (c ← cand_quic addr tls name lanes cred; or_io_err (cand_open c))) /\
  (forall url tls addr lanes cred,
     dial_h3 url tls addr lanes cred = (c ← cand_http3 url tls addr lanes cred; or_io_err (cand_open c))) /\
  (forall url tls lanes cred,
     dial_webtransport url tls lanes cred =
       (c ← cand_webtransport url tls lanes cred; or_io_err (cand_open c))) /\
  (forall addr path cred,
     match cand_streaming addr path cred, dial_http addr path cred "bidirectional" None with
     | Ok c, Ok (a, o, r) => c = CStreaming a o /\ a = addr /\ r = (DirBidi, None)
     | Err e, Err e' => e = e'
     | _, _ => False
     end) /\
  (forall addr path cred,
     match cand_split addr path cred, dial_http_split addr path cred with
     | Ok c, Ok (a, o) => c = CSplit a o /\ a = addr
     | Err e, Err e' => e = e'
     | _, _ => False
     end) /\
  (forall df addr o, exists d, dial_exchange df addr o None None None None = Ok d /\
     xd_up d = Tcp addr /\ xd_down d = Tcp addr /\ xd_tls d = None /\ xd_cred d = None /\
     cand_exchange df addr o = CExchange addr (xd_options d)) /\
  (forall url u tls cred, into_client_request url = inl u ->
     match cand_websocket url tls cred, dial_websocket url tls None cred with
     | Ok c, Ok w =>
         c = match ws_tls w with
             | Some t => CWebsocketTls url t (ws_cred w)
             | None => CWebsocket (default "" (uri_host u) ++ ":" ++ decimal (default 80 (uri_port u)))%string url (ws_cred w)
             end
     | Err e, Err e' => e = e'
     | Err e, Ok w => uri_host u = None /\ ws_tls w = None
     | Ok _, Err _ => False
     end) /\
  (forall url x tls cred cr, into_client_request url = inr x -> credential cred = Ok cr ->
     dial_websocket url tls None cred = Err (value_err x) /\
     cand_websocket url tls cred =
       if starts_with "wss://" url then (c ← ws_connector tls; Ok (CWebsocketTls url c cr))
       else match parse_uri url with
            | inr e => Err (value_err e)
            | inl u =>
                h ← ok_or (uri_host u) (new_err PyValueError [Lit "URL without a host"]);
                Ok (CWebsocket (h ++ ":" ++ decimal (default 80 (uri_port u)))%string url cr)
            end).
Proof.
  split_and!.
  - intros. unfold dial_quic, cand_quic. by destruct (quic_new _ _ _ _ _).
  - intros. unfold dial_h3, cand_http3. by destruct (h3_new _ _ _ _ _).
  - intros. unfold dial_webtransport, cand_webtransport. by destruct (webtransport_new _ _ _ _).
  - intros. unfold dial_http, cand_streaming. by destruct (http_client_options path cred).
  - intros. unfold dial_http_split, cand_split. by destruct (http_client_options path cred).
  - intros. eexists. split; [reflexivity|]. done.
  - intros url u tls cred Hr. pose proof (request_uri _ _ Hr) as Hp.
    unfold cand_websocket, dial_websocket, headers_of, or_value_err. rewrite Hr, Hp.
    destruct (credential cred) as [cr|e]; [|done]. cbn [mbind PyResult_bind insert_headers].
    assert (is_wss u = starts_with "wss://" url) as ->.
    { apply eq_true_iff_eq. rewrite <- (scheme_prefix _ _ Hp). unfold is_wss.
      destruct (uri_scheme u) as [s|]; [|done]. rewrite String.eqb_eq. split; [by intros ->|by intros [= ->]]. }
    destruct (starts_with "wss://" url).
    + by destruct (ws_connector tls).
    + by destruct (uri_host u).
  - intros url x tls cred cr Hr Hc. unfold cand_websocket, dial_websocket, headers_of, or_value_err. rewrite Hr, Hc.
    split; [done|]. cbn [mbind PyResult_bind]. destruct (starts_with "wss://" url); [done|]. by destruct (parse_uri url).
Qed.

(** C26: the credential of [dial_tcp] goes first: when a carrier is given, what
    was written on its connection is exactly the prefix the credential
    returned, all of it, or nothing without a credential; a credential that
    fails gives no carrier. *)
Theorem tcp_credential_first (sent : Conn -> bytes) addr cred :
  (forall a c, tcp_connect a = inl c -> sent c = []) ->
  (forall b c c', write_all b c = inl c' -> sent c' = sent c ++ b) ->
  match dial_tcp addr cred with
  | Ok i =>
      exists conn, i = tcp_io conn /\
        match cred with
        | None => sent conn = []
        | Some o => exists cr peer p, credential (Some o) = Ok (Some cr) /\ cred_prefix cr peer = inl p /\ sent conn = p
        end
  | Err e => e_class e = PyValueError \/ e_class e = ConnectError \/ exists o, cred = Some o /\ credential cred = Err e
  end.
Proof.
  intros Hc Hw. unfold dial_tcp, tcp_open, or_io_err.
  destruct (credential cred) as [cr|e] eqn:Ecr; simpl.
  - destruct (tcp_connect addr) as [tcp|] eqn:Et; simpl; [|by right; left].
    destruct cr as [cr|]; simpl.
    + destruct (cred_prefix cr (peer_addr tcp)) as [p|] eqn:Ep; simpl; [|by right; left].
      destruct (write_all p tcp) as [tcp'|] eqn:Ew; simpl; [|by right; left].
      exists tcp'. split; [done|]. destruct cred as [o|]; [|done].
      exists cr, (peer_addr tcp), p. split_and!; [done..|]. by rewrite (Hw _ _ _ Ew), (Hc _ _ Et).
    + exists tcp. split; [done|]. destruct cred as [o|]; [|by eapply Hc].
      unfold Admission.credential in Ecr. destruct (as_prefix o); [done|].
      destruct (hasattr o "prefix") as [[]|]; simpl in Ecr; try done.
      destruct (hasattr o "header") as [[]|]; simpl in Ecr; done.
  - right. right. destruct cred as [o|]; [|done]. by exists o.
Qed.
End dials.

(** ** An instance: a URI is its text, a connection the bytes written to it *)
Module DialsExample.
#[global] Instance text_uri : UriOps string string := {
  parse_uri s := inl s;
  uri_scheme s := if starts_with "wss://" s then Some "wss" else Some "ws";
  uri_host s := Some "host";
  uri_port s := None;
  into_client_request s := inl s;
  parse_url s := inl s;
  host_str s := Some "[::1]";
  port_or_known_default s := None;
}.
#[global] Instance text_uri_laws : UriLaws string string.
Proof.
  split; [|done]. intros u s [= <-]. simpl. by destruct (starts_with _ _).
Qed.
#[global] Instance text_io : NativeErr string := { display s := s; debug s := s; is_retryable _ := false }.
Definition as_prefix (v : PyVal.pyval) : option Z := match v with PyVal.VInt n => Some n | _ => None end.
Definition lookup_host (s : string) : list family + string := inl [IPv4].
Definition connect (s : string) : bytes + string := inl [].
Definition prefix (c : Credential (P:=PyVal.pyval_py) Z) (peer : option family) : bytes + string :=
  match c with PrefixCredential _ => inl [Byte.x2a] | PythonCredential _ => inr "failed" end.
Definition write_all (b c : bytes) : bytes + string := inl (c ++ b).
Definition no_items (v : PyVal.pyval) : PyResult (list (string * string)) := Ok [].
Definition fine (s : string) : option string := None.
Definition dial_plain := dial_tcp (P:=PyVal.pyval_py) as_prefix connect (fun _ => Some IPv4) prefix write_all
  (fun c : bytes => c).
End DialsExample.

Lemma tcp_credential_first_witness :
  DialsExample.dial_plain "host:1" (Some (PyVal.VInt 7)) = Ok [Byte.x2a] /\
  exists conn, [Byte.x2a] = conn /\ exists cr peer p,
    credential (P:=PyVal.pyval_py) DialsExample.as_prefix (Some (PyVal.VInt 7)) = Ok (Some cr) /\
    DialsExample.prefix cr peer = inl p /\ conn = p.
Proof.
  split; [reflexivity|].
  exact (tcp_credential_first (P:=PyVal.pyval_py) DialsExample.as_prefix DialsExample.connect (fun _ => Some IPv4)
    DialsExample.prefix DialsExample.write_all (fun c : bytes => c) (fun c => c) "host:1" (Some (PyVal.VInt 7))
    (fun a c h => match h with eq_refl => eq_refl end) (fun b c c' h => match h with eq_refl => eq_refl end)).
Defined.

Lemma candidates_dial_alike_witness :
  let dialled := dial_websocket (P:=PyVal.pyval_py) TlsExample.fill DialsExample.as_prefix DialsExample.no_items
    DialsExample.no_items DialsExample.fine DialsExample.fine "wss://host/" (Some TlsExample.mutual) None None in
  is_ok dialled = true /\
  match cand_websocket (P:=PyVal.pyval_py) TlsExample.fill (fun _ => "80") DialsExample.as_prefix "wss://host/"
      (Some TlsExample.mutual) None, dialled with
  | Ok c, Ok w =>
      c = match ws_tls w with
          | Some t => CWebsocketTls "wss://host/" t (ws_cred w)
          | None => CWebsocket "host:80" "wss://host/" (ws_cred w)
          end
  | Err e, Err e' => e = e'
  | Err e, Ok w => Some "host" = None /\ ws_tls w = None
  | Ok _, Err _ => False
  end.
Proof.
  split; [reflexivity|].
  pose proof (candidates_dial_alike (P:=PyVal.pyval_py) [] TlsExample.fill []
    (fun _ => "80") DialsExample.as_prefix (fun _ => false) (Conn:=bytes) (io:=bytes) DialsExample.lookup_host "no address"
    (fun f => f) (fun _ => None) (fun _ _ => None) (fun _ _ => None) (fun _ => None) (fun _ _ => inl []) (fun _ _ => inl [])
    (fun _ _ _ => inl []) (fun _ _ => inl []) DialsExample.no_items DialsExample.no_items DialsExample.fine
    DialsExample.fine (fun _ => Ok tt) (fun _ => inl [])) as (_ & _ & _ & _ & _ & _ & H & _).
  exact (H "wss://host/" "wss://host/" (Some TlsExample.mutual) None eq_refl).
Defined.
