(* ===== verification/Connect.v ===== *)
(** The futures of the dials (src/src/lib.rs): what [dial_tls],
    [dial_websocket], [dial_http] and the others do once their arguments are
    read (Dials), over the carrier crates; [Http2Connection]; and the way from
    a dial to the handle Python gets and the session started on it (Handles). *)
From S2P Require Import Prelude Duration Pyo3 Errors PipeOptions Handles Admission Tls Dial Dials.
Open Scope Z_scope.

(** The native calls.  A stream ([Conn], and [TlsConn] over it) is moved into
    the call that takes it. *)
Class Carriers {P : Py} (Cert Key Root Auth IoErr Conn TlsConn H2 Sess Pipe io : Type) := {
  tcp_connect : string -> Conn + IoErr;
  rustls_dial : string -> string -> ClientConfig (Cert:=Cert) (Key:=Key) (Root:=Root) ->
    option (Credential (P:=P) Auth) -> io + IoErr;
  websocket_dial_tls : string -> list (string * string) -> ClientConfig (Cert:=Cert) (Key:=Key) (Root:=Root) ->
    option (Credential (P:=P) Auth) -> io + IoErr;
  websocket_dial : string -> list (string * string) -> option (Credential (P:=P) Auth) -> io + IoErr;
  tls_connect : ClientConfig (Cert:=Cert) (Key:=Key) (Root:=Root) -> string -> Conn -> TlsConn + IoErr;
  http2_plain : string -> HttpOptions (P:=P) Auth -> H2 + IoErr;
  http2_handshake : TlsConn -> string -> HttpOptions (P:=P) Auth -> H2 + IoErr;
  http2_open_pipe : H2 -> io + IoErr;
  http2_open_carrier : H2 -> PipeDirection * option string -> io + IoErr;
  http2_open_split : H2 -> io + IoErr;
  http2_join : H2 -> Sess -> PipeOptions -> list Pipe + IoErr;
  dial_http1_carrier_over : Conn -> string -> HttpOptions (P:=P) Auth -> PipeDirection * option string -> io + IoErr;
  dial_http1_split : string -> HttpOptions (P:=P) Auth -> io + IoErr;
  join_http1_split_with : Sess -> (unit -> Conn + IoErr) -> string -> HttpOptions (P:=P) Auth -> PipeOptions ->
    list Pipe + IoErr;
  dial_exchange_split : Endpoint -> Endpoint -> ExchangeOptions -> option (Credential (P:=P) Auth) -> io + string;
}.

Section connect.
Context {P : Py} {Cert Key Root Auth IoErr Conn TlsConn H2 Sess Pipe io : Type} `{!NativeErr IoErr}.
Context `{!Carriers (P:=P) Cert Key Root Auth IoErr Conn TlsConn H2 Sess Pipe io}.
Abbreviation Opts := (HttpOptions (P:=P) Auth).
Abbreviation request := (PipeDirection * option string)%type.

(** *** [dial_tls] and [dial_websocket] *)
Definition tls_future (d : TlsDial (P:=P) (Cert:=Cert) (Key:=Key) (Root:=Root) (Auth:=Auth)) : PyResult io :=
  or_io_err (rustls_dial (td_addr d) (td_name d) (td_tls d) (td_cred d)).

Definition ws_future (d : WsDial (P:=P) (Cert:=Cert) (Key:=Key) (Root:=Root) (Auth:=Auth)) : PyResult io :=
  or_io_err
    match ws_tls d with
    | Some c => websocket_dial_tls (ws_url d) (ws_headers d) c (ws_cred d)
    | None => websocket_dial (ws_url d) (ws_headers d) (ws_cred d)
    end.

(** *** [Http2Connection]

    [connect]: over TLS the name is checked first ([ServerName::try_from]), then
    TCP, the TLS handshake and HTTP/2's. *)
Definition h2_future (name_ok : string -> PyResult unit)
    (d : Http2Dial (P:=P) (Cert:=Cert) (Key:=Key) (Root:=Root) (Auth:=Auth)) :
    PyResult H2 :=
  match h2_tls d with
  | None => or_io_err (http2_plain (h2_addr d) (h2_options d))
  | Some (c, name) =>
      _ ← name_ok name;
      tcp ← or_io_err (tcp_connect (h2_addr d));
      tls ← or_io_err (tls_connect c name tcp);
      or_io_err (http2_handshake tls (h2_addr d) (h2_options d))
  end.
Definition open_pipe (h : H2) : PyResult io := or_io_err (http2_open_pipe h).
Definition open_split (h : H2) : PyResult io := or_io_err (http2_open_split h).
Definition h2_open_carrier (h : H2) (carrier : string) (join : option string) : PyResult io :=
  r ← dial_request carrier join; or_io_err (http2_open_carrier h r).
Definition h2_join_split (new : PipeOptions) (validate : PipeOptions -> bool) (h : H2) (s : Sess)
    (options : option obj) : PyResult (list Pipe) :=
  po ← pipe_options new validate options; or_io_err (http2_join h s po).

(** *** HTTP/1.1 *)
Definition http_future (d : string * Opts * request) : PyResult io :=
  let '(addr, opts, r) := d in
  tcp ← or_io_err (tcp_connect addr);
  or_io_err (dial_http1_carrier_over tcp addr opts r).
Definition http_split_future (d : string * Opts) : PyResult io :=
  or_io_err (dial_http1_split d.1 d.2).
Definition http_join_future (s : Sess) (d : string * Opts * PipeOptions) : PyResult (list Pipe) :=
  let '(addr, opts, po) := d in
  or_io_err (join_http1_split_with s (fun _ => tcp_connect addr) addr opts po).

(** *** [dial_exchange] *)
Definition exchange_future (d : ExchangeDial (P:=P) (Cert:=Cert) (Key:=Key) (Root:=Root) (Auth:=Auth)) : PyResult io :=
  match dial_exchange_split (xd_up d) (xd_down d) (xd_options d) (xd_cred d) with
  | inl i => Ok i
  | inr e => Err (value_err e)
  end.

(** ** Properties *)

(** The exceptions of an I/O failure. *)
Definition io_failure (e : pyerr) : Prop := exists x : IoErr, e = io_err x.

Lemma or_io_err_fails {A} (r : A + IoErr) e : or_io_err r = Err e -> io_failure e.
Proof. destruct r; [done|]. intros [= <-]. by eexists. Qed.

Lemma or_io_err_ok {A} (r : A + IoErr) a : or_io_err r = Ok a -> r = inl a.
Proof. destruct r; [|done]. by intros [= ->]. Qed.

(** *** End to end: arguments, future, result *)
Section secured.
Context `{!Rustls Cert Key Root}.
Context (zmux_alpn : list bytes) (default_alpn : list bytes -> list bytes -> list bytes).
Context {Uri Url : Type} `{!UriOps Uri Url}.
Context (as_prefix : obj -> option Auth) (binds_tls : Auth -> bool) (name_ok : string -> PyResult unit).
Context (extract_items extract_pairs : obj -> PyResult (list (string * string))).
Context (header_name header_value : string -> option string).

(** What awaiting the functions gives. *)
Definition await_tls (addr : string) (tls : option TlsConfig) (server_name : option string) (cred : option obj) :
    PyResult io :=
  d ← dial_tls zmux_alpn default_alpn as_prefix addr tls server_name cred; tls_future d.
Definition await_websocket (url : string) (tls : option TlsConfig) (headers cred : option obj) : PyResult io :=
  d ← dial_websocket default_alpn as_prefix extract_items extract_pairs header_name header_value url tls headers cred;
  ws_future d.
Definition await_http2 (addr path : string) (tls : option TlsConfig) (server_name : option string)
    (cred : option obj) : PyResult H2 :=
  d ← http2_connect default_alpn as_prefix binds_tls addr path tls server_name cred; h2_future name_ok d.

(** C23: a carrier that Python gets from a secured dial was made over TLS with
    the settings it gave.  [dial_tls] ends in the native TLS dial to the address
    and name asked for, [dial_websocket] of a [wss] URL in the native dial over
    TLS and never in the plain one, and [Http2Connection.connect] with
    settings in an HTTP/2 handshake on the TLS stream opened on the TCP
    connection to the address, to the name asked for, a valid one.  In each the
    configuration is that of the settings: it checks the server's certificate
    unless they say not to, against the roots of their [ca] or else the web
    roots, presents their certificate and key or none, and offers their ALPN
    list or else the carrier's own; and the dial carries the credential given. *)
Theorem secured_dials_end_to_end :
  (forall addr tls name cred i, await_tls addr tls name cred = Ok i ->
     exists c cr, verifies tls c /\ offers default_alpn tls zmux_alpn c /\ credential as_prefix cred = Ok cr /\
       rustls_dial addr (name_of name addr) c cr = inl i) /\
  (forall url u tls headers cred i, await_websocket url tls headers cred = Ok i ->
     into_client_request url = inl u -> is_wss u = true ->
     exists hs c cr, verifies tls c /\ offers default_alpn tls http1 c /\ credential as_prefix cred = Ok cr /\
       websocket_dial_tls url hs c cr = inl i) /\
  (forall addr path t name cred h, await_http2 addr path (Some t) name cred = Ok h ->
     exists c tcp tls opts, verifies (Some t) c /\ offers default_alpn (Some t) h2 c /\
       http_client_options as_prefix binds_tls path cred = Ok opts /\ name_ok (name_of name addr) = Ok tt /\
       tcp_connect addr = inl tcp /\ tls_connect c (name_of name addr) tcp = inl tls /\
       http2_handshake tls addr opts = inl h).
Proof.
  split_and!.
  - intros addr tls name cred i (d & ([Hv Hl] & <- & Hn & Hc)%dial_tls_ok & Hi%or_io_err_ok)%bind_ok_inv.
    exists (td_tls d), (td_cred d). by rewrite <- Hn.
  - intros url u tls headers cred i (d & (<- & Hc & u' & Hu & Ht)%dial_websocket_ok & Hi%or_io_err_ok)%bind_ok_inv Hu' Hw.
    assert (u' = u) as -> by congruence. destruct (ws_tls d) as [c|]; [|congruence].
    exists (ws_headers d), c, (ws_cred d). by destruct Ht as (_ & ? & ?).
  - intros addr path t name cred h (d & (<- & Ho & Ht)%http2_connect_ok & Hh)%bind_ok_inv. unfold h2_future in Hh.
    destruct (h2_tls d) as [[c n]|]; [|done]. destruct Ht as (Hv & Hl & ->).
    apply bind_ok_inv in Hh as ([] & Hok & (tcp & Htcp%or_io_err_ok & (tls & Htls%or_io_err_ok & Hh%or_io_err_ok)%bind_ok_inv)%bind_ok_inv).
    by exists c, tcp, tls, (h2_options d).
Qed.
End secured.

(** *** From a dial to a session *)
Context {Kind Reservation Config : Type} `{!PipeIoOps io Kind}.
Abbreviation world := (world (io:=io) (Reservation:=Reservation)).

(** Whichever way a carrier was dialled, a failure gives no handle and leaves
    the others as they are; a carrier is in the new handle, the session started
    on that handle gets this carrier, and the handle is used up. *)
Theorem dial_to_session (opened : PyResult io) (c : Config) how (w : world) :
  match opened with
  | Err e => Handles.dial opened w = (Err e, w)
  | Ok i =>
      exists p w1, Handles.dial opened w = (Ok p, w1) /\ pipes w1 !! p = Some (Some i) /\ gone w1 = gone w /\
        let '(r, w2) := start p (Ok c) (Ok tt) how w1 in
        r = Ok c /\ gone w2 = (i, ToSession (role_of how)) :: gone w /\
        Handles.take p w2 = (Err used_pipe, w2)
  end.
Proof.
  destruct opened as [i|e]; [|done]. unfold Handles.dial, start, Handles.take, Handles.bind, Handles.lift, wrap, owning, moved, Handles.ret. cbn.
  exists (length (pipes w)). eexists. split; [done|]. cbn.
  rewrite !lookup_app_r, Nat.sub_diag by done. cbn. split_and!; [done..|].
  rewrite list_lookup_insert_eq; [done|]. rewrite length_app. cbn. lia.
Qed.
End connect.
