(* ===== verification/Listener.v ===== *)
(** The listener (src/src/lib.rs, section "listener"): how it is made, and the
    tasks that serve its addresses. *)
From S2P Require Import Prelude Duration Pyo3 PipeOptions Shaping Config Admission.
Open Scope Z_scope.

(** ** [Listener::new] *)

Record ListenerConfig (Net Admit : Type) := mk_listener_config {
  l_nets : list Net;
  l_forwarded_header : option string;
  l_proxy_protocol : bool;
  l_max_pending : Z;
  l_max_pending_per_source : Z;
  l_max_pending_per_session : Z;
  l_max_record_size : Z;
  l_accept_sessions : bool;
  l_max_suspended : Z;
  l_instance_id : bytes;
  l_memory_budget : Budget;
  l_first_record_timeout : Duration;
  l_handshake_timeout : Duration;
  l_on_memory_pressure : bool;
  l_admission : option Admit;
  l_inbound_transform : bool;
  l_answer_unknown_joins : bool;
}.
Arguments mk_listener_config {Net Admit} _ _ _ _ _ _ _ _ _ _ _ _ _ _ _ _ _.

Section new.
Context {P : Py} {Net Admit Config : Type}.
(** The parser of a network, the crate's longest instance identifier, and the
    result of looking up the running event loop. *)
Context (parse_net : string -> PyResult Net) (MAX_INSTANCE_ID_LEN : nat) (decimal : nat -> string).

Definition instance_err : pyerr :=
  new_err PyValueError [Lit "instance_id is longer than "; Disp (decimal MAX_INSTANCE_ID_LEN); Lit " bytes"].
Definition transform_err : pyerr :=
  new_err PyRuntimeError [Lit "inbound_transform needs the Listener made inside a running event loop"].

Fixpoint parse_nets (l : list string) : PyResult (list Net) :=
  match l with
  | [] => Ok []
  | s :: l => n ← parse_net s; ns ← parse_nets l; Ok (n :: ns)
  end.

Definition or_default {A} (d : A) (v : option A) : A := match v with Some v => v | None => d end.

(** Over the native defaults [d]; [config] is the result of [cfg]. *)
Definition listener_new (d : ListenerConfig Net Admit) (config : PyResult Config)
    (max_pending max_pending_per_source max_pending_per_session : option Z)
    (first_record_timeout handshake_timeout : option f64) (max_record_size : option Z)
    (accept_sessions : option bool) (max_suspended : option Z) (memory_budget : option obj)
    (instance_id : option bytes) (on_memory_pressure : bool) (trusted_proxies : option (list string))
    (forwarded_header : option string) (proxy_protocol : bool) (admission : option Admit)
    (inbound_transform : bool) (locals : PyResult unit) (answer_unknown_joins : bool) :
    PyResult (Config * ListenerConfig Net Admit) :=
  nets ← parse_nets (or_default [] trusted_proxies);
  let iid := or_default (l_instance_id _ _ d) instance_id in
  mb ← (match memory_budget with Some v => field_budget "memory_budget" v | None => Ok (l_memory_budget _ _ d) end);
  fr ← (match first_record_timeout with
        | Some v => seconds "first_record_timeout" v | None => Ok (l_first_record_timeout _ _ d) end);
  ht ← (match handshake_timeout with
        | Some v => seconds "handshake_timeout" v | None => Ok (l_handshake_timeout _ _ d) end);
  _ ← raise_if (MAX_INSTANCE_ID_LEN <? length iid)%nat instance_err;
  _ ← (if inbound_transform then map_err (fun _ => transform_err) locals else Ok tt);
  c ← config;
  Ok (c, mk_listener_config nets forwarded_header proxy_protocol
    (or_default (l_max_pending _ _ d) max_pending)
    (or_default (l_max_pending_per_source _ _ d) max_pending_per_source)
    (or_default (l_max_pending_per_session _ _ d) max_pending_per_session)
    (or_default (l_max_record_size _ _ d) max_record_size)
    (or_default (l_accept_sessions _ _ d) accept_sessions)
    (or_default (l_max_suspended _ _ d) max_suspended)
    iid mb fr ht on_memory_pressure admission inbound_transform answer_unknown_joins).
End new.

(** ** The serving tasks

    [serve_*] binds an address in a future, then spawns the task that serves it
    and records its handle; [close], the end of [shutdown], and the collection
    of the object abort the tasks recorded.  The future runs on a runtime
    thread, so that another thread's [close] may come between any two of these. *)
Module Tasks.

Record state := mk_state {
  binding : list nat;  (** [serve_*] futures that have not bound yet *)
  spawned : list nat;  (** tasks spawned whose handle is not recorded yet *)
  handles : list nat;  (** the recorded tasks *)
  running : list nat;  (** tasks that have not ended and were not asked to *)
  closed : bool;  (** the native listener was closed *)
  collected : bool;  (** the Python object is gone *)
}.

Definition init : state := mk_state [] [] [] [] false false.

Definition without (f : nat) (l : list nat) : list nat := filter (fun g => g <> f) l.

(** A call of [serve_*]. *)
Definition serve (f : nat) (s : state) : state :=
  mk_state (f :: binding s) (spawned s) (handles s) (running s) (closed s) (collected s).

(** Its future, bound: the task is spawned, then recorded; or an error, or a
    cancellation. *)
Definition bound (f : nat) (s : state) : state :=
  mk_state (without f (binding s)) (f :: spawned s) (handles s) (f :: running s) (closed s)
    (collected s).
Definition record (f : nat) (s : state) : state :=
  mk_state (binding s) (without f (spawned s)) (f :: handles s) (running s) (closed s) (collected s).
Definition not_bound (f : nat) (s : state) : state :=
  mk_state (without f (binding s)) (spawned s) (handles s) (running s) (closed s) (collected s).

(** A task ends by itself. *)
Definition task_end (f : nat) (s : state) : state :=
  mk_state (binding s) (spawned s) (handles s) (without f (running s)) (closed s) (collected s).

(** [drain(..)] with [abort] of each: [JoinHandle::abort] asks the runtime to end
    the task, which it does at the task's next await. *)
Definition abort_all (s : state) : state :=
  mk_state (binding s) (spawned s) [] (filter (fun g => g ∉ handles s) (running s)) (closed s)
    (collected s).

Definition close (s : state) : state :=
  let s := mk_state (binding s) (spawned s) (handles s) (running s) true (collected s) in abort_all s.

(** [shutdown] cancelled while it waits: the native listener closes at once
    (its future is dropped), and the tasks stay recorded for [close] and the
    collection. *)
Definition shutdown_cancelled (s : state) : state :=
  mk_state (binding s) (spawned s) (handles s) (running s) true (collected s).

(** [__aexit__]: [close], and the exception is not swallowed. *)
Definition aexit (s : state) : state * bool := (close s, false).

(** [Drop for Listener]. *)
Definition collect (s : state) : state :=
  let s := close s in mk_state (binding s) (spawned s) (handles s) (running s) (closed s) true.

Inductive step : state -> state -> Prop :=
  | step_serve s f :
      collected s = false -> f ∉ binding s -> f ∉ spawned s -> f ∉ handles s -> step s (serve f s)
  | step_bound s f : f ∈ binding s -> step s (bound f s)
  | step_record s f : f ∈ spawned s -> step s (record f s)
  | step_not_bound s f : f ∈ binding s -> step s (not_bound f s)
  | step_end s f : f ∈ running s -> step s (task_end f s)
  | step_close s : collected s = false -> step s (close s)
  | step_shutdown s : step s (abort_all s)
  | step_shutdown_cancelled s : step s (shutdown_cancelled s)
  | step_aexit s : collected s = false -> step s (aexit s).1
  | step_collect s : collected s = false -> step s (collect s).

Definition reachable (s : state) : Prop := steps step init s.

(** Every running task is recorded, or about to be. *)
Definition tracked (s : state) : Prop := forall f, f ∈ running s -> f ∈ handles s \/ f ∈ spawned s.

Lemma elem_of_without f g l : g ∈ without f l <-> g <> f /\ g ∈ l.
Proof. unfold without. by rewrite list_elem_of_filter. Qed.

Lemma tracked_step s s' : tracked s -> step s s' -> tracked s'.
Proof.
  unfold tracked. intros Hs Hst g. destruct Hst; simpl;
    rewrite ?elem_of_cons, ?elem_of_without, ?list_elem_of_filter; intros Hg; try naive_solver.
  destruct (Nat.eq_dec g f); naive_solver.
Qed.

Lemma reachable_tracked s : reachable s -> tracked s.
Proof.
  intros Hr. apply (steps_invariant step tracked tracked_step _ _ Hr). by intros f ?%elem_of_nil.
Qed.

Lemma abort_all_running s : tracked s -> running (abort_all s) ⊆ spawned s.
Proof. intros Hs g [Hn Hg]%list_elem_of_filter. by destruct (Hs g Hg). Qed.

(** After the object is collected, tasks come only from calls under way. *)
Definition left_over (l : list nat) (s : state) : Prop :=
  collected s = true /\ binding s ++ spawned s ++ running s ⊆ l.

Lemma collected_step l s s' : left_over l s -> step s s' -> left_over l s'.
Proof.
  intros [Hc Hl] Hst.
  assert (forall x, x ∈ binding s \/ x ∈ spawned s \/ x ∈ running s -> x ∈ l) as Hl'
    by (intros x Hx; apply Hl; by rewrite !elem_of_app).
  destruct Hst; simpl in *; try congruence; (split; [done|]);
    intros x; rewrite !elem_of_app; simpl;
    rewrite ?elem_of_cons, ?elem_of_without, ?list_elem_of_filter; intros Hx; apply Hl'; naive_solver.
Qed.

(** C33: no serving task is forgotten: every running task is recorded or its
    [serve_*] call is about to record it, so that after [close], the end of
    [shutdown] and the collection of the listener a task runs without having
    been asked to end only for such a call; and after a collection, whatever
    follows, only for a [serve_*] call that was still binding or recording
    then. *)
Theorem listener_tasks_aborted s :
  reachable s ->
  running s ⊆ handles s ++ spawned s /\ running (close s) ⊆ spawned s /\
  running (abort_all s) ⊆ spawned s /\
  forall s', steps step (collect s) s' -> running s' ⊆ binding s ++ spawned s.
Proof.
  intros Hr%reachable_tracked.
  assert (running (close s) ⊆ spawned s) as Hc by (by apply (abort_all_running
    (mk_state (binding s) (spawned s) (handles s) (running s) true (collected s)))).
  split; [intros f Hf%Hr; by rewrite elem_of_app|]. split; [done|].
  split; [by apply abort_all_running|].
  intros s' Hs'.
  destruct (steps_invariant step (left_over (binding s ++ spawned s))
    (collected_step (binding s ++ spawned s)) _ _ Hs') as [_ H]; [|set_solver].
  split; [done|]. simpl in *. intros x. rewrite !elem_of_app. intros [?|[?|?%Hc]]; auto.
Qed.

Lemma listener_tasks_aborted_witness :
  let s := record 1 (bound 1 (serve 2 (serve 1 init))) in
  running s = [1%nat] /\ running (close s) ⊆ [].
Proof.
  split; [reflexivity|].
  apply (listener_tasks_aborted (record 1 (bound 1 (serve 2 (serve 1 init))))).
  eapply steps_cons; [apply (step_serve _ 1); [reflexivity|apply not_elem_of_nil..]|].
  eapply steps_cons; [apply (step_serve _ 2); [reflexivity|simpl; set_solver|apply not_elem_of_nil..]|].
  eapply steps_cons; [apply (step_bound _ 1); simpl; set_solver|].
  apply steps_one, (step_record _ 1). simpl. set_solver.
Defined.
End Tasks.
