(* ===== verification/Serve.v ===== *)
(** Serving (src/src/lib.rs, [Listener]): what each [serve_*] method checks
    before it binds its address, the acceptance of sessions, and the close of
    a listener. *)
From S2P Require Import Prelude Duration Pyo3 Errors PyData Tls Dial Dials Listener.
Open Scope Z_scope.

Section serve.
Context {Cert Key Root : Type} `{!Rustls Cert Key Root}.
Context (zmux_alpn : list bytes) (default_alpn : list bytes -> list bytes -> list bytes) (WT_ALPN : bytes).
Abbreviation Server := (ServerConfig (Cert:=Cert) (Key:=Key)).
(** The checks of the carrier crates: an exchange server's options, and the
    QUIC configurations. *)
Context {XOpts : Type} (exchange_server : XOpts -> option string).
Context (quic_server h3_server : Server -> Z -> option string) (wt_server : Server -> option string).

(** What serves the address. *)
Inductive Served :=
  | ServeTcp (addr : string)
  | ServeTls (addr : string) (tls : Server)
  | ServeHttp (addr path : string) (exchange : option XOpts) (websocket : bool) (tls : option Server)
  | ServeWebsocket (addr : string) (tls : option Server)
  | ServeH3 (addr : string) (tls : Server) (lanes : Z)
  | ServeWebTransport (addr : string) (tls : Server) (lanes : Z)
  | ServeQuic (addr : string) (tls : Server) (lanes : Z) (zero_rtt : bool).

Definition serve_tcp (addr : string) : PyResult Served := Ok (ServeTcp addr).

Definition serve_tls (addr : string) (tls : TlsConfig) : PyResult Served :=
  c ← server_zmux zmux_alpn default_alpn tls; Ok (ServeTls addr c).

Definition h2_http1 : list bytes := [string_bytes "h2"; HTTP1].

Definition serve_http (addr path : string) (tls : option TlsConfig) (exchange : option XOpts) (websocket : bool) :
    PyResult Served :=
  _ ← (match exchange with Some x => check_value (exchange_server x) | None => Ok tt end);
  match tls with
  | None => Ok (ServeHttp addr path exchange websocket None)
  | Some t =>
      c ← server_alpn default_alpn h2_http1 t;
      Ok (ServeHttp addr path exchange websocket (Some c))
  end.

Definition serve_websocket (addr : string) (tls : option TlsConfig) : PyResult Served :=
  match tls with
  | None => Ok (ServeWebsocket addr None)
  | Some t => c ← server_alpn default_alpn http1 t; Ok (ServeWebsocket addr (Some c))
  end.

Definition serve_h3 (addr : string) (tls : TlsConfig) (lanes : Z) : PyResult Served :=
  c ← server tls;
  _ ← check_value (h3_server c lanes);
  Ok (ServeH3 addr c lanes).

Definition serve_webtransport (addr : string) (tls : TlsConfig) (lanes : Z) : PyResult Served :=
  c ← server tls;
  let c := mk_server (sc_cert c) (sc_key c) [WT_ALPN] in
  _ ← check_value (wt_server c);
  Ok (ServeWebTransport addr c lanes).

Definition zero_rtt_err : pyerr := new_err PyValueError [Lit "zero_rtt and admission are mutually exclusive"].

Definition serve_quic (admission : bool) (addr : string) (tls : TlsConfig) (lanes : Z) (zero_rtt : bool) :
    PyResult Served :=
  _ ← raise_if (zero_rtt && admission) zero_rtt_err;
  c ← server_zmux zmux_alpn default_alpn tls;
  _ ← check_value (quic_server c lanes);
  Ok (ServeQuic addr c lanes zero_rtt).

(** The server's side of TLS, if it has one. *)
Definition served_tls (s : Served) : option Server :=
  match s with
  | ServeTcp _ => None
  | ServeTls _ c | ServeH3 _ c _ | ServeWebTransport _ c _ | ServeQuic _ c _ _ => Some c
  | ServeHttp _ _ _ _ c | ServeWebsocket _ c => c
  end.

(** One connection of [serve_http] over TLS: the header of a trusted
    intermediary is read before the handshake. *)
Definition proxied_accept {Conn Tls Source IoErr : Type} (proxied_source : Conn -> Conn * (Source + IoErr))
    (tls_accept : Server -> Conn -> Tls + IoErr) (acc : Server) (conn : Conn) : (Tls * Source) + IoErr :=
  let '(conn, source) := proxied_source conn in
  match source with
  | inr e => inr e
  | inl source => match tls_accept acc conn with inl io => inl (io, source) | inr e => inr e end
  end.

(** *** The future of a [serve_*] method: bind, report the address, spawn *)
Section bind.
Context {IoErr : Type} `{!NativeErr IoErr} {Sock : Type} (bind_addr : string -> Sock + IoErr) (local_addr : Sock -> string + IoErr).

(** [serve]: the bound address, and the socket the spawned task is given. *)
Definition serve_bind (addr : string) : PyResult (string * Sock) :=
  match bind_addr addr with
  | inr e => Err (io_err e)
  | inl s =>
      match local_addr s with
      | inr e => Err (io_err e)
      | inl a => Ok (a, s)
      end
  end.

(** The QUIC carriers: the address resolved, an endpoint on it. *)
Context {Addr : Type} (lookup_host : string -> list Addr + IoErr) (endpoint_server : Server -> Addr -> Sock + IoErr).
Definition quic_bind (addr : string) (sc : Server) : PyResult (string * Sock) :=
  a ← resolve lookup_host addr;
  ep ← or_io_err (endpoint_server sc a);
  local ← or_io_err (local_addr ep);
  Ok (local, ep).

Definition served_bind (v : Served) : PyResult (string * Sock) :=
  match v with
  | ServeTcp addr | ServeTls addr _ | ServeHttp addr _ _ _ _ | ServeWebsocket addr _ => serve_bind addr
  | ServeH3 addr c _ | ServeWebTransport addr c _ | ServeQuic addr c _ _ => quic_bind addr c
  end.

(** The future of call [f]: an error leaves it at once; a bound socket is given
    to a task that is spawned and recorded ([spawner]). *)
Definition serve_future (f : nat) (r : PyResult (string * Sock)) (s : Tasks.state) : Tasks.state * PyResult string :=
  match r with
  | Err e => (Tasks.not_bound f s, Err e)
  | Ok (local, _) => (Tasks.record f (Tasks.bound f s), Ok local)
  end.

(** A whole [serve_*] call: its checks, then its future. *)
Definition serve_method (f : nat) (checks : PyResult Served) (s : Tasks.state) : Tasks.state * PyResult string :=
  match checks with
  | Err e => (s, Err e)
  | Ok v => serve_future f (served_bind v) (Tasks.serve f s)
  end.

Lemma without_new f l : f ∉ l -> Tasks.without f (f :: l) = l.
Proof.
  intros Hf. unfold Tasks.without. rewrite filter_cons_False by tauto.
  induction l as [|x l IH]; [done|]. apply not_elem_of_cons in Hf as [? ?].
  rewrite filter_cons_True by done. f_equal. auto.
Qed.

(** Serving is all or nothing: a call that raises, for its arguments, its
    certificate or its address, leaves no task behind and none recorded; one
    that returns has bound its socket, returns the address bound, and has
    exactly one task more, running and recorded; and either way these are steps
    of the listener, so that what is known of its tasks holds. *)
Theorem serve_all_or_nothing f checks s :
  Tasks.collected s = false -> f ∉ Tasks.binding s -> f ∉ Tasks.spawned s -> f ∉ Tasks.handles s ->
  let '(s', r) := serve_method f checks s in
  steps Tasks.step s s' /\ Tasks.binding s' = Tasks.binding s /\ Tasks.spawned s' = Tasks.spawned s /\
  match r with
  | Err _ => Tasks.running s' = Tasks.running s /\ Tasks.handles s' = Tasks.handles s
  | Ok local =>
      Tasks.running s' = f :: Tasks.running s /\ Tasks.handles s' = f :: Tasks.handles s /\
      exists v sock, checks = Ok v /\ served_bind v = Ok (local, sock)
  end.
Proof.
  intros Hc Hb Hs Hh. unfold serve_method. destruct checks as [v|e]; [|by split; [constructor|]].
  assert (Tasks.step s (Tasks.serve f s)) as H1 by (by constructor).
  assert (f ∈ Tasks.binding (Tasks.serve f s)) as Hf by (simpl; by left).
  unfold serve_future. destruct (served_bind v) as [[local sock]|e] eqn:Ev; simpl; rewrite without_new by done.
  - rewrite without_new by done. split_and!; try done; [|by exists v, sock].
    eapply steps_cons; [exact H1|]. eapply steps_cons; [by apply Tasks.step_bound|].
    apply steps_one, Tasks.step_record. simpl. by left.
  - split; [|done]. eapply steps_cons; [exact H1|]. by apply steps_one, Tasks.step_not_bound.
Qed.
End bind.

(** *** Properties *)
Lemma server_presents t c :
  server t = Ok c ->
  exists cert key, t_cert t = Some cert /\ t_key t = Some key /\
    pem_slice_iter cert = inl <$> sc_cert c /\ from_pem_slice key = inl (sc_key c).
Proof.
  unfold server. intros E. py_inv. subst. simpl.
  match goal with H : chain t = Ok _ |- _ => apply chain_ok in H; rename H into Hc end. simpl in Hc.
  match goal with H : checked_key _ = Ok _ |- _ => apply checked_key_ok in H; subst end.
  match goal with ck : (list Cert * Key)%type |- _ => destruct ck end. simpl in *.
  destruct Hc as (cert & key & ? & ? & ? & ?). by eauto 10.
Qed.

Lemma server_alpn_inv d t c :
  server_alpn default_alpn d t = Ok c ->
  exists c0, server t = Ok c0 /\ sc_cert c = sc_cert c0 /\ sc_key c = sc_key c0 /\
    sc_alpn c = default_alpn (sc_alpn c0) d.
Proof. unfold server_alpn. intros (c0 & H0 & [= <-])%bind_ok_inv. by exists c0. Qed.

(** A server made of [t] presents [t]'s certificate with [t]'s key. *)
Definition presents (t : TlsConfig) (c : Server) : Prop :=
  exists cert key, t_cert t = Some cert /\ t_key t = Some key /\
    pem_slice_iter cert = inl <$> sc_cert c /\ from_pem_slice key = inl (sc_key c).

Lemma alpn_presents d t c : server_alpn default_alpn d t = Ok c -> presents t c.
Proof.
  intros (c0 & H0%server_presents & Hc & Hk & _)%server_alpn_inv. unfold presents. by rewrite Hc, Hk.
Qed.

(** C24: nothing is served over TLS or QUIC without the certificate and key of
    the [TlsConfig] given: every secured [serve_*] either presents exactly
    them or raises before its address is bound; [serve_http] and
    [serve_websocket] are plain only when called without a [TlsConfig]; and
    0-RTT is never accepted together with an admission. *)
Theorem serving_presents_certificate t :
  (forall addr s, serve_tls addr t = Ok s -> exists c, served_tls s = Some c /\ presents t c) /\
  (forall addr path x ws s, serve_http addr path (Some t) x ws = Ok s -> exists c, served_tls s = Some c /\ presents t c) /\
  (forall addr s, serve_websocket addr (Some t) = Ok s -> exists c, served_tls s = Some c /\ presents t c) /\
  (forall addr lanes s, serve_h3 addr t lanes = Ok s -> exists c, served_tls s = Some c /\ presents t c) /\
  (forall addr lanes s, serve_webtransport addr t lanes = Ok s ->
     exists c, served_tls s = Some c /\ presents t c /\ sc_alpn c = [WT_ALPN]) /\
  (forall adm addr lanes z s, serve_quic adm addr t lanes z = Ok s ->
     exists c, s = ServeQuic addr c lanes z /\ presents t c /\ (z = true -> adm = false)).
Proof.
  split_and!.
  - unfold serve_tls. intros. py_inv. subst. eexists. split; [done|]. by eapply alpn_presents.
  - unfold serve_http. intros. py_inv. subst. eexists. split; [done|]. by eapply alpn_presents.
  - unfold serve_websocket. intros. py_inv. subst. eexists. split; [done|]. by eapply alpn_presents.
  - unfold serve_h3. intros. py_inv. subst. eexists. split; [done|]. by eapply server_presents.
  - unfold serve_webtransport. intros. py_inv. subst. eexists. split; [done|]. split; [|done].
    match goal with H : server t = Ok _ |- _ => exact (server_presents _ _ H) end.
  - unfold serve_quic. intros adm addr lanes z s E. py_inv. subst. eexists. split; [done|].
    split; [by eapply alpn_presents|]. intros ->. by destruct adm.
Qed.

(** ** Accepting

    [accept] and [__anext__] over the native listener's next session ([None]
    once it is closed). *)
Section accept.
Context {L Sess : Type} (n_accept : L -> L * option Sess).

(** [ListenerClosed], with the attributes set on it. *)
Definition listener_closed : pyerr :=
  mk_pyerr ListenerClosed [Lit "listener closed"] (Some "ListenerClosed") (Some false) (Some None) None None.

Definition accept (l : L) : L * PyResult Sess :=
  match n_accept l with (l, Some s) => (l, Ok s) | (l, None) => (l, Err listener_closed) end.
Definition listener_anext (l : L) : L * PyResult Sess :=
  match n_accept l with
  | (l, Some s) => (l, Ok s)
  | (l, None) => (l, Err (new_err PyStopAsyncIteration []))
  end.

(** The end of a listener is one of the errors of the package, and not to be
    tried again; iterating it ends instead. *)
Lemma accept_closed l l' :
  n_accept l = (l', None) ->
  accept l = (l', Err listener_closed) /\ catches ZmuxError (e_class listener_closed) = true /\
  listener_anext l = (l', Err (new_err PyStopAsyncIteration [])).
Proof. unfold accept, listener_anext. by intros ->. Qed.

(** [shutdown] reads its code before anything else ([VarInt::from_u64] with its
    error as a [ValueError]). *)
Definition shutdown_code (from_u64 : Z -> Z + string) (code : Z) : PyResult Z := or_value_err (from_u64 code).
End accept.
End serve.
