(* ===== verification/Helpers.v ===== *)
(** The stream helpers (src/src/helpers.rs): Python limiters of a splice, its
    result, and the names of rules. *)
From Stdlib Require Import Ascii.
From S2P Require Import Prelude Duration Pyo3 PyData Errors.
Open Scope Z_scope.

(** ** Python limiters

    [PyLimiter] polls one coroutine at a time: [F] is a started coroutine. *)
Section limiter.
Context {P : Py} {F : Type}.

(** [allowance]: the count, and what is reported as unraisable. *)
Definition allowance (r : PyResult obj) : Z * list pyerr :=
  match (v ← r; extract_usize v) with
  | Ok n => (n, [])
  | Err e => (0, [e])
  end.

Inductive Poll := Ready (n : Z) | Pending.

(** What the rest of the program does at one poll: the start of [ready(min,
    max)], asked only when none is pending, and the poll of the coroutine. *)
Record env := mk_env { e_start : PyResult F; e_poll : F -> option (PyResult obj) }.

(** The result of a poll: the pending coroutine, the answer, the reports, and
    whether a coroutine was started. *)
Definition poll_ready (e : env) (pending : option F) : option F * Poll * list pyerr * bool :=
  let '(f, early, started) :=
    match pending with
    | Some f => (Some f, None, false)
    | None =>
        match e_start e with
        | Ok f => (Some f, None, true)
        | Err x => (None, Some (allowance (Err x)), false)
        end
    end in
  match early, f with
  | Some (n, reports), _ => (None, Ready n, reports, started)
  | None, Some f =>
      match e_poll e f with
      | Some r => let '(n, reports) := allowance r in (None, Ready n, reports, started)
      | None => (Some f, Pending, [], started)
      end
  | None, None => (None, Pending, [], started)
  end.

(** [try_ready] and [charge]: the answer of the Python method. *)
Definition try_ready (r : PyResult obj) : Z * list pyerr := allowance r.
Definition charge (r : PyResult obj) : list pyerr := match r with Ok _ => [] | Err e => [e] end.

(** A sequence of polls: the coroutine left pending, the coroutines started and
    those whose answer was taken, and the answers. *)
Record run := mk_run { r_pending : option F; r_started : nat; r_taken : nat; r_answers : list Z }.

Definition poll_step (s : run) (e : env) : run :=
  let '(p, r, _, started) := poll_ready e (r_pending s) in
  let ran := match r_pending s with Some _ => true | None => started end in
  mk_run p (r_started s + if started then 1 else 0)
    (r_taken s + match r with Ready _ => if ran then 1 else 0 | Pending => 0 end)
    (match r with Ready n => r_answers s ++ [n] | Pending => r_answers s end).

Definition polls (es : list env) : run := foldl poll_step (mk_run None 0 0 []) es.

Definition pending_count (s : run) : nat := match r_pending s with Some _ => 1%nat | None => 0%nat end.

Lemma poll_step_count s e :
  r_started s = (r_taken s + pending_count s)%nat ->
  r_started (poll_step s e) = (r_taken (poll_step s e) + pending_count (poll_step s e))%nat.
Proof.
  unfold poll_step, poll_ready, pending_count. intros H. destruct (r_pending s) as [f|].
  - destruct (e_poll e f) as [r|]; [destruct (allowance r)|]; simpl; lia.
  - destruct (e_start e) as [f|x]; simpl; [|lia].
    destruct (e_poll e f) as [r|]; [destruct (allowance r)|]; simpl; lia.
Qed.

(** A Python limiter is asked one thing at a time: however often the splice
    polls it, a new [ready] coroutine starts only once the previous one's
    answer was taken, so those started are those taken plus at most the one
    pending; and an exception of the limiter, or a result that is no count,
    allows 0 and is reported. *)
Theorem limiter_one_ready es :
  let s := polls es in
  r_started s = (r_taken s + pending_count s)%nat /\
  (forall r e, (v ← r; extract_usize v) = Err e -> allowance r = (0, [e])) /\
  forall e f, e_poll e f = None -> poll_ready e (Some f) = (Some f, Pending, [], false).
Proof.
  intros s. split; [|split].
  - unfold s, polls. assert (forall l s0, r_started s0 = (r_taken s0 + pending_count s0)%nat ->
      r_started (foldl poll_step s0 l) = (r_taken (foldl poll_step s0 l) + pending_count (foldl poll_step s0 l))%nat) as H.
    { induction l as [|e l IH]; intros s0 H0; [done|]. simpl. by apply IH, poll_step_count. }
    by apply H.
  - intros r e He. unfold allowance. by rewrite He.
  - intros e f Hf. unfold poll_ready. by rewrite Hf.
Qed.
End limiter.

(** ** The result of a splice *)

Inductive SpliceEnd := Finished | EndReset (c : Z) | EndStopped (c : Z) | UpstreamLost | DownstreamLost
  | OtherEnd (debug : string).

(** [forwarded]: the name of the end and its code. *)
Definition forwarded (e : SpliceEnd) : PyResult (string * option Z) :=
  match e with
  | Finished => Ok ("finished", None)
  | EndReset c => Ok ("reset", Some c)
  | EndStopped c => Ok ("stopped", Some c)
  | UpstreamLost => Ok ("upstream_lost", None)
  | DownstreamLost => Ok ("downstream_lost", None)
  | OtherEnd d => Err (new_err PyValueError [Disp d])
  end.

(** ** Names *)

Definition is_upper (c : ascii) : bool := let n := nat_of_ascii c in (65 <=? n)%nat && (n <=? 90)%nat.
Definition is_lower (c : ascii) : bool := let n := nat_of_ascii c in (97 <=? n)%nat && (n <=? 122)%nat.
Definition to_lower (c : ascii) : ascii := if is_upper c then ascii_of_nat (nat_of_ascii c + 32) else c.
Definition to_upper (c : ascii) : ascii := if is_lower c then ascii_of_nat (nat_of_ascii c - 32) else c.

(** [snake]: [later] is [i > 0]. *)
Fixpoint snake_go (later : bool) (s : string) : string :=
  match s with
  | EmptyString => EmptyString
  | String c s =>
      let rest := String (to_lower c) (snake_go true s) in
      if is_upper c && later then String "_" rest else rest
  end.
Definition snake (name : string) : string := snake_go false name.

(** A variant's name from the Python name. *)
Fixpoint camel_go (up : bool) (s : string) : string :=
  match s with
  | EmptyString => EmptyString
  | String c s =>
      if Ascii.eqb c "_" then camel_go true s
      else String (if up then to_upper c else c) (camel_go false s)
  end.
Definition camel (s : string) : string := camel_go true s.

Fixpoint no_underscore (s : string) : bool :=
  match s with EmptyString => true | String c s => negb (Ascii.eqb c "_") && no_underscore s end.
Definition variant_name (s : string) : bool :=
  match s with EmptyString => true | String c _ => is_upper c && no_underscore s end.

Lemma upper_lower c : is_upper c = true -> to_upper (to_lower c) = c /\ Ascii.eqb (to_lower c) "_" = false.
Proof. destruct c as [[] [] [] [] [] [] [] []]; vm_compute; intros; try done; by split. Qed.
Lemma lower_id c : is_upper c = false -> to_lower c = c.
Proof. unfold to_lower. by intros ->. Qed.

Lemma camel_snake_later s : no_underscore s = true -> camel_go false (snake_go true s) = s.
Proof.
  induction s as [|c s IH]; [done|]. cbn [no_underscore snake_go]. intros [Hc Hs]%andb_true_iff.
  specialize (IH Hs). destruct (is_upper c) eqn:Eu; simpl.
  - destruct (upper_lower c Eu) as [H1 H2]. by rewrite H2, H1, IH.
  - rewrite lower_id by done. apply negb_true_iff in Hc. by rewrite Hc, IH.
Qed.

(** The Python name of a rule determines the variant: a variant's name is
    recovered from its snake case, so that no two rules share a name. *)
Theorem snake_recovers s : variant_name s = true -> camel (snake s) = s.
Proof.
  destruct s as [|c s]; [done|]. cbn [variant_name no_underscore]. intros [Hu [_ Hs]%andb_true_iff]%andb_true_iff.
  unfold snake, camel. cbn [snake_go]. rewrite Hu. simpl.
  destruct (upper_lower c Hu) as [H1 H2]. by rewrite H2, H1, camel_snake_later.
Qed.

Lemma snake_recovers_witness : snake "SessionNonce" = "session_nonce" /\ camel (snake "SessionNonce") = "SessionNonce".
Proof. split; [reflexivity|]. apply snake_recovers. reflexivity. Defined.

(** ** The results of [splice] and [resolve_duplicate] *)
Definition SpliceEndName : enum :=
  mk_enum "SpliceEnd" ["finished"; "reset"; "stopped"; "upstream_lost"; "downstream_lost"].
Definition Forwarded : dataclass := mk_dataclass "Forwarded"
  [req "bytes" TInt; req "datagram_bytes" TInt; req "datagrams_dropped" TInt;
   req "end" (TUnion (TEnum SpliceEndName) TStr); opt_field "code" (TOptional TInt) PNone].
Definition Spliced : dataclass := mk_dataclass "Spliced"
  [req "a_to_b" (class_type Forwarded); req "b_to_a" (class_type Forwarded)].
Definition DuplicateRule : enum := mk_enum "DuplicateRule" ["identity"; "session_nonce"; "role_nonce"].

(** What one direction forwarded, and the object made of it; [__post_init__]
    takes the end for a member. *)
Record ForwardedStats := mk_forwarded { fw_bytes : Z; fw_datagram_bytes : Z; fw_dropped : Z; fw_end : SpliceEnd }.
Definition forwarded_obj (f : ForwardedStats) : PyResult pobj :=
  '(e, code) ← forwarded (fw_end f);
  construct_pos Forwarded
    [to_py (fw_bytes f); to_py (fw_datagram_bytes f); to_py (fw_dropped f); enum_text SpliceEndName e; to_py code].

(** The end of [splice]'s future. *)
Definition splice_end (r : (ForwardedStats * ForwardedStats) + string) : PyResult pobj :=
  match r with
  | inr e => Err (new_err PyValueError [Disp e])
  | inl (ab, ba) => x ← forwarded_obj ab; y ← forwarded_obj ba; construct_pos Spliced [x; y]
  end.

(** An end the binding names. *)
Definition named_end (e : SpliceEnd) : bool := match e with OtherEnd _ => false | _ => true end.

Lemma forwarded_obj_ok f :
  named_end (fw_end f) = true ->
  exists o, forwarded_obj f = Ok o /\ has_type (class_type Forwarded) o = true /\
    attr o "end" = Some (PMember "SpliceEnd" (match forwarded (fw_end f) with Ok (n, _) => n | Err _ => "" end)).
Proof. unfold forwarded_obj. destruct (fw_end f); intros Hn; try done; eexists; repeat split; done. Qed.

(** A finished splice is reported whole: for every end the binding names, both
    directions as objects of their class, the end a member of [SpliceEnd]; an
    error of the splice is a [ValueError]. *)
Theorem splice_reported ab ba :
  named_end (fw_end ab) = true -> named_end (fw_end ba) = true ->
  exists o, splice_end (inl (ab, ba)) = Ok o /\ has_type (class_type Spliced) o = true.
Proof.
  intros (x & Hx & Tx & _)%forwarded_obj_ok (y & Hy & Ty & _)%forwarded_obj_ok.
  unfold splice_end. rewrite Hx, Hy. eexists. split; [reflexivity|]. apply conforms_type.
  eexists. split; [reflexivity|]. by repeat constructor.
Qed.

(** [resolve_duplicate]: a rejoin callable needs a running loop ([locals]);
    [native] keeps one session and drains the other, or refuses and changes
    nothing; the rule by its snake-case name. *)
Section duplicate.
Context {Sess : Type}.
Record Resolved := mk_resolved { survivor : Sess; loser : Sess; rule : pobj; rejoin_started : bool }.
Record DuplicateOptions := mk_duplicate { local_identity : option bytes; peer_identity : option bytes; rejoin : bool }.

Definition resolve_duplicate (locals : PyResult unit)
    (native : Sess -> Sess -> DuplicateOptions -> (Sess * Sess * string * bool) + string)
    (s1 s2 : Sess) (local peer : option bytes) (rejoin : bool) : PyResult Resolved :=
  _ ← (if rejoin then locals else Ok tt);
  match native s1 s2 (mk_duplicate local peer rejoin) with
  | inr e => Err (new_err PyValueError [Disp e])
  | inl (sv, ls, rule_debug, started) =>
      Ok (mk_resolved sv ls (enum_text DuplicateRule (snake (kind_prefix rule_debug))) started)
  end.

(** The rules the zmux crate has are the members of [DuplicateRule]. *)
Lemma duplicate_rules :
  (fun r => enum_text DuplicateRule (snake (kind_prefix r))) <$> ["Identity"; "SessionNonce"; "RoleNonce"] =
  PMember "DuplicateRule" <$> en_values DuplicateRule.
Proof. reflexivity. Qed.
End duplicate.
