(* ===== verification/Layer.v ===== *)
(** Layers over carriers (src/src/layer.rs): the byte stream between a Python
    layer and the carrier ([ChanIo], [LayerEnd], [chan_pair]).  The bounded
    channels are tokio's: an interface [Mpsc] with the documented behaviour of
    its operations, and an instance of it. *)
From S2P Require Import Prelude.

(** ** Bounded channels *)

Inductive poll (A : Type) := Pending | Ready (a : A).
Arguments Pending {A}.
Arguments Ready {A} a.

(** [mpsc]: a channel of byte messages with both of its ends.  [poll_recv] is
    the receiver's; [poll_reserve] is a poll of [reserve_owned] ([Ready true]: a
    permit, [Ready false]: the receiver is gone); [send] uses a permit;
    [clone_tx] and [drop_tx] change the number of live senders. *)
Class Mpsc : Type := {
  mpsc : Type;
  channel : nat -> mpsc;
  poll_recv : mpsc -> poll (option bytes) * mpsc;
  poll_reserve : mpsc -> poll bool;
  send : bytes -> mpsc -> mpsc;
  clone_tx : mpsc -> mpsc;
  drop_tx : mpsc -> mpsc;
  drop_rx : mpsc -> mpsc;
  (* the abstract view *)
  queue : mpsc -> list bytes;
  cap : mpsc -> nat;
  senders : mpsc -> nat;
  receiver : mpsc -> bool;
}.

Class MpscLaws (M : Mpsc) : Prop := {
  channel_view n :
    queue (channel n) = [] /\ cap (channel n) = n /\ senders (channel n) = 1 /\
    receiver (channel n) = true;
  recv_message c m q :
    queue c = m :: q ->
    exists c', poll_recv c = (Ready (Some m), c') /\ queue c' = q /\ cap c' = cap c /\
      senders c' = senders c /\ receiver c' = receiver c;
  recv_empty c :
    queue c = [] ->
    poll_recv c = (if decide (senders c = 0) then Ready None else Pending, c);
  reserve_view c :
    poll_reserve c =
      if receiver c then if decide (length (queue c) < cap c) then Ready true else Pending
      else Ready false;
  send_view m c :
    queue (send m c) = queue c ++ [m] /\ cap (send m c) = cap c /\
    senders (send m c) = senders c /\ receiver (send m c) = receiver c;
  clone_view c :
    queue (clone_tx c) = queue c /\ cap (clone_tx c) = cap c /\
    senders (clone_tx c) = S (senders c) /\ receiver (clone_tx c) = receiver c;
  drop_tx_view c :
    queue (drop_tx c) = queue c /\ cap (drop_tx c) = cap c /\
    senders (drop_tx c) = pred (senders c) /\ receiver (drop_tx c) = receiver c;
  drop_rx_view c :
    queue (drop_rx c) = [] /\ cap (drop_rx c) = cap c /\
    senders (drop_rx c) = senders c /\ receiver (drop_rx c) = false;
}.

(** An instance: a queue with its counters. *)
Module ListChannel.
Record chan := mk_chan { q : list bytes; n : nat; tx : nat; rx : bool }.

#[export] Instance list_mpsc : Mpsc := {
  mpsc := chan;
  channel n := mk_chan [] n 1 true;
  poll_recv c :=
    match q c with
    | m :: q => (Ready (Some m), mk_chan q (n c) (tx c) (rx c))
    | [] => (match tx c with 0 => Ready None | S _ => Pending end, c)
    end;
  poll_reserve c :=
    if rx c then if length (q c) <? n c then Ready true else Pending else Ready false;
  send m c := mk_chan (q c ++ [m]) (n c) (tx c) (rx c);
  clone_tx c := mk_chan (q c) (n c) (S (tx c)) (rx c);
  drop_tx c := mk_chan (q c) (n c) (pred (tx c)) (rx c);
  drop_rx c := mk_chan [] (n c) (tx c) false;
  queue := q; cap := n; senders := tx; receiver := rx;
}.

#[export] Instance list_mpsc_laws : MpscLaws list_mpsc.
Proof.
  split; simpl; try done.
  - intros c m q' ->. eexists. done.
  - intros c ->. destruct (tx c); by case_decide.
  - intros c. destruct (rx c); [|done].
    destruct (Nat.ltb_spec (length (q c)) (n c)); case_decide; (done || lia).
Qed.
End ListChannel.

(** ** The stream of a layer *)
Module ChanIo.
Section chan_io.
Context {M : Mpsc} {L : MpscLaws M}.

Definition DEPTH : nat := 8.

(** [ChanIo] and its [LayerEnd] with the two channels between them: [inc] what
    the layer read, for the carrier's reads; [out] the carrier's writes. *)
Record state := mk_state {
  inc : mpsc;
  buf : bytes;               (* ChanIo.buf *)
  out : mpsc;
  tx : bool;                 (* ChanIo.tx is Some *)
  reserve : bool;            (* ChanIo.reserve is Some *)
  end_tx : bool;             (* LayerEnd.tx is Some *)
  pend : list bytes;         (* LayerEnd.write futures, in the order they wait *)
}.

(** [chan_pair]. *)
Definition chan_pair : state :=
  mk_state (channel DEPTH) [] (channel DEPTH) true false true [].

(** The loop of [poll_read]: receives until the buffer is not empty; [None]:
    the channel ended.  One round per queued message and one more are enough. *)
Fixpoint fill (fuel : nat) (b : bytes) (c : mpsc) : poll (option bytes) * mpsc :=
  match b with
  | _ :: _ => (Ready (Some b), c)
  | [] =>
      match fuel with
      | 0 => (Pending, c)
      | S fuel =>
          match poll_recv c with
          | (Ready (Some b), c) => fill fuel b c
          | (Ready None, c) => (Ready None, c)
          | (Pending, c) => (Pending, c)
          end
      end
  end.

(** [poll_read] into a buffer with room for [n] bytes: the bytes put. *)
Definition poll_read (n : nat) (s : state) : poll bytes * state :=
  match fill (S (length (queue (inc s)))) (buf s) (inc s) with
  | (Pending, c) => (Pending, mk_state c (buf s) (out s) (tx s) (reserve s) (end_tx s) (pend s))
  | (Ready None, c) => (Ready [], mk_state c (buf s) (out s) (tx s) (reserve s) (end_tx s) (pend s))
  | (Ready (Some b), c) =>
      let k := min (length b) n in
      (Ready (take k b), mk_state c (drop k b) (out s) (tx s) (reserve s) (end_tx s) (pend s))
  end.

(** [poll_write]: [Ready (Some n)]: [n] bytes written; [Ready None]: broken
    pipe.  [reserve] holds a sender of its own until it resolves. *)
Definition poll_write (data : bytes) (s : state) : poll (option nat) * state :=
  if negb (tx s) then (Ready None, s)
  else
    let o := if reserve s then out s else clone_tx (out s) in
    match poll_reserve o with
    | Pending => (Pending, mk_state (inc s) (buf s) o (tx s) true (end_tx s) (pend s))
    | Ready ok =>
        if ok then
          (Ready (Some (length data)),
           mk_state (inc s) (buf s) (drop_tx (send data o)) (tx s) false (end_tx s) (pend s))
        else (Ready None, mk_state (inc s) (buf s) (drop_tx o) (tx s) false (end_tx s) (pend s))
    end.

(** [poll_shutdown]: drops the sender and the pending reservation. *)
Definition poll_shutdown (s : state) : state :=
  let o := if tx s then drop_tx (out s) else out s in
  let o := if reserve s then drop_tx o else o in
  mk_state (inc s) (buf s) o false false (end_tx s) (pend s).

(** [LayerEnd.read] when it resolves: the next message, [b""] at the end. *)
Definition end_read (s : state) : poll bytes * state :=
  match poll_recv (out s) with
  | (Ready m, c) =>
      (Ready (from_option id [] m), mk_state (inc s) (buf s) c (tx s) (reserve s) (end_tx s) (pend s))
  | (Pending, c) => (Pending, mk_state (inc s) (buf s) c (tx s) (reserve s) (end_tx s) (pend s))
  end.

Definition closed_err : pyerr := new_err PyRuntimeError [Lit "layer end closed"].

(** [LayerEnd.write], the call: it takes a sender of its own, with which its
    future goes on after a [close]; empty data is not sent. *)
Definition end_write (data : bytes) (s : state) : poll (PyResult unit) * state :=
  if negb (end_tx s) then (Ready (Err closed_err), s)
  else match data with
  | [] => (Ready (Ok tt), s)
  | _ :: _ =>
      (Pending,
       mk_state (clone_tx (inc s)) (buf s) (out s) (tx s) (reserve s) (end_tx s) (pend s ++ [data]))
  end.

(** [tx.send(..).await] of the first write in progress (the channel gives room
    in turn): sent once there is room; a gone reader is ignored.  Its sender is
    dropped with it. *)
Definition end_send (s : state) : poll (PyResult unit) * state :=
  match pend s with
  | [] => (Pending, s)
  | data :: p =>
      match poll_reserve (inc s) with
      | Pending => (Pending, s)
      | Ready true =>
          (Ready (Ok tt),
           mk_state (drop_tx (send data (inc s))) (buf s) (out s) (tx s) (reserve s) (end_tx s) p)
      | Ready false =>
          (Ready (Ok tt),
           mk_state (drop_tx (inc s)) (buf s) (out s) (tx s) (reserve s) (end_tx s) p)
      end
  end.

(** The future of the [i]-th write in progress is dropped (cancelled). *)
Definition end_cancel (i : nat) (s : state) : state :=
  match pend s !! i with
  | Some _ =>
      mk_state (drop_tx (inc s)) (buf s) (out s) (tx s) (reserve s) (end_tx s) (delete i (pend s))
  | None => s
  end.

(** [LayerEnd.close]. *)
Definition end_close (s : state) : state :=
  mk_state (if end_tx s then drop_tx (inc s) else inc s) (buf s) (out s) (tx s) (reserve s) false
    (pend s).

(** *** Runs *)

Inductive op :=
  | Read (n : nat) | Write (data : bytes) | Shutdown
  | EndRead | EndWrite (data : bytes) | EndSend | EndCancel (i : nat) | EndClose
  | IoDrop | EndDrop.

(** A state with its history: the bytes the layer handed over and the bytes the
    carrier read; the carrier's writes and the messages Python read. *)
Record hist := mk_hist {
  st : state;
  fed : bytes;
  got : bytes;
  sent : list bytes;
  recd : list bytes;
}.

(** The calls of each side while it is there ([IoDrop], [EndDrop]: the side is
    dropped, with its receiver and its sender); the writes in progress go on
    without it. *)
Definition alive (s : state) (o : op) : bool :=
  match o with
  | Read _ | Write _ | Shutdown | IoDrop => receiver (inc s)
  | EndRead | EndWrite _ | EndClose | EndDrop => receiver (out s)
  | EndSend | EndCancel _ => true
  end.

Definition run_op (h : hist) (o : op) : hist :=
  let s := st h in
  if negb (alive s o) then h else
  match o with
  | Read n =>
      let '(r, s') := poll_read n s in
      mk_hist s' (fed h) (got h ++ match r with Ready b => b | Pending => [] end) (sent h) (recd h)
  | Write d =>
      let '(r, s') := poll_write d s in
      mk_hist s' (fed h) (got h)
        (match r with Ready (Some _) => sent h ++ [d] | _ => sent h end) (recd h)
  | Shutdown => mk_hist (poll_shutdown s) (fed h) (got h) (sent h) (recd h)
  | EndRead =>
      mk_hist (end_read s).2 (fed h) (got h) (sent h)
        (match (poll_recv (out s)).1 with Ready (Some m) => recd h ++ [m] | _ => recd h end)
  | EndWrite d => mk_hist (end_write d s).2 (fed h) (got h) (sent h) (recd h)
  | EndSend =>
      let '(r, s') := end_send s in
      mk_hist s' (match r with Ready _ => fed h ++ from_option id [] (head (pend s)) | _ => fed h end)
        (got h) (sent h) (recd h)
  | EndCancel i => mk_hist (end_cancel i s) (fed h) (got h) (sent h) (recd h)
  | EndClose => mk_hist (end_close s) (fed h) (got h) (sent h) (recd h)
  | IoDrop =>
      let s := poll_shutdown s in
      mk_hist (mk_state (drop_rx (inc s)) [] (out s) (tx s) (reserve s) (end_tx s) (pend s))
        (fed h) (got h) (sent h) (recd h)
  | EndDrop =>
      let s := end_close s in
      mk_hist (mk_state (inc s) (buf s) (drop_rx (out s)) (tx s) (reserve s) (end_tx s) (pend s))
        (fed h) (got h) (sent h) (recd h)
  end.

Definition run (ops : list op) : hist :=
  foldl run_op (mk_hist chan_pair [] [] [] []) ops.

(** The layer's writes, kept apart from the state: those accepted (a call that
    did not raise, with data) that ended, and those still waiting. *)
Record ledger := mk_ledger { hist_of : hist; ended : list bytes; waiting : list bytes }.

Definition ledger_op (l : ledger) (o : op) : ledger :=
  let h := hist_of l in
  let s := st h in
  let h' := run_op h o in
  if negb (alive s o) then mk_ledger h' (ended l) (waiting l) else
  match o with
  | EndWrite d =>
      match (end_write d s).1, d with
      | Ready (Err _), _ | _, [] => mk_ledger h' (ended l) (waiting l)
      | _, _ => mk_ledger h' (ended l) (waiting l ++ [d])
      end
  | EndSend =>
      match (end_send s).1 with
      | Ready _ => mk_ledger h' (ended l ++ take 1 (waiting l)) (tail (waiting l))
      | Pending => mk_ledger h' (ended l) (waiting l)
      end
  | EndCancel i => mk_ledger h' (ended l) (delete i (waiting l))
  | _ => mk_ledger h' (ended l) (waiting l)
  end.
Definition ledger_run (ops : list op) : ledger :=
  foldl ledger_op (mk_ledger (mk_hist chan_pair [] [] [] []) [] []) ops.

(** A channel of this stream in working order. *)
Definition chan_ok (c : mpsc) (n : nat) : Prop :=
  cap c = DEPTH /\ senders c = n /\ length (queue c) <= DEPTH.

Record inv (h : hist) : Prop := {
  inv_inc : chan_ok (inc (st h)) (Nat.b2n (end_tx (st h)) + length (pend (st h)));
  inv_out : chan_ok (out (st h)) (Nat.b2n (tx (st h)) + Nat.b2n (reserve (st h)));
  inv_reserve : reserve (st h) = true -> tx (st h) = true;
  inv_bytes : receiver (inc (st h)) = true ->
    fed h = got h ++ buf (st h) ++ concat (queue (inc (st h)));
  inv_messages : receiver (out (st h)) = true -> sent h = recd h ++ queue (out (st h));
}.

(** The views of the channels after each operation. *)
Lemma send_queue m c : queue (send m c) = queue c ++ [m].
Proof using L. apply send_view. Qed.
Lemma send_cap m c : cap (send m c) = cap c.
Proof using L. apply send_view. Qed.
Lemma send_senders m c : senders (send m c) = senders c.
Proof using L. apply send_view. Qed.
Lemma send_receiver m c : receiver (send m c) = receiver c.
Proof using L. apply send_view. Qed.
Lemma clone_queue c : queue (clone_tx c) = queue c.
Proof using L. apply clone_view. Qed.
Lemma clone_cap c : cap (clone_tx c) = cap c.
Proof using L. apply clone_view. Qed.
Lemma clone_senders c : senders (clone_tx c) = S (senders c).
Proof using L. apply clone_view. Qed.
Lemma clone_receiver c : receiver (clone_tx c) = receiver c.
Proof using L. apply clone_view. Qed.
Lemma drop_queue c : queue (drop_tx c) = queue c.
Proof using L. apply drop_tx_view. Qed.
Lemma drop_cap c : cap (drop_tx c) = cap c.
Proof using L. apply drop_tx_view. Qed.
Lemma drop_senders c : senders (drop_tx c) = pred (senders c).
Proof using L. apply drop_tx_view. Qed.
Lemma drop_receiver c : receiver (drop_tx c) = receiver c.
Proof using L. apply drop_tx_view. Qed.
Lemma dropped_queue c : queue (drop_rx c) = [].
Proof using L. apply drop_rx_view. Qed.
Lemma dropped_cap c : cap (drop_rx c) = cap c.
Proof using L. apply drop_rx_view. Qed.
Lemma dropped_senders c : senders (drop_rx c) = senders c.
Proof using L. apply drop_rx_view. Qed.
Lemma dropped_receiver c : receiver (drop_rx c) = false.
Proof using L. apply drop_rx_view. Qed.
Create Rewrite HintDb mpsc.
Hint Rewrite dropped_queue dropped_cap dropped_senders dropped_receiver send_queue send_cap send_senders send_receiver clone_queue clone_cap clone_senders clone_receiver drop_queue drop_cap drop_senders drop_receiver : mpsc.

(** The loop of [poll_read] takes whole messages off the channel, in order, and
    ends: its fuel is enough. *)
Lemma fill_spec fuel b c r c' :
  fill fuel b c = (r, c') -> length (queue c) < fuel ->
  cap c' = cap c /\ receiver c' = receiver c /\ senders c' = senders c /\
  length (queue c') <= length (queue c) /\
  match r with
  | Ready (Some b') => b' <> [] /\ b ++ concat (queue c) = b' ++ concat (queue c')
  | Ready None => b = [] /\ concat (queue c) = [] /\ queue c' = [] /\ senders c = 0
  | Pending => b = [] /\ concat (queue c) = [] /\ queue c' = [] /\ senders c <> 0
  end.
Proof using L.
  revert b c. induction fuel as [|fuel IH]; intros b c Hf Hl; [lia|].
  destruct b as [|x b]; [|simpl in Hf; by simplify_eq].
  cbn [fill] in Hf. destruct (queue c) as [|m q] eqn:Eq.
  - rewrite recv_empty in Hf by done. case_decide; simplify_eq; by rewrite Eq.
  - destruct (recv_message c m q Eq) as (c1 & Hr & Hq & Hc & Hs & Hx). rewrite Hr in Hf.
    simpl in Hl. destruct (IH m c1 Hf) as (? & ? & ? & ? & Hres); [rewrite Hq; lia|].
    rewrite Hq in *. simpl. repeat split; try congruence; [lia|].
    destruct r as [|[b'|]]; [destruct Hres as (-> & ? & ? & ?) | done | destruct Hres as (-> & ? & ? & ?)];
      simpl; repeat split; congruence.
Qed.

Lemma inv_read h n : inv h -> inv (run_op h (Read n)).
Proof using L.
  intros Hi. unfold run_op. cbn [alive]. destruct (receiver (inc (st h))) eqn:Ei; [simpl|done].
  destruct Hi as [(Hc1 & Hc2 & Hc3) Ho Hr Hb Hm]. specialize (Hb Ei). unfold poll_read.
  destruct (fill _ _ _) as [r c] eqn:Ef.
  apply fill_spec in Ef as (? & ? & ? & ? & Hres); [|lia].
  assert (chan_ok c (Nat.b2n (end_tx (st h)) + length (pend (st h)))) as Hok
    by (unfold chan_ok; repeat split; (congruence || lia)).
  destruct r as [|[b|]]; split; simpl; auto; intros _; rewrite Hb, <- ?app_assoc; f_equal.
  - destruct Hres as (-> & -> & -> & _). done.
  - destruct Hres as [_ ->]. rewrite app_assoc. by rewrite take_drop.
  - destruct Hres as (-> & -> & -> & _). done.
Qed.

(** The channel with the sender of the pending reservation. *)
Lemma reserved_view s :
  let o := if reserve s then out s else clone_tx (out s) in
  tx s = true -> senders (out s) = Nat.b2n (tx s) + Nat.b2n (reserve s) ->
  queue o = queue (out s) /\ cap o = cap (out s) /\ senders o = 2 /\
  receiver o = receiver (out s).
Proof using L.
  intros o -> Hs. unfold o. destruct (reserve s); autorewrite with mpsc; rewrite ?Hs; done.
Qed.

Lemma inv_write h d : inv h -> inv (run_op h (Write d)).
Proof using L.
  intros Hi. unfold run_op. cbn [alive]. destruct (receiver (inc (st h))) eqn:Ei; [simpl|done].
  unfold poll_write. destruct (tx (st h)) eqn:Et; [simpl|destruct h; exact Hi].
  destruct Hi as [Hi (Hc1 & Hc2 & Hc3) Hr Hb Hm].
  destruct (reserved_view (st h) Et Hc2) as (Hq & Hcap & Hsend & Hrec).
  set (o := if reserve (st h) then _ else _) in *. rewrite reserve_view, Hrec.
  destruct (receiver (out (st h))) eqn:Eo; [case_decide as Hroom|].
  - split; simpl; auto; unfold chan_ok; autorewrite with mpsc; rewrite ?Hsend.
    + rewrite length_app. simpl. repeat split; (congruence || lia).
    + intros _. rewrite Hq, Hm by done. by rewrite app_assoc.
  - split; simpl; auto; [|by rewrite Hq; auto]. unfold chan_ok. rewrite Hq, Hcap, Hsend. done.
  - split; simpl; auto; unfold chan_ok; autorewrite with mpsc; rewrite ?Hq, ?Hcap, ?Hsend; [done|].
    congruence.
Qed.

Lemma inv_shut h s' :
  inv h -> poll_shutdown (st h) = s' -> inv (mk_hist s' (fed h) (got h) (sent h) (recd h)).
Proof using L.
  intros [Hi (Hc1 & Hc2 & Hc3) Hr Hb Hm] <-. unfold poll_shutdown.
  destruct (tx (st h)) eqn:Et, (reserve (st h)) eqn:Er; try (by specialize (Hr eq_refl));
    split; simpl; auto; unfold chan_ok; autorewrite with mpsc; rewrite ?Hc2; done.
Qed.

Lemma inv_closed h s' :
  inv h -> end_close (st h) = s' -> inv (mk_hist s' (fed h) (got h) (sent h) (recd h)).
Proof using L.
  intros [(Hc1 & Hc2 & Hc3) Ho Hr Hb Hm] <-. unfold end_close.
  destruct (end_tx (st h)) eqn:Et; split; simpl; auto; unfold chan_ok; autorewrite with mpsc;
    rewrite ?Hc2; done.
Qed.

Lemma inv_end_read h : inv h -> inv (run_op h EndRead).
Proof using L.
  intros Hi. unfold run_op. cbn [alive]. destruct (receiver (out (st h))) eqn:Eo; [simpl|done].
  destruct Hi as [Hi (Hc1 & Hc2 & Hc3) Hr Hb Hm]. specialize (Hm Eo). unfold end_read.
  destruct (queue (out (st h))) as [|m q] eqn:Eq.
  - rewrite recv_empty by done. case_decide; split; simpl; auto; unfold chan_ok; by rewrite ?Eq.
  - destruct (recv_message _ m q Eq) as (c & -> & Hq & Hcap & Hs & Hrc).
    split; simpl; auto; [|intros _; by rewrite Hm, Hq, <- app_assoc].
    unfold chan_ok. simpl in Hc3. rewrite Hq, Hcap, Hs. repeat split; (done || lia).
Qed.

Lemma inv_end_write h d : inv h -> inv (run_op h (EndWrite d)).
Proof using L.
  intros Hi. unfold run_op. cbn [alive]. destruct (receiver (out (st h))) eqn:Eo; [simpl|done].
  unfold end_write. destruct (end_tx (st h)) eqn:Et; [simpl|destruct h; exact Hi].
  destruct d as [|x d]; [destruct h; exact Hi|].
  destruct Hi as [(Hc1 & Hc2 & Hc3) Ho Hr Hb Hm].
  split; simpl; auto; unfold chan_ok; autorewrite with mpsc; [|done].
  rewrite Hc2, Et, length_app. simpl. repeat split; (done || lia).
Qed.

Lemma inv_end_send h : inv h -> inv (run_op h EndSend).
Proof using L.
  intros Hi. unfold run_op. cbn [alive negb]. unfold end_send.
  destruct (pend (st h)) as [|d p] eqn:Ep; [destruct h; exact Hi|].
  rewrite reserve_view. destruct (receiver (inc (st h))) eqn:Ei; [case_decide as Hroom|].
  2: destruct h; exact Hi.
  all: destruct Hi as [(Hc1 & Hc2 & Hc3) Ho Hr Hb Hm]; rewrite Ep in Hc2;
    split; simpl; auto; unfold chan_ok; autorewrite with mpsc.
  - rewrite length_app, Hc2. simpl in *. repeat split; (done || lia).
  - intros _. rewrite Hb, concat_app by done. simpl. by rewrite app_nil_r, !app_assoc.
  - rewrite Hc2. simpl in *. repeat split; (done || lia).
  - congruence.
Qed.

Lemma inv_end_cancel h i : inv h -> inv (run_op h (EndCancel i)).
Proof using L.
  intros Hi. unfold run_op. cbn [alive negb]. unfold end_cancel.
  destruct (pend (st h) !! i) as [d|] eqn:Ep; [|destruct h; exact Hi].
  destruct Hi as [(Hc1 & Hc2 & Hc3) Ho Hr Hb Hm].
  split; simpl; auto; unfold chan_ok; autorewrite with mpsc; [|done].
  pose proof (lookup_lt_Some _ _ _ Ep). rewrite length_delete by eauto. repeat split; (done || lia).
Qed.

Lemma inv_io_drop h : inv h -> inv (run_op h IoDrop).
Proof using L.
  intros Hi. unfold run_op. cbn [alive]. destruct (receiver (inc (st h))); [cbn [negb]|done].
  destruct (inv_shut h _ Hi eq_refl) as [(Hc1 & Hc2 & Hc3) Ho Hr Hb Hm]. simpl in *.
  split; simpl; auto; unfold chan_ok; autorewrite with mpsc; [|done].
  repeat split; (done || simpl; lia).
Qed.

Lemma inv_end_drop h : inv h -> inv (run_op h EndDrop).
Proof using L.
  intros Hi. unfold run_op. cbn [alive]. destruct (receiver (out (st h))); [cbn [negb]|done].
  destruct (inv_closed h _ Hi eq_refl) as [Hi' (Hc1 & Hc2 & Hc3) Hr Hb Hm]. simpl in *.
  split; simpl; auto; unfold chan_ok; autorewrite with mpsc; [|done].
  repeat split; (done || simpl; lia).
Qed.

Lemma inv_run_op h o : inv h -> inv (run_op h o).
Proof using L.
  intros Hi. destruct o.
  - by apply inv_read.
  - by apply inv_write.
  - unfold run_op. cbn [alive]. destruct (receiver _); [by eapply inv_shut|done].
  - by apply inv_end_read.
  - by apply inv_end_write.
  - by apply inv_end_send.
  - by apply inv_end_cancel.
  - unfold run_op. cbn [alive]. destruct (receiver _); [by eapply inv_closed|done].
  - by apply inv_io_drop.
  - by apply inv_end_drop.
Qed.

Lemma inv_run ops : inv (run ops).
Proof using L.
  unfold run. enough (forall h, inv h -> inv (foldl run_op h ops)) as H.
  { apply H. destruct (channel_view DEPTH) as (Hq & Hc & Hs & Hr).
    split; simpl; unfold chan_ok; rewrite ?Hq, ?Hc, ?Hs; simpl; (done || (repeat split; lia)). }
  induction ops as [|o ops IH]; intros h Hh; [done|]. apply IH, inv_run_op, Hh.
Qed.

(** The ledger agrees with the state. *)
Lemma ledger_step l o :
  waiting l = pend (st (hist_of l)) -> concat (ended l) = fed (hist_of l) ->
  let l' := ledger_op l o in
  hist_of l' = run_op (hist_of l) o /\ waiting l' = pend (st (hist_of l')) /\ concat (ended l') = fed (hist_of l').
Proof using Type.
  intros Hw He. unfold ledger_op, run_op.
  destruct (alive (st (hist_of l)) o); cbn [negb]; [|done].
  destruct o as [n|d| | |d| |i| | |]; simpl.
  - unfold poll_read. destruct (fill _ _ _) as [[|[]] c]; done.
  - unfold poll_write. repeat case_match; by simplify_eq/=.
  - done.
  - unfold end_read. by destruct (poll_recv _) as [[] c].
  - unfold end_write. destruct (end_tx _), d; simpl; rewrite ?Hw; done.
  - unfold end_send. rewrite Hw. destruct (pend (st (hist_of l))) as [|d p] eqn:Ep; simpl; [by rewrite Ep|].
    destruct (poll_reserve _) as [|[]]; simpl; rewrite ?Ep, ?concat_app, ?He; simpl; by rewrite ?app_nil_r.
  - unfold end_cancel. rewrite Hw. destruct (pend _ !! i) eqn:Ei; [done|]. simpl. split_and!; try done.
    clear -Ei. revert i Ei. induction (pend _) as [|x q IH]; intros [|i] Ei; simpl in *; [done..|]. f_equal. by apply IH.
  - done.
  - done.
  - done.
Qed.

Lemma ledger_agrees ops :
  let l := ledger_run ops in
  hist_of l = run ops /\ waiting l = pend (st (run ops)) /\ concat (ended l) = fed (run ops).
Proof using Type.
  unfold ledger_run, run.
  assert (forall l, waiting l = pend (st (hist_of l)) -> concat (ended l) = fed (hist_of l) ->
    let l' := foldl ledger_op l ops in
    hist_of l' = foldl run_op (hist_of l) ops /\ waiting l' = pend (st (hist_of l')) /\ concat (ended l') = fed (hist_of l')) as H.
  { induction ops as [|o ops IH]; intros l Hw He; [done|]. simpl.
    destruct (ledger_step l o Hw He) as (E & Hw' & He'). rewrite <- E. by apply IH. }
  destruct (H (mk_ledger (mk_hist chan_pair [] [] [] []) [] []) eq_refl eq_refl) as (E & Hw & He). simpl in *.
  by rewrite <- E.
Qed.

(** C10: whatever the order of the carrier's and the layer's calls, the layer's
    stream loses, repeats and reorders nothing: while the carrier side is
    there, the bytes it read, its buffer and the messages still queued are, in
    order, the bytes the layer handed over; while the Python side is there,
    each carrier write is exactly one message to it, in order; and neither
    channel ever holds more than [DEPTH] messages.  The bytes handed over are
    those of the layer's writes that ended, in the order of the calls, and the
    writes accepted that have not ended nor been cancelled still wait. *)
Theorem layer_stream_in_order ops :
  let h := run ops in
  (receiver (inc (st h)) = true ->
   fed h = got h ++ buf (st h) ++ concat (queue (inc (st h)))) /\
  (receiver (out (st h)) = true -> sent h = recd h ++ queue (out (st h))) /\
  length (queue (inc (st h))) <= DEPTH /\ length (queue (out (st h))) <= DEPTH /\
  concat (ended (ledger_run ops)) = fed h /\ waiting (ledger_run ops) = pend (st h).
Proof using L.
  destruct (inv_run ops) as [(_ & _ & Hi) (_ & _ & Ho) _ Hb Hm]. destruct (ledger_agrees ops) as (_ & ? & ?). done.
Qed.

(** C11: a read with room returns the next bytes of the layer, at most what fits;
    it returns nothing only at the end (the layer closed its side, none of its
    writes is in progress and the carrier has read every byte it handed over)
    and waits only while there is nothing to read and the layer may still
    write or is writing. *)
Theorem layer_read_progress ops n :
  0 < n -> receiver (inc (st (run ops))) = true ->
  let h := run ops in
  match (poll_read n (st h)).1 with
  | Ready [] => end_tx (st h) = false /\ pend (st h) = [] /\ got h = fed h
  | Ready b => length b <= n /\ exists rest, fed h = got h ++ b ++ rest
  | Pending => (end_tx (st h) = true \/ pend (st h) <> []) /\ got h = fed h
  end.
Proof using L.
  intros Hn Hr h. destruct (inv_run ops) as [(_ & Hs & _) _ _ Hb _]. fold h in Hb, Hs, Hr.
  specialize (Hb Hr). unfold poll_read. destruct (fill _ _ _) as [r c] eqn:Ef.
  apply fill_spec in Ef as (_ & _ & _ & _ & Hres); [|lia].
  destruct r as [|[b|]]; simpl.
  - destruct Hres as (Hbuf & Hq & _ & Hne). rewrite Hbuf, Hq, app_nil_r in Hb.
    split; [|done]. destruct (end_tx (st h)); [by left|]. right. by destruct (pend (st h)).
  - destruct Hres as [Hne Hq]. destruct b as [|x b]; [done|]. destruct n as [|n]; [lia|].
    cbn [length take Nat.min]. split; [simpl; rewrite length_take; lia|].
    exists (drop (min (length b) n) b ++ concat (queue c)).
    rewrite Hb, Hq. f_equal. simpl. f_equal. by rewrite app_assoc, take_drop.
  - destruct Hres as (Hbuf & Hq & _ & He). rewrite Hbuf, Hq, app_nil_r in Hb.
    destruct (end_tx (st h)), (pend (st h)); simpl in *; (done || lia).
Qed.

(** A carrier write is accepted whole as one message or not at all: it is
    accepted when the sending half is open, Python's side is there and the
    channel has room; it fails exactly when the half was shut down or Python's
    side is gone, and otherwise waits; in both cases nothing is sent. *)
Theorem layer_write_whole ops data :
  let s := st (run ops) in
  let '(r, s') := poll_write data s in
  match r with
  | Ready (Some n) =>
      n = length data /\ queue (out s') = queue (out s) ++ [data] /\
      tx s = true /\ receiver (out s) = true
  | Ready None => (tx s = false \/ receiver (out s) = false) /\ queue (out s') = queue (out s)
  | Pending =>
      length (queue (out s)) = DEPTH /\ queue (out s') = queue (out s) /\
      tx s = true /\ receiver (out s) = true
  end.
Proof using L.
  destruct (inv_run ops) as [_ (Hc1 & Hc2 & Hc3) _ _ _].
  unfold poll_write. set (s := st (run ops)) in *.
  destruct (tx s) eqn:Et; simpl; [|by split; [left|]].
  rewrite <- Et in Hc2. destruct (reserved_view s Et Hc2) as (Hq & Hcap & Hsend & Hrec).
  set (o := if reserve s then _ else _) in *. rewrite reserve_view, Hrec.
  destruct (receiver (out s)); [case_decide as Hroom|]; cbn [out].
  - autorewrite with mpsc. by rewrite Hq.
  - rewrite Hq, Hcap in *. repeat split; lia.
  - autorewrite with mpsc. auto.
Qed.
End chan_io.

(** The channels of the examples. *)
#[local] Existing Instances ListChannel.list_mpsc ListChannel.list_mpsc_laws.

(** Two messages handed over by the layer, two bytes read, one message
    written back and not yet taken. *)
Lemma layer_stream_in_order_witness :
  let h := run [EndWrite [Byte.x61; Byte.x62]; EndWrite [Byte.x63; Byte.x64];
                EndClose; EndSend; EndSend; Read 1; Write [Byte.x65]; Read 2] in
  receiver (inc (st h)) = true /\ buf (st h) = [] /\
  fed h = got h ++ concat (queue (inc (st h))) /\ sent h = [[Byte.x65]] /\
  sent h = recd h ++ queue (out (st h)).
Proof.
  intros h.
  pose proof (layer_stream_in_order
    [EndWrite [Byte.x61; Byte.x62]; EndWrite [Byte.x63; Byte.x64];
     EndClose; EndSend; EndSend; Read 1; Write [Byte.x65]; Read 2]) as (H1 & H2 & _).
  split; [reflexivity|]. split; [reflexivity|]. split; [exact (H1 eq_refl)|].
  split; [reflexivity|]. exact (H2 eq_refl).
Defined.

(** Two of three bytes read. *)
Lemma layer_read_progress_witness :
  0 < 2 /\ exists rest, [Byte.x61; Byte.x62; Byte.x63] = [] ++ [Byte.x61; Byte.x62] ++ rest.
Proof.
  split; [lia|].
  exact (proj2 (layer_read_progress
    [EndWrite [Byte.x61; Byte.x62; Byte.x63]; EndSend] 2 ltac:(lia) eq_refl)).
Defined.

(** A write after the sending half was shut down fails and sends nothing. *)
Lemma layer_write_whole_witness :
  let s := st (run [Write [Byte.x61]; Shutdown]) in
  (tx s = false \/ receiver (out s) = false) /\
  queue (out (poll_write [Byte.x62] s).2) = queue (out s).
Proof.
  exact (layer_write_whole
    [Write [Byte.x61]; Shutdown] [Byte.x62]).
Defined.
End ChanIo.
