(* ===== verification/Events.v ===== *)
(** Session events (src/src/lib.rs, [event_obj]): the dictionary made of each
    native event and the Python class built from it ([_event] of
    src/python/zmux/_types.py). *)
From S2P Require Import Prelude Duration PyData Errors.
Open Scope Z_scope.

(** ** The Python classes *)
Definition PipeHalf : enum := mk_enum "PipeHalf" ["Inbound"; "Outbound"].
Definition OutboundState : enum :=
  mk_enum "OutboundState" ["Joining"; "Active"; "Suspect"; "Draining"; "Failed"; "Closed"].
Definition InboundState : enum := mk_enum "InboundState" ["Joining"; "Open"; "Ended"].
Definition PrioritySource : enum := mk_enum "PrioritySource" ["Local"; "Peer"; "Default"].
Definition CarrierKind : enum :=
  mk_enum "CarrierKind" ["websocket"; "streaming"; "split"; "exchange"; "quic"; "http3"; "webtransport"].
Definition CandidateOutcome : enum :=
  mk_enum "CandidateOutcome" ["usable"; "timed_out"; "refused"; "failed"].

Abbreviation or_str e := (TUnion (TEnum e) TStr).

Definition PipeStateChanged : dataclass := mk_dataclass "PipeStateChanged"
  [req "pipe" TInt; req "half" (or_str PipeHalf);
   req "state" (TUnion (TEnum OutboundState) (or_str InboundState));
   req "failure" (TOptional TStr); opt_field "carrier" (TOptional (or_str CarrierKind)) PNone].
Definition JoinAuthFailed : dataclass := mk_dataclass "JoinAuthFailed"
  [req "carrier_bound" TBool; req "count" TInt].
Definition JoinSecurityUnavailable : dataclass := mk_dataclass "JoinSecurityUnavailable" [].
Definition PipePriorityChanged : dataclass := mk_dataclass "PipePriorityChanged"
  [req "pipe" TInt; req "send_priority" TInt; req "standby" TBool; req "weight" TInt;
   req "source" (TEnum PrioritySource)].
Definition PipeQualityChanged : dataclass := mk_dataclass "PipeQualityChanged"
  [req "pipe" TInt; req "smoothed_rtt" (TOptional TFloat); req "delivery_rate" (TOptional TInt)].
Definition TierSaturation : dataclass := mk_dataclass "TierSaturation"
  [req "priority" TInt; req "saturated" TBool].
Definition CapacityBelow : dataclass := mk_dataclass "CapacityBelow" [req "rate" TInt].
Definition CapacityRestored : dataclass := mk_dataclass "CapacityRestored" [req "rate" TInt].
Definition GoAway : dataclass := mk_dataclass "GoAway"
  [req "max_bidi" TInt; req "max_uni" TInt; req "code" TInt].
Definition Suspended : dataclass := mk_dataclass "Suspended" [].
Definition Resumed : dataclass := mk_dataclass "Resumed" [].
Definition PipesRetired : dataclass := mk_dataclass "PipesRetired"
  [req "retired" TInt; req "failed" TInt; req "closed" TInt; req "dropped" TInt;
   req "last" (TTupleOf TInt)].
Definition CarrierCandidate : dataclass := mk_dataclass "CarrierCandidate"
  [req "carrier" (or_str CarrierKind); req "outcome" (or_str CandidateOutcome); req "joined" TBool].
Definition CarrierChosen : dataclass := mk_dataclass "CarrierChosen" [req "carrier" (or_str CarrierKind)].
Definition UnknownEvent : dataclass := mk_dataclass "UnknownEvent" [req "detail" TStr].

(** [_EVENTS]: the class of each kind. *)
Definition EVENTS : list (string * dataclass) :=
  [("PipeState", PipeStateChanged); ("JoinAuthFailed", JoinAuthFailed);
   ("JoinSecurityUnavailable", JoinSecurityUnavailable); ("PipePriorityChanged", PipePriorityChanged);
   ("PipeQualityChanged", PipeQualityChanged); ("TierSaturation", TierSaturation);
   ("CapacityBelow", CapacityBelow); ("CapacityRestored", CapacityRestored); ("GoAway", GoAway);
   ("Suspended", Suspended); ("Resumed", Resumed); ("PipesRetired", PipesRetired);
   ("CarrierCandidate", CarrierCandidate); ("CarrierChosen", CarrierChosen)].
Definition events_get (kind : string) : option dataclass :=
  snd <$> List.find (fun p => String.eqb p.1 kind) EVENTS.

(** [_ENUM_FIELDS], in its order. *)
Definition ENUM_FIELDS : list (string * enum) :=
  [("half", PipeHalf); ("source", PrioritySource); ("carrier", CarrierKind); ("outcome", CandidateOutcome)].

Fixpoint enum_fields (l : list (string * enum)) (d : dict) : PyResult dict :=
  match l with
  | [] => Ok d
  | (k, e) :: l => d ← alter_get (enum_of e) d k; enum_fields l d
  end.

(** A string enumeration member equals its value. *)
Definition str_eq (o : pobj) (s : string) : bool :=
  match o with PStr s' | PMember _ s' => String.eqb s' s | _ => false end.

Definition tuple_of (o : pobj) : PyResult pobj :=
  match o with PList l | PTuple l => Ok (PTuple l) | _ => Err (new_err PyTypeError [Lit "not iterable"]) end.

(** [_event]. *)
Definition event (kind : string) (fields : dict) : PyResult pobj :=
  match events_get kind with
  | None => construct UnknownEvent [("detail", default (PStr kind) (get_item fields "detail"))]
  | Some cls =>
      d ← enum_fields ENUM_FIELDS fields;
      d ← (if String.eqb (dc_name cls) "PipeStateChanged" then
             half ← ok_or (get_item d "half") (key_error "half");
             alter_item (enum_of (if str_eq half "Inbound" then InboundState else OutboundState)) d "state"
           else Ok d);
      d ← (match get_item d "last" with Some _ => alter_item tuple_of d "last" | None => Ok d end);
      construct cls d
  end.

(** ** Native events *)
Section events.
(** Native values that Python sees by their text: the states of a direction and
    the half it names, the failure of a pipe, carrier kinds, the source of a
    priority and the outcome of a candidate. *)
Context {OutS InS Failure Kind Source Outcome : Type}.
Context (out_debug : OutS -> string) (in_debug : InS -> string).
Context (failure_display : Failure -> string) (kind_name : Kind -> string).
Context (source_debug : Source -> string) (outcome_name : Outcome -> string).

Inductive DirectionState := Outbound (o : OutS) | Inbound (i : InS).
(** [format!("{:?}", state.half())]. *)
Context (half_debug : DirectionState -> string).

(** [zmux::SessionEvent]; a variant the binding does not name is [OtherEvent],
    with its [Debug] text. *)
Inductive SessionEvent :=
  | EPipeState (pipe : Z) (state : DirectionState) (failure : option Failure) (carrier : option Kind)
  | EJoinAuthFailed (carrier_bound : bool) (count : Z)
  | EJoinSecurityUnavailable
  | EPipePriorityChanged (pipe send_priority : Z) (standby : bool) (weight : Z) (source : Source)
  | EPipeQualityChanged (pipe : Z) (smoothed_rtt : option Duration) (delivery_rate : option Z)
  | ETierSaturation (priority : Z) (saturated : bool)
  | ECapacityBelow (rate : Z)
  | ECapacityRestored (rate : Z)
  | EGoAway (max_bidi max_uni code : Z)
  | ESuspended
  | EResumed
  | EPipesRetired (retired failed closed dropped : Z) (last : list Z)
  | ECarrierCandidate (kind : Kind) (outcome : Outcome) (joined : bool)
  | ECarrierChosen (kind : Kind)
  | OtherEvent (debug : string).

(** [direction_state]. *)
Definition direction_state (s : DirectionState) : string :=
  match s with
  | Outbound o => kind_prefix (out_debug o)
  | Inbound i => kind_prefix (in_debug i)
  end.

(** The items, in the order they are set. *)
Definition dict_of (l : list (string * pobj)) : dict := fold_left (fun d kv => set_item d kv.1 kv.2) l [].

(** [event_obj] up to its call of [_event]. *)
Definition event_fields (e : SessionEvent) : string * dict :=
  match e with
  | EPipeState pipe state failure carrier =>
      ("PipeState", dict_of [("pipe", to_py pipe); ("half", to_py (half_debug state));
        ("state", to_py (direction_state state)); ("failure", to_py (failure_display <$> failure));
        ("carrier", to_py (kind_name <$> carrier))])
  | EJoinAuthFailed carrier_bound count =>
      ("JoinAuthFailed", dict_of [("carrier_bound", to_py carrier_bound); ("count", to_py count)])
  | EJoinSecurityUnavailable => ("JoinSecurityUnavailable", [])
  | EPipePriorityChanged pipe send_priority standby weight source =>
      ("PipePriorityChanged", dict_of [("pipe", to_py pipe); ("send_priority", to_py send_priority);
        ("standby", to_py standby); ("weight", to_py weight); ("source", to_py (source_debug source))])
  | EPipeQualityChanged pipe smoothed_rtt delivery_rate =>
      ("PipeQualityChanged", dict_of [("pipe", to_py pipe); ("smoothed_rtt", to_py (dur smoothed_rtt));
        ("delivery_rate", to_py delivery_rate)])
  | ETierSaturation priority saturated =>
      ("TierSaturation", dict_of [("priority", to_py priority); ("saturated", to_py saturated)])
  | ECapacityBelow rate => ("CapacityBelow", dict_of [("rate", to_py rate)])
  | ECapacityRestored rate => ("CapacityRestored", dict_of [("rate", to_py rate)])
  | EGoAway max_bidi max_uni code =>
      ("GoAway", dict_of [("max_bidi", to_py max_bidi); ("max_uni", to_py max_uni); ("code", to_py code)])
  | ESuspended => ("Suspended", [])
  | EResumed => ("Resumed", [])
  | EPipesRetired retired failed closed dropped last =>
      ("PipesRetired", dict_of [("retired", to_py retired); ("failed", to_py failed);
        ("closed", to_py closed); ("dropped", to_py dropped); ("last", to_py last)])
  | ECarrierCandidate kind outcome joined =>
      ("CarrierCandidate", dict_of [("carrier", to_py (kind_name kind));
        ("outcome", to_py (outcome_name outcome)); ("joined", to_py joined)])
  | ECarrierChosen kind => ("CarrierChosen", dict_of [("carrier", to_py (kind_name kind))])
  | OtherEvent debug => ("Unknown", dict_of [("detail", to_py debug)])
  end.

Definition event_obj (e : SessionEvent) : PyResult pobj := let '(kind, d) := event_fields e in event kind d.

(** What Python reads of an event: its class, and its fields with every native
    value as Python has it. *)
Definition state_obj (s : DirectionState) : pobj :=
  enum_text (match s with Outbound _ => OutboundState | Inbound _ => InboundState end) (direction_state s).

Definition event_view (e : SessionEvent) : dataclass * list pobj :=
  match e with
  | EPipeState pipe state failure carrier =>
      (PipeStateChanged, [PInt pipe; enum_text PipeHalf (half_debug state); state_obj state;
        to_py (failure_display <$> failure); enum_opt CarrierKind (kind_name <$> carrier)])
  | EJoinAuthFailed carrier_bound count => (JoinAuthFailed, [PBool carrier_bound; PInt count])
  | EJoinSecurityUnavailable => (JoinSecurityUnavailable, [])
  | EPipePriorityChanged pipe send_priority standby weight source =>
      (PipePriorityChanged, [PInt pipe; PInt send_priority; PBool standby; PInt weight;
        enum_text PrioritySource (source_debug source)])
  | EPipeQualityChanged pipe smoothed_rtt delivery_rate =>
      (PipeQualityChanged, [PInt pipe; to_py (dur smoothed_rtt); to_py delivery_rate])
  | ETierSaturation priority saturated => (TierSaturation, [PInt priority; PBool saturated])
  | ECapacityBelow rate => (CapacityBelow, [PInt rate])
  | ECapacityRestored rate => (CapacityRestored, [PInt rate])
  | EGoAway max_bidi max_uni code => (GoAway, [PInt max_bidi; PInt max_uni; PInt code])
  | ESuspended => (Suspended, [])
  | EResumed => (Resumed, [])
  | EPipesRetired retired failed closed dropped last =>
      (PipesRetired, [PInt retired; PInt failed; PInt closed; PInt dropped; PTuple (PInt <$> last)])
  | ECarrierCandidate kind outcome joined =>
      (CarrierCandidate, [enum_text CarrierKind (kind_name kind);
        enum_text CandidateOutcome (outcome_name outcome); PBool joined])
  | ECarrierChosen kind => (CarrierChosen, [enum_text CarrierKind (kind_name kind)])
  | OtherEvent debug => (UnknownEvent, [PStr debug])
  end.

(** The half a state names is the direction it is of; the sources are those of
    [PrioritySource]. *)
Hypothesis half_of : forall s,
  half_debug s = match s with Outbound _ => "Outbound" | Inbound _ => "Inbound" end.
Hypothesis source_of : forall s, In (source_debug s) (en_values PrioritySource).

Lemma event_obj_view e :
  event_obj e =
    Ok (PInst (dc_name (event_view e).1) (zip (fd_name <$> dc_fields (event_view e).1) (event_view e).2)).
Proof.
  destruct e as [pipe state failure carrier| | | | | | | | | | | | | |]; try reflexivity.
  unfold event_obj, event_view, state_obj, event_fields. rewrite half_of.
  destruct state, carrier; reflexivity.
Qed.

Lemma source_typed s : has_type (TEnum PrioritySource) (enum_text PrioritySource (source_debug s)) = true.
Proof.
  unfold enum_text. destruct (existsb _ _) eqn:E; [simpl in *; by rewrite E|].
  pose proof (proj2 (existsb_exists (String.eqb (source_debug s)) (en_values PrioritySource))
    (ex_intro _ _ (conj (source_of s) (String.eqb_refl _)))) as E'. congruence.
Qed.

Lemma source_member s : enum_text PrioritySource (source_debug s) = PMember "PrioritySource" (source_debug s).
Proof.
  pose proof (source_typed s) as H. unfold enum_text in *. by destruct (existsb _ _).
Qed.

Lemma ints_typed (l : list Z) : forallb (has_type TInt) (PInt <$> l) = true.
Proof. by induction l. Qed.

Lemma state_typed s : has_type (TUnion (TEnum OutboundState) (or_str InboundState)) (state_obj s) = true.
Proof.
  unfold state_obj. set (x := direction_state s).
  destruct s; [pose proof (enum_text_typed OutboundState x) as Hx | pose proof (enum_text_typed InboundState x) as Hx];
    cbn [has_type] in *; rewrite ?orb_true_iff in *; tauto.
Qed.

Lemma event_obj_conforms e : exists o, event_obj e = Ok o /\ conforms (event_view e).1 o.
Proof.
  eexists. split; [apply event_obj_view|]. eexists. split; [reflexivity|].
  destruct e; repeat constructor; simpl zip; cbn [snd fd_type req opt_field];
    auto using enum_text_typed, enum_opt_typed, state_typed, source_typed, ints_typed;
    try apply typed_ok.
  apply ints_typed.
Qed.

(** The attributes of an object, among others. *)
Definition has_attrs (o : pobj) (l : list (string * pobj)) : Prop :=
  Forall (fun kv => attr o kv.1 = Some kv.2) l.

(** C27: every event reaches Python as an instance of its class with exactly
    the declared fields, each of its declared type, and each attribute of the
    object is the value the event carries: numbers and flags as they are,
    durations in seconds, texts of enumerations as their member, or as the text
    where they have no such member.  The state of a direction is looked up
    among the states of that direction: [InboundState] for an inbound one,
    [OutboundState] for an outbound one.  An event of a variant the binding
    does not know is an [UnknownEvent] with its text.  No event makes [_event]
    raise, provided that a state's half is printed [Outbound] or [Inbound] as it
    is, and that the source of a priority is printed as one of
    [PrioritySource]. *)
Theorem events_well_typed e :
  exists o, event_obj e = Ok o /\
    match e with
    | EPipeState pipe state failure carrier =>
        conforms PipeStateChanged o /\
        has_attrs o [("pipe", PInt pipe);
          ("failure", match failure with Some f => PStr (failure_display f) | None => PNone end);
          ("carrier", match carrier with Some k => enum_text CarrierKind (kind_name k) | None => PNone end)] /\
        match state with
        | Outbound s => has_attrs o [("half", PMember "PipeHalf" "Outbound");
            ("state", enum_text OutboundState (kind_prefix (out_debug s)))]
        | Inbound s => has_attrs o [("half", PMember "PipeHalf" "Inbound");
            ("state", enum_text InboundState (kind_prefix (in_debug s)))]
        end
    | EJoinAuthFailed carrier_bound count =>
        conforms JoinAuthFailed o /\ has_attrs o [("carrier_bound", PBool carrier_bound); ("count", PInt count)]
    | EJoinSecurityUnavailable => conforms JoinSecurityUnavailable o
    | EPipePriorityChanged pipe send_priority standby weight source =>
        conforms PipePriorityChanged o /\
        has_attrs o [("pipe", PInt pipe); ("send_priority", PInt send_priority); ("standby", PBool standby);
          ("weight", PInt weight); ("source", PMember "PrioritySource" (source_debug source))]
    | EPipeQualityChanged pipe smoothed_rtt delivery_rate =>
        conforms PipeQualityChanged o /\
        has_attrs o [("pipe", PInt pipe);
          ("smoothed_rtt", match smoothed_rtt with Some d => PFloat (as_secs_f64 d) | None => PNone end);
          ("delivery_rate", match delivery_rate with Some n => PInt n | None => PNone end)]
    | ETierSaturation priority saturated =>
        conforms TierSaturation o /\ has_attrs o [("priority", PInt priority); ("saturated", PBool saturated)]
    | ECapacityBelow rate => conforms CapacityBelow o /\ has_attrs o [("rate", PInt rate)]
    | ECapacityRestored rate => conforms CapacityRestored o /\ has_attrs o [("rate", PInt rate)]
    | EGoAway max_bidi max_uni code =>
        conforms GoAway o /\
        has_attrs o [("max_bidi", PInt max_bidi); ("max_uni", PInt max_uni); ("code", PInt code)]
    | ESuspended => conforms Suspended o
    | EResumed => conforms Resumed o
    | EPipesRetired retired failed closed dropped last =>
        conforms PipesRetired o /\
        has_attrs o [("retired", PInt retired); ("failed", PInt failed); ("closed", PInt closed);
          ("dropped", PInt dropped); ("last", PTuple (PInt <$> last))]
    | ECarrierCandidate kind outcome joined =>
        conforms CarrierCandidate o /\
        has_attrs o [("carrier", enum_text CarrierKind (kind_name kind));
          ("outcome", enum_text CandidateOutcome (outcome_name outcome)); ("joined", PBool joined)]
    | ECarrierChosen kind =>
        conforms CarrierChosen o /\ has_attrs o [("carrier", enum_text CarrierKind (kind_name kind))]
    | OtherEvent debug => conforms UnknownEvent o /\ has_attrs o [("detail", PStr debug)]
    end.
Proof.
  destruct (event_obj_conforms e) as (o & Ho & Hc). exists o. split; [done|].
  rewrite event_obj_view in Ho. injection Ho as <-.
  destruct e as [? [] [] []| | | |? [] []| | | | | | | | | |]; try (split; [exact Hc|]); try exact Hc;
    repeat constructor; cbn; rewrite ?half_of, ?source_member; try done.
Qed.

(** Distinct events are distinct in Python, where their native values have
    distinct texts: the only thing an event object does not tell is a round
    trip time below the precision of a float. *)
Theorem events_lossless e1 e2 o :
  Inj eq eq failure_display -> Inj eq eq kind_name -> Inj eq eq source_debug -> Inj eq eq outcome_name ->
  Inj eq eq (fun s => kind_prefix (out_debug s)) -> Inj eq eq (fun s => kind_prefix (in_debug s)) ->
  event_obj e1 = Ok o -> event_obj e2 = Ok o ->
  e1 = e2 \/ exists p r d1 d2, e1 = EPipeQualityChanged p d1 r /\ e2 = EPipeQualityChanged p d2 r /\ dur d1 = dur d2.
Proof.
  intros If Ik Is Io Iout Iin E1 E2. rewrite event_obj_view in E1, E2.
  rewrite <- E2 in E1. clear E2. injection E1 as Hn Hf.
  destruct e1, e2; try discriminate Hn; clear Hn; simpl in Hf; try (left; congruence);
    [left|left|right|left|left|left].
  - injection Hf as -> Hh%enum_text_inj Hs Hfl%to_py_opt_str_inj Hc%enum_opt_inj.
    apply (inj (fmap failure_display)) in Hfl as ->. apply (inj (fmap kind_name)) in Hc as ->.
    rewrite !half_of in Hh.
    destruct state as [a|a], state0 as [b|b]; try done; apply enum_text_inj in Hs;
      [apply Iout in Hs | apply Iin in Hs]; by subst.
  - injection Hf as -> -> -> -> Hs%enum_text_inj. by apply Is in Hs as ->.
  - injection Hf as -> Hd%to_py_opt_float_inj Hr%to_py_opt_int_inj. subst. by eauto 10.
  - injection Hf as -> -> -> -> Hl. by apply (inj (fmap PInt)) in Hl as ->.
  - injection Hf as Hk%enum_text_inj Ho%enum_text_inj ->. apply Ik in Hk as ->. by apply Io in Ho as ->.
  - injection Hf as Hk%enum_text_inj. by apply Ik in Hk as ->.
Qed.
End events.

(** ** An instance: the names of the variants *)
Module EventsExample.
Inductive out_s := Active | Failed (code : nat).
Definition out_debug (o : out_s) : string := match o with Active => "Active" | Failed _ => "Failed(Timeout)" end.
Definition in_debug (_ : unit) : string := "Open".
Definition half_debug (s : DirectionState (OutS:=out_s) (InS:=unit)) : string :=
  match s with Outbound _ => "Outbound" | Inbound _ => "Inbound" end.
Definition source_debug (local : bool) : string := if local then "Local" else "Peer".
Definition outcome_name (ok : bool) : string := if ok then "usable" else "failed".
Definition failed : SessionEvent (OutS:=out_s) (InS:=unit) (Failure:=string) (Kind:=string)
    (Source:=bool) (Outcome:=bool) :=
  EPipeState 3 (Outbound (Failed 7)) (Some "timed out") (Some "quic").
Definition as_obj := event_obj out_debug in_debug (fun s : string => s) (fun s : string => s)
  source_debug outcome_name half_debug.
End EventsExample.

Lemma events_well_typed_witness :
  EventsExample.as_obj EventsExample.failed =
    Ok (PInst "PipeStateChanged" [("pipe", PInt 3); ("half", PMember "PipeHalf" "Outbound");
      ("state", PMember "OutboundState" "Failed"); ("failure", PStr "timed out");
      ("carrier", PMember "CarrierKind" "quic")]) /\
  exists o, EventsExample.as_obj EventsExample.failed = Ok o /\ conforms PipeStateChanged o /\
    attr o "state" = Some (PMember "OutboundState" "Failed").
Proof.
  split; [reflexivity|].
  destruct (events_well_typed EventsExample.out_debug EventsExample.in_debug (fun s : string => s)
    (fun s : string => s) EventsExample.source_debug EventsExample.outcome_name EventsExample.half_debug
    (fun s => match s with Outbound _ => eq_refl | Inbound _ => eq_refl end)
    (fun b => match b with true => or_introl eq_refl | false => or_intror (or_introl eq_refl) end)
    EventsExample.failed) as (o & Ho & Hc & _ & Hs).
  exact (ex_intro _ o (conj Ho (conj Hc (List.Forall_inv (List.Forall_inv_tail Hs))))).
Defined.
