(* ===== verification/Stats.v ===== *)
(** Statistics (src/src/lib.rs, src/src/mode.rs): the dictionaries made of the
    native snapshots of pipes, streams, sessions and listeners, and the Python
    classes built from them (src/python/zmux/_types.py). *)
From Stdlib Require Import SpecFloat.
From S2P Require Import Prelude Duration PyData Errors Events.
Open Scope Z_scope.

(** ** The Python classes *)
Definition RttSource : enum := mk_enum "RttSource" ["ack"; "kernel"; "ping"].
Definition PipeRequest : dataclass := mk_dataclass "PipeRequest" [req "priority" TInt; req "standby" TBool].

Definition LaneStats : dataclass := mk_dataclass "LaneStats" [
   req "lane" TInt; req "position_sent" (TOptional TInt); req "position_acked" (TOptional TInt);
   req "position_received" (TOptional TInt)].

Definition PipeStatsClass : dataclass := mk_dataclass "PipeStats" [
   req "pipe" TInt; req "local" TBool; req "fate_group" TInt; req "label" (TOptional TStr);
   req "carrier" (TOptional (or_str CarrierKind)); req "inbound" (TOptional (or_str InboundState));
   req "outbound" (TOptional (or_str OutboundState)); req "attached_for" TFloat;
   req "suspect_count" TInt; req "failure_count" TInt; req "failure" (TOptional TStr);
   req "send_priority" TInt; req "send_priority_source" (or_str PrioritySource); req "standby" TBool;
   req "standby_source" (or_str PrioritySource); req "receive_priority" TInt;
   req "receive_standby" TBool; req "request_seq" TInt;
   req "peer_request" (TOptional (class_type PipeRequest)); req "weight" TInt;
   req "probation_until" (TOptional TFloat); req "in_probation" TBool; req "revalidating" TBool;
   req "eligible" TBool; req "writable" TBool; req "saturated" TBool;
   req "rtt_source" (TOptional (or_str RttSource)); req "smoothed_rtt" (TOptional TFloat);
   req "min_rtt" (TOptional TFloat); req "rttvar" (TOptional TFloat);
   req "one_way_delay" (TOptional TFloat); req "delivery_rate" (TOptional TInt);
   req "queued_bytes" (TOptional TInt); req "queue_delay" (TOptional TFloat);
   req "bytes_in_flight" (TOptional TInt); req "bytes_sent" TInt; req "bytes_received" TInt;
   req "bytes_acked" (TOptional TInt); req "records_sent" TInt; req "records_received" TInt;
   req "bytes_reinjected" TInt; req "bytes_lost" (TOptional TInt); req "records_lost" (TOptional TInt);
   req "bytes_retransmitted" (TOptional TInt); req "loss_rate" (TOptional TFloat);
   req "bytes_opportunistic" TInt; req "bytes_redundant" TInt; req "bytes_duplicate_received" TInt;
   req "pings_sent" TInt; req "pings_answered" TInt; req "since_last_ack" (TOptional TFloat);
   req "since_last_receive" (TOptional TFloat); req "since_last_traffic" (TOptional TFloat);
   req "lanes_out" TInt; req "lanes_in" TInt; req "lanes_refused" TInt;
   req "lanes" (TTupleOf (class_type LaneStats))].

Definition StreamStatsClass : dataclass := mk_dataclass "StreamStats" [
   req "bytes_written" TInt; req "bytes_sent" TInt; req "bytes_acknowledged" TInt;
   req "bytes_received" TInt; req "bytes_read" TInt; req "datagrams_sent" TInt;
   req "datagrams_received" TInt; req "datagrams_dropped_recv" TInt; req "datagram_bytes_sent" TInt;
   req "datagram_bytes_received" TInt; req "send_buffered" TInt; req "recv_buffered" TInt;
   req "recv_window" TInt; req "pipe_id" (TOptional TInt)].

Definition AdmissionStats : dataclass := mk_dataclass "AdmissionStats" [
   opt_field "accepted" TInt (PInt 0); opt_field "fallback" TInt (PInt 0);
   opt_field "stalled" TInt (PInt 0); opt_field "closed" TInt (PInt 0);
   opt_field "stall_overflow" TInt (PInt 0); opt_field "peek_timed_out" TInt (PInt 0);
   opt_field "handshake_failed" TInt (PInt 0)].

Definition admission_default : pobj :=
  PInst "AdmissionStats" ((fun f => (fd_name f, PInt 0)) <$> dc_fields AdmissionStats).

Definition ListenerStatsClass : dataclass := mk_dataclass "ListenerStats" [
   req "sessions" TInt; req "joins" TInt; req "setup_failures" TInt; req "rejected" TInt;
   req "refused" TInt; req "timed_out" TInt;
   opt_field "admission" (class_type AdmissionStats) (admission_default)].

Definition CandidateResult : dataclass := mk_dataclass "CandidateResult" [
   req "carrier" (or_str CarrierKind); req "outcome" (or_str CandidateOutcome); req "joined" TBool;
   req "error" (TOptional TStr)].

Definition SessionStatsClass : dataclass := mk_dataclass "SessionStats" [
   req "bytes_sent" TInt; req "bytes_received" TInt; req "records_sent" TInt;
   req "records_received" TInt; req "bytes_written" TInt; req "bytes_read" TInt;
   req "datagram_bytes_sent" TInt; req "datagram_bytes_received" TInt; req "streams_opened_local" TInt;
   req "streams_opened_remote" TInt; req "streams_active" TInt; req "stream_credit_waits" TInt;
   req "datagrams_sent" TInt; req "datagrams_received" TInt; req "datagrams_sent_channel" TInt;
   req "datagrams_received_channel" TInt; req "datagrams_dropped_send" TInt;
   req "datagrams_dropped_recv" TInt; req "datagrams_dropped_limit" TInt; req "no_effect_budget" TInt;
   req "smoothed_rtt" (TOptional TFloat); req "min_rtt" (TOptional TFloat);
   req "latest_rtt" (TOptional TFloat); req "mean_deviation" (TOptional TFloat);
   req "bytes_reinjected" TInt; req "bytes_opportunistic" TInt; req "penalties" TInt;
   req "reinjections" TInt; req "bytes_redundant" TInt; req "bytes_duplicate_received" TInt;
   req "send_buffered" TInt; req "recv_buffered" TInt; req "retained" TInt; req "pipes_active" TInt;
   req "pipes_added" TInt; req "pipe_failures" TInt; req "join_auth_failures" TInt;
   req "join_replays" TInt; req "join_refusals" TInt; req "suspensions" TInt;
   req "suspended_time" TFloat; req "scheduler_answers" TInt; req "scheduler_fallbacks" TInt;
   opt_field "carrier" (TOptional (or_str CarrierKind)) (PNone);
   opt_field "carrier_candidates" (TTupleOf (class_type CandidateResult)) (PTuple [])].

(** Reads a dictionary that must have the key. *)
Definition item (d : dict) (k : string) : PyResult pobj := ok_or (get_item d k) (key_error k).

Definition args_of (o : pobj) : PyResult (list pobj) :=
  match o with PTuple l | PList l => Ok l | _ => Err (new_err PyTypeError [Lit "not iterable"]) end.

Fixpoint each {A B} (f : A -> PyResult B) (l : list A) : PyResult (list B) :=
  match l with [] => Ok [] | a :: l => b ← f a; r ← each f l; Ok (b :: r) end.

(** [_pipe_stats]. *)
Definition lanes_of (o : pobj) : PyResult pobj :=
  l ← args_of o; PTuple <$> each (fun x => a ← args_of x; construct_pos LaneStats a) l.
Definition request_of (o : pobj) : PyResult pobj := a ← args_of o; construct_pos PipeRequest a.

Definition py_pipe_stats (fields : dict) : PyResult pobj :=
  d ← alter_some (enum_of InboundState) fields "inbound";
  d ← alter_some (enum_of OutboundState) d "outbound";
  d ← alter_some (enum_of CarrierKind) d "carrier";
  d ← alter_item (enum_of PrioritySource) d "send_priority_source";
  d ← alter_item (enum_of PrioritySource) d "standby_source";
  d ← alter_some (enum_of RttSource) d "rtt_source";
  d ← alter_some request_of d "peer_request";
  d ← alter_item lanes_of d "lanes";
  construct PipeStatsClass d.

(** [_candidate_result]. *)
Definition py_candidate_result (fields : dict) : PyResult pobj :=
  carrier ← (v ← item fields "carrier"; enum_of CarrierKind v);
  outcome ← (v ← item fields "outcome"; enum_of CandidateOutcome v);
  joined ← item fields "joined";
  error ← item fields "error";
  construct_pos CandidateResult [carrier; outcome; joined; error].

(** [SessionStats], with its [__post_init__]. *)
Definition post_init (o : pobj) : PyResult pobj :=
  match o with
  | PInst c vs =>
      d ← alter_some (enum_of CarrierKind) vs "carrier";
      d ← alter_item (fun o => PTuple <$> args_of o) d "carrier_candidates";
      Ok (PInst c d)
  | o => Ok o
  end.
Definition py_session_stats (fields : dict) : PyResult pobj :=
  o ← construct SessionStatsClass fields; post_init o.

(** ** Native snapshots *)
Section stats.
Context {OutS InS Failure Kind Source RttS Outcome : Type}.
Context (out_debug : OutS -> string) (in_debug : InS -> string).
Context (failure_display : Failure -> string) (kind_name : Kind -> string).
Context (source_debug : Source -> string) (rtt_debug : RttS -> string) (outcome_name : Outcome -> string).

(** A point in time of the Rust clock, in nanoseconds, and Python's clock: both
    read now. *)
Definition Instant := Z.
Record clocks := mk_clocks { now : Instant; py_now : f64 }.
Definition of_nanos (n : Z) : Duration := mk_duration (n / NANOS_PER_SEC) (n mod NANOS_PER_SEC).

Definition monotonic (c : clocks) (t : Instant) : f64 :=
  if now c <=? t then SFadd prec emax (py_now c) (as_secs_f64 (of_nanos (t - now c)))
  else SFsub prec emax (py_now c) (as_secs_f64 (of_nanos (now c - t))).

(** [zmux::PipeStats]: the fields [put!] copies, and those converted. *)

Record PipeStats := mk_pipe_stats {
  ps_local : bool; ps_fate_group : Z; ps_suspect_count : Z; ps_failure_count : Z; ps_send_priority : Z;
  ps_standby : bool; ps_receive_priority : Z; ps_receive_standby : bool; ps_request_seq : Z;
  ps_weight : Z; ps_in_probation : bool; ps_revalidating : bool; ps_eligible : bool; ps_writable : bool;
  ps_saturated : bool; ps_delivery_rate : option Z; ps_queued_bytes : option Z;
  ps_bytes_in_flight : option Z; ps_bytes_sent : Z; ps_bytes_received : Z; ps_bytes_acked : option Z;
  ps_records_sent : Z; ps_records_received : Z; ps_bytes_reinjected : Z; ps_bytes_lost : option Z;
  ps_records_lost : option Z; ps_bytes_retransmitted : option Z; ps_loss_rate : option f64;
  ps_bytes_opportunistic : Z; ps_bytes_redundant : Z; ps_bytes_duplicate_received : Z;
  ps_pings_sent : Z; ps_pings_answered : Z; ps_lanes_out : Z; ps_lanes_in : Z; ps_lanes_refused : Z;
  ps_pipe : Z; ps_label : option string; ps_carrier : option Kind; ps_inbound : option InS;
  ps_outbound : option OutS; ps_attached_for : Duration; ps_failure : option Failure;
  ps_send_priority_source : Source; ps_standby_source : Source; ps_peer_request : option (Z * bool);
  ps_probation_until : option Instant; ps_rtt_source : option RttS; ps_smoothed_rtt : option Duration;
  ps_min_rtt : option Duration; ps_rttvar : option Duration; ps_one_way_delay : option Duration;
  ps_queue_delay : option Duration; ps_since_last_ack : option Duration;
  ps_since_last_receive : option Duration; ps_since_last_traffic : option Duration;
  ps_lanes : list (Z * option Z * option Z * option Z);
}.

(** [stats_dict]. *)
Definition stats_fields (c : clocks) (s : PipeStats) : dict := dict_of ([
   ("local", to_py (ps_local s)); ("fate_group", to_py (ps_fate_group s));
   ("suspect_count", to_py (ps_suspect_count s)); ("failure_count", to_py (ps_failure_count s));
   ("send_priority", to_py (ps_send_priority s)); ("standby", to_py (ps_standby s));
   ("receive_priority", to_py (ps_receive_priority s));
   ("receive_standby", to_py (ps_receive_standby s)); ("request_seq", to_py (ps_request_seq s));
   ("weight", to_py (ps_weight s)); ("in_probation", to_py (ps_in_probation s));
   ("revalidating", to_py (ps_revalidating s)); ("eligible", to_py (ps_eligible s));
   ("writable", to_py (ps_writable s)); ("saturated", to_py (ps_saturated s));
   ("delivery_rate", to_py (ps_delivery_rate s)); ("queued_bytes", to_py (ps_queued_bytes s));
   ("bytes_in_flight", to_py (ps_bytes_in_flight s)); ("bytes_sent", to_py (ps_bytes_sent s));
   ("bytes_received", to_py (ps_bytes_received s)); ("bytes_acked", to_py (ps_bytes_acked s));
   ("records_sent", to_py (ps_records_sent s)); ("records_received", to_py (ps_records_received s));
   ("bytes_reinjected", to_py (ps_bytes_reinjected s)); ("bytes_lost", to_py (ps_bytes_lost s));
   ("records_lost", to_py (ps_records_lost s));
   ("bytes_retransmitted", to_py (ps_bytes_retransmitted s)); ("loss_rate", to_py (ps_loss_rate s));
   ("bytes_opportunistic", to_py (ps_bytes_opportunistic s));
   ("bytes_redundant", to_py (ps_bytes_redundant s));
   ("bytes_duplicate_received", to_py (ps_bytes_duplicate_received s));
   ("pings_sent", to_py (ps_pings_sent s)); ("pings_answered", to_py (ps_pings_answered s));
   ("lanes_out", to_py (ps_lanes_out s)); ("lanes_in", to_py (ps_lanes_in s));
   ("lanes_refused", to_py (ps_lanes_refused s))] ++ [
   ("pipe", to_py (ps_pipe s)); ("label", to_py (ps_label s));
   ("carrier", to_py (kind_name <$> ps_carrier s));
   ("inbound", to_py ((fun x => kind_prefix (in_debug x)) <$> ps_inbound s));
   ("outbound", to_py ((fun x => kind_prefix (out_debug x)) <$> ps_outbound s));
   ("attached_for", to_py (as_secs_f64 (ps_attached_for s)));
   ("failure", to_py (failure_display <$> ps_failure s));
   ("send_priority_source", to_py (kind_prefix (source_debug (ps_send_priority_source s))));
   ("standby_source", to_py (kind_prefix (source_debug (ps_standby_source s))));
   ("peer_request", to_py (ps_peer_request s));
   ("probation_until", to_py (monotonic c <$> ps_probation_until s));
   ("rtt_source", to_py ((fun r => to_lowercase (kind_prefix (rtt_debug r))) <$> ps_rtt_source s));
   ("smoothed_rtt", to_py (dur (ps_smoothed_rtt s))); ("min_rtt", to_py (dur (ps_min_rtt s)));
   ("rttvar", to_py (dur (ps_rttvar s))); ("one_way_delay", to_py (dur (ps_one_way_delay s)));
   ("queue_delay", to_py (dur (ps_queue_delay s)));
   ("since_last_ack", to_py (dur (ps_since_last_ack s)));
   ("since_last_receive", to_py (dur (ps_since_last_receive s)));
   ("since_last_traffic", to_py (dur (ps_since_last_traffic s))); ("lanes", to_py (ps_lanes s))]).
Definition stats_dict (c : clocks) (s : PipeStats) : PyResult pobj := py_pipe_stats (stats_fields c s).
(** [Session::pipe_stats] and [Pipe::stats]. *)
Definition pipe_stats (c : clocks) (l : list PipeStats) : PyResult (list pobj) := each (stats_dict c) l.
Definition stats_of_pipe (c : clocks) (s : option PipeStats) : PyResult (option pobj) := map_transpose (stats_dict c) s.

(** [zmux::StreamStats] and [stream_stats]. *)
Record StreamStats := mk_stream_stats {
  st_bytes_written : Z; st_bytes_sent : Z; st_bytes_acknowledged : Z; st_bytes_received : Z;
  st_bytes_read : Z; st_datagrams_sent : Z; st_datagrams_received : Z; st_datagrams_dropped_recv : Z;
  st_datagram_bytes_sent : Z; st_datagram_bytes_received : Z; st_send_buffered : Z;
  st_recv_buffered : Z; st_recv_window : Z; st_pipe_id : option Z;
}.

Definition stream_stats (st : StreamStats) : PyResult pobj := construct StreamStatsClass (dict_of ([
   ("bytes_written", to_py (st_bytes_written st)); ("bytes_sent", to_py (st_bytes_sent st));
   ("bytes_acknowledged", to_py (st_bytes_acknowledged st));
   ("bytes_received", to_py (st_bytes_received st)); ("bytes_read", to_py (st_bytes_read st));
   ("datagrams_sent", to_py (st_datagrams_sent st));
   ("datagrams_received", to_py (st_datagrams_received st));
   ("datagrams_dropped_recv", to_py (st_datagrams_dropped_recv st));
   ("datagram_bytes_sent", to_py (st_datagram_bytes_sent st));
   ("datagram_bytes_received", to_py (st_datagram_bytes_received st));
   ("send_buffered", to_py (st_send_buffered st)); ("recv_buffered", to_py (st_recv_buffered st));
   ("recv_window", to_py (st_recv_window st))] ++ [("pipe_id", to_py (st_pipe_id st))])).

(** [zmux::ListenerStats] and [Listener::stats]. *)
Record ListenerStats := mk_listener_stats {
  ls_sessions : Z; ls_joins : Z; ls_setup_failures : Z; ls_rejected : Z; ls_refused : Z;
  ls_timed_out : Z; ls_ad_accepted : Z; ls_ad_fallback : Z; ls_ad_stalled : Z; ls_ad_closed : Z;
  ls_ad_stall_overflow : Z; ls_ad_peek_timed_out : Z; ls_ad_handshake_failed : Z;
}.

Definition listener_stats (st : ListenerStats) : PyResult pobj :=
  let d := dict_of [
     ("sessions", to_py (ls_sessions st)); ("joins", to_py (ls_joins st));
     ("setup_failures", to_py (ls_setup_failures st)); ("rejected", to_py (ls_rejected st));
     ("refused", to_py (ls_refused st)); ("timed_out", to_py (ls_timed_out st))] in
  ad ← construct AdmissionStats (dict_of [
     ("accepted", to_py (ls_ad_accepted st)); ("fallback", to_py (ls_ad_fallback st));
     ("stalled", to_py (ls_ad_stalled st)); ("closed", to_py (ls_ad_closed st));
     ("stall_overflow", to_py (ls_ad_stall_overflow st));
     ("peek_timed_out", to_py (ls_ad_peek_timed_out st));
     ("handshake_failed", to_py (ls_ad_handshake_failed st))]);
  construct ListenerStatsClass (set_item d "admission" ad).

(** [zmux::CandidateResult] and [mode::result_obj]. *)
Record CandidateTry := mk_try { cr_kind : Kind; cr_outcome : Outcome; cr_joined : bool; cr_error : option string }.
Definition result_obj (r : CandidateTry) : PyResult pobj :=
  py_candidate_result (dict_of [("carrier", to_py (kind_name (cr_kind r)));
    ("outcome", to_py (outcome_name (cr_outcome r))); ("joined", to_py (cr_joined r));
    ("error", to_py (cr_error r))]).

(** [zmux::SessionStats] and [Session::stats]. *)
Record SessionStats := mk_session_stats {
  ss_bytes_sent : Z; ss_bytes_received : Z; ss_records_sent : Z; ss_records_received : Z;
  ss_bytes_written : Z; ss_bytes_read : Z; ss_datagram_bytes_sent : Z; ss_datagram_bytes_received : Z;
  ss_streams_opened_local : Z; ss_streams_opened_remote : Z; ss_streams_active : Z;
  ss_stream_credit_waits : Z; ss_datagrams_sent : Z; ss_datagrams_received : Z;
  ss_datagrams_sent_channel : Z; ss_datagrams_received_channel : Z; ss_datagrams_dropped_send : Z;
  ss_datagrams_dropped_recv : Z; ss_datagrams_dropped_limit : Z; ss_no_effect_budget : Z;
  ss_bytes_reinjected : Z; ss_bytes_opportunistic : Z; ss_penalties : Z; ss_reinjections : Z;
  ss_bytes_redundant : Z; ss_bytes_duplicate_received : Z; ss_send_buffered : Z; ss_recv_buffered : Z;
  ss_retained : Z; ss_pipes_active : Z; ss_pipes_added : Z; ss_pipe_failures : Z;
  ss_join_auth_failures : Z; ss_join_replays : Z; ss_join_refusals : Z; ss_suspensions : Z;
  ss_scheduler_answers : Z; ss_scheduler_fallbacks : Z; ss_smoothed_rtt : option Duration;
  ss_min_rtt : option Duration; ss_latest_rtt : option Duration; ss_mean_deviation : option Duration;
  ss_suspended_time : Duration; ss_carrier : option Kind; ss_carrier_candidates : list CandidateTry;
}.

Definition session_stats (st : SessionStats) : PyResult pobj :=
  let d := dict_of ([
     ("bytes_sent", to_py (ss_bytes_sent st)); ("bytes_received", to_py (ss_bytes_received st));
     ("records_sent", to_py (ss_records_sent st)); ("records_received", to_py (ss_records_received st));
     ("bytes_written", to_py (ss_bytes_written st)); ("bytes_read", to_py (ss_bytes_read st));
     ("datagram_bytes_sent", to_py (ss_datagram_bytes_sent st));
     ("datagram_bytes_received", to_py (ss_datagram_bytes_received st));
     ("streams_opened_local", to_py (ss_streams_opened_local st));
     ("streams_opened_remote", to_py (ss_streams_opened_remote st));
     ("streams_active", to_py (ss_streams_active st));
     ("stream_credit_waits", to_py (ss_stream_credit_waits st));
     ("datagrams_sent", to_py (ss_datagrams_sent st));
     ("datagrams_received", to_py (ss_datagrams_received st));
     ("datagrams_sent_channel", to_py (ss_datagrams_sent_channel st));
     ("datagrams_received_channel", to_py (ss_datagrams_received_channel st));
     ("datagrams_dropped_send", to_py (ss_datagrams_dropped_send st));
     ("datagrams_dropped_recv", to_py (ss_datagrams_dropped_recv st));
     ("datagrams_dropped_limit", to_py (ss_datagrams_dropped_limit st));
     ("no_effect_budget", to_py (ss_no_effect_budget st));
     ("bytes_reinjected", to_py (ss_bytes_reinjected st));
     ("bytes_opportunistic", to_py (ss_bytes_opportunistic st)); ("penalties", to_py (ss_penalties st));
     ("reinjections", to_py (ss_reinjections st)); ("bytes_redundant", to_py (ss_bytes_redundant st));
     ("bytes_duplicate_received", to_py (ss_bytes_duplicate_received st));
     ("send_buffered", to_py (ss_send_buffered st)); ("recv_buffered", to_py (ss_recv_buffered st));
     ("retained", to_py (ss_retained st)); ("pipes_active", to_py (ss_pipes_active st));
     ("pipes_added", to_py (ss_pipes_added st)); ("pipe_failures", to_py (ss_pipe_failures st));
     ("join_auth_failures", to_py (ss_join_auth_failures st));
     ("join_replays", to_py (ss_join_replays st)); ("join_refusals", to_py (ss_join_refusals st));
     ("suspensions", to_py (ss_suspensions st)); ("scheduler_answers", to_py (ss_scheduler_answers st));
     ("scheduler_fallbacks", to_py (ss_scheduler_fallbacks st))] ++ [
     ("smoothed_rtt", to_py (dur (ss_smoothed_rtt st))); ("min_rtt", to_py (dur (ss_min_rtt st)));
     ("latest_rtt", to_py (dur (ss_latest_rtt st)));
     ("mean_deviation", to_py (dur (ss_mean_deviation st)));
     ("suspended_time", to_py (as_secs_f64 (ss_suspended_time st)));
     ("carrier", to_py (kind_name <$> ss_carrier st))]) in
  tries ← each result_obj (ss_carrier_candidates st);
  py_session_stats (set_item d "carrier_candidates" (PList tries)).

(** [zmux::ShapingStats] and [Session::shaping_stats], a plain dictionary. *)
Record ShapingStats := mk_shaping_stats {
  sh_padding_bytes : Z; sh_injected : Z; sh_inject_dropped : Z; sh_clamped : Z; sh_pause_total : Duration;
  sh_faults : Z;
}.
Definition shaping_stats (st : ShapingStats) : dict := dict_of [
   ("padding_bytes", to_py (sh_padding_bytes st)); ("injected", to_py (sh_injected st));
   ("inject_dropped", to_py (sh_inject_dropped st)); ("clamped", to_py (sh_clamped st));
   ("pause_total", to_py (as_secs_f64 (sh_pause_total st))); ("faults", to_py (sh_faults st))].

(** *** What Python is to read of a snapshot

    Attribute by attribute, as the classes declare them. *)
Definition opt {A} (f : A -> pobj) (o : option A) : pobj := match o with Some a => f a | None => PNone end.
Definition in_secs (d : Duration) : pobj := PFloat (as_secs_f64 d).
Definition source_text (x : Source) : pobj := enum_text PrioritySource (kind_prefix (source_debug x)).
Definition request_obj (r : Z * bool) : pobj :=
  PInst "PipeRequest" [("priority", PInt r.1); ("standby", PBool r.2)].
Definition lane_obj (l : Z * option Z * option Z * option Z) : pobj :=
  let '(n, sent, acked, received) := l in
  PInst "LaneStats" [("lane", PInt n); ("position_sent", opt PInt sent); ("position_acked", opt PInt acked);
    ("position_received", opt PInt received)].
Definition try_obj (r : CandidateTry) : pobj :=
  PInst "CandidateResult" [("carrier", enum_text CarrierKind (kind_name (cr_kind r)));
    ("outcome", enum_text CandidateOutcome (outcome_name (cr_outcome r))); ("joined", PBool (cr_joined r));
    ("error", opt PStr (cr_error r))].
Definition admission_obj (st : ListenerStats) : pobj :=
  PInst "AdmissionStats" [
    ("accepted", PInt (ls_ad_accepted st)); ("fallback", PInt (ls_ad_fallback st));
    ("stalled", PInt (ls_ad_stalled st)); ("closed", PInt (ls_ad_closed st));
    ("stall_overflow", PInt (ls_ad_stall_overflow st)); ("peek_timed_out", PInt (ls_ad_peek_timed_out st));
    ("handshake_failed", PInt (ls_ad_handshake_failed st))].

Definition pipe_attrs (c : clocks) (s : PipeStats) : list (string * pobj) := [
   ("pipe", PInt (ps_pipe s)); ("local", PBool (ps_local s)); ("fate_group", PInt (ps_fate_group s));
   ("label", opt PStr (ps_label s));
   ("carrier", opt (fun k => enum_text CarrierKind (kind_name k)) (ps_carrier s));
   ("inbound", opt (fun x => enum_text InboundState (kind_prefix (in_debug x))) (ps_inbound s));
   ("outbound", opt (fun x => enum_text OutboundState (kind_prefix (out_debug x))) (ps_outbound s));
   ("attached_for", in_secs (ps_attached_for s)); ("suspect_count", PInt (ps_suspect_count s));
   ("failure_count", PInt (ps_failure_count s));
   ("failure", opt (fun f => PStr (failure_display f)) (ps_failure s));
   ("send_priority", PInt (ps_send_priority s));
   ("send_priority_source", source_text (ps_send_priority_source s)); ("standby", PBool (ps_standby s));
   ("standby_source", source_text (ps_standby_source s)); ("receive_priority", PInt (ps_receive_priority s));
   ("receive_standby", PBool (ps_receive_standby s)); ("request_seq", PInt (ps_request_seq s));
   ("peer_request", opt request_obj (ps_peer_request s)); ("weight", PInt (ps_weight s));
   ("probation_until", opt (fun t => PFloat (monotonic c t)) (ps_probation_until s));
   ("in_probation", PBool (ps_in_probation s)); ("revalidating", PBool (ps_revalidating s));
   ("eligible", PBool (ps_eligible s)); ("writable", PBool (ps_writable s));
   ("saturated", PBool (ps_saturated s));
   ("rtt_source", opt (fun r => enum_text RttSource (to_lowercase (kind_prefix (rtt_debug r)))) (ps_rtt_source s));
   ("smoothed_rtt", opt in_secs (ps_smoothed_rtt s)); ("min_rtt", opt in_secs (ps_min_rtt s));
   ("rttvar", opt in_secs (ps_rttvar s)); ("one_way_delay", opt in_secs (ps_one_way_delay s));
   ("delivery_rate", opt PInt (ps_delivery_rate s)); ("queued_bytes", opt PInt (ps_queued_bytes s));
   ("queue_delay", opt in_secs (ps_queue_delay s)); ("bytes_in_flight", opt PInt (ps_bytes_in_flight s));
   ("bytes_sent", PInt (ps_bytes_sent s)); ("bytes_received", PInt (ps_bytes_received s));
   ("bytes_acked", opt PInt (ps_bytes_acked s)); ("records_sent", PInt (ps_records_sent s));
   ("records_received", PInt (ps_records_received s)); ("bytes_reinjected", PInt (ps_bytes_reinjected s));
   ("bytes_lost", opt PInt (ps_bytes_lost s)); ("records_lost", opt PInt (ps_records_lost s));
   ("bytes_retransmitted", opt PInt (ps_bytes_retransmitted s)); ("loss_rate", opt PFloat (ps_loss_rate s));
   ("bytes_opportunistic", PInt (ps_bytes_opportunistic s)); ("bytes_redundant", PInt (ps_bytes_redundant s));
   ("bytes_duplicate_received", PInt (ps_bytes_duplicate_received s)); ("pings_sent", PInt (ps_pings_sent s));
   ("pings_answered", PInt (ps_pings_answered s)); ("since_last_ack", opt in_secs (ps_since_last_ack s));
   ("since_last_receive", opt in_secs (ps_since_last_receive s));
   ("since_last_traffic", opt in_secs (ps_since_last_traffic s)); ("lanes_out", PInt (ps_lanes_out s));
   ("lanes_in", PInt (ps_lanes_in s)); ("lanes_refused", PInt (ps_lanes_refused s));
   ("lanes", PTuple (lane_obj <$> ps_lanes s))].
Definition stream_attrs (st : StreamStats) : list (string * pobj) := [
   ("bytes_written", PInt (st_bytes_written st)); ("bytes_sent", PInt (st_bytes_sent st));
   ("bytes_acknowledged", PInt (st_bytes_acknowledged st)); ("bytes_received", PInt (st_bytes_received st));
   ("bytes_read", PInt (st_bytes_read st)); ("datagrams_sent", PInt (st_datagrams_sent st));
   ("datagrams_received", PInt (st_datagrams_received st));
   ("datagrams_dropped_recv", PInt (st_datagrams_dropped_recv st));
   ("datagram_bytes_sent", PInt (st_datagram_bytes_sent st));
   ("datagram_bytes_received", PInt (st_datagram_bytes_received st));
   ("send_buffered", PInt (st_send_buffered st)); ("recv_buffered", PInt (st_recv_buffered st));
   ("recv_window", PInt (st_recv_window st)); ("pipe_id", opt PInt (st_pipe_id st))].
Definition listener_attrs (st : ListenerStats) : list (string * pobj) := [
   ("sessions", PInt (ls_sessions st)); ("joins", PInt (ls_joins st));
   ("setup_failures", PInt (ls_setup_failures st)); ("rejected", PInt (ls_rejected st));
   ("refused", PInt (ls_refused st)); ("timed_out", PInt (ls_timed_out st)); ("admission", admission_obj st)].
Definition session_attrs (st : SessionStats) : list (string * pobj) := [
   ("bytes_sent", PInt (ss_bytes_sent st)); ("bytes_received", PInt (ss_bytes_received st));
   ("records_sent", PInt (ss_records_sent st)); ("records_received", PInt (ss_records_received st));
   ("bytes_written", PInt (ss_bytes_written st)); ("bytes_read", PInt (ss_bytes_read st));
   ("datagram_bytes_sent", PInt (ss_datagram_bytes_sent st));
   ("datagram_bytes_received", PInt (ss_datagram_bytes_received st));
   ("streams_opened_local", PInt (ss_streams_opened_local st));
   ("streams_opened_remote", PInt (ss_streams_opened_remote st));
   ("streams_active", PInt (ss_streams_active st)); ("stream_credit_waits", PInt (ss_stream_credit_waits st));
   ("datagrams_sent", PInt (ss_datagrams_sent st)); ("datagrams_received", PInt (ss_datagrams_received st));
   ("datagrams_sent_channel", PInt (ss_datagrams_sent_channel st));
   ("datagrams_received_channel", PInt (ss_datagrams_received_channel st));
   ("datagrams_dropped_send", PInt (ss_datagrams_dropped_send st));
   ("datagrams_dropped_recv", PInt (ss_datagrams_dropped_recv st));
   ("datagrams_dropped_limit", PInt (ss_datagrams_dropped_limit st));
   ("no_effect_budget", PInt (ss_no_effect_budget st)); ("smoothed_rtt", opt in_secs (ss_smoothed_rtt st));
   ("min_rtt", opt in_secs (ss_min_rtt st)); ("latest_rtt", opt in_secs (ss_latest_rtt st));
   ("mean_deviation", opt in_secs (ss_mean_deviation st)); ("bytes_reinjected", PInt (ss_bytes_reinjected st));
   ("bytes_opportunistic", PInt (ss_bytes_opportunistic st)); ("penalties", PInt (ss_penalties st));
   ("reinjections", PInt (ss_reinjections st)); ("bytes_redundant", PInt (ss_bytes_redundant st));
   ("bytes_duplicate_received", PInt (ss_bytes_duplicate_received st));
   ("send_buffered", PInt (ss_send_buffered st)); ("recv_buffered", PInt (ss_recv_buffered st));
   ("retained", PInt (ss_retained st)); ("pipes_active", PInt (ss_pipes_active st));
   ("pipes_added", PInt (ss_pipes_added st)); ("pipe_failures", PInt (ss_pipe_failures st));
   ("join_auth_failures", PInt (ss_join_auth_failures st)); ("join_replays", PInt (ss_join_replays st));
   ("join_refusals", PInt (ss_join_refusals st)); ("suspensions", PInt (ss_suspensions st));
   ("suspended_time", in_secs (ss_suspended_time st)); ("scheduler_answers", PInt (ss_scheduler_answers st));
   ("scheduler_fallbacks", PInt (ss_scheduler_fallbacks st));
   ("carrier", opt (fun k => enum_text CarrierKind (kind_name k)) (ss_carrier st));
   ("carrier_candidates", PTuple (try_obj <$> ss_carrier_candidates st))].

(** *** Proofs *)

(** The converted values of a pipe's snapshot. *)
Lemma lanes_of_ok (l : list (Z * option Z * option Z * option Z)) :
  lanes_of (to_py l) = Ok (PTuple (lane_obj <$> l)) /\
  has_type (TTupleOf (class_type LaneStats)) (PTuple (lane_obj <$> l)) = true.
Proof.
  unfold lanes_of. change (args_of (to_py l)) with (Ok (to_py <$> l)). cbn [mbind PyResult_bind].
  assert (each (fun x => a ← args_of x; construct_pos LaneStats a) (to_py <$> l) = Ok (lane_obj <$> l) /\
    forallb (has_type (class_type LaneStats)) (lane_obj <$> l) = true) as [-> HF]; [|done].
  induction l as [|[[[n a] b] c] l [Hl HF]]; [done|]. split; [|destruct a, b, c; exact HF].
  transitivity (r ← each (fun x => a ← args_of x; construct_pos LaneStats a) (to_py <$> l);
    Ok (lane_obj (n, a, b, c) :: r)); [reflexivity|]. by rewrite Hl.
Qed.

Lemma request_of_ok (r : option (Z * bool)) :
  (if is_pnone (to_py r) then Ok (to_py r) else request_of (to_py r)) = Ok (opt request_obj r) /\
  has_type (TOptional (class_type PipeRequest)) (opt request_obj r) = true.
Proof. by destruct r as [[p b]|]. Qed.

(** One field of a dictionary: read, and its type shown. *)
Ltac fits_field :=
  eexists; split; [reflexivity|];
  first [ reflexivity | apply enum_text_typed | apply enum_opt_typed | assumption | apply typed_ok ].
Ltac norm_dict d :=
  let d' := eval cbv [stats_fields dict_of set_item fold_left app fst snd String.eqb Ascii.eqb Bool.eqb] in d in
  change d with d'.
Ltac fits_all :=
  match goal with |- Forall (fits ?d) _ => norm_dict d end;
  repeat (apply List.Forall_cons; [fits_field|]); apply List.Forall_nil.
(** One attribute of an object whose attributes [Ha] tells from a dictionary. *)
Ltac attr_field Ha :=
  eapply eq_trans; [apply Ha; reflexivity|]; cbn [fst snd]; f_equal;
  first [ reflexivity | match goal with |- _ = opt _ ?o => destruct o; reflexivity end ].
Ltac attrs_all Ha :=
  match type of Ha with forall k v, get_item ?d k = _ -> _ =>
    let d' := eval cbv [stats_fields dict_of set_item fold_left app fst snd String.eqb Ascii.eqb Bool.eqb] in d in
    change d with d' in Ha end;
  repeat (apply List.Forall_cons; [attr_field Ha|]); apply List.Forall_nil.
Ltac alters lem := erewrite alter_item_ok; [| reflexivity | apply lem]; cbn [mbind PyResult_bind].

Lemma pipe_stats_ok c s : exists o, stats_dict c s = Ok o /\ object_of PipeStatsClass (pipe_attrs c s) o.
Proof.
  destruct (lanes_of_ok (ps_lanes s)) as [Hlo Hlt]. destruct (request_of_ok (ps_peer_request s)) as [Hro Hrt].
  unfold stats_dict, py_pipe_stats, alter_some.
  alters enum_of_opt. alters enum_of_opt. alters enum_of_opt. alters enum_of_str. alters enum_of_str.
  alters enum_of_opt. alters Hro. alters Hlo.
  edestruct construct_fits as (o & Ho & Hc & Ha); [| |exists o; split; [exact Ho|]].
  - reflexivity.
  - unfold PipeStatsClass, dc_fields. fits_all.
  - apply conforms_object; [vm_compute; reflexivity..|exact Hc|].
    unfold pipe_attrs. attrs_all Ha.
Qed.

Lemma each_ok {A B} (f : A -> PyResult B) (Q : A -> B -> Prop) l :
  (forall a, exists b, f a = Ok b /\ Q a b) -> exists bs, each f l = Ok bs /\ Forall2 Q l bs.
Proof.
  intros Hf. induction l as [|a l (bs & Hl & HF)]; [by exists []|]. destruct (Hf a) as (b & Hb & HQ).
  exists (b :: bs). split; [cbn [each]; by rewrite Hb, Hl|by constructor].
Qed.

Lemma result_obj_ok r :
  result_obj r = Ok (try_obj r) /\ has_type (class_type CandidateResult) (try_obj r) = true.
Proof.
  split; [reflexivity|]. apply conforms_type. eexists. split; [reflexivity|].
  destruct r as [? ? ? []]; repeat constructor; cbn [snd fd_type req]; first [apply enum_text_typed | done].
Qed.

Lemma results_ok l :
  each result_obj l = Ok (try_obj <$> l) /\ forallb (has_type (class_type CandidateResult)) (try_obj <$> l) = true.
Proof.
  induction l as [|r l [Hl HF]]; [done|]. destruct (result_obj_ok r) as [Ho Ht].
  split; [cbn [each]; by rewrite Ho, Hl|]. cbn [fmap list_fmap forallb]. by rewrite Ht.
Qed.

Lemma listener_stats_ok st :
  exists o, listener_stats st = Ok o /\ object_of ListenerStatsClass (listener_attrs st) o.
Proof.
  unfold listener_stats.
  edestruct (construct_fits AdmissionStats) as (a & Ha & Hc & Hg); [| |rewrite Ha; cbn [mbind PyResult_bind]].
  - reflexivity.
  - unfold AdmissionStats, dc_fields. fits_all.
  - assert (a = admission_obj st) as ->.
    { refine (proj1 (conforms_object AdmissionStats a _ _ _ Hc _)); [vm_compute; reflexivity..|]. attrs_all Hg. }
    apply conforms_type in Hc. clear Ha Hg.
    edestruct (construct_fits ListenerStatsClass) as (o & Ho & Hco & Hg); [| |exists o; split; [exact Ho|]].
    + reflexivity.
    + unfold ListenerStatsClass, dc_fields. fits_all.
    + apply conforms_object; [vm_compute; reflexivity..|exact Hco|]. unfold listener_attrs. attrs_all Hg.
Qed.

Lemma stream_stats_ok st : exists o, stream_stats st = Ok o /\ object_of StreamStatsClass (stream_attrs st) o.
Proof.
  unfold stream_stats.
  edestruct (construct_fits StreamStatsClass) as (o & Ho & Hc & Hg); [| |exists o; split; [exact Ho|]].
  - reflexivity.
  - unfold StreamStatsClass, dc_fields. fits_all.
  - apply conforms_object; [vm_compute; reflexivity..|exact Hc|]. unfold stream_attrs. attrs_all Hg.
Qed.

Lemma post_init_ok c vs kind os :
  get_item vs "carrier" = Some (to_py kind) -> get_item vs "carrier_candidates" = Some (PList os) ->
  post_init (PInst c vs) =
    Ok (PInst c (set_item (set_item vs "carrier" (enum_opt CarrierKind kind)) "carrier_candidates" (PTuple os))).
Proof.
  intros Hc Ho. unfold post_init, alter_some.
  rewrite (alter_item_ok _ _ _ _ (enum_opt CarrierKind kind) Hc) by apply enum_of_opt. cbn [mbind PyResult_bind].
  rewrite (alter_item_ok _ _ _ (PList os) (PTuple os)); [done| |done]. by rewrite get_item_set.
Qed.

Lemma session_class_mem :
  "carrier" ∈ fd_name <$> dc_fields SessionStatsClass /\
  "carrier_candidates" ∈ fd_name <$> dc_fields SessionStatsClass.
Proof. split; apply (bool_decide_unpack _); vm_compute; done. Qed.

Lemma session_stats_ok st :
  exists o, session_stats st = Ok o /\ object_of SessionStatsClass (session_attrs st) o.
Proof.
  destruct (results_ok (ss_carrier_candidates st)) as [Hos Ht]. revert Hos Ht.
  generalize (eq_refl (try_obj <$> ss_carrier_candidates st)).
  generalize (try_obj <$> ss_carrier_candidates st) at 2 3 4. intros os Eos Hos Ht.
  unfold session_stats. rewrite Hos. cbn [mbind PyResult_bind].
  match goal with |- context [set_item ?d0 "carrier_candidates" _] => set (d := d0) end.
  set (d1 := set_item d "carrier_candidates" (PList os)).
  destruct (fill_items (dc_name SessionStatsClass) (dc_fields SessionStatsClass) d1) as (vs & Hvs & Hk & HF).
  { subst d1 d. match goal with |- context [get_item ?e] => norm_dict e end.
    repeat (apply List.Forall_cons; [eexists; reflexivity|]). apply List.Forall_nil. }
  assert (construct SessionStatsClass d1 = Ok (PInst "SessionStats" vs)) as Hc.
  { unfold construct. rewrite Hvs. reflexivity. }
  unfold py_session_stats. rewrite Hc. cbn [mbind PyResult_bind].
  assert (forall k, k ∈ fd_name <$> dc_fields SessionStatsClass -> get_item vs k = get_item d1 k) as Hg.
  { intros k Hin. apply get_item_agree; [done|]. by rewrite Hk. }
  rewrite (post_init_ok "SessionStats" vs (kind_name <$> ss_carrier st) os);
    [|rewrite Hg by apply session_class_mem; reflexivity..].
  eexists. split; [reflexivity|]. destruct session_class_mem as [Hm1 Hm2].
  set (d2 := set_item (set_item d1 "carrier" (enum_opt CarrierKind (kind_name <$> ss_carrier st)))
    "carrier_candidates" (PTuple os)).
  set (vs2 := set_item (set_item vs "carrier" _) "carrier_candidates" _).
  assert (forall k v, k ∈ fd_name <$> dc_fields SessionStatsClass -> get_item d2 k = Some v -> get_item vs2 k = Some v) as Ha.
  { intros k v Hin <-. unfold d2, vs2. rewrite !get_item_set. by rewrite Hg. }
  assert (fst <$> vs2 = fd_name <$> dc_fields SessionStatsClass) as Hk2.
  { rewrite <- Hk in Hm1, Hm2. unfold vs2. rewrite set_item_keys; rewrite set_item_keys; assumption. }
  clearbody vs2. clear Hvs Hk HF Hc Hg Hm1 Hm2 Hos. subst d2 d1 d.
  eapply (object_items SessionStatsClass); [exact Hk2|vm_compute; reflexivity..|exact Ha| |].
  - clear Ha. unfold SessionStatsClass, dc_fields. fits_all.
  - clear Ha. unfold session_attrs. rewrite Eos.
    match goal with |- Forall (fun kv => get_item ?d _ = _) _ =>
      pose proof (fun k v (h : get_item d k = Some v) => h) as Hid end.
    attrs_all Hid.
Qed.

(** C28: every statistics snapshot reaches Python as an instance of its class
    with exactly the declared fields, each of its declared type, and each
    attribute is the value of the native field of its name: counters, flags and
    sizes as they were taken, durations in seconds, the end of a probation on
    Python's clock, states and carriers as members of their enumeration (or as
    their text where it has none), lanes, peer requests, candidate results and
    admission counts as objects of their own.  The snapshots of a session's
    pipes come in the session's order. *)
Theorem stats_well_typed :
  (forall c s, exists o, stats_dict c s = Ok o /\ object_of PipeStatsClass (pipe_attrs c s) o) /\
  (forall c l, exists os, pipe_stats c l = Ok os /\
     Forall2 (fun s o => object_of PipeStatsClass (pipe_attrs c s) o) l os) /\
  (forall st, exists o, stream_stats st = Ok o /\ object_of StreamStatsClass (stream_attrs st) o) /\
  (forall st, exists o, listener_stats st = Ok o /\ object_of ListenerStatsClass (listener_attrs st) o) /\
  (forall st, exists o, session_stats st = Ok o /\ object_of SessionStatsClass (session_attrs st) o).
Proof.
  split_and!; [exact pipe_stats_ok| |exact stream_stats_ok|exact listener_stats_ok|exact session_stats_ok].
  intros c l. apply each_ok. exact (pipe_stats_ok c).
Qed.
End stats.
