(* ===== verification/Session.v ===== *)
(** The session (src/src/lib.rs, [Session], [EventStream], [DatagramStream]):
    each method over the native session, in a monad of the session's state and
    Python errors; and the asynchronous iterators as [async for] runs them. *)
From S2P Require Import Prelude Duration Pyo3 Errors Shaping PyData Events Dial.
Open Scope Z_scope.

(** ** The native session

    What the binding calls on a [zmux::Session] and on the streams it opens;
    each call moves the session to its next state. *)
Class NativeSession (N Send Recv Pre IO Factory Ev : Type) := {
  n_open_bi : option Pre -> N -> N * (Send * Recv + OpenErr);
  n_try_open_bi : option Pre -> N -> N * (Send * Recv + OpenErr);
  n_open_pipe_stream : Pre -> N -> N * (IO + OpenErr);
  n_open_uni : option Pre -> N -> N * (Send + OpenErr);
  n_set_priority : Send -> Z * bool -> N -> N * (unit + StreamErr);
  n_set_peer_priority : Recv -> Z * bool -> N -> N * (unit + StreamErr);
  n_accept_bi : N -> N * (Send * Recv + SessionErr);
  n_accept_uni : N -> N * (Recv + SessionErr);
  n_send_datagram : bytes -> N -> N * (unit + DatagramErr);
  n_read_datagram : N -> N * (bytes + SessionErr);
  n_close : Z -> bytes -> N -> N;
  n_shutdown : Z -> bytes -> N -> N * (unit + SessionErr);
  n_closed : N -> N * SessionErr;
  n_ping : N -> N * (Duration + SessionErr);
  n_next_event : N -> N * option Ev;
  n_set_shaper : option Factory -> N -> N;
  n_set_quality_band : option QualityBand -> N -> N * (unit + PipeErr);
  n_set_capacity_floor : option CapacityFloor -> N -> N * (unit + PipeErr);
  n_revalidate_pipes : N -> N * (unit + PipeErr);
  n_max_datagram_size : N -> option Z;
  n_rtt : N -> option Duration;
  n_role : N -> string;
  n_state : N -> string;
  n_early_data : N -> string;
  n_protocol : N -> option string;
  n_is_plain_qmux_peer : N -> bool;
  n_join_ready : N -> bool;
}.

Section session.
Context `{NativeErr SessionErr, NativeErr StreamErr, NativeErr OpenErr, NativeErr DatagramErr,
  NativeErr PipeErr}.
Context (is_early_data_rejected : SessionErr -> bool).
Context {N Send Recv Pre IO Factory Ev : Type} `{!NativeSession N Send Recv Pre IO Factory Ev}.
Context `{!PreambleOps Pre}.
(** [VarInt::from_u64] and [Priority::new] succeed. *)
Context (varint_ok : Z -> bool) (priority_ok : Z -> bool -> bool).

Abbreviation session_err := (session_err is_early_data_rejected).
Abbreviation stream_err := (stream_err is_early_data_rejected).
Abbreviation open_err := (open_err is_early_data_rejected).
Abbreviation datagram_err := (datagram_err is_early_data_rejected).
Abbreviation pipe_err := (pipe_err is_early_data_rejected).

(** [CloseInfo] of _types.py. *)
Definition CloseInfo : dataclass := mk_dataclass "CloseInfo"
  [req "code" (TOptional TInt); req "reason" (TOptional TBytes); req "remote" (TOptional TBool);
   req "error" TExc].

(** *** State and errors *)
Definition SM (A : Type) : Type := N -> N * PyResult A.
Definition ret {A} (a : A) : SM A := fun n => (n, Ok a).
Definition lift {A} (r : PyResult A) : SM A := fun n => (n, r).
Definition bind {A B} (m : SM A) (f : A -> SM B) : SM B := fun n =>
  match m n with (n, Ok a) => f a n | (n, Err e) => (n, Err e) end.
(** A native call, its error converted ([map_err]). *)
Definition native {A E} (f : N -> N * (A + E)) (err : E -> pyerr) : SM A := fun n =>
  match f n with (n, inl a) => (n, Ok a) | (n, inr e) => (n, Err (err e)) end.

Declare Scope s_scope.
Notation "x <- m ;; k" := (bind m (fun x => k)) (at level 100, m at next level, right associativity) : s_scope.
Notation "m ;;; k" := (bind m (fun _ => k)) (at level 100, right associativity) : s_scope.
Open Scope s_scope.

Definition varint (v : Z) : PyResult Z :=
  if varint_ok v then Ok v else Err (new_err PyValueError [Lit "code exceeds 2**62-1"]).

(** *** Streams

    [bi]: the two parts of a stream as Python objects; making one may fail in
    the interpreter ([into_py_any]). *)
Context {SendObj RecvObj : Type} (new_send : Send -> PyResult SendObj) (new_recv : Recv -> PyResult RecvObj).
Definition bi (pair : Send * Recv) : PyResult (SendObj * RecvObj) :=
  s ← new_send pair.1; r ← new_recv pair.2; Ok (s, r).

(** [Prios::apply]: the parts opened are dropped when it fails. *)
Definition prios_apply (ps : option (Z * bool) * option (Z * bool)) (pair : Send * Recv) : SM unit :=
  (match ps.1 with Some p => native (n_set_priority pair.1 p) stream_err | None => ret tt end) ;;;
  (match ps.2 with Some p => native (n_set_peer_priority pair.2 p) stream_err | None => ret tt end).

Definition open_bi (info : option bytes) (tlvs : option (list (Z * bytes))) (pipe_carrier : bool)
    (local peer : option (Z * bool)) : SM (SendObj * RecvObj) :=
  let p := preamble info tlvs pipe_carrier in
  ps <- lift (prios_new priority_ok local peer) ;;
  pair <- native (n_open_bi p) open_err ;;
  prios_apply ps pair ;;;
  lift (bi pair).

Definition try_open_bi (info : option bytes) (tlvs : option (list (Z * bytes))) (pipe_carrier : bool)
    (local peer : option (Z * bool)) : SM (SendObj * RecvObj) :=
  ps <- lift (prios_new priority_ok local peer) ;;
  pair <- native (n_try_open_bi (preamble info tlvs pipe_carrier)) open_err ;;
  prios_apply ps pair ;;;
  lift (bi pair).

Definition open_pipe_stream (tlvs : option (list (Z * bytes))) : SM IO :=
  let p := default preamble_new (preamble None tlvs false) in
  native (n_open_pipe_stream p) open_err.

Definition open_uni (info : option bytes) (tlvs : option (list (Z * bytes))) (prio : option (Z * bool)) : SM Send :=
  let p := preamble info tlvs false in
  prio <- lift (map_transpose (Dial.prio priority_ok) prio) ;;
  send <- native (n_open_uni p) open_err ;;
  (match prio with Some pr => native (n_set_priority send pr) stream_err | None => ret tt end) ;;;
  ret send.

Definition accept_bi : SM (SendObj * RecvObj) := pair <- native n_accept_bi session_err ;; lift (bi pair).
Definition accept_uni : SM Recv := native n_accept_uni session_err.

(** *** Datagrams, events and the end *)
Definition send_datagram (data : bytes) : SM unit := native (n_send_datagram data) datagram_err.
Definition read_datagram : SM bytes := native n_read_datagram session_err.

Definition close (code : Z) (reason : bytes) : SM unit :=
  code <- lift (varint code) ;; fun n => (n_close code reason n, Ok tt).
Definition shutdown (code : Z) (reason : bytes) : SM unit :=
  code <- lift (varint code) ;; native (n_shutdown code reason) session_err.
Definition ping : SM f64 := d <- native n_ping session_err ;; ret (as_secs_f64 d).
Definition revalidate_pipes : SM unit := native n_revalidate_pipes pipe_err.

(** The attributes [session_err] sets, read back from the exception. *)
Definition attr_missing (k : string) : pyerr := new_err PyAttributeError [Disp k].
Definition get_code (e : pyerr) : PyResult pobj :=
  match e_code e with Some (Some c) => Ok (PInt c) | Some None => Ok PNone | None => Err (attr_missing "code") end.
Definition get_reason (e : pyerr) : PyResult pobj :=
  match e_reason e with Some (Some r) => Ok (PBytes r) | Some None => Ok PNone | None => Err (attr_missing "reason") end.
Definition get_remote (e : pyerr) : PyResult pobj :=
  match e_remote e with Some (Some b) => Ok (PBool b) | Some None => Ok PNone | None => Err (attr_missing "remote") end.

(** [CloseInfo(code, reason, remote, error)]. *)
Definition close_info (e : pyerr) : PyResult pobj :=
  c ← get_code e; r ← get_reason e; m ← get_remote e;
  construct_pos CloseInfo [c; r; m; PExc e].

Definition wait_closed : SM pobj := fun n => let '(n, e) := n_closed n in (n, close_info (session_err e)).

(** *** Settings *)
Section settings.
Context {P : Py} (extract_rate : obj -> PyResult Z).
Definition set_quality_band (band : option obj) : SM unit :=
  b <- lift (map_transpose quality_band band) ;; native (n_set_quality_band b) pipe_err.
Definition set_capacity_floor (floor : option obj) : SM unit :=
  f <- lift (map_transpose (capacity_floor extract_rate) floor) ;; native (n_set_capacity_floor f) pipe_err.

(** The shaping crate's definitions, and [shaping::by_kind]; the factories the
    session takes. *)
Context {MachineFactory : Type}.
Context (from_json from_sequence : string -> Options -> MachineFactory + string).
Context (by_kind : obj -> Options -> PyResult Factory) (machine : MachineFactory -> Factory).

Definition at_most_one : pyerr := new_err PyValueError [Lit "at most one of json, sequence and by_kind"].

Definition set_shaper (json sequence : option string) (by_kind_map limits : option obj) (seed : option bytes) : SM unit :=
  o <- lift (options limits seed) ;;
  let set f : SM unit := fun n => (n_set_shaper f n, Ok tt) in
  let machine_of (r : MachineFactory + string) : SM unit :=
    match r with
    | inl f => set (Some (machine f))
    | inr e => lift (Err (new_err PyValueError [Disp e]))
    end in
  match json, sequence, by_kind_map with
  | Some j, None, None => machine_of (from_json j o)
  | None, Some q, None => machine_of (from_sequence q o)
  | None, None, Some m => f <- lift (by_kind m o) ;; set (Some f)
  | None, None, None => set None
  | _, _, _ => lift (Err at_most_one)
  end.
End settings.

(** *** Getters *)
Definition max_datagram_size (n : N) : pobj := to_py (n_max_datagram_size n).
Definition rtt (n : N) : pobj := to_py (dur (n_rtt n)).
Definition protocol (n : N) : pobj := to_py (n_protocol n).
Definition is_plain_qmux_peer (n : N) : pobj := to_py (n_is_plain_qmux_peer n).
Definition join_ready (n : N) : pobj := to_py (n_join_ready n).
Definition Role : enum := mk_enum "Role" ["initiator"; "responder"].
Definition SessionState : enum :=
  mk_enum "SessionState" ["Establishing"; "Active"; "Draining"; "Suspended"; "Closing"; "Closed"].
Definition EarlyDataState : enum :=
  mk_enum "EarlyDataState" ["NotSent"; "Pending"; "Accepted"; "Rejected"].
(** [typed(py, cls, value)]: [cls._of(value)]. *)
Definition role (n : N) : pobj := enum_text Role (to_lowercase (n_role n)).
Definition state (n : N) : pobj := enum_text SessionState (kind_prefix (n_state n)).
Definition early_data (n : N) : pobj := enum_text EarlyDataState (kind_prefix (n_early_data n)).

(** *** Context manager and iterators *)
Definition aexit : SM bool := fun n => (n_close 0 [] n, Ok false).

Definition stop_iteration : pyerr := new_err PyStopAsyncIteration [].

(** [Session.__anext__] (the bidirectional streams the peer opens),
    [DatagramStream.__anext__], [EventStream.__anext__]; [next_event]. *)
Definition anext : SM (SendObj * RecvObj) := fun n =>
  match n_accept_bi n with (n, inl sr) => (n, bi sr) | (n, inr _) => (n, Err stop_iteration) end.
Definition datagram_anext : SM bytes := fun n =>
  match n_read_datagram n with (n, inl b) => (n, Ok b) | (n, inr _) => (n, Err stop_iteration) end.
Context (event_obj : Ev -> PyResult pobj).
Definition event_anext : SM pobj := fun n =>
  match n_next_event n with (n, Some e) => (n, event_obj e) | (n, None) => (n, Err stop_iteration) end.
Definition next_event : SM (option pobj) := fun n =>
  match n_next_event n with (n, Some e) => (n, Some <$> event_obj e) | (n, None) => (n, Ok None) end.

(** *** [async for]

    An await runs to its end, or is cancelled; the item of a cancelled one, if
    the session had given it by then ([taken]), is dropped with the future. *)
Inductive outcome := Runs | Cancelled (taken : bool).
Definition cancelled_err : pyerr := new_err PyCancelledError [].
Definition awaited {A} (an : SM A) (o : outcome) : SM A := fun n =>
  match o with
  | Runs => an n
  | Cancelled taken => ((if taken then (an n).1 else n), Err cancelled_err)
  end.

(** The loop takes items until [StopAsyncIteration]; any other exception leaves
    it.  [None]: it still runs after the awaits of [os]. *)
Fixpoint async_for {A} (an : SM A) (os : list outcome) (n : N) : option (N * list A * option pyerr) :=
  match os with
  | [] => None
  | o :: os =>
      match awaited an o n with
      | (n, Ok a) => (fun r => (r.1.1, a :: r.1.2, r.2)) <$> async_for an os n
      | (n, Err e) => Some (n, [], if decide (e_class e = PyStopAsyncIteration) then None else Some e)
      end
  end.

(** [ZeroRtt]: what became of a session's 0-RTT data, of a session that
    [QuicClient.connect] made ([None] for every other). *)
Record ZeroRtt := mk_zero_rtt { z_sent : bool; z_accepted : option bool; z_rewritten : bool }.
Definition zero_rtt (z : option ZeroRtt) : option (pobj * pobj * pobj) :=
  (fun z => (to_py (z_sent z), to_py (z_accepted z), to_py (z_rewritten z))) <$> z.

(** *** Properties *)

(** Waiting for the end of a session always gives a [CloseInfo], whatever
    ended it: well typed, with the code and reason of an application or
    transport close, who ended it where that is known, and as [error] the
    exception every other call on the session raises for that end. *)
Theorem wait_closed_info n :
  let '(n', e) := n_closed n in
  exists c r m, let o := PInst "CloseInfo" [("code", c); ("reason", r); ("remote", m); ("error", PExc (session_err e))] in
    wait_closed n = (n', Ok o) /\ conforms CloseInfo o /\
    match e with
    | ApplicationClosed code reason remote | TransportClosed code reason remote =>
        c = PInt code /\ r = PBytes reason /\ m = PBool remote
    | IdleTimeout remote => c = PNone /\ r = PNone /\ m = PBool remote
    | OtherSession _ => c = PNone /\ r = PNone /\ m = PNone
    end /\
    stream_err (SSessionLost e) = session_err e /\ open_err (OSessionLost e) = session_err e /\
    datagram_err (DSessionLost e) = session_err e /\ pipe_err (PSessionLost e) = session_err e.
Proof.
  unfold wait_closed. destruct (n_closed n) as [n' e].
  assert (exists c r m, close_info (session_err e) =
      Ok (PInst "CloseInfo" [("code", c); ("reason", r); ("remote", m); ("error", PExc (session_err e))]) /\
      has_type (TOptional TInt) c = true /\ has_type (TOptional TBytes) r = true /\
      has_type (TOptional TBool) m = true /\
      match e with
      | ApplicationClosed code reason remote | TransportClosed code reason remote =>
          c = PInt code /\ r = PBytes reason /\ m = PBool remote
      | IdleTimeout remote => c = PNone /\ r = PNone /\ m = PBool remote
      | OtherSession _ => c = PNone /\ r = PNone /\ m = PNone
      end) as (c & r & m & -> & Hc & Hr & Hm & He).
  { unfold close_info, session_err, get_code, get_reason, get_remote.
    destruct e; destruct (is_early_data_rejected _); do 3 eexists; repeat split; reflexivity. }
  exists c, r, m. split_and!; try done.
  eexists. split; [reflexivity|]. by repeat constructor.
Qed.

(** [set_shaper] either sets the one shaper it was given, or leaves the
    session's shaper as it is and raises: no error (bad limits, a definition
    that does not parse, two definitions at once) clears or replaces it; without
    a definition it turns shaping off. *)
Theorem shaper_set_or_kept {P : Py} {MachineFactory : Type} from_json from_sequence by_kind
    (machine : MachineFactory -> Factory) json sequence by_kind_map limits seed n :
  match set_shaper from_json from_sequence by_kind machine json sequence by_kind_map limits seed n with
  | (n', Err e) => n' = n
  | (n', Ok _) =>
      exists o f, options limits seed = Ok o /\ n' = n_set_shaper f n /\
        match json, sequence, by_kind_map with
        | Some j, None, None => exists m, from_json j o = inl m /\ f = Some (machine m)
        | None, Some q, None => exists m, from_sequence q o = inl m /\ f = Some (machine m)
        | None, None, Some b => exists g, by_kind b o = Ok g /\ f = Some g
        | None, None, None => f = None
        | _, _, _ => False
        end
  end.
Proof.
  unfold set_shaper, bind, lift. destruct (options limits seed) as [o|]; [|done].
  destruct json as [j|], sequence as [q|], by_kind_map as [b|]; try done.
  - destruct (from_json j o) eqn:?; [|done]. by eauto 10.
  - destruct (from_sequence q o) eqn:?; [|done]. by eauto 10.
  - destruct (by_kind b o) eqn:?; [|done]. by eauto 10.
  - by exists o, None.
Qed.

(** Two definitions at once are refused. *)
Lemma shaper_two_refused {P : Py} {MachineFactory : Type} from_json from_sequence by_kind
    (machine : MachineFactory -> Factory) j q by_kind_map limits seed n :
  is_ok (set_shaper from_json from_sequence by_kind machine (Some j) (Some q) by_kind_map limits seed n).2 = false.
Proof. unfold set_shaper, bind, lift. by destruct (options limits seed). Qed.

(** *** Iteration

    A source delivers [l] and then ends. *)
Inductive delivers {A E} (next : N -> N * (A + E)) : N -> list A -> N -> Prop :=
  | delivers_end n n' e : next n = (n', inr e) -> delivers next n [] n'
  | delivers_item n n1 n' a l : next n = (n1, inl a) -> delivers next n1 l n' -> delivers next n (a :: l) n'.

(** The events of a session, as such a source. *)
Definition event_source (n : N) : N * (Ev + unit) :=
  match n_next_event n with (n, Some e) => (n, inl e) | (n, None) => (n, inr tt) end.

(** An iterator over a source, its items converted. *)
Definition iterates {A E B} (next : N -> N * (A + E)) (conv : A -> PyResult B) (an : SM B) : Prop :=
  forall n, an n = match next n with (n, inl a) => (n, conv a) | (n, inr _) => (n, Err stop_iteration) end.

(** What a loop over a source does: the items of the source, converted, in
    order, up to the first that does not convert or the first cancelled await.
    A failed conversion raises its own exception and loses that item, a
    cancelled await loses at most one; what is left is still in the session. *)
Definition loop_spec {A E B} (next : N -> N * (A + E)) (conv : A -> PyResult B) (l : list A) (n' : N)
    (os : list outcome) (r : option (N * list B * option pyerr)) : Prop :=
  match r with
  | None => (length os <= length l)%nat
  | Some (m, got, x) =>
      exists l1 l2, l = l1 ++ l2 /\ Forall2 (fun a b => conv a = Ok b) l1 got /\
        match x with
        | None => l2 = [] /\ m = n'
        | Some e => exists lost rest, l2 = lost ++ rest /\ (length lost <= 1)%nat /\
            (delivers next m rest n' \/ rest = [] /\ m = n') /\
            (e = cancelled_err /\ (exists t, Cancelled t ∈ os) \/ exists a, lost = [a] /\ conv a = Err e)
        end
  end.

Lemma async_for_spec {A E B} (next : N -> N * (A + E)) (conv : A -> PyResult B) an n l n' os :
  iterates next conv an -> (forall a e, conv a = Err e -> e_class e <> PyStopAsyncIteration) ->
  delivers next n l n' -> loop_spec next conv l n' os (async_for an os n).
Proof.
  intros Hit Hs Hd. revert os. induction Hd as [n n' e Hn|n n1 n' a l Hn Hd IH]; intros [|[|[]] os]; simpl; try lia;
    unfold awaited; rewrite ?(Hit n), ?Hn; simpl.
  - by exists [], [].
  - exists [], []. split_and!; [done..|]. exists [], []. split_and!; [done|simpl; lia|by right|].
    left. split; [done|]. eexists. by left.
  - exists [], []. split_and!; [done..|]. exists [], []. split_and!; [done|simpl; lia|left; by econstructor|].
    left. split; [done|]. eexists. by left.
  - destruct (conv a) as [b|x] eqn:Ec.
    + specialize (IH os). destruct (async_for an os n1) as [[[m got] x]|]; simpl in *; [|lia].
      destruct IH as (l1 & l2 & -> & HF & Hx). exists (a :: l1), l2. split_and!; [done|by constructor|].
      destruct x as [e|]; [|done]. destruct Hx as (lost & rest & -> & ? & ? & Hw). exists lost, rest. split_and!; [done..|].
      destruct Hw as [[-> [t Ht]]|?]; [left; split; [done|]; exists t; by right|by right].
    + rewrite decide_False by by eapply Hs. exists [], (a :: l). split_and!; [done..|].
      exists [a], l. split_and!; [done|simpl; lia|by left|]. right. eauto.
  - exists [], (a :: l). split_and!; [done..|]. exists [a], l. split_and!; [done|simpl; lia|by left|].
    left. split; [done|]. eexists. by left.
  - exists [], (a :: l). split_and!; [done..|]. exists [], (a :: l). split_and!; [done|simpl; lia|left; by econstructor|].
    left. split; [done|]. eexists. by left.
Qed.

(** So a loop no one cancels, over items that all convert, gives them all and
    ends. *)
Lemma loop_completes {A E B} (next : N -> N * (A + E)) (conv : A -> PyResult B) l n' k r :
  loop_spec next conv l n' (replicate k Runs) r -> (forall a, a ∈ l -> is_ok (conv a) = true) -> (length l < k)%nat ->
  exists got, Forall2 (fun a b => conv a = Ok b) l got /\ r = Some (n', got, None).
Proof.
  unfold loop_spec. rewrite length_replicate. intros Hr Hc Hk. destruct r as [[[m got] x]|]; [|lia].
  destruct Hr as (l1 & l2 & -> & HF & Hx). destruct x as [e|].
  - destruct Hx as (lost & rest & -> & _ & _ & [[_ [t [? ?]%elem_of_replicate]]|(a & -> & Ha)]); [done|].
    specialize (Hc a). rewrite Ha in Hc. discriminate Hc. rewrite !elem_of_app. right. left. by left.
  - destruct Hx as [-> ->]. exists got. by rewrite app_nil_r.
Qed.

(** C29: iterating a session with [async for] gives the bidirectional streams
    the peer opened, the datagrams received, or the session's events, each once,
    in order and as its Python object, and ends without an exception when the
    session ends, however it ended.  Only a cancelled await or an object Python
    could not make (the conversion's exception, which does not claim to end the
    iteration) leaves the loop sooner; then what it gave is what came first, at
    most one item is lost, and the rest is left in the session.  A loop whose
    awaits all run, over items that all convert, gives every item and ends with
    one await more than there are items. *)
Theorem iteration_complete n n' os :
  (forall p e, bi p = Err e -> e_class e <> PyStopAsyncIteration) ->
  (forall ev e, event_obj ev = Err e -> e_class e <> PyStopAsyncIteration) ->
  (forall l, delivers n_accept_bi n l n' ->
     loop_spec n_accept_bi bi l n' os (async_for anext os n) /\
     forall k, (length l < k)%nat -> (forall p, p ∈ l -> is_ok (bi p) = true) ->
       exists got, Forall2 (fun p b => bi p = Ok b) l got /\ async_for anext (replicate k Runs) n = Some (n', got, None)) /\
  (forall l, delivers n_read_datagram n l n' ->
     loop_spec n_read_datagram Ok l n' os (async_for datagram_anext os n) /\
     forall k, (length l < k)%nat -> async_for datagram_anext (replicate k Runs) n = Some (n', l, None)) /\
  (forall l, delivers event_source n l n' ->
     loop_spec event_source event_obj l n' os (async_for event_anext os n) /\
     forall k, (length l < k)%nat -> (forall ev, ev ∈ l -> is_ok (event_obj ev) = true) ->
       exists got, Forall2 (fun ev o => event_obj ev = Ok o) l got /\
         async_for event_anext (replicate k Runs) n = Some (n', got, None)).
Proof.
  intros Hb He.
  assert (iterates n_accept_bi bi anext) as I1 by (intros m; unfold anext; by destruct (n_accept_bi m) as [? [?|?]]).
  assert (iterates n_read_datagram Ok datagram_anext) as I2
    by (intros m; unfold datagram_anext; by destruct (n_read_datagram m) as [? [?|?]]).
  assert (iterates event_source event_obj event_anext) as I3
    by (intros m; unfold event_anext, event_source; by destruct (n_next_event m) as [? [?|]]).
  split_and!; intros l Hd; (split; [by apply async_for_spec|]); intros k Hk.
  - intros Hc. eapply loop_completes; [by apply async_for_spec|done..].
  - destruct (loop_completes n_read_datagram Ok l n' k (async_for datagram_anext (replicate k Runs) n)) as (got & HF & ->);
      [by apply async_for_spec|done..|]. replace got with l; [done|]. clear -HF. induction HF; congruence.
  - intros Hc. eapply loop_completes; [by apply async_for_spec|done..].
Qed.

(** A call refused for its arguments never reaches the session: an urgency
    or a code out of range, a band or a floor that does not convert raises and
    leaves the session, and its stream credit, as they were. *)
Theorem refused_calls_untouched {P : Py} extract_rate n :
  (forall info tlvs c l p e, prios_new priority_ok l p = Err e ->
     open_bi info tlvs c l p n = (n, Err e) /\ try_open_bi info tlvs c l p n = (n, Err e)) /\
  (forall info tlvs u i, priority_ok u i = false ->
     exists e, open_uni info tlvs (Some (u, i)) n = (n, Err e) /\ e_class e = PyValueError) /\
  (forall code reason, varint_ok code = false ->
     exists e, close code reason n = (n, Err e) /\ shutdown code reason n = (n, Err e) /\ e_class e = PyValueError) /\
  (forall b e, quality_band b = Err e -> set_quality_band (Some b) n = (n, Err e)) /\
  (forall f e, capacity_floor extract_rate f = Err e -> set_capacity_floor extract_rate (Some f) n = (n, Err e)).
Proof.
  split_and!.
  - intros info tlvs c l p e He. unfold open_bi, try_open_bi, bind, lift. by rewrite He.
  - intros info tlvs u i Hp. unfold open_uni, bind, lift, map_transpose, Dial.prio. simpl. rewrite Hp. by eexists.
  - intros code reason Hc. unfold close, shutdown, bind, lift, varint. rewrite Hc. by eexists.
  - intros b e He. unfold set_quality_band, bind, lift. simpl. by rewrite He.
  - intros f e He. unfold set_capacity_floor, bind, lift. simpl. by rewrite He.
Qed.
End session.

(** ** An instance: a session that has streams, datagrams and events left to
    give, then ends *)
Module SessionExample.
Record toy := mk_toy {
  streams : list nat; datagrams : list bytes; events : list Z; shaper : option nat; over : SessionErr;
}.
Definition pop {A E} (l : list A) (e : E) (rest : list A -> toy) (t : toy) : toy * (A + E) :=
  match l with a :: l => (rest l, inl a) | [] => (t, inr e) end.
#[global] Instance toy_session : NativeSession toy nat nat (PreambleParts.parts) nat nat Z := {
  n_open_bi p t := (t, inl (0, 0)%nat);
  n_try_open_bi p t := (t, inl (0, 0)%nat);
  n_open_pipe_stream p t := (t, inl 0%nat);
  n_open_uni p t := (t, inl 0%nat);
  n_set_priority s p t := (t, inl tt);
  n_set_peer_priority r p t := (t, inl tt);
  n_accept_bi t :=
    let '(t, r) := pop (streams t) (over t)
      (fun l => mk_toy l (datagrams t) (events t) (shaper t) (over t)) t in
    (t, match r with inl s => inl (s, s) | inr e => inr e end);
  n_accept_uni t := (t, inr (over t));
  n_send_datagram d t := (mk_toy (streams t) (datagrams t ++ [d]) (events t) (shaper t) (over t), inl tt);
  n_read_datagram t :=
    pop (datagrams t) (over t) (fun l => mk_toy (streams t) l (events t) (shaper t) (over t)) t;
  n_close c r t := mk_toy [] [] [] (shaper t) (ApplicationClosed c r false);
  n_shutdown c r t := (mk_toy [] [] [] (shaper t) (ApplicationClosed c r false), inl tt);
  n_closed t := (t, over t);
  n_ping t := (t, inl duration_zero);
  n_next_event t :=
    match events t with
    | e :: l => (mk_toy (streams t) (datagrams t) l (shaper t) (over t), Some e)
    | [] => (t, None)
    end;
  n_set_shaper f t := mk_toy (streams t) (datagrams t) (events t) f (over t);
  n_set_quality_band b t := (t, inl tt);
  n_set_capacity_floor f t := (t, inl tt);
  n_revalidate_pipes t := (t, inl tt);
  n_max_datagram_size t := Some 1200;
  n_rtt t := None;
  n_role t := "Initiator";
  n_state t := "Active";
  n_early_data t := "NotSent";
  n_protocol t := None;
  n_is_plain_qmux_peer t := false;
  n_join_ready t := true;
}.
Definition two_left : toy := mk_toy [3; 5]%nat [] [7] None (IdleTimeout true).
Definition none_left : toy := mk_toy [] [] [7] None (IdleTimeout true).
End SessionExample.

Lemma iteration_complete_witness :
  exists got, Forall2 (fun p b => bi (fun s => Ok s) (fun r => Ok r) p = Ok b) [(3, 3); (5, 5)]%nat got /\
    async_for (anext (fun s : nat => Ok s) (fun r : nat => Ok r)) (replicate 3 Runs) SessionExample.two_left =
      Some (SessionExample.none_left, got, None).
Proof.
  refine (proj2 (proj1 (iteration_complete (Ev:=Z) (fun s : nat => Ok s) (fun r : nat => Ok r) (fun e => Ok (PInt e))
    SessionExample.two_left SessionExample.none_left [] _ _) [(3, 3); (5, 5)]%nat _) 3%nat _ _).
  - intros [? ?] ? [=].
  - intros ? ? [=].
  - eapply delivers_item; [reflexivity|]. eapply delivers_item; [reflexivity|].
    eapply delivers_end. reflexivity.
  - simpl. lia.
  - intros [? ?] _. reflexivity.
Defined.
