(* ===== verification/Pipes.v ===== *)
(** Pipes (src/src/lib.rs): the far end of an in-memory pipe ([PipeEnd]) and
    the methods of [Pipe]. *)
From S2P Require Import Prelude Duration Pyo3 Errors PipeOptions PyData Events Stats Dial Streams.
Open Scope Z_scope.

(** ** [PipeEnd]

    The halves of tokio's duplex stream, each behind its mutex: a read gives at
    most [n] bytes, none at the end ([read_half]); a write gives all of its
    bytes to the session unless the session's side is gone. *)
Section pipe_end.
Context {R W : Type} (read_half : nat -> R -> R * (bytes + string)).
Context (write_all : bytes -> W -> W * (unit + string)) (shutdown_half : W -> W * (unit + string)).

(** [unwrap_or(0)]: an error reads as the end. *)
Definition end_read (n : nat) : Part.call (T:=R) (A:=bytes) :=
  Part.mk_call
    (fun r =>
       let '(r, x) := read_half n r in
       (Some r, Ok (match x with inl b => b | inr _ => [] end)))
    (Ok []).

Definition end_write (data : bytes) : Part.call (T:=W) (A:=unit) :=
  Part.mk_call
    (fun w =>
       let '(w, x) := match data with [] => shutdown_half w | _ => write_all data w end in
       (Some w, match x with inl _ => Ok tt | inr e => Err (new_err PyRuntimeError [Disp e]) end))
    (Ok tt).

(** Neither call ever takes its half out, so that the far end can be read and
    written as long as it is there; a read never raises; and empty data is the
    end of input, never a write. *)
Lemma pipe_end_calls n data r w :
  is_Some (Part.c_run (end_read n) r).1 /\ is_ok (Part.c_run (end_read n) r).2 = true /\
  is_Some (Part.c_run (end_write data) w).1 /\
  (data = [] -> (Part.c_run (end_write data) w).1 = Some (shutdown_half w).1).
Proof.
  simpl. destruct (read_half n r) as [r' x]. simpl. split_and!; [by eexists|done| |].
  - destruct data; [destruct (shutdown_half w)|destruct (write_all _ w)]; by eexists.
  - intros ->. by destruct (shutdown_half w).
Qed.
End pipe_end.

(** ** [Pipe] *)

(** What the binding calls on a [zmux::Pipe]. *)
Class NativePipe (N : Type) := {
  p_update : PipeUpdate -> N -> N * (unit + PipeErr);
  p_close : N -> N * (unit + PipeErr);
  p_abort : N -> N * (unit + PipeErr);
  p_joined : N -> N * (unit + PipeErr);
  p_closed : N -> N * (unit + PipeErr);
  p_set_quality_band : option QualityBand -> N -> N * (unit + PipeErr);
  p_options : N -> option PipeOptions;
}.

Section pipe.
Context `{NativeErr SessionErr, NativeErr PipeErr} (is_early_data_rejected : SessionErr -> bool).
Context {P : Py} {N : Type} `{!NativePipe N}.
Abbreviation pipe_err := (pipe_err is_early_data_rejected).

Definition native {A} (r : N * (A + PipeErr)) : N * PyResult A :=
  match r with (n, inl a) => (n, Ok a) | (n, inr e) => (n, Err (pipe_err e)) end.

(** [update], [close], [abort], [joined], [closed], [set_quality_band]. *)
Definition update (kw : option (list (string * obj))) (n : N) : N * PyResult unit :=
  match pipe_update kw with
  | Err e => (n, Err e)
  | Ok u => native (p_update u n)
  end.
Definition close (n : N) : N * PyResult unit := native (p_close n).
Definition abort (n : N) : N * PyResult unit := native (p_abort n).
Definition joined (n : N) : N * PyResult unit := native (p_joined n).
Definition closed (n : N) : N * PyResult unit := native (p_closed n).
Definition set_quality_band (band : option obj) (n : N) : N * PyResult unit :=
  match map_transpose quality_band band with
  | Err e => (n, Err e)
  | Ok b => native (p_set_quality_band b n)
  end.

(** [__aexit__]: closes, or aborts on an exception ([exc]); what that returns is
    ignored. *)
Definition aexit (exc : bool) (n : N) : N * PyResult bool :=
  ((if exc then (p_abort n).1 else (p_close n).1), Ok false).

(** [state]: the outbound direction's, else the inbound one's, by the names the
    statistics give. *)
Definition pipe_state (outbound inbound : option string) : option pobj :=
  match outbound, inbound with
  | Some o, _ => Some (enum_text OutboundState o)
  | None, Some i => Some (enum_text InboundState i)
  | None, None => None
  end.

(** A live pipe is changed all at once or not at all: an update with a
    keyword that is unknown, fixed, [None] where it may not be, or of a value
    that does not convert raises and never reaches the pipe, whatever the other
    keywords; otherwise the pipe gets one update holding every keyword given.
    Leaving a pipe's [async with] block closes it, or aborts it on an exception,
    and never raises an error of its own. *)
Theorem pipe_update_atomic kw n :
  match update (Some kw) n with
  | (n', r) =>
      (exists e, pipe_update (Some kw) = Err e /\ n' = n /\ r = Err e) \/
      (exists u, pipe_update (Some kw) = Ok u /\ (n', r) = native (p_update u n) /\
         forall k v, In (k, v) kw -> is_ok (parse_update k v) = true)
  end /\
  (forall exc, (aexit exc n).2 = Ok false /\
     (aexit exc n).1 = if exc then (p_abort n).1 else (p_close n).1).
Proof.
  split; [|by intros []]. unfold update. simpl. destruct (update_loop update_default kw) as [u|e] eqn:E; simpl.
  - destruct (native (p_update u n)) as [n' r] eqn:En. right. exists u. split_and!; [done..|].
    clear En. revert E. generalize update_default. induction kw as [|[k v] kw IH]; intros u0 E k' v' Hin; [done|].
    simpl in E. apply bind_ok_inv in E as (u1 & E1 & E2).
    destruct Hin as [[= -> ->]|Hin]; [|by eapply IH].
    pose proof (update_field_spec u0 k' v') as Hs. rewrite E1 in Hs. by destruct (parse_update k' v').
  - left. by exists e.
Qed.
End pipe.
