(* ===== verification/ModuleInit.v ===== *)
(** The module (src/src/lib.rs, [_zmux] and [defaults]; [register] of rt.rs,
    helpers.rs, admission.rs, layer.rs, pool.rs and mode.rs): what importing
    [zmux._zmux] defines, and the exit hook it installs. *)
From S2P Require Import Prelude.

(** The module under construction: its attributes in the order they are added,
    the functions registered with [atexit], and whether the runtime's builder is
    set. *)
Inductive item := Class_ | Function_ | Value_.
Record module := mk_module { attrs : list (string * item); atexit : list string; runtime : bool }.

(** The steps of the initialisation; [seq_init] runs registrations in turn. *)
Inductive step := Builder | Add (i : item) (n : string) | AtExit (n : string).
Definition init := list step.
Definition add_class (n : string) : init := [Add Class_ n].
Definition add_function (n : string) : init := [Add Function_ n].
Definition add_value (n : string) : init := [Add Value_ n].
Definition seq_init (l : list init) : init := concat l.

(** A step on the module: the interpreter may refuse it ([?] of every [m.add]
    and of [atexit.register]).  The hook is looked up in the module, and then
    given to [atexit]. *)
Definition act (refuses : step -> option pyerr) (a : step) (m : module) : PyResult module :=
  match refuses a with
  | Some e => Err e
  | None =>
      match a with
      | Builder => Ok (mk_module (attrs m) (atexit m) true)
      | Add i n => Ok (mk_module (attrs m ++ [(n, i)]) (atexit m) (runtime m))
      | AtExit n =>
          if existsb (fun a => String.eqb a.1 n) (attrs m) then Ok (mk_module (attrs m) (n :: atexit m) (runtime m))
          else Err (new_err PyAttributeError [Disp n])
      end
  end.
Fixpoint run (refuses : step -> option pyerr) (l : init) (m : module) : PyResult module :=
  match l with
  | [] => Ok m
  | a :: l => m ← act refuses a m; run refuses l m
  end.

(** [rt::register]: the runtime's threads are marked, and the hook given to
    [atexit]. *)
Definition rt_register : init := seq_init [[Builder]; add_function "_shutdown"; [AtExit "_shutdown"]].

Definition helpers_register : init :=
  seq_init [add_function "stream_pipe"; add_function "splice"; add_function "resolve_duplicate"].
Definition admission_register : init :=
  seq_init [add_class "CarrierInfo"; add_class "Verdict"; add_class "Admission"; add_class "PrefixAuth"].
Definition layer_register : init :=
  seq_init [add_class "CarrierStream"; add_class "LayerEnd"; add_class "PipeHint"].
Definition pool_register : init :=
  seq_init [add_class "PoolPolicy"; add_class "PoolPolicyDecision"; add_class "PipePool"; add_class "MaintainHandle"].
Definition mode_register : init :=
  seq_init [add_class "Candidate"; add_class "Mode"; add_class "CarrierCache"; add_function "dial_mode";
    add_value "ModeError"].

Definition defaults : init := seq_init (map add_value [
   "DEFAULT_KEEP_ALIVE_PERIOD"; "DEFAULT_IDLE_TIMEOUT"; "DEFAULT_PROBE_JITTER"; "DEFAULT_STANDBY_PROBE";
   "DEFAULT_MAX_RECORD_SIZE"; "DEFAULT_BACKOFF_MAX"; "MIN_MAX_LEN"; "STARTUP_ALLOWANCE"]).

(** [_zmux]. *)
Definition zmux_module : init := seq_init ([
   rt_register; add_class "Config"; add_class "TlsConfig"; add_class "PipeIo"; add_class "UnsentCount";
   add_class "PipeEnd"; add_class "Session"; add_class "Pipe"; add_class "SendStream";
   add_class "RecvStream"; add_class "Chunk"; helpers_register; add_class "Listener";
   add_class "PipeReservation"; add_class "Http2Connection"; add_class "ExchangeOptions";
   admission_register; layer_register; pool_register; add_class "QuicClient"; add_class "ZeroRtt";
   add_class "EventStream"; add_class "DatagramStream"; add_function "dial_h3";
   add_function "dial_webtransport"; add_function "pipe_pair"; add_function "dial_tcp";
   add_function "dial_tls"; add_function "dial_quic"; add_function "dial_websocket";
   add_function "dial_http"; add_function "dial_http_split"; add_function "join_http_split";
   mode_register; defaults; add_function "dial_exchange"] ++
  map add_value [
     "ZmuxError"; "ConnectError"; "SessionClosed"; "EarlyDataRejected"; "StreamError"; "StreamReset";
     "StreamStopped"; "IncompleteRead"; "OpenError"; "LimitExceeded"; "ListenerClosed"; "DatagramError";
     "PipeError"; "PreambleTooLargeError"]).

(** What the package imports from the module: src/python/zmux/__init__.py and
    _layer.py, and [Config] of _types.py. *)
Definition imported : list string := [
   "DEFAULT_BACKOFF_MAX"; "DEFAULT_IDLE_TIMEOUT"; "DEFAULT_KEEP_ALIVE_PERIOD";
   "DEFAULT_MAX_RECORD_SIZE"; "DEFAULT_PROBE_JITTER"; "DEFAULT_STANDBY_PROBE"; "MIN_MAX_LEN";
   "STARTUP_ALLOWANCE"; "Admission"; "Candidate"; "CarrierCache"; "CarrierInfo"; "CarrierStream";
   "ConnectError"; "DatagramError"; "DatagramStream"; "EarlyDataRejected"; "EventStream";
   "ExchangeOptions"; "Http2Connection"; "IncompleteRead"; "LimitExceeded"; "Listener";
   "ListenerClosed"; "MaintainHandle"; "Mode"; "ModeError"; "OpenError"; "Pipe"; "PipeEnd"; "PipeError";
   "PipeHint"; "PipeIo"; "PipePool"; "PipeReservation"; "PoolPolicy"; "PoolPolicyDecision";
   "PreambleTooLargeError"; "PrefixAuth"; "QuicClient"; "RecvStream"; "SendStream"; "Session";
   "SessionClosed"; "StreamError"; "StreamReset"; "StreamStopped"; "TlsConfig"; "UnsentCount";
   "Verdict"; "ZeroRtt"; "ZmuxError"; "dial_exchange"; "dial_h3"; "dial_http"; "dial_http_split";
   "dial_mode"; "dial_quic"; "dial_tcp"; "dial_tls"; "dial_websocket"; "dial_webtransport";
   "join_http_split"; "pipe_pair"; "resolve_duplicate"; "splice"; "stream_pipe";
   "CarrierStream"; "LayerEnd"; "ZmuxError"; "Config"].

Definition no_module : module := mk_module [] [] false.

Lemma run_answers refuses l m :
  match run refuses l m with
  | Ok m' => run (fun _ => None) l m = Ok m'
  | Err e => (exists a, a ∈ l /\ refuses a = Some e) \/ run (fun _ => None) l m = Err e
  end.
Proof.
  revert m. induction l as [|a l IH]; intros m; [done|]. simpl. destruct (refuses a) as [e|] eqn:Ea.
  - unfold act at 1. rewrite Ea. simpl. left. exists a. by split; [left|].
  - assert (act refuses a m = act (fun _ => None) a m) as -> by (unfold act; by rewrite Ea).
    destruct (act (fun _ => None) a m) as [m1|e]; simpl; [|by right].
    specialize (IH m1). destruct (run refuses l m1); [done|]. destruct IH as [(x & ? & ?)|?]; [|by right].
    left. exists x. split; [by right|done].
Qed.

(** Importing the extension either fails with the exception the interpreter
    raised for a step (the hook is always found), or leaves a complete module:
    every name the Python package imports from it is defined, no name is defined
    twice (so that no class, function or exception hides another), the runtime's
    threads are marked, and the exit hook is registered exactly once, on the
    function [_shutdown]. *)
Theorem module_complete refuses :
  match run refuses zmux_module no_module with
  | Ok m =>
      NoDup (fst <$> attrs m) /\ (forall n, n ∈ imported -> n ∈ fst <$> attrs m) /\
      runtime m = true /\ atexit m = ["_shutdown"] /\ ("_shutdown", Function_) ∈ attrs m
  | Err e => exists a, a ∈ zmux_module /\ refuses a = Some e
  end.
Proof.
  pose proof (run_answers refuses zmux_module no_module) as Hr.
  destruct (run refuses zmux_module no_module) as [m|e].
  - vm_compute in Hr. injection Hr as <-. split_and!; [| |done..|left].
    + apply (bool_decide_unpack _). vm_compute. done.
    + apply Forall_forall. apply (bool_decide_unpack _). vm_compute. done.
  - destruct Hr as [?|Hr]; [done|]. vm_compute in Hr. discriminate Hr.
Qed.
